(** * proxyserver.cpp: a shallow embedding of the message-routing proxy

    The development follows the source file top to bottom:
    byte order helpers, the [fd_ctx] record and the heap of contexts,
    the per-connection peer cache [proxy_peers], the UID index
    [peer_sockets_t], descriptor hand-off ([send_fds]), start-up, and the
    handlers of the epoll loop of [main].  Theorems come last. *)

From Stdlib Require Import ZArith Lia.
From Stdlib.Strings Require Import Byte.
From stdpp Require Import base option list gmap.

Local Open Scope Z_scope.

(** ** Outcomes

    The C++ code is embedded as functions that thread the state explicitly
    and return an [outcome]:
    - [Ok]        normal completion;
    - [Exit]      the process called [exit(code)];
    - [Fault]     the source has no defined behaviour here (a freed or
                  foreign pointer is dereferenced, or memory outside an
                  array is touched);
    - [OutOfFuel] a loop or a recursion did not finish within the fuel. *)

Inductive outcome (A : Type) : Type :=
| Ok (a : A)
| Exit (code : Z)
| Fault
| OutOfFuel.
Arguments Ok {A} a.
Arguments Exit {A} code.
Arguments Fault {A}.
Arguments OutOfFuel {A}.

#[global] Instance outcome_ret : MRet outcome := fun A a => Ok a.
#[global] Instance outcome_bind : MBind outcome := fun A B f m =>
  match m with
  | Ok a => f a
  | Exit c => Exit c
  | Fault => Fault
  | OutOfFuel => OutOfFuel
  end.
#[global] Instance outcome_fmap : FMap outcome := fun A B f m =>
  match m with
  | Ok a => Ok (f a)
  | Exit c => Exit c
  | Fault => Fault
  | OutOfFuel => OutOfFuel
  end.

(** A [for] loop over the indices (or elements) [l], threading [s]. *)
Fixpoint for_each {A S : Type} (f : S -> A -> outcome S) (s : S) (l : list A)
  : outcome S :=
  match l with
  | [] => Ok s
  | x :: l' => s' ← f s x; for_each f s' l'
  end.

(** ** Bytes and byte order *)

Definition byte_val (b : byte) : Z := Z.of_N (Byte.to_N b).

Definition byte_of (z : Z) : byte :=
  match Byte.of_N (Z.to_N (z mod 256)) with
  | Some b => b
  | None => Byte.x00
  end.

(** Conversion to [int] and to [uint32_t] / [uint16_t], wrap-around
    written out. *)
Definition to_int32 (z : Z) : Z := (z + 2147483648) mod 4294967296 - 2147483648.
Definition to_uint32 (z : Z) : Z := z mod 4294967296.
Definition to_uint16 (z : Z) : Z := z mod 65536.

(** The value of a big-endian byte string. *)
Definition be_decode (bs : list byte) : Z :=
  fold_left (fun acc b => acc * 256 + byte_val b) bs 0.

(** [ntohl] and [ntohs] applied to a field as it lies in memory. *)
Definition ntohl (bs : list byte) : Z := be_decode bs.
Definition ntohs (bs : list byte) : Z := be_decode bs.

(** [htonl v] and [htons v] as the bytes that are stored. *)
Definition htonl (v : Z) : list byte :=
  let u := to_uint32 v in
  [byte_of (u / 16777216); byte_of (u / 65536); byte_of (u / 256); byte_of u].
Definition htons (v : Z) : list byte :=
  let u := to_uint16 v in
  [byte_of (u / 256); byte_of u].

(** The host is little-endian: an [int] of a control message body. *)
Definition le_int32 (bs : list byte) : Z := to_int32 (be_decode (rev bs)).

(** Memory of a [char] array: reads and writes outside it are faults. *)
Definition load (buf : list byte) (off : Z) (n : nat) : outcome (list byte) :=
  if (0 <=? off) && (off + Z.of_nat n <=? Z.of_nat (length buf))
  then Ok (take n (drop (Z.to_nat off) buf))
  else Fault.

Definition store (buf : list byte) (off : Z) (bs : list byte) : outcome (list byte) :=
  if (0 <=? off) && (off + Z.of_nat (length bs) <=? Z.of_nat (length buf))
  then Ok (take (Z.to_nat off) buf ++ bs ++ drop (Z.to_nat off + length bs) buf)
  else Fault.

(** ** [struct proxy_peers] and [struct fd_ctx] *)

(** Pointers to [fd_ctx] objects allocated by [allocate_fdctx]. *)
Abbreviation ptr := nat (only parsing).

Definition MAX_PEERS : nat := 16.

(** [npeers] is an [int] that the code keeps within [0..MAX_PEERS]; it is
    only ever incremented below [MAX_PEERS] and decremented above [0]. *)
Record proxy_peers : Type := mk_proxy_peers {
  npeers : nat;
  peers : list ptr           (* fd_ctx * peers[MAX_PEERS] *)
}.

Record fd_ctx : Type := mk_fd_ctx {
  faf_uid : Z;
  fd : Z;
  is_server : bool;
  ctx_peers : proxy_peers;   (* the member [peers] *)
  buf_len : Z;
  refcount : Z;
  protocol : Z;
  buf : list byte            (* the trailing buffer of [bufsize] bytes *)
}.

Definition set_faf_uid (v : Z) (x : fd_ctx) : fd_ctx :=
  mk_fd_ctx v (fd x) (is_server x) (ctx_peers x) (buf_len x) (refcount x) (protocol x) (buf x).
Definition set_ctx_peers (v : proxy_peers) (x : fd_ctx) : fd_ctx :=
  mk_fd_ctx (faf_uid x) (fd x) (is_server x) v (buf_len x) (refcount x) (protocol x) (buf x).
Definition set_refcount (v : Z) (x : fd_ctx) : fd_ctx :=
  mk_fd_ctx (faf_uid x) (fd x) (is_server x) (ctx_peers x) (buf_len x) v (protocol x) (buf x).
Definition set_buf_len (v : Z) (x : fd_ctx) : fd_ctx :=
  mk_fd_ctx (faf_uid x) (fd x) (is_server x) (ctx_peers x) v (refcount x) (protocol x) (buf x).
Definition set_buf (v : list byte) (x : fd_ctx) : fd_ctx :=
  mk_fd_ctx (faf_uid x) (fd x) (is_server x) (ctx_peers x) (buf_len x) (refcount x) (protocol x) v.

Definition IPPROTO_TCP : Z := 6.

(** The heap of live [fd_ctx] objects. *)
Abbreviation heap := (gmap nat fd_ctx) (only parsing).

Definition deref (h : heap) (p : ptr) : outcome fd_ctx :=
  match h !! p with
  | Some x => Ok x
  | None => Fault
  end.

(** [a[i]] and [a[i] = v] on the array of cached peers. *)
Definition slot (a : list ptr) (i : nat) : outcome ptr :=
  match a !! i with
  | Some p => Ok p
  | None => Fault
  end.

Definition store_slot (a : list ptr) (i : nat) (v : ptr) : outcome (list ptr) :=
  if decide (i < length a)%nat then Ok (<[i := v]> a) else Fault.

(** [if (--q->refcount == 0) deallocate_fdctx(q);] *)
Definition unref (dealloc : ptr -> heap -> outcome heap) (q : ptr) (h : heap)
  : outcome heap :=
  y ← deref h q;
  let h' := <[q := set_refcount (refcount y - 1) y]> h in
  if refcount y - 1 =? 0 then dealloc q h' else Ok h'.

(** [deallocate_fdctx]: the destructor runs [peers.unref_all()], which may
    destroy further contexts, then the memory is freed. *)
Fixpoint deallocate_fdctx (fuel : nat) (p : ptr) (h : heap) : outcome heap :=
  match fuel with
  | O => OutOfFuel
  | S fuel' =>
      x ← deref h p;
      h1 ← for_each
             (fun h i =>
                x' ← deref h p;
                q ← slot (peers (ctx_peers x')) i;
                unref (deallocate_fdctx fuel') q h)
             h (seq 0 (npeers (ctx_peers x)));
      x1 ← deref h1 p;
      Ok (delete p h1)
  end.

(** [proxy_peers::find] *)
Fixpoint find_loop (h : heap) (a : list ptr) (uid : Z) (i n : nat)
  : outcome (option ptr) :=
  match n with
  | O => Ok None
  | S n' =>
      p ← slot a i;
      x ← deref h p;
      if faf_uid x =? uid then Ok (Some p) else find_loop h a uid (S i) n'
  end.

Definition find (h : heap) (pp : proxy_peers) (uid : Z) : outcome (option ptr) :=
  find_loop h (peers pp) uid 0 (npeers pp).

(** [proxy_peers::add], the branch [npeers < MAX_PEERS]. *)
Definition add_shift (a : list ptr) (n : nat) : outcome (list ptr * ptr) :=
  prev ← slot a 0;
  for_each
    (fun '(a, prev) i =>
       tmp ← slot a i;
       a' ← store_slot a i prev;
       Ok (a', tmp))
    (a, prev) (seq 1 (n - 1)).

Definition add_front (owner p : ptr) (h : heap) : outcome heap :=
  x ← deref h owner;
  let pp := ctx_peers x in
  '(a1, prev) ← add_shift (peers pp) (npeers pp);
  a2 ← store_slot a1 (npeers pp) prev;
  a3 ← store_slot a2 0 p;
  let h1 := <[owner := set_ctx_peers (mk_proxy_peers (npeers pp) a3) x]> h in
  y ← deref h1 p;
  let h2 := <[p := set_refcount (refcount y + 1) y]> h1 in
  x2 ← deref h2 owner;
  Ok (<[owner := set_ctx_peers
                   (mk_proxy_peers (S (npeers (ctx_peers x2))) (peers (ctx_peers x2))) x2]> h2).

(** [proxy_peers::add] of the cache that lives inside [*owner]. *)
Fixpoint add (fuel : nat) (owner p : ptr) (h : heap) : outcome heap :=
  match fuel with
  | O => OutOfFuel
  | S fuel' =>
      x ← deref h owner;
      let pp := ctx_peers x in
      if (npeers pp <? MAX_PEERS)%nat then add_front owner p h
      else
        t ← slot (peers pp) (npeers pp - 1);
        h1 ← unref (deallocate_fdctx fuel') t h;
        x1 ← deref h1 owner;
        let pp1 := ctx_peers x1 in
        let h2 := <[owner := set_ctx_peers
                               (mk_proxy_peers (npeers pp1 - 1) (peers pp1)) x1]> h1 in
        add fuel' owner p h2
  end.

(** [proxy_peers::remove] *)
Fixpoint remove_scan (a : list ptr) (p : ptr) (i n : nat) : outcome (option nat) :=
  match n with
  | O => Ok None
  | S n' =>
      q ← slot a i;
      if decide (q = p) then Ok (Some i) else remove_scan a p (S i) n'
  end.

Definition remove (dealloc : ptr -> heap -> outcome heap) (owner p : ptr) (h : heap)
  : outcome heap :=
  x ← deref h owner;
  let pp := ctx_peers x in
  r ← remove_scan (peers pp) p 0 (npeers pp);
  match r with
  | None => Ok h
  | Some i =>
      a' ← for_each
             (fun a j => v ← slot a j; store_slot a (j - 1) v)
             (peers pp) (seq (S i) (npeers pp - S i));
      let h1 := <[owner := set_ctx_peers (mk_proxy_peers (npeers pp - 1) a') x]> h in
      unref dealloc p h1
  end.

(** [proxy_peers::remove_from_all_peers]; [peers] and [npeers] are read
    again in every round, since [cache_remove] may shrink this very cache. *)
Fixpoint remove_from_all_peers_loop (dealloc : ptr -> heap -> outcome heap)
    (owner p : ptr) (i n : nat) (h : heap) : outcome heap :=
  match n with
  | O => Ok h
  | S n' =>
      x ← deref h owner;
      if (i <? npeers (ctx_peers x))%nat then
        q ← slot (peers (ctx_peers x)) i;
        h' ← remove dealloc q p h;
        remove_from_all_peers_loop dealloc owner p (S i) n' h'
      else Ok h
  end.

Definition remove_from_all_peers (dealloc : ptr -> heap -> outcome heap)
    (owner p : ptr) (h : heap) : outcome heap :=
  x ← deref h owner;
  remove_from_all_peers_loop dealloc owner p 0 (npeers (ctx_peers x)) h.

(** [fd_ctx::remove_myself_from_peer_caches] *)
Definition remove_myself_from_peer_caches (fuel : nat) (this : ptr) (h : heap)
  : outcome heap :=
  remove_from_all_peers (deallocate_fdctx fuel) this this h.

(** [proxy_peers::cleanup_dangling]; no caller exists in the program. *)
Definition cleanup_dangling (dealloc : ptr -> heap -> outcome heap)
    (owner : ptr) (h : heap) : outcome heap :=
  x ← deref h owner;
  '(h1, oi) ← for_each
    (fun '(h, oi) i =>
       xo ← deref h owner;
       q ← slot (peers (ctx_peers xo)) i;
       y ← deref h q;
       let keep (h : heap) :=
         xo' ← deref h owner;
         a' ← (if decide (i = oi) then Ok (peers (ctx_peers xo'))
               else store_slot (peers (ctx_peers xo')) oi q);
         Ok (<[owner := set_ctx_peers
                          (mk_proxy_peers (npeers (ctx_peers xo')) a') xo']> h, S oi) in
       if faf_uid y =? -1 then
         let h' := <[q := set_refcount (refcount y - 1) y]> h in
         if refcount y - 1 =? 0 then
           h'' ← dealloc q h'; Ok (h'', oi)
         else keep h'
       else keep h)
    (h, O) (seq 0 (npeers (ctx_peers x)));
  x1 ← deref h1 owner;
  Ok (<[owner := set_ctx_peers (mk_proxy_peers oi (peers (ctx_peers x1))) x1]> h1).

(** ** The UID index: [std::set<fd_ctx *, fd_ctx_less_by_uid>]

    The set is kept as its in-order sequence.  [fd_ctx_less_by_uid]
    compares the [faf_uid] fields behind the two pointers, so every
    comparison reads the heap.  Two elements are equivalent when neither is
    less than the other; [insert] of an element equivalent to one already
    present leaves the set as it is (the C++ container semantics). *)

Fixpoint set_find (h : heap) (key : Z) (s : list ptr) : outcome (option ptr) :=
  match s with
  | [] => Ok None
  | e :: s' =>
      x ← deref h e;
      if faf_uid x <? key then set_find h key s'
      else if key <? faf_uid x then Ok None
      else Ok (Some e)
  end.

Fixpoint set_insert (h : heap) (key : Z) (c : ptr) (s : list ptr)
  : outcome (list ptr) :=
  match s with
  | [] => Ok [c]
  | e :: s' =>
      x ← deref h e;
      if faf_uid x <? key then s'' ← set_insert h key c s'; Ok (e :: s'')
      else if key <? faf_uid x then Ok (c :: e :: s')
      else Ok (e :: s')
  end.

Fixpoint set_erase (h : heap) (key : Z) (s : list ptr) : outcome (list ptr) :=
  match s with
  | [] => Ok []
  | e :: s' =>
      x ← deref h e;
      if faf_uid x <? key then s'' ← set_erase h key s'; Ok (e :: s'')
      else if key <? faf_uid x then Ok (e :: s')
      else Ok s'
  end.

(** ** System calls issued, in program order *)

Inductive syscall : Type :=
| sys_write_peer (fd : Z) (data : list byte)   (* write(peer->fd, hout, out_size + 4) *)
| sys_write_ctrl (fd : Z) (data : list byte)   (* write / send of a command on the control socket *)
| sys_sendmsg (fd : Z) (uids : list (option Z)) (fds : list Z)  (* a "desc" message *)
| sys_close (fd : Z)
| sys_epoll_add (fd : Z)
| sys_epoll_del (fd : Z)
| sys_bind (fd : Z)
| sys_listen (fd : Z) (backlog : Z)
| sys_unlink.

Inductive errno : Type :=
| EINTR | EAGAIN | ECONNRESET | EPIPE | ECONNREFUSED | ENOENT | EOTHER.

#[global] Instance errno_eq_dec : EqDecision errno.
Proof. solve_decision. Defined.

(** What [read] or [recvmsg] has to offer: an error, or the bytes the kernel
    holds for the socket ([rd_data []] is end of stream). *)
Inductive read_result : Type :=
| rd_error (e : errno)
| rd_data (offered : list byte).

(** ** The variables of [main] that outlive start-up *)

Record state : Type := mk_state {
  st_heap : gmap nat fd_ctx;
  server_sockets : list ptr;
  peer_sockets : list ptr;
  ctrl_socket_path : bool;            (* ctrl_socket_path != NULL *)
  ctrl_socket_fd : Z;                 (* ctrl_socket.fd *)
  ctrl_socket_conn_fd : Z;            (* ctrl_socket_conn.fd *)
  ctrl_socket_mode_listen : bool;
  decay_mode : bool;
  sockets_inherited : Z;
  total_sockets : Z;
  trace : list syscall
}.

Definition with_heap (h : gmap nat fd_ctx) (st : state) : state :=
  mk_state h (server_sockets st) (peer_sockets st) (ctrl_socket_path st)
    (ctrl_socket_fd st) (ctrl_socket_conn_fd st) (ctrl_socket_mode_listen st)
    (decay_mode st) (sockets_inherited st) (total_sockets st) (trace st).
Definition with_peer_sockets (s : list ptr) (st : state) : state :=
  mk_state (st_heap st) (server_sockets st) s (ctrl_socket_path st)
    (ctrl_socket_fd st) (ctrl_socket_conn_fd st) (ctrl_socket_mode_listen st)
    (decay_mode st) (sockets_inherited st) (total_sockets st) (trace st).
Definition with_ctrl_socket_fd (v : Z) (st : state) : state :=
  mk_state (st_heap st) (server_sockets st) (peer_sockets st) (ctrl_socket_path st)
    v (ctrl_socket_conn_fd st) (ctrl_socket_mode_listen st)
    (decay_mode st) (sockets_inherited st) (total_sockets st) (trace st).
Definition with_ctrl_socket_conn_fd (v : Z) (st : state) : state :=
  mk_state (st_heap st) (server_sockets st) (peer_sockets st) (ctrl_socket_path st)
    (ctrl_socket_fd st) v (ctrl_socket_mode_listen st)
    (decay_mode st) (sockets_inherited st) (total_sockets st) (trace st).
Definition with_ctrl_socket_mode_listen (v : bool) (st : state) : state :=
  mk_state (st_heap st) (server_sockets st) (peer_sockets st) (ctrl_socket_path st)
    (ctrl_socket_fd st) (ctrl_socket_conn_fd st) v
    (decay_mode st) (sockets_inherited st) (total_sockets st) (trace st).
Definition with_decay_mode (v : bool) (st : state) : state :=
  mk_state (st_heap st) (server_sockets st) (peer_sockets st) (ctrl_socket_path st)
    (ctrl_socket_fd st) (ctrl_socket_conn_fd st) (ctrl_socket_mode_listen st)
    v (sockets_inherited st) (total_sockets st) (trace st).
Definition with_sockets_inherited (v : Z) (st : state) : state :=
  mk_state (st_heap st) (server_sockets st) (peer_sockets st) (ctrl_socket_path st)
    (ctrl_socket_fd st) (ctrl_socket_conn_fd st) (ctrl_socket_mode_listen st)
    (decay_mode st) v (total_sockets st) (trace st).
Definition with_total_sockets (v : Z) (st : state) : state :=
  mk_state (st_heap st) (server_sockets st) (peer_sockets st) (ctrl_socket_path st)
    (ctrl_socket_fd st) (ctrl_socket_conn_fd st) (ctrl_socket_mode_listen st)
    (decay_mode st) (sockets_inherited st) v (trace st).
Definition with_server_sockets (v : list ptr) (st : state) : state :=
  mk_state (st_heap st) v (peer_sockets st) (ctrl_socket_path st)
    (ctrl_socket_fd st) (ctrl_socket_conn_fd st) (ctrl_socket_mode_listen st)
    (decay_mode st) (sockets_inherited st) (total_sockets st) (trace st).
Definition emit (evs : list syscall) (st : state) : state :=
  mk_state (st_heap st) (server_sockets st) (peer_sockets st) (ctrl_socket_path st)
    (ctrl_socket_fd st) (ctrl_socket_conn_fd st) (ctrl_socket_mode_listen st)
    (decay_mode st) (sockets_inherited st) (total_sockets st) (trace st ++ evs).

(** A heap operation run on the heap of the state. *)
Definition on_heap (f : heap -> outcome heap) (st : state) : outcome state :=
  h ← f (st_heap st); Ok (with_heap h st).

(** [peer_sockets.insert(ctxp)], [peer_sockets.erase(ctxp)] and
    [peer_sockets.find(&fd_ctx_finder)] after [fd_ctx_finder.faf_uid = uid]. *)
Definition peer_sockets_insert (c : ptr) (st : state) : outcome state :=
  x ← deref (st_heap st) c;
  s ← set_insert (st_heap st) (faf_uid x) c (peer_sockets st);
  Ok (with_peer_sockets s st).

Definition peer_sockets_erase (c : ptr) (st : state) : outcome state :=
  x ← deref (st_heap st) c;
  s ← set_erase (st_heap st) (faf_uid x) (peer_sockets st);
  Ok (with_peer_sockets s st).

Definition peer_sockets_find (uid : Z) (st : state) : outcome (option ptr) :=
  set_find (st_heap st) uid (peer_sockets st).

(** [if (ctxp->faf_uid != -1) peer_sockets.erase(ctxp);] *)
Definition erase_if_identified (c : ptr) (st : state) : outcome state :=
  x ← deref (st_heap st) c;
  if faf_uid x =? -1 then Ok st else peer_sockets_erase c st.

(** ** [send_fds] and [send_fd] *)

Definition MAX_DESC_PER_MESSAGE : nat := 256.

(** The [for] loop of [send_fds].  [idx] counts the rounds ([uidp] advances
    in every round, also past a context that is not idle); [uids] are the
    [int] slots of the message body round by round ([None]: never
    written); [fds] are both the descriptors put in the ancillary record
    and [to_close]; [kept] are the elements left in the container. *)
Record fds_scan : Type := mk_fds_scan {
  sc_uids : list (option Z);
  sc_fds : list Z;
  sc_kept : list ptr
}.

Fixpoint send_fds_scan (h : heap) (elems : list ptr) (idx : nat) (acc : fds_scan)
  : outcome fds_scan :=
  match elems with
  | [] => Ok acc
  | e :: rest =>
      if (length (sc_fds acc) <? MAX_DESC_PER_MESSAGE)%nat then
        x ← deref h e;
        if buf_len x =? 0 then
          if (idx <? MAX_DESC_PER_MESSAGE)%nat then
            send_fds_scan h rest (S idx)
              (mk_fds_scan (sc_uids acc ++ [Some (faf_uid x)])
                           (sc_fds acc ++ [fd x]) (sc_kept acc))
          else Fault
        else
          send_fds_scan h rest (S idx)
            (mk_fds_scan (sc_uids acc ++ [None]) (sc_fds acc) (sc_kept acc ++ [e]))
      else Ok (mk_fds_scan (sc_uids acc) (sc_fds acc) (sc_kept acc ++ e :: rest))
  end.

(** [send_fds(ctrlsock, epoll, beg, end, all)] over the elements [elems];
    [erase] tells whether [all] is the UID index (else it is NULL);
    [sendmsg_ok] is the result of [sendmsg]. *)
Definition send_fds (sendmsg_ok : bool) (elems : list ptr) (erase : bool) (st : state)
  : outcome (nat * state) :=
  sc ← send_fds_scan (st_heap st) elems 0 (mk_fds_scan [] [] []);
  let fd_count := length (sc_fds sc) in
  let st1 := if erase then with_peer_sockets (sc_kept sc) st else st in
  if (fd_count =? 0)%nat then Ok (fd_count, st1)
  else
    let st2 := emit [sys_sendmsg (ctrl_socket_conn_fd st1)
                       (take fd_count (sc_uids sc)) (sc_fds sc)] st1 in
    if sendmsg_ok then
      let st3 := with_total_sockets (total_sockets st2 - Z.of_nat fd_count) st2 in
      Ok (fd_count,
          emit (flat_map (fun f => [sys_epoll_del f; sys_close f]) (sc_fds sc)) st3)
    else Ok (fd_count, st2).

Definition send_fd (sendmsg_ok : bool) (ctxp : ptr) (st : state) : outcome (nat * state) :=
  send_fds sendmsg_ok [ctxp] false st.

(** ** The epoll loop of [main] *)

Section Main.

(** [sizeof(fd_ctx)] is fixed by the ABI of the target; it only enters
    through the buffer sizes derived from it. *)
Variable sizeof_fd_ctx : Z.

Definition FDCTX_CLIENT_BUFSIZE : Z := 4096 - sizeof_fd_ctx.
Definition FDCTX_TCP_SERVER_BUFSIZE : Z := 256 - sizeof_fd_ctx.

(** [sizeof(proxy_msg_header) - sizeof(proxy_msg_header_to_peer)], both
    structs being packed. *)
Definition OUT_HEADER_OFFSET_ADJ : Z := 8 - 6.

(** [allocate_fdctx(bufsize)] followed by the assignments that every caller
    makes; [mem] is what the block returned by [malloc] happens to hold. *)
Definition allocate_fdctx (h : heap) : ptr := fresh ({[O]} ∪ dom h).

Definition new_fd_ctx (bufsize : Z) (mem : list byte) (server : bool) (proto uid fd : Z)
  : fd_ctx :=
  mk_fd_ctx uid fd server (mk_proxy_peers 0 (replicate MAX_PEERS O)) 0 1 proto
    (take (Z.to_nat bufsize) (mem ++ replicate (Z.to_nat bufsize) Byte.x00)).

(** The sequence that retires a peer connection; it occurs twice in [main]
    (end of stream, and an oversized message, which first removes the
    descriptor from the epoll set). *)
Definition close_connection (fuel : nat) (epoll_del : bool) (ctxp : ptr) (st : state)
  : outcome state :=
  x ← deref (st_heap st) ctxp;
  let st0 := if epoll_del then emit [sys_epoll_del (fd x)] st else st in
  let st1 := with_total_sockets (total_sockets st0 - 1) (emit [sys_close (fd x)] st0) in
  st2 ← erase_if_identified ctxp st1;
  st3 ← on_heap (remove_myself_from_peer_caches fuel ctxp) st2;
  x3 ← deref (st_heap st3) ctxp;
  let st4 := with_heap (<[ctxp := set_refcount (refcount x3 - 1) x3]> (st_heap st3)) st3 in
  if refcount x3 - 1 =? 0 then on_heap (deallocate_fdctx fuel ctxp) st4
  else
    x4 ← deref (st_heap st4) ctxp;
    Ok (with_heap (<[ctxp := set_faf_uid (-1) x4]> (st_heap st4)) st4).

(** Destination lookup: the peer cache first, then the UID index, caching
    what the index yields. *)
Definition lookup_peer (fuel : nat) (ctxp : ptr) (uid : Z) (st : state)
  : outcome (option ptr * state) :=
  x ← deref (st_heap st) ctxp;
  r ← find (st_heap st) (ctx_peers x) uid;
  match r with
  | Some peer => Ok (Some peer, st)
  | None =>
      it ← peer_sockets_find uid st;
      match it with
      | Some peer => st' ← on_heap (add fuel ctxp peer) st; Ok (Some peer, st')
      | None => Ok (None, st)
      end
  end.

(** The header rewrite and the [write] to the peer. *)
Definition rewrite_and_write (ctxp peer : ptr) (buf_head in_msg_size : Z) (st : state)
  : outcome state :=
  x ← deref (st_heap st) ctxp;
  pb ← load (buf x) (buf_head + 4) 2;
  let in_port := ntohs pb in
  let hout := buf_head + OUT_HEADER_OFFSET_ADJ in
  b1 ← store (buf x) (hout + 4) (htons in_port);
  let out_size := to_int32 (in_msg_size - OUT_HEADER_OFFSET_ADJ) in
  b2 ← store b1 hout (htonl out_size);
  let st1 := with_heap (<[ctxp := set_buf b2 x]> (st_heap st)) st in
  y ← deref (st_heap st1) peer;
  if out_size + 4 <? 0 then Fault
  else
    data ← load b2 hout (Z.to_nat (out_size + 4));
    Ok (emit [sys_write_peer (fd y) data] st1).

(** The block guarded by [if (! decay_mode)]. *)
Definition forward (fuel : nat) (ctxp : ptr) (buf_head in_msg_size : Z) (st : state)
  : outcome state :=
  x ← deref (st_heap st) ctxp;
  d ← load (buf x) (buf_head + 6) 2;
  let uid := ntohs d in
  '(r, st1) ← lookup_peer fuel ctxp uid st;
  match r with
  | None => Ok st1
  | Some peer => rewrite_and_write ctxp peer buf_head in_msg_size st1
  end.

(** [while (buf_head < ctxp->buf + ctxp->buf_len)]; [buf_head] is kept as
    an offset into [ctxp->buf].  The result is the final [buf_head] when
    [postprocess] is still true and [None] when the connection was retired.
    [n] bounds the number of rounds. *)
Fixpoint parse_loop (fuel n : nat) (ctxp : ptr) (buf_head : Z) (st : state)
  : outcome (state * option Z) :=
  match n with
  | O => OutOfFuel
  | S n' =>
      x ← deref (st_heap st) ctxp;
      if buf_head <? buf_len x then
        let blen := buf_len x - buf_head in
        if blen <? 4 then Ok (st, Some buf_head)
        else
          sz ← load (buf x) buf_head 4;
          let in_msg_size := to_int32 (ntohl sz) in
          if in_msg_size >? FDCTX_CLIENT_BUFSIZE then
            st' ← close_connection fuel true ctxp st; Ok (st', None)
          else if in_msg_size + 4 >? blen then Ok (st, Some buf_head)
          else if faf_uid x =? -1 then
            u ← load (buf x) (buf_head + 4) 2;
            let st1 := with_heap (<[ctxp := set_faf_uid (ntohs u) x]> (st_heap st)) st in
            st2 ← peer_sockets_insert ctxp st1;
            parse_loop fuel n' ctxp (buf_head + (in_msg_size + 4)) st2
          else
            st1 ← (if decay_mode st then Ok st
                   else forward fuel ctxp buf_head in_msg_size st);
            parse_loop fuel n' ctxp (buf_head + (in_msg_size + 4)) st1
      else Ok (st, Some buf_head)
  end.

(** [if (likely(postprocess))]: the bytes that remain move to the front. *)
Definition compact (ctxp : ptr) (buf_head : Z) (st : state) : outcome state :=
  x ← deref (st_heap st) ctxp;
  let new_buflen := buf_len x - buf_head in
  b ← (if negb (new_buflen =? 0) && negb (buf_head =? 0) then
         moved ← load (buf x) buf_head (Z.to_nat new_buflen);
         store (buf x) 0 moved
       else Ok (buf x));
  Ok (with_heap (<[ctxp := set_buf_len new_buflen (set_buf b x)]> (st_heap st)) st).

(** [if (decay_mode && ctxp->buf_len == 0)]: ship the descriptor onward. *)
Definition decay_ship (sendmsg_ok : bool) (ctxp : ptr) (st : state) : outcome state :=
  '(_, st1) ← send_fd sendmsg_ok ctxp st;
  erase_if_identified ctxp st1.

(** The last branch of the dispatch: a readiness event of a peer. *)
Definition peer_event (fuel : nat) (ctxp : ptr) (rd : read_result) (sendmsg_ok : bool)
    (st : state) : outcome state :=
  x ← deref (st_heap st) ctxp;
  if decay_mode st && (buf_len x =? 0) then decay_ship sendmsg_ok ctxp st
  else
    match rd with
    | rd_error _ => Ok st
    | rd_data offered =>
        let count := FDCTX_CLIENT_BUFSIZE - buf_len x in
        if count <? 0 then Fault
        else
          let data := take (Z.to_nat count) offered in
          match data with
          | [] => close_connection fuel false ctxp st
          | _ :: _ =>
              b ← store (buf x) (buf_len x) data;
              let x' := set_buf_len (buf_len x + Z.of_nat (length data)) (set_buf b x) in
              let st1 := with_heap (<[ctxp := x']> (st_heap st)) st in
              '(st2, r) ← parse_loop fuel fuel ctxp 0 st1;
              st3 ← match r with
                    | Some buf_head => compact ctxp buf_head st2
                    | None => Ok st2
                    end;
              if decay_mode st3 then
                x3 ← deref (st_heap st3) ctxp;
                if buf_len x3 =? 0 then decay_ship sendmsg_ok ctxp st3 else Ok st3
              else Ok st3
          end
    end.

(** *** Control socket and listeners *)

(** [strncmp(a, lit, n) == 0], where [a] holds only the bytes that were
    received: comparing further is a read of bytes never written. *)
Fixpoint strncmp_eq (a lit : list byte) (n : nat) : outcome bool :=
  match n with
  | O => Ok true
  | S n' =>
      match a with
      | [] => Fault
      | x :: a' =>
          let y := hd Byte.x00 lit in
          if Byte.eqb x y then
            if Byte.eqb x Byte.x00 then Ok true else strncmp_eq a' (tl lit) n'
          else Ok false
      end
  end.

Definition str_unlisten : list byte :=
  ["u"; "n"; "l"; "i"; "s"; "t"; "e"; "n"]%byte.
Definition str_unlistening : list byte :=
  ["u"; "n"; "l"; "i"; "s"; "t"; "e"; "n"; "i"; "n"; "g"]%byte.
Definition str_desc : list byte := ["d"; "e"; "s"; "c"]%byte.
Definition str_exit : list byte := ["e"; "x"; "i"; "t"]%byte.

(** Results of the calls made by [ctrl_socket_listen]. *)
Record listen_results : Type := mk_listen_results {
  lr_bind_ok : bool;
  lr_setsockopt_ok : bool;
  lr_listen_ok : bool
}.

(** [ctrl_socket_listen(s, path)]: 0 on success, -1 after a logged failure. *)
Definition ctrl_socket_listen (r : listen_results) (s : Z) (st : state) : Z * state :=
  let st1 := emit [sys_bind s] st in
  if negb (lr_bind_ok r) then (-1, st1)
  else if negb (lr_setsockopt_ok r) then (-1, st1)
  else
    let st2 := emit [sys_listen s 1] st1 in
    if negb (lr_listen_ok r) then (-1, st2) else (0, st2).

(** [poll_in(epoll, ptr)]; no caller looks at the result. *)
Definition poll_in (fdn : Z) (st : state) : state := emit [sys_epoll_add fdn] st.

(** Closing the listening sockets, as done on SIGUSR1 and on "unlisten". *)
Definition close_servers (st : state) : outcome state :=
  for_each
    (fun st p =>
       x ← deref (st_heap st) p;
       Ok (with_total_sockets (total_sockets st - 1)
             (emit [sys_epoll_del (fd x); sys_close (fd x)] st)))
    st (server_sockets st).

(** What one epoll event refers to, and the results of the system calls its
    handler makes. *)
Inductive target : Type :=
| on_ctrl_socket                      (* ctxp == &ctrl_socket *)
| on_ctrl_socket_conn                 (* ctxp == &ctrl_socket_conn *)
| on_ctx (p : ptr).

Record event : Type := mk_event {
  ev_target : target;
  ev_accept : Z;                      (* accept(): the new descriptor, or negative *)
  ev_epoll_add_ok : nat -> bool;      (* the k-th epoll_ctl(ADD) of the handler *)
  ev_epoll_del_ok : bool;
  ev_read : read_result;              (* read() or recvmsg() *)
  ev_cmsg : option (bool * list Z);   (* first ancillary record: SCM_RIGHTS?, descriptors *)
  ev_sendmsg_ok : nat -> bool;        (* the k-th sendmsg() of the handler *)
  ev_write_ok : bool;                 (* write() on the control connection *)
  ev_socket : Z;                      (* socket(PF_UNIX) *)
  ev_listen : listen_results;
  ev_malloc : list byte               (* prior contents of a block from malloc *)
}.

(** [ctxp == &ctrl_socket]: a control client connects. *)
Definition ctrl_accept_event (ev : event) (st : state) : outcome state :=
  let nsock := ev_accept ev in
  if nsock <? 0 then Ok st
  else
    let st1 := emit [sys_epoll_add nsock] st in
    if negb (ev_epoll_add_ok ev 0%nat) then Ok (emit [sys_close nsock] st1)
    else
      let st2 := emit [sys_epoll_del (ctrl_socket_fd st1)] st1 in
      if negb (ev_epoll_del_ok ev) then Ok (emit [sys_close nsock] st2)
      else Ok (with_ctrl_socket_conn_fd nsock st2).

(** The [do ... while (nsent && ! peer_sockets.empty())] loop. *)
Fixpoint bulk_send (n : nat) (k : nat) (ok : nat -> bool) (st : state) : outcome state :=
  match n with
  | O => OutOfFuel
  | S n' =>
      '(nsent, st1) ← send_fds (ok k) (peer_sockets st) true st;
      if negb (nsent =? 0)%nat && negb (bool_decide (peer_sockets st1 = []))
      then bulk_send n' (S k) ok st1
      else Ok st1
  end.

(** [ctxp == &ctrl_socket_conn] while [ctrl_socket_mode_listen]: commands
    from a newly started instance.  The boolean is [epoll_restart]. *)
Definition ctrl_command_event (ev : event) (st : state) : outcome (state * bool) :=
  let reopen (st : state) :=
    poll_in (ctrl_socket_fd st) (emit [sys_close (ctrl_socket_conn_fd st)] st) in
  match ev_read ev with
  | rd_error e =>
      if bool_decide (e = EINTR) || bool_decide (e = EAGAIN) then Ok (st, false)
      else Ok (reopen st, false)
  | rd_data offered =>
      let data := take 32%nat offered in
      match data with
      | [] => Ok (reopen st, false)
      | _ :: _ =>
          c ← strncmp_eq data str_unlisten 8%nat;
          if (c : bool) then
            st1 ← close_servers st;
            let st2 := emit [sys_write_ctrl (ctrl_socket_conn_fd st1) str_unlistening] st1 in
            if negb (ev_write_ok ev) then Ok (st2, false)
            else
              st3 ← bulk_send (S (length (peer_sockets st2))) 0 (ev_sendmsg_ok ev) st2;
              Ok (with_decay_mode true st3, true)
          else Ok (st, false)
      end
  end.

(** One descriptor of a "desc" message becomes a peer connection. *)
Definition inherit_socket (fuel : nat) (add_ok : bool) (mem : list byte) (uid fdn : Z)
    (st : state) : outcome state :=
  let st1 := with_total_sockets (total_sockets st + 1)
               (with_sockets_inherited (sockets_inherited st + 1) st) in
  let cp := allocate_fdctx (st_heap st1) in
  let st2 := with_heap (<[cp := new_fd_ctx FDCTX_CLIENT_BUFSIZE mem false IPPROTO_TCP uid fdn]>
                          (st_heap st1)) st1 in
  let st3 := emit [sys_epoll_add fdn] st2 in
  st4 ← (if add_ok then Ok st3
         else on_heap (deallocate_fdctx fuel cp)
                (emit [sys_close fdn] (with_total_sockets (total_sockets st3 - 1) st3)));
  x ← deref (st_heap st4) cp;
  if faf_uid x =? -1 then Ok st4 else peer_sockets_insert cp st4.

(** [ctxp == &ctrl_socket_conn] otherwise: messages from the instance that
    is handing its sockets over. *)
Definition ctrl_client_event (fuel : nat) (ev : event) (st : state) : outcome state :=
  match ev_read ev with
  | rd_error _ => Ok st
  | rd_data offered =>
      let data := take (4 + MAX_DESC_PER_MESSAGE * 4)%nat offered in
      match data with
      | [] => Ok (emit [sys_close (ctrl_socket_conn_fd st)] st)
      | _ :: _ =>
          let n := length data in
          is_desc ← strncmp_eq data str_desc (min 4 n)%nat;
          if (is_desc : bool) then
            match ev_cmsg ev with
            | None => Fault
            | Some (rights, fds) =>
                if negb rights then Exit 1
                else
                  for_each
                    (fun st k =>
                       u ← load data (4 + 4 * Z.of_nat k) 4;
                       match fds !! k with
                       | None => Fault
                       | Some fdn =>
                           inherit_socket fuel (ev_epoll_add_ok ev k) (ev_malloc ev)
                             (le_int32 u) fdn st
                       end)
                    st (seq 0 ((n - 4 + 3) / 4)%nat)
            end
          else
            is_exit ← strncmp_eq data str_exit (min 4 n)%nat;
            if (is_exit : bool) then
              let st1 := emit [sys_close (ctrl_socket_conn_fd st)] st in
              let s := ev_socket ev in
              if s <? 0 then Ok st1
              else
                let '(_, st2) := ctrl_socket_listen (ev_listen ev) s st1 in
                Ok (with_ctrl_socket_mode_listen true
                      (poll_in s (with_ctrl_socket_fd s st2)))
            else Ok st
      end
  end.

(** [ctxp->is_server && ctxp->protocol == IPPROTO_TCP]: a peer connects. *)
Definition tcp_accept_event (fuel : nat) (ev : event) (st : state) : outcome state :=
  let nsock := ev_accept ev in
  if nsock <? 0 then Ok st
  else
    let st1 := with_total_sockets (total_sockets st + 1) st in
    let cp := allocate_fdctx (st_heap st1) in
    let st2 := with_heap (<[cp := new_fd_ctx FDCTX_CLIENT_BUFSIZE (ev_malloc ev) false
                                    IPPROTO_TCP (-1) nsock]> (st_heap st1)) st1 in
    let st3 := emit [sys_epoll_add nsock] st2 in
    if ev_epoll_add_ok ev 0%nat then Ok st3
    else on_heap (deallocate_fdctx fuel cp)
           (emit [sys_close nsock] (with_total_sockets (total_sockets st3 - 1) st3)).

(** The dispatch inside [for (int epi = 0; ...)]. *)
Definition handle_event (fuel : nat) (ev : event) (st : state) : outcome (state * bool) :=
  match ev_target ev with
  | on_ctrl_socket => st' ← ctrl_accept_event ev st; Ok (st', false)
  | on_ctrl_socket_conn =>
      if ctrl_socket_mode_listen st then ctrl_command_event ev st
      else st' ← ctrl_client_event fuel ev st; Ok (st', false)
  | on_ctx p =>
      x ← deref (st_heap st) p;
      if is_server x && (protocol x =? IPPROTO_TCP) then
        st' ← tcp_accept_event fuel ev st; Ok (st', false)
      else
        st' ← peer_event fuel p (ev_read ev) (ev_sendmsg_ok ev 0%nat) st; Ok (st', false)
  end.

Fixpoint handle_events (fuel : nat) (evs : list event) (st : state) : outcome state :=
  match evs with
  | [] => Ok st
  | ev :: evs' =>
      '(st', epoll_restart) ← handle_event fuel ev st;
      if (epoll_restart : bool) then Ok st' else handle_events fuel evs' st'
  end.

(** One round of [while (total_sockets)]: [sigusr1] tells whether the signal
    flag is set, [ready] is what [epoll_wait] returns ([None]: it failed). *)
Record iteration : Type := mk_iteration {
  it_sigusr1 : bool;
  it_ready : option (list event)
}.

Definition loop_iteration (fuel : nat) (it : iteration) (st : state) : outcome state :=
  st1 ← (if it_sigusr1 it then close_servers st else Ok st);
  match it_ready it with
  | None => Ok st1
  | Some evs => handle_events fuel evs st1
  end.

(** The statements after the loop, up to [exit(0)]. *)
Definition shutdown (st : state) : state :=
  if decay_mode st && ctrl_socket_path st then
    emit [sys_close (ctrl_socket_fd st); sys_unlink;
          sys_write_ctrl (ctrl_socket_conn_fd st) str_exit] st
  else st.

(** The loop over the rounds [its]; the boolean tells whether the process
    went on to [exit(0)]. *)
Fixpoint main_loop (fuel : nat) (its : list iteration) (st : state)
  : outcome (state * bool) :=
  if total_sockets st =? 0 then Ok (shutdown st, true)
  else
    match its with
    | [] => Ok (st, false)
    | it :: its' => st' ← loop_iteration fuel it st; main_loop fuel its' st'
    end.

(** *** Start-up *)

Definition AF_INET6 : Z := 10.

(** One entry of the [getaddrinfo] list with the results of the calls made
    for it. *)
Record addr_results : Type := mk_addr_results {
  ar_family : Z;
  ar_protocol : Z;
  ar_socket : Z;
  ar_v6only_ok : bool;
  ar_reuseaddr_ok : bool;
  ar_bind_ok : bool;
  ar_listen_ok : bool;
  ar_malloc : list byte
}.

Record startup_env : Type := mk_startup_env {
  se_ctrl_socket_path : bool;           (* was -u given *)
  se_epoll_create : Z;
  se_unix_socket : Z;                   (* socket(PF_UNIX, SOCK_SEQPACKET, 0) *)
  se_connect : option errno;            (* None: connect() succeeded *)
  se_unlink_ok : bool;
  se_listen : listen_results;
  se_send : Z;                          (* send(s, "unlisten", ...) *)
  se_recv : list byte;                  (* the reply read by recv() *)
  se_getaddrinfo : option (list addr_results)   (* None: getaddrinfo failed *)
}.

(** [if (ctrl_socket_path) { ... }] *)
Definition startup_ctrl (env : startup_env) (st : state) : outcome state :=
  if negb (se_ctrl_socket_path env) then Ok st
  else
    let s := se_unix_socket env in
    if s <? 0 then Exit 1
    else
      match se_connect env with
      | Some e =>
          if bool_decide (e = ECONNREFUSED) || bool_decide (e = ENOENT) then
            st1 ← (if bool_decide (e = ECONNREFUSED) then
                     if se_unlink_ok env then Ok (emit [sys_unlink] st) else Exit 1
                   else Ok st);
            let '(_, st2) := ctrl_socket_listen (se_listen env) s st1 in
            Ok (with_ctrl_socket_mode_listen true (poll_in s (with_ctrl_socket_fd s st2)))
          else Ok st
      | None =>
          let st1 := emit [sys_write_ctrl s str_unlisten] st in
          if se_send env <? 0 then Exit 1
          else if se_send env =? 0 then Exit 1
          else
            c ← strncmp_eq (take 16%nat (se_recv env)) str_unlistening 11%nat;
            if negb (c : bool) then Exit 1
            else Ok (poll_in s (with_ctrl_socket_conn_fd s st1))
      end.

(** The body of [for (struct addrinfo * ai = ai_res; ai; ai = ai->ai_next)]. *)
Definition startup_listener (st : state) (a : addr_results) : outcome state :=
  let s := ar_socket a in
  if s <? 0 then Exit 1
  else if (ar_family a =? AF_INET6) && negb (ar_v6only_ok a) then Exit 1
  else if negb (ar_reuseaddr_ok a) then Exit 1
  else
    let st1 := emit [sys_bind s] st in
    if negb (ar_bind_ok a) then Exit 1
    else
      let st2 := emit [sys_listen s 50] st1 in
      if negb (ar_listen_ok a) then Exit 1
      else
        let c := allocate_fdctx (st_heap st2) in
        Ok (with_server_sockets (server_sockets st2 ++ [c])
              (with_heap (<[c := new_fd_ctx FDCTX_TCP_SERVER_BUFSIZE (ar_malloc a) true
                                   (ar_protocol a) 0 s]> (st_heap st2)) st2)).

(** [main] from the option parsing to the first test of [while
    (total_sockets)]. *)
Definition startup (env : startup_env) : outcome state :=
  let st0 := mk_state ∅ [] [] (se_ctrl_socket_path env) (-1) (-1) false false 0 0 [] in
  if se_epoll_create env <? 0 then Exit 1
  else
    st1 ← startup_ctrl env st0;
    match se_getaddrinfo env with
    | None => Exit 1
    | Some ais =>
        st2 ← for_each startup_listener st1 ais;
        st3 ← for_each (fun st p => x ← deref (st_heap st) p; Ok (poll_in (fd x) st))
                st2 (server_sockets st2);
        Ok (with_total_sockets (Z.of_nat (length (server_sockets st3))) st3)
    end.

End Main.

(** ** Byte arrival on one connection

    The bytes of [stream] reach the connection [c] over successive
    readiness events: the k-th [read] is offered at most [S k_i] of the
    bytes still pending, and takes no more than the buffer has room for. *)
Fixpoint deliver (sz : Z) (fuel : nat) (c : ptr) (ks : list nat) (stream : list byte)
    (st : state) : outcome state :=
  match ks, stream with
  | [], _ => Ok st
  | _, [] => Ok st
  | k :: ks', _ :: _ =>
      x ← deref (st_heap st) c;
      let n := Nat.min (S k) (Z.to_nat (FDCTX_CLIENT_BUFSIZE sz - buf_len x)) in
      st' ← peer_event sz fuel c (rd_data (take n stream)) true st;
      deliver sz fuel c ks' (drop n stream) st'
  end.

(** * Specification notions

    The predicates and the frame-level Router in which the properties of
    the program are stated. *)

(** ** Notions about the peer cache *)

(** The entries of a cache, most recently inserted first. *)
Definition cache_entries (x : fd_ctx) : list nat :=
  take (npeers (ctx_peers x)) (peers (ctx_peers x)).

Definition cache_ok (x : fd_ctx) : Prop :=
  (npeers (ctx_peers x) <= MAX_PEERS)%nat /\ length (peers (ctx_peers x)) = MAX_PEERS.

(** The array after [add] has put [p] in front of the first [n] slots. *)
Definition shifted (p : nat) (n : nat) (a : list nat) : list nat :=
  p :: take n a ++ drop (S n) a.

Definition incr_refcount (y : fd_ctx) : fd_ctx := set_refcount (refcount y + 1) y.

(** Releasing references changes reference counts and frees contexts, and
    nothing else: a context that is still there afterwards differs from what
    it was in [refcount] at most. *)
Definition only_refcounts (h h' : gmap nat fd_ctx) : Prop :=
  forall q x', h' !! q = Some x' ->
    exists x, h !! q = Some x /\ x' = set_refcount (refcount x') x.

(** What [add] leaves, relative to the heap [hb] in which the insertion
    proper starts: [p] is in front of [entries], the cache is within its
    bound, and besides the cache of [owner] only the reference count of
    [p], now one higher, has changed. *)
Definition add_post (hb h' : gmap nat fd_ctx) (owner p : nat) (entries : list nat) : Prop :=
  exists x',
    h' !! owner = Some x' /\
    cache_entries x' = p :: entries /\
    cache_ok x' /\
    h' = alter (set_ctx_peers (ctx_peers x')) owner (alter incr_refcount p hb).

Definition bounded (h : gmap nat fd_ctx) : Prop :=
  map_Forall (fun _ x => cache_ok x) h.

(** ** Notions about decay *)

(** The system calls that must not occur once an instance decays: a write
    to a peer, and [bind] or [listen] on any socket. *)
Definition quiet_call (e : syscall) : Prop :=
  match e with
  | sys_write_peer _ _ | sys_bind _ | sys_listen _ _ => False
  | _ => True
  end.

Definition quiet (evs : list syscall) : Prop := Forall quiet_call evs.

(** A listening instance that has entered decay. *)
Definition decaying (st : state) : Prop :=
  decay_mode st = true /\ ctrl_socket_mode_listen st = true.

(** From a decaying [st], [st'] is decaying too, has the same (closed)
    listener contexts, and extends the trace by quiet calls only. *)
Definition decay_kept (st st' : state) : Prop :=
  decaying st ->
  decaying st' /\
  server_sockets st' = server_sockets st /\
  exists evs, trace st' = trace st ++ evs /\ quiet evs.

(** ** The frame as it is rewritten *)

(** The frame sent on, and the inbound frame after the rewrite in place. *)
Definition outbound (size : Z) (portb payload : list byte) : list byte :=
  htonl (size - 2) ++ portb ++ payload.

Definition rewritten (size : Z) (portb payload : list byte) : list byte :=
  take 2 (htonl size) ++ outbound size portb payload.

(** ** Overwriting the buffer of one connection *)

Definition touch (X : list byte) (n : Z) (x : fd_ctx) : fd_ctx :=
  set_buf_len n (set_buf X x).

Definition upd (c : nat) (X : list byte) (n : Z) (h : gmap nat fd_ctx) : gmap nat fd_ctx :=
  alter (touch X n) c h.

Definition supd (c : nat) (X : list byte) (n : Z) (st : state) : state :=
  with_heap (upd c X n (st_heap st)) st.

(** [touch] applied at [c] only. *)
Definition touch_at (c : nat) (X : list byte) (n : Z) (q : nat) (x : fd_ctx) : fd_ctx :=
  if decide (q = c) then touch X n x else x.

(** Only [refcount] and the peer cache differ in a context that is still
    there. *)
Definition keeps_data (h h' : gmap nat fd_ctx) : Prop :=
  forall q x', h' !! q = Some x' ->
    exists x, h !! q = Some x /\
              x' = set_refcount (refcount x') (set_ctx_peers (ctx_peers x') x).

(** ** The Router, frame by frame

    [route_frame] states the effect of one complete frame [F] received on
    the connection [c] in terms of the bytes of [F] alone, as sections 4.2
    and 4.5 of the specification do: the first frame of a connection whose
    uid is unset announces its uid and enters it in the UID index; any other
    frame is looked up (cache, then index) and, when the destination is
    found, sent on without the destuid field and with the size reduced by
    two; nothing is sent while the instance decays. *)

Definition route_frame (fuel : nat) (c : nat) (F : list byte) (st : state) : outcome state :=
  x ← deref (st_heap st) c;
  if faf_uid x =? -1 then
    peer_sockets_insert c
      (with_heap (<[c := set_faf_uid (ntohs (take 2 (drop 4 F))) x]> (st_heap st)) st)
  else if decay_mode st then Ok st
  else
    '(r, st1) ← lookup_peer fuel c (ntohs (take 2 (drop 6 F))) st;
    match r with
    | None => Ok st1
    | Some peer =>
        _ ← deref (st_heap st1) c;
        y ← deref (st_heap st1) peer;
        Ok (emit [sys_write_peer (fd y)
                    (htonl (ntohl (take 4 F) - 2) ++ take 2 (drop 4 F) ++ drop 8 F)] st1)
    end.

Definition route_frames (fuel : nat) (c : nat) (frames : list (list byte)) (st : state)
  : outcome state :=
  for_each (fun st F => route_frame fuel c F st) st frames.

(** A frame: the size field, then [size] bytes, at least [min_size] of
    them, and no more than fit the buffer together with the size field. *)
Definition well_formed (sz : Z) (min_size : Z) (F : list byte) : Prop :=
  exists size body,
    F = htonl size ++ body /\ Z.of_nat (length body) = size /\
    min_size <= size /\ size + 4 <= FDCTX_CLIENT_BUFSIZE sz.

(** The frames a connection may send: a uid announcement (two bytes or
    more) first when its uid is unset, addressed messages (port, destuid,
    payload) otherwise. *)
Definition well_formed_stream (sz : Z) (unset : bool) (frames : list (list byte)) : Prop :=
  match frames with
  | [] => True
  | F :: Fs =>
      well_formed sz (if unset then 2 else 4) F /\ Forall (well_formed sz 4) Fs
  end.

(** Bytes that do not yet make up a frame. *)
Definition incomplete (sz : Z) (R : list byte) : Prop :=
  (length R < 4)%nat \/
  exists size tail,
    R = htonl size ++ tail /\ 0 <= size /\ size <= FDCTX_CLIENT_BUFSIZE sz /\
    Z.of_nat (length R) < size + 4.

(** The connection [c] holds the partial frame [p], and nothing else, at the
    front of its buffer, outside decay. *)
Definition holds_partial (sz : Z) (c : nat) (st : state) (x : fd_ctx) (p : list byte) : Prop :=
  st_heap st !! c = Some x /\
  decay_mode st = false /\
  Z.of_nat (length (buf x)) = FDCTX_CLIENT_BUFSIZE sz /\
  buf_len x = Z.of_nat (length p) /\
  take (length p) (buf x) = p.

(** [R] is less than the first of [frames]. *)
Definition short_of (R : list byte) (frames : list (list byte)) : Prop :=
  match frames with
  | [] => R = []
  | F :: _ => (length R < length F)%nat
  end.
(** * Concrete scenarios

    States and inputs used to run the model: an LP64 target, where
    [sizeof(fd_ctx)] is 168 and a peer buffer holds 3928 bytes. *)

Definition sizeof_fd_ctx_lp64 : Z := 168.

Definition st_init : state :=
  mk_state ∅ [] [] false (-1) (-1) false false 0 0 [].

(** The state an outcome carries, for runs that are known to complete. *)
Definition run (o : outcome state) : state :=
  match o with
  | Ok s => s
  | _ => st_init
  end.

Definition fresh_peer (fdn : Z) : fd_ctx :=
  new_fd_ctx (FDCTX_CLIENT_BUFSIZE sizeof_fd_ctx_lp64) [] false IPPROTO_TCP (-1) fdn.

(** Two accepted peers: context 1 on descriptor 10, context 2 on 11. *)
Definition st_two_fresh : state :=
  with_total_sockets 2
    (with_heap (<[1%nat := fresh_peer 10]> (<[2%nat := fresh_peer 11]> ∅)) st_init).

Definition bytes (l : list Z) : list byte := map byte_of l.

Definition announce_42 : list byte := bytes [0; 0; 0; 2; 0; 42].
Definition announce_7 : list byte := bytes [0; 0; 0; 2; 0; 7].
Definition message_to_42 : list byte :=
  bytes [0; 0; 0; 8; 18; 52; 0; 42; 222; 173; 190; 239].

(** Scenario 1 of the specification: peer A (context 1) announces uid 42,
    peer B (context 2) announces uid 7 and sends one message to 42. *)
Definition st_a_announced : state :=
  run (peer_event sizeof_fd_ctx_lp64 64 1%nat (rd_data announce_42) true st_two_fresh).
Definition st_b_announced : state :=
  run (peer_event sizeof_fd_ctx_lp64 64 2%nat (rd_data announce_7) true st_a_announced).
Definition st_b_sent : state :=
  run (peer_event sizeof_fd_ctx_lp64 64 2%nat (rd_data message_to_42) true st_b_announced).

(** Then A reaches end of stream while B still caches it. *)
Definition st_a_closed : state :=
  run (peer_event sizeof_fd_ctx_lp64 64 1%nat (rd_data []) true st_b_sent).


(** Start-up with [-u path]: nothing listens on the path yet ([connect]
    fails with ENOENT) and [bind] on the control socket then fails; one
    TCP address is set up without error. *)
Definition one_tcp_address : addr_results :=
  mk_addr_results 2 IPPROTO_TCP 5 true true true true [].

Definition env_ctrl_bind_fails : startup_env :=
  mk_startup_env true 3 4 (Some ENOENT) true (mk_listen_results false true true)
    0 [] (Some [one_tcp_address]).

(** The same with [bind] succeeding and [listen] failing, after a refused
    [connect]. *)
Definition env_ctrl_listen_fails : startup_env :=
  mk_startup_env true 3 4 (Some ECONNREFUSED) true (mk_listen_results true true false)
    0 [] (Some [one_tcp_address]).

(** The context at [p], for states that are known to hold one. *)
Definition ctx_of (st : state) (p : nat) : fd_ctx :=
  default (fresh_peer 0) (st_heap st !! p).

(** The state in which [peer_event] enters the parse loop: [data] stored
    behind the bytes that [c] already holds. *)
Definition buffered (c : nat) (data : list byte) (st : state) : state :=
  let x := ctx_of st c in
  match store (buf x) (buf_len x) data with
  | Ok b =>
      with_heap (<[c := set_buf_len (buf_len x + Z.of_nat (length data)) (set_buf b x)]>
                   (st_heap st)) st
  | _ => st
  end.

(** A second connection announces the uid that context 1 holds. *)
Definition st_second_claim : state :=
  run (peer_event sizeof_fd_ctx_lp64 64 2%nat (rd_data announce_42) true st_a_announced).

(** The same announcement in the buffer of context 2, before the parse
    loop. *)
Definition st_second_buffered : state := buffered 2%nat announce_42 st_a_announced.

(** Size fields around the capacity of 3928 bytes, each followed by the
    two bytes 0, 7. *)
Definition size_ffffffff : list byte := bytes [255; 255; 255; 255; 0; 7].
Definition size_capacity : list byte := bytes [0; 0; 15; 88; 0; 7].
Definition size_capacity_plus_1 : list byte := bytes [0; 0; 15; 89; 0; 7].
Definition size_7fffffff : list byte := bytes [127; 255; 255; 255; 0; 7].

Definition st_size_ffffffff : state :=
  run (peer_event sizeof_fd_ctx_lp64 64 1%nat (rd_data size_ffffffff) true st_two_fresh).
Definition st_size_capacity : state :=
  run (peer_event sizeof_fd_ctx_lp64 64 1%nat (rd_data size_capacity) true st_two_fresh).
Definition st_size_7fffffff : state :=
  run (peer_event sizeof_fd_ctx_lp64 64 1%nat (rd_data size_7fffffff) true st_two_fresh).

(** B has the message to 42 in its buffer, before the parse loop. *)
Definition st_b_buffered : state := buffered 2%nat message_to_42 st_b_announced.
Definition st_b_looked_up : state :=
  match lookup_peer 64 2%nat 42 st_b_buffered with
  | Ok (_, s) => s
  | _ => st_init
  end.

(** *** Whole runs

    Start-up with [-u path] where nothing listens yet, every call
    succeeding: the instance listens on the control socket (descriptor 4)
    and on one TCP address (descriptor 5, context 1). *)
Definition env_listening : startup_env :=
  mk_startup_env true 3 4 (Some ENOENT) true (mk_listen_results true true true)
    0 [] (Some [one_tcp_address]).

Definition accept_on (t : target) (fdn : Z) : event :=
  mk_event t fdn (fun _ => true) true (rd_data []) None (fun _ => true) true (-1)
    (mk_listen_results true true true) [].
Definition read_on (t : target) (data : list byte) : event :=
  mk_event t (-1) (fun _ => true) true (rd_data data) None (fun _ => true) true (-1)
    (mk_listen_results true true true) [].
Definition round (ev : event) : iteration := mk_iteration false (Some [ev]).

Definition run_loop (o : outcome (state * bool)) : state :=
  match o with
  | Ok (s, _) => s
  | _ => st_init
  end.

Definition st_started : state := run (startup sizeof_fd_ctx_lp64 env_listening).

(** Three peers connect (contexts 2, 3, 4 on descriptors 10, 11, 12).
    Context 2 announces 42; context 3 announces 7 and sends a message to
    42; context 4 announces 42 as well and then reaches end of stream. *)
Definition its_three_peers : list iteration :=
  [round (accept_on (on_ctx 1%nat) 10); round (accept_on (on_ctx 1%nat) 11);
   round (accept_on (on_ctx 1%nat) 12);
   round (read_on (on_ctx 2%nat) announce_42);
   round (read_on (on_ctx 3%nat) (announce_7 ++ message_to_42));
   round (read_on (on_ctx 4%nat) announce_42)].
Definition st_three_peers : state :=
  run_loop (main_loop sizeof_fd_ctx_lp64 64 its_three_peers st_started).
Definition st_third_gone : state :=
  run_loop (main_loop sizeof_fd_ctx_lp64 64 [round (read_on (on_ctx 4%nat) [])]
              st_three_peers).

(** Two peers connect (contexts 2 and 3).  Context 2 announces 42 and is
    left with one byte of a next frame; context 3 has sent three bytes of
    its announcement when a new instance connects to the control socket
    (descriptor 20) and sends "unlisten". *)
Definition its_before_unlisten : list iteration :=
  [round (accept_on (on_ctx 1%nat) 10); round (accept_on (on_ctx 1%nat) 11);
   round (read_on (on_ctx 2%nat) (announce_42 ++ bytes [0]));
   round (read_on (on_ctx 3%nat) (bytes [0; 0; 0]));
   round (accept_on on_ctrl_socket 20)].
Definition st_before_unlisten : state :=
  run_loop (main_loop sizeof_fd_ctx_lp64 64 its_before_unlisten st_started).
Definition ev_unlisten : event := read_on on_ctrl_socket_conn str_unlisten.
Definition st_decaying : state := run_loop (ctrl_command_event ev_unlisten st_before_unlisten).

(** While the instance decays, context 3 receives the rest of an
    announcement of uid 42, and one byte more. *)
Definition rest_of_announce_42 : list byte := bytes [2; 0; 42; 0].
Definition st_decay_second_claim : state :=
  run (peer_event sizeof_fd_ctx_lp64 64 3%nat (rd_data rest_of_announce_42) true st_decaying).
Definition its_decay : list iteration := [round (read_on (on_ctx 3%nat) rest_of_announce_42)].
Definition st_decay_loop : state :=
  run_loop (main_loop sizeof_fd_ctx_lp64 64 its_decay st_decaying).

(** The same bytes with uid 7, which nobody holds, in the buffer of
    context 3 before the parse loop. *)
Definition st_decay_buffered : state := buffered 3%nat (bytes [2; 0; 7; 0]) st_decaying.

(** ** Further notions *)

(** The in-order sequence [s] of the UID index: its elements are live and
    their uids increase strictly, all above [lo]. *)
Fixpoint index_sorted (h : gmap nat fd_ctx) (lo : Z) (s : list nat) : Prop :=
  match s with
  | [] => True
  | e :: s' => exists x, h !! e = Some x /\ lo < faf_uid x /\ index_sorted h (faf_uid x) s'
  end.

(** A connection with nothing buffered: the ones [send_fds] hands over. *)
Definition idle (h : gmap nat fd_ctx) (e : nat) : Prop :=
  buf_len <$> h !! e = Some 0.

#[global] Instance idle_dec (h : gmap nat fd_ctx) (e : nat) : Decision (idle h e).
Proof. unfold idle. apply _. Defined.

(** The [int] slots of the body of a "desc" message after a scan of
    [elems]: the uid of an idle element, nothing for any other. *)
Definition scan_uids (h : gmap nat fd_ctx) (elems : list nat) : list (option Z) :=
  map (fun e => if decide (idle h e) then faf_uid <$> h !! e else None) elems.

(** The descriptors of the idle elements, in order. *)
Definition scan_fds (h : gmap nat fd_ctx) (elems : list nat) : list Z :=
  omap (fun e => fd <$> h !! e) (filter (idle h) elems).

(** The elements that are left behind. *)
Definition scan_kept (h : gmap nat fd_ctx) (elems : list nat) : list nat :=
  filter (fun e => ~ idle h e) elems.

(** The context at [p] is the listener set up for the address [a]. *)
Definition listens_on (h : gmap nat fd_ctx) (p : nat) (a : addr_results) : Prop :=
  exists x,
    h !! p = Some x /\ fd x = ar_socket a /\ is_server x = true /\
    protocol x = ar_protocol a /\ refcount x = 1 /\ npeers (ctx_peers x) = O.

(** Every call made for the address [a] succeeded. *)
Definition address_ok (a : addr_results) : Prop :=
  0 <= ar_socket a /\ ar_reuseaddr_ok a = true /\ ar_bind_ok a = true /\
  ar_listen_ok a = true /\ (ar_family a = AF_INET6 -> ar_v6only_ok a = true).

(** The calls that close the listener at [p]. *)
Definition close_calls (h : gmap nat fd_ctx) (p : nat) : list syscall :=
  match h !! p with
  | Some x => [sys_epoll_del (fd x); sys_close (fd x)]
  | None => []
  end.

(** One reference less. *)
Definition decr_refcount (y : fd_ctx) : fd_ctx := set_refcount (refcount y - 1) y.

(** From [h] to [h'] no cache has gained an entry, and the caches of the
    contexts outside [E] are what they were. *)
Definition caches_shrink (E : list nat) (h h' : gmap nat fd_ctx) : Prop :=
  forall q x', h' !! q = Some x' ->
    exists x, h !! q = Some x /\
              (q ∉ E -> ctx_peers x' = ctx_peers x) /\
              (forall e, e ∈ cache_entries x' -> e ∈ cache_entries x).

(** The list [l] without the first occurrence of [c]. *)
Fixpoint without_first (c : nat) (l : list nat) : list nat :=
  match l with
  | [] => []
  | e :: l' => if decide (e = c) then l' else e :: without_first c l'
  end.

(** The entries of the cache [l] of [c] that [remove_from_all_peers]
    reaches when [c] retires: when the loop removes [c] from its own cache
    the entries behind move up by one while the index goes on, so that the
    entry right behind [c] is passed over. *)
Fixpoint visited (c : nat) (l : list nat) : list nat :=
  match l with
  | [] => []
  | e :: l' =>
      if decide (e = c) then
        e :: match l' with
             | [] => []
             | _ :: l'' => visited c l''
             end
      else e :: visited c l'
  end.

(** The cache of the context at [q], and how many of the contexts of [V]
    hold [c] in their cache. *)
Definition cache_at (h : gmap nat fd_ctx) (q : nat) : list nat :=
  from_option cache_entries [] (h !! q).
Definition holders (h : gmap nat fd_ctx) (c : nat) (V : list nat) : nat :=
  length (filter (fun q => c ∈ cache_at h q) V).

(** From [h] to [h'] the connection [c] has been taken out of the caches of
    the contexts of [V], once each, and has lost the references they held:
    every context of [h] is still there; one of [V] has its cache without
    the first occurrence of [c]; any other has its cache untouched; the
    reference count of [c] has gone down by the number of contexts of [V]
    that held it, and no other count has changed; no other field has
    changed. *)
Definition retired (c : nat) (V : list nat) (h h' : gmap nat fd_ctx) : Prop :=
  forall q x, h !! q = Some x ->
    exists x',
      h' !! q = Some x' /\
      x' = set_refcount (refcount x') (set_ctx_peers (ctx_peers x') x) /\
      (q ∈ V -> cache_entries x' = without_first c (cache_entries x)) /\
      (q ∉ V -> ctx_peers x' = ctx_peers x) /\
      refcount x' =
        if decide (q = c) then refcount x - Z.of_nat (holders h c V) else refcount x.

(** The state [send_fds] leaves after scanning [elems]. *)
Definition handed_over (sendmsg_ok erase : bool) (elems : list nat) (st : state) : state :=
  let fds := scan_fds (st_heap st) elems in
  let st1 := if erase then with_peer_sockets (scan_kept (st_heap st) elems) st else st in
  match fds with
  | [] => st1
  | _ :: _ =>
      let st2 := emit [sys_sendmsg (ctrl_socket_conn_fd st1)
                         (take (length fds) (scan_uids (st_heap st) elems)) fds] st1 in
      if sendmsg_ok then
        emit (flat_map (fun f => [sys_epoll_del f; sys_close f]) fds)
          (with_total_sockets (total_sockets st2 - Z.of_nat (length fds)) st2)
      else st2
  end.

(** ** What the Router writes, read off the frames

    The notions of this section do not go through the program's lookup:
    they say, by uid alone, where a message is due. *)

(** The connection the UID index [s] holds under [uid]: the first element
    whose context carries that uid. *)
Fixpoint index_holder (h : gmap nat fd_ctx) (s : list nat) (uid : Z) : option nat :=
  match s with
  | [] => None
  | e :: s' =>
      match h !! e with
      | Some y => if faf_uid y =? uid then Some e else index_holder h s' uid
      | None => index_holder h s' uid
      end
  end.

(** The routing table: the descriptor of the connection that holds [uid]. *)
Definition routing_table (h : gmap nat fd_ctx) (s : list nat) (uid : Z) : option Z :=
  match index_holder h s uid with
  | Some p => fd <$> h !! p
  | None => None
  end.

(** The table once a connection with descriptor [f] has announced [u]: it
    is entered under [u], unless [u] is held. *)
Definition announce_table (table : Z -> option Z) (u f : Z) (uid : Z) : option Z :=
  match table uid with
  | Some g => Some g
  | None => if uid =? u then Some f else None
  end.

(** The fields of a frame, by position: size (4 bytes), then the announced
    uid (2), or port (2), destuid (2) and payload. *)
Definition frame_size (F : list byte) : Z := ntohl (take 4 F).
Definition frame_uid (F : list byte) : Z := ntohs (take 2 (drop 4 F)).
Definition frame_port (F : list byte) : list byte := take 2 (drop 4 F).
Definition frame_dest (F : list byte) : Z := ntohs (take 2 (drop 6 F)).
Definition frame_payload (F : list byte) : list byte := drop 8 F.

(** The writes due for the message frames [frames], in order: one for every
    frame whose destuid the table knows, to the descriptor it gives, of the
    frame without its destuid field and with the size reduced by two; none
    for a frame whose destuid nobody holds. *)
Definition message_writes (table : Z -> option Z) (frames : list (list byte))
  : list syscall :=
  flat_map
    (fun F =>
       match table (frame_dest F) with
       | Some f => [sys_write_peer f (outbound (frame_size F) (frame_port F) (frame_payload F))]
       | None => []
       end)
    frames.

(** The writes due for the frames that arrive on a connection with context
    [x] in the state [st]: if its uid is unset the first frame announces
    its uid and causes no write, and the frames behind are routed by the
    table with that announcement entered. *)
Definition expected_writes (st : state) (x : fd_ctx) (frames : list (list byte))
  : list syscall :=
  let table := routing_table (st_heap st) (peer_sockets st) in
  if faf_uid x =? -1 then
    match frames with
    | [] => []
    | A :: Fs => message_writes (announce_table table (frame_uid A) (fd x)) Fs
    end
  else message_writes table frames.

(** The cache of [x] agrees with the index: a cached peer that is live and
    has a uid is the connection the index holds under that uid. *)
Definition cache_coherent (h : gmap nat fd_ctx) (s : list nat) (x : fd_ctx) : Prop :=
  Forall (fun q => forall y, h !! q = Some y -> faf_uid y <> -1 ->
                             index_holder h s (faf_uid y) = Some q)
    (cache_entries x).

(** ** Reference counts that are sound *)

(** How many entries of the caches [E o], for [o] in [L], refer to [q]. *)
Definition refs_to (E : nat -> list nat) (L : list nat) (q : nat) : nat :=
  sum_list (map (fun o => count_occ Nat.eq_dec (E o) q) L).

(** How many cache entries of the heap refer to [q]. *)
Definition incoming (h : gmap nat fd_ctx) (q : nat) : nat :=
  refs_to (cache_at h) (map fst (map_to_list h)) q.

(** The reference counts of [h] are sound: every cache entry refers to a
    live context, and every context has a reference for each cache entry
    that refers to it, and one more if it is among [P], the connections
    whose descriptor is open. *)
Definition refs_sound (h : gmap nat fd_ctx) (P : list nat) : Prop :=
  map_Forall
    (fun q y =>
       Forall (fun e => is_Some (h !! e)) (cache_entries y) /\
       Z.of_nat (incoming h q) + (if decide (q ∈ P) then 1 else 0) <= refcount y)
    h.

#[global] Instance refs_sound_dec (h : gmap nat fd_ctx) (P : list nat) :
  Decision (refs_sound h P).
Proof. unfold refs_sound. apply _. Defined.

(** The caches [E] with the one of [p] replaced by [l]. *)
Definition set_cache (p : nat) (l : list nat) (E : nat -> list nat) : nat -> list nat :=
  fun o => if decide (o = p) then l else E o.

(** The contexts of [L] that are live with a reference count other than 0. *)
Definition nonzero (h : gmap nat fd_ctx) (o : nat) : bool :=
  match h !! o with
  | Some y => negb (refcount y =? 0)
  | None => false
  end.
Fixpoint pending (h : gmap nat fd_ctx) (L : list nat) : nat :=
  match L with
  | [] => O
  | o :: L' => ((if nonzero h o then 1 else 0) + pending h L')%nat
  end.

(** The counts of [h] are sound for the references [E], which are those of
    the caches except for references that have been released while their
    cache entry is still in place: a context that is being destroyed (its
    count is 0) or one of [P] may have such entries. *)
Definition sound (L P : list nat) (E : nat -> list nat) (h : gmap nat fd_ctx) : Prop :=
  (forall o, is_Some (h !! o) -> o ∈ L) /\
  (forall o e, o ∈ L -> e ∈ E o -> is_Some (h !! e)) /\
  (forall q y, h !! q = Some y ->
     Z.of_nat (refs_to E L q) + (if decide (q ∈ P) then 1 else 0) <= refcount y) /\
  (forall o y, h !! o = Some y -> refcount y <> 0 -> o ∉ P -> E o = cache_entries y).

(** From [h] to [h'] every context other than [p] that is being destroyed
    or is one of [P] is still there, with the same released references;
    one that is being destroyed is untouched. *)
Definition survive (P : list nat) (p : nat) (E E' : nat -> list nat)
    (h h' : gmap nat fd_ctx) : Prop :=
  forall q y, h !! q = Some y -> q <> p -> refcount y = 0 \/ q ∈ P ->
    exists y', h' !! q = Some y' /\ (refcount y = 0 -> y' = y) /\ E' q = E q /\
               y' = set_refcount (refcount y') y.

(** ** Further scenarios *)

(** Context 3 of the three peers caches context 4 as well. *)
Definition h_three_added : gmap nat fd_ctx :=
  match add 65 3%nat 4%nat (st_heap st_three_peers) with
  | Ok h => h
  | _ => ∅
  end.

(** The three peers, a control client connected (descriptor 20), and an
    "unlisten" for which [sendmsg] fails. *)
Definition st_three_ctrl : state :=
  run_loop (main_loop sizeof_fd_ctx_lp64 64 [round (accept_on on_ctrl_socket 20)]
              st_three_peers).
Definition ev_unlisten_unsent : event :=
  mk_event on_ctrl_socket_conn (-1) (fun _ => true) true (rd_data str_unlisten) None
    (fun _ => false) true (-1) (mk_listen_results true true true) [].
Definition st_decay_unsent : state :=
  run_loop (ctrl_command_event ev_unlisten_unsent st_three_ctrl).

(** A size field equal to the capacity, followed by as many bytes as the
    buffer takes: the frame can never be completed. *)
Definition stuck_frame : list byte := bytes [0; 0; 15; 88] ++ replicate 3924 Byte.x00.
Definition st_full : state :=
  run (peer_event sizeof_fd_ctx_lp64 64 1%nat (rd_data stuck_frame) true st_two_fresh).

(** The three peers with a control client: "unlisten" hands contexts 3 and
    2 over, then context 4, which the index does not hold, has an event and
    is handed over as well; no socket is left. *)
Definition its_decay_exit : list iteration :=
  [round ev_unlisten; round (read_on (on_ctx 4%nat) [])].
Definition st_decay_exit : state :=
  run_loop (main_loop sizeof_fd_ctx_lp64 64 its_decay_exit st_three_ctrl).

(** Peer B (context 2, uid 7) sends a message to its own uid: it is
    forwarded to B itself, and B caches itself. *)
Definition message_to_7 : list byte :=
  bytes [0; 0; 0; 8; 18; 52; 0; 7; 222; 173; 190; 239].
Definition st_b_self : state :=
  run (peer_event sizeof_fd_ctx_lp64 64 2%nat (rd_data message_to_7) true st_b_announced).

(** Two peers connect (contexts 2 and 3).  Context 2 announces 42;
    context 3 announces 7, sends a message to 42 and then one to its own
    uid; context 2 sends one to 7.  Context 3 caches itself in front of
    context 2, and context 2 caches context 3. *)
Definition its_mutual : list iteration :=
  [round (accept_on (on_ctx 1%nat) 10); round (accept_on (on_ctx 1%nat) 11);
   round (read_on (on_ctx 2%nat) announce_42);
   round (read_on (on_ctx 3%nat) (announce_7 ++ message_to_42 ++ message_to_7));
   round (read_on (on_ctx 2%nat) message_to_7)].
Definition st_mutual : state :=
  run_loop (main_loop sizeof_fd_ctx_lp64 64 its_mutual st_started).
Definition h_retired : gmap nat fd_ctx :=
  match remove_myself_from_peer_caches 64 3%nat (st_heap st_mutual) with
  | Ok h => h
  | _ => ∅
  end.

(** Peer B (context 2), whose uid is unset while A (context 1) holds 42,
    sends an announcement of uid 7, a message to 42, a message to uid 9,
    which nobody holds, and a message to its own uid. *)
Definition message_to_9 : list byte :=
  bytes [0; 0; 0; 8; 18; 52; 0; 9; 1; 2; 3; 4].
Definition frames_of_b : list (list byte) :=
  [announce_7; message_to_42; message_to_9; message_to_7].
(** * Properties *)

(** ** Reasoning about outcomes *)

Lemma bind_Ok {A B : Type} (m : outcome A) (f : A -> outcome B) (b : B) :
  m ≫= f = Ok b <-> exists a, m = Ok a /\ f a = Ok b.
Proof.
  destruct m; simpl; split; try discriminate; try (by intros (? & ? & ?)).
  - eauto.
  - by intros (? & [= <-] & ?).
Qed.

Lemma fmap_Ok {A B : Type} (m : outcome A) (f : A -> B) (b : B) :
  f <$> m = Ok b <-> exists a, m = Ok a /\ f a = b.
Proof.
  destruct m; simpl; split; try discriminate; try (by intros (? & ? & ?)).
  - intros [= <-]. eauto.
  - by intros (? & [= <-] & <-).
Qed.

Lemma deref_Ok (h : gmap nat fd_ctx) (p : nat) (x : fd_ctx) :
  deref h p = Ok x <-> h !! p = Some x.
Proof. unfold deref. destruct (h !! p); split; intros; simplify_eq; done. Qed.

Lemma deref_insert_eq (h : gmap nat fd_ctx) (p : nat) (x : fd_ctx) :
  deref (<[p := x]> h) p = Ok x.
Proof. unfold deref. by rewrite lookup_insert_eq. Qed.

Lemma deref_insert_ne (h : gmap nat fd_ctx) (p q : nat) (x : fd_ctx) :
  p <> q -> deref (<[p := x]> h) q = deref h q.
Proof. intros. unfold deref. by rewrite lookup_insert_ne. Qed.

Lemma slot_Ok (a : list nat) (i p : nat) : slot a i = Ok p <-> a !! i = Some p.
Proof. unfold slot. destruct (a !! i); split; intros; simplify_eq; done. Qed.

(** Splits a hypothesis [m ≫= f = Ok b] into its steps. *)
Ltac ok_inv H :=
  repeat match type of H with
  | (_ ≫= _) = Ok _ =>
      let a := fresh "a" in
      let H1 := fresh "H" in
      apply bind_Ok in H; destruct H as [a [H1 H]];
      try (apply deref_Ok in H1); try (apply slot_Ok in H1)
  | Ok _ = Ok _ => inversion H; subst; clear H
  end.

Lemma for_each_app {A S : Type} (f : S -> A -> outcome S) (s : S) (l1 l2 : list A) :
  for_each f s (l1 ++ l2) = for_each f s l1 ≫= fun s' => for_each f s' l2.
Proof.
  revert s. induction l1 as [|x l1 IH]; intros s; simpl; [done|].
  destruct (f s x); simpl; auto.
Qed.

(** An invariant kept by the body of a loop holds after the loop. *)
Lemma for_each_invariant {A S : Type} (P : S -> Prop) (f : S -> A -> outcome S)
    (l : list A) (s s' : S) :
  (forall s x s', P s -> f s x = Ok s' -> P s') ->
  P s -> for_each f s l = Ok s' -> P s'.
Proof.
  intros Hf. revert s. induction l as [|x l IH]; intros s Hs H; simpl in H.
  - by inversion H; subst.
  - ok_inv H. eauto.
Qed.

(** ** Bytes and byte order *)

Lemma byte_of_val (b : byte) : byte_of (byte_val b) = b.
Proof. destruct b; reflexivity. Qed.

Lemma byte_val_range (b : byte) : 0 <= byte_val b < 256.
Proof. unfold byte_val. pose proof (Byte.to_N_bounded b). lia. Qed.

Lemma byte_val_of (z : Z) : byte_val (byte_of z) = z mod 256.
Proof.
  unfold byte_of, byte_val.
  destruct (Byte.of_N (Z.to_N (z mod 256))) eqn:E.
  - apply Byte.to_of_N in E. rewrite E. rewrite Z2N.id; [done|].
    apply Z.mod_pos_bound. lia.
  - apply Byte.of_N_None_iff in E. pose proof (Z.mod_pos_bound z 256). lia.
Qed.

Lemma byte_of_mod (z : Z) : byte_of (z mod 256) = byte_of z.
Proof. unfold byte_of. by rewrite Z.mod_mod. Qed.

Lemma ntohl_htonl (v : Z) : ntohl (htonl v) = to_uint32 v.
Proof.
  unfold ntohl, htonl, be_decode. simpl. rewrite !byte_val_of.
  unfold to_uint32. set (u := v mod 4294967296).
  assert (0 <= u < 4294967296) by (apply Z.mod_pos_bound; lia).
  Z.div_mod_to_equations; lia.
Qed.

Lemma ntohs_htons (v : Z) : ntohs (htons v) = to_uint16 v.
Proof.
  unfold ntohs, htons, be_decode. simpl. rewrite !byte_val_of.
  unfold to_uint16. set (u := v mod 65536).
  assert (0 <= u < 65536) by (apply Z.mod_pos_bound; lia).
  Z.div_mod_to_equations; lia.
Qed.

(** A 16-bit field decodes to a value in [0, 65535]. *)
Lemma ntohs_range (bs : list byte) : length bs = 2%nat -> 0 <= ntohs bs <= 65535.
Proof.
  destruct bs as [|b0 [|b1 [|]]]; try discriminate. intros _.
  unfold ntohs, be_decode. simpl.
  pose proof (byte_val_range b0). pose proof (byte_val_range b1). lia.
Qed.

(** [htons (ntohs f)] stores the bytes of the field [f] back. *)
Lemma htons_ntohs (bs : list byte) : length bs = 2%nat -> htons (ntohs bs) = bs.
Proof.
  destruct bs as [|b0 [|b1 [|]]]; try discriminate. intros _.
  unfold htons, ntohs, be_decode, to_uint16. simpl.
  pose proof (byte_val_range b0). pose proof (byte_val_range b1).
  rewrite (Z.mod_small (_ + _)) by lia.
  assert (((0 * 256 + byte_val b0) * 256 + byte_val b1) / 256 = byte_val b0) as ->
    by (Z.div_mod_to_equations; lia).
  rewrite <- (byte_of_mod (_ + _)).
  assert (((0 * 256 + byte_val b0) * 256 + byte_val b1) mod 256 = byte_val b1) as ->
    by (Z.div_mod_to_equations; lia).
  by rewrite !byte_of_val.
Qed.

Lemma to_int32_small (v : Z) : -2147483648 <= v < 2147483648 -> to_int32 v = v.
Proof. intros. unfold to_int32. rewrite Z.mod_small; lia. Qed.

Lemma to_uint32_small (v : Z) : 0 <= v < 4294967296 -> to_uint32 v = v.
Proof. intros. unfold to_uint32. rewrite Z.mod_small; lia. Qed.

Lemma length_htonl (v : Z) : length (htonl v) = 4%nat.
Proof. done. Qed.

Lemma length_htons (v : Z) : length (htons v) = 2%nat.
Proof. done. Qed.

(** ** The peer cache never yields a retired connection *)

Lemma find_loop_sound (h : gmap nat fd_ctx) (a : list nat) (uid : Z) (i n : nat) (p : nat) :
  find_loop h a uid i n = Ok (Some p) ->
  exists x, h !! p = Some x /\ faf_uid x = uid.
Proof.
  revert i. induction n as [|n IH]; intros i H; simpl in H; [discriminate|].
  ok_inv H. destruct (faf_uid a1 =? uid) eqn:E.
  - ok_inv H. apply Z.eqb_eq in E. eauto.
  - eauto.
Qed.

(** [find] matches on equality of [faf_uid] only. *)
Lemma find_sound (h : gmap nat fd_ctx) (pp : proxy_peers) (uid : Z) (p : nat) :
  find h pp uid = Ok (Some p) ->
  exists x, h !! p = Some x /\ faf_uid x = uid.
Proof. apply find_loop_sound. Qed.

(** What [deallocate_fdctx] destroys is gone from the heap. *)
Lemma deallocate_fdctx_freed (fuel : nat) (p : nat) (h h' : gmap nat fd_ctx) :
  deallocate_fdctx fuel p h = Ok h' -> h' !! p = None.
Proof.
  destruct fuel as [|fuel]; simpl; intros H; [discriminate|].
  ok_inv H. apply lookup_delete_eq.
Qed.

(** After the retiring sequence the context is either destroyed or carries
    the unset uid. *)
Lemma close_connection_tombstone (fuel : nat) (del : bool) (c : nat) (st st' : state) :
  close_connection fuel del c st = Ok st' ->
  match st_heap st' !! c with
  | None => True
  | Some x => faf_uid x = -1
  end.
Proof.
  unfold close_connection. intros H. ok_inv H.
  destruct (refcount a2 - 1 =? 0).
  - unfold on_heap in H. ok_inv H. simpl in *.
    apply deallocate_fdctx_freed in H4. simpl. by rewrite H4.
  - ok_inv H. simpl. by rewrite lookup_insert_eq.
Qed.


(** ** Start-up failures *)

(** The failures for which [main] does stop with status 1. *)
Lemma startup_failures_exit (sz : Z) (env : startup_env) (st : state) (a : addr_results) :
  (se_epoll_create env < 0 -> startup sz env = Exit 1) /\
  (se_ctrl_socket_path env = true -> se_unix_socket env < 0 ->
     startup_ctrl env st = Exit 1) /\
  (se_ctrl_socket_path env = true -> 0 <= se_unix_socket env ->
     se_connect env = None -> 0 < se_send env ->
     strncmp_eq (take 16%nat (se_recv env)) str_unlistening 11%nat = Ok false ->
     startup_ctrl env st = Exit 1) /\
  (0 <= se_epoll_create env -> se_ctrl_socket_path env = false ->
     se_getaddrinfo env = None -> startup sz env = Exit 1) /\
  (ar_socket a < 0 \/ ar_bind_ok a = false \/ ar_listen_ok a = false ->
     startup_listener sz st a = Exit 1).
Proof.
  repeat split.
  - intros H. unfold startup. by rewrite (proj2 (Z.ltb_lt _ _) H).
  - intros Hp H. unfold startup_ctrl. rewrite Hp. simpl.
    by rewrite (proj2 (Z.ltb_lt _ _) H).
  - intros Hp Hs Hc Hn Hr. unfold startup_ctrl. rewrite Hp, Hc. simpl.
    rewrite (proj2 (Z.ltb_ge _ _) Hs).
    rewrite (proj2 (Z.ltb_ge (se_send env) 0)) by lia.
    rewrite (proj2 (Z.eqb_neq (se_send env) 0)) by lia.
    by rewrite Hr.
  - intros He Hp Hg. unfold startup, startup_ctrl.
    rewrite (proj2 (Z.ltb_ge _ _) He), Hp, Hg. done.
  - intros H. unfold startup_listener.
    destruct (ar_socket a <? 0) eqn:E1; [done|].
    destruct ((ar_family a =? AF_INET6) && negb (ar_v6only_ok a)); [done|].
    destruct (negb (ar_reuseaddr_ok a)); [done|].
    destruct H as [H|[H|H]].
    + apply Z.ltb_ge in E1. lia.
    + by rewrite H.
    + rewrite H. by destruct (ar_bind_ok a).
Qed.

(** The result of [ctrl_socket_listen] is dropped by [main]: whatever
    [bind] and [listen] report on the control socket, start-up goes on as a
    listening instance. *)
Lemma startup_ctrl_ignores_listen_result (env : startup_env) (st : state) :
  se_ctrl_socket_path env = true ->
  0 <= se_unix_socket env ->
  se_connect env = Some ENOENT ->
  exists st', startup_ctrl env st = Ok st' /\
              ctrl_socket_mode_listen st' = true /\
              ctrl_socket_fd st' = se_unix_socket env.
Proof.
  intros Hp Hs Hc. unfold startup_ctrl. rewrite Hp, Hc. simpl.
  rewrite (proj2 (Z.ltb_ge _ _) Hs).
  destruct (ctrl_socket_listen (se_listen env) (se_unix_socket env) st) as [r st2].
  eexists. split; [reflexivity|]. done.
Qed.

(** C8.  With a control path whose [connect] fails with ENOENT and whose
    [bind] then fails, and likewise after a refused [connect] when [listen]
    fails, the program does not exit with status 1: start-up completes and
    the instance enters the epoll loop as a listening instance. *)
Theorem startup_survives_ctrl_listen_failure :
  (exists st, startup sizeof_fd_ctx_lp64 env_ctrl_bind_fails = Ok st /\
              ctrl_socket_mode_listen st = true /\
              total_sockets st = 1 /\
              trace st = [sys_bind 4; sys_epoll_add 4;
                          sys_bind 5; sys_listen 5 50; sys_epoll_add 5]) /\
  (exists st, startup sizeof_fd_ctx_lp64 env_ctrl_listen_fails = Ok st /\
              ctrl_socket_mode_listen st = true /\
              total_sockets st = 1 /\
              trace st = [sys_unlink; sys_bind 4; sys_listen 4 1; sys_epoll_add 4;
                          sys_bind 5; sys_listen 5 50; sys_epoll_add 5]).
Proof.
  split; eexists; (split; [vm_compute; reflexivity|]); by vm_compute.
Qed.

(** ** The peer cache: [add] *)

Lemma store_slot_Ok (a : list nat) (i v : nat) :
  (i < length a)%nat -> store_slot a i v = Ok (<[i := v]> a).
Proof. intros. unfold store_slot. by rewrite decide_True. Qed.

Lemma add_shift_loop (a : list nat) (a0 : nat) (k : nat) :
  a !! 0%nat = Some a0 -> (k < length a)%nat ->
  for_each
    (fun '(a, prev) i =>
       tmp ← slot a i;
       a' ← store_slot a i prev;
       Ok (a', tmp))
    (a, a0) (seq 1 k)
  = Ok (a0 :: take k a ++ drop (S k) a, default a0 (a !! k)).
Proof.
  intros H0. induction k as [|k IH]; intros Hk.
  - simpl. rewrite H0. simpl. destruct a; simplify_eq/=. by rewrite drop_0.
  - rewrite seq_S, for_each_app, IH by lia. simpl.
    destruct (lookup_lt_is_Some_2 a (S k) Hk) as [v Hv].
    destruct (lookup_lt_is_Some_2 a k ltac:(lia)) as [w Hw].
    rewrite Hw, Hv. simpl.
    assert ((a0 :: take k a ++ drop (S k) a) !! S k = Some v) as Hl.
    { simpl. rewrite lookup_app_r by (rewrite length_take; lia).
      rewrite length_take, lookup_drop. rewrite <- Hv. f_equal. lia. }
    unfold slot. rewrite Hl. simpl.
    rewrite store_slot_Ok
      by (simpl; rewrite length_app, length_take, length_drop; lia).
    simpl. do 3 f_equal.
    rewrite insert_app_r_alt by (rewrite length_take; lia).
    rewrite length_take. replace (k - k `min` length a)%nat with 0%nat by lia.
    rewrite (take_S_r a k w Hw), <- app_assoc. f_equal. simpl.
    rewrite (drop_S a v (S k) Hv). done.
Qed.

Lemma add_shift_array (a : list nat) (n p : nat) :
  (n < length a)%nat ->
  exists a1 prev a2,
    add_shift a n = Ok (a1, prev) /\
    store_slot a1 n prev = Ok a2 /\
    store_slot a2 0 p = Ok (shifted p n a).
Proof.
  intros Hn.
  destruct (lookup_lt_is_Some_2 a 0 ltac:(lia)) as [a0 H0].
  unfold add_shift. rewrite (proj2 (slot_Ok a 0 a0) H0). simpl mbind.
  rewrite (add_shift_loop a a0 (n - 1)) by (done || lia).
  do 3 eexists. split; [reflexivity|].
  rewrite store_slot_Ok
    by (simpl; rewrite length_app, length_take, length_drop; lia).
  split; [reflexivity|].
  rewrite store_slot_Ok by (rewrite length_insert; simpl; lia).
  f_equal. unfold shifted. simpl. f_equal.
  destruct n as [|n].
  - simpl. destruct a; simplify_eq/=. by rewrite drop_0.
  - replace (S n - 1)%nat with n by lia.
    destruct (lookup_lt_is_Some_2 a n ltac:(lia)) as [w Hw]. rewrite Hw.
    destruct (lookup_lt_is_Some_2 a (S n) ltac:(lia)) as [v Hv].
    simpl.
    rewrite insert_app_r_alt by (rewrite length_take; lia).
    rewrite length_take. replace (n - n `min` length a)%nat with 0%nat by lia.
    rewrite (drop_S a v (S n) Hv). simpl.
    rewrite (take_S_r a n w Hw), <- app_assoc. done.
Qed.

Lemma add_front_Ok (owner p : nat) (h : gmap nat fd_ctx) (x : fd_ctx) :
  h !! owner = Some x -> is_Some (h !! p) ->
  (npeers (ctx_peers x) < length (peers (ctx_peers x)))%nat ->
  add_front owner p h =
    Ok (alter (set_ctx_peers
                 (mk_proxy_peers (S (npeers (ctx_peers x)))
                    (shifted p (npeers (ctx_peers x)) (peers (ctx_peers x)))))
          owner (alter incr_refcount p h)).
Proof.
  intros Hx [y Hy] Hn. unfold add_front.
  rewrite (proj2 (deref_Ok _ _ _) Hx). simpl mbind.
  destruct (add_shift_array _ _ p Hn) as (a1 & prev & a2 & E1 & E2 & E3).
  rewrite E1. simpl mbind. rewrite E2. simpl mbind. rewrite E3. simpl mbind.
  destruct (decide (p = owner)) as [->|Hne].
  - unfold deref. rewrite lookup_insert_eq. simpl. rewrite lookup_insert_eq. simpl.
    f_equal. apply map_eq. intros q.
    destruct (decide (q = owner)) as [->|Hq].
    + rewrite lookup_insert_eq, !lookup_alter_eq, Hx. done.
    + rewrite !lookup_insert_ne, !lookup_alter_ne by done. done.
  - unfold deref. rewrite lookup_insert_ne, Hy by done. simpl.
    rewrite lookup_insert_ne, lookup_insert_eq by done. simpl.
    f_equal. apply map_eq. intros q.
    destruct (decide (q = owner)) as [->|Hq].
    + rewrite lookup_insert_eq, lookup_alter_eq, lookup_alter_ne, Hx by done. done.
    + rewrite lookup_insert_ne, lookup_alter_ne by done.
      destruct (decide (q = p)) as [->|Hq'].
      * rewrite lookup_insert_eq, lookup_alter_eq, Hy. done.
      * rewrite !lookup_insert_ne, lookup_alter_ne by done. done.
Qed.

(** [unref] spelled out. *)
Lemma unref_cases (d : nat -> gmap nat fd_ctx -> outcome (gmap nat fd_ctx))
    (t : nat) (h : gmap nat fd_ctx) (y : fd_ctx) :
  h !! t = Some y ->
  unref d t h =
    if refcount y =? 1 then d t (<[t := set_refcount 0 y]> h)
    else Ok (<[t := set_refcount (refcount y - 1) y]> h).
Proof.
  intros Hy. unfold unref. rewrite (proj2 (deref_Ok _ _ _) Hy). simpl.
  destruct (refcount y =? 1) eqn:E.
  - apply Z.eqb_eq in E. rewrite E. done.
  - apply Z.eqb_neq in E. rewrite (proj2 (Z.eqb_neq _ _)) by lia. done.
Qed.

Lemma only_refcounts_refl (h : gmap nat fd_ctx) : only_refcounts h h.
Proof. intros q x' H. exists x'. split; [done|]. by destruct x'. Qed.

Lemma only_refcounts_trans (h1 h2 h3 : gmap nat fd_ctx) :
  only_refcounts h1 h2 -> only_refcounts h2 h3 -> only_refcounts h1 h3.
Proof.
  intros H12 H23 q x3 H3.
  destruct (H23 q x3 H3) as (x2 & H2 & E2).
  destruct (H12 q x2 H2) as (x1 & H1 & E1).
  exists x1. split; [done|]. rewrite E2, E1. done.
Qed.

Lemma only_refcounts_insert (h : gmap nat fd_ctx) (q : nat) (y : fd_ctx) (v : Z) :
  h !! q = Some y -> only_refcounts h (<[q := set_refcount v y]> h).
Proof.
  intros Hy p x' H. destruct (decide (p = q)) as [->|Hne].
  - rewrite lookup_insert_eq in H. simplify_eq. eauto.
  - rewrite lookup_insert_ne in H by done. by apply only_refcounts_refl.
Qed.

Lemma only_refcounts_delete (h : gmap nat fd_ctx) (q : nat) :
  only_refcounts h (delete q h).
Proof.
  intros p x' H. apply lookup_delete_Some in H as [_ H].
  by apply only_refcounts_refl.
Qed.

Lemma deallocate_fdctx_only_refcounts (fuel : nat) :
  forall (p : nat) (h h' : gmap nat fd_ctx),
    deallocate_fdctx fuel p h = Ok h' -> only_refcounts h h'.
Proof.
  induction fuel as [|fuel IH]; intros p h h' H; simpl in H; [discriminate|].
  ok_inv H.
  eapply only_refcounts_trans; [|apply only_refcounts_delete].
  eapply (for_each_invariant (only_refcounts h)); [|apply only_refcounts_refl|eassumption].
  intros s i s' Hs Hstep. ok_inv Hstep.
  unfold unref in Hstep. ok_inv Hstep.
  eapply only_refcounts_trans; [exact Hs|].
  eapply only_refcounts_trans; [by apply only_refcounts_insert|].
  destruct (_ =? 0); [eauto|]. ok_inv Hstep. apply only_refcounts_refl.
Qed.

Lemma unref_only_refcounts (fuel : nat) (t : nat) (h h' : gmap nat fd_ctx) :
  unref (deallocate_fdctx fuel) t h = Ok h' -> only_refcounts h h'.
Proof.
  unfold unref. intros H. ok_inv H.
  eapply only_refcounts_trans; [by apply only_refcounts_insert|].
  destruct (_ =? 0).
  - by eapply deallocate_fdctx_only_refcounts.
  - ok_inv H. apply only_refcounts_refl.
Qed.

Lemma cache_entries_shifted (p n : nat) (a : list nat) (x : fd_ctx) :
  (n < length a)%nat ->
  cache_entries (set_ctx_peers (mk_proxy_peers (S n) (shifted p n a)) x) = p :: take n a.
Proof.
  intros Hn. unfold cache_entries, shifted. simpl. f_equal.
  rewrite take_app_le by (rewrite length_take; lia).
  rewrite take_take. f_equal. lia.
Qed.

Lemma length_shifted (p n : nat) (a : list nat) :
  (n < length a)%nat -> length (shifted p n a) = length a.
Proof.
  intros. unfold shifted. simpl. rewrite length_app, length_take, length_drop. lia.
Qed.

Lemma add_front_post (owner p : nat) (h : gmap nat fd_ctx) (x : fd_ctx) :
  h !! owner = Some x -> is_Some (h !! p) -> cache_ok x ->
  (npeers (ctx_peers x) < MAX_PEERS)%nat ->
  exists h', add_front owner p h = Ok h' /\ add_post h h' owner p (cache_entries x).
Proof.
  intros Hx Hp [Hn Hl] Hlt.
  eexists. split; [apply (add_front_Ok _ _ _ x); (done || lia)|].
  assert (exists y, alter incr_refcount p h !! owner = Some y /\
                    ctx_peers y = ctx_peers x) as (y & Hy & Ey).
  { destruct (decide (p = owner)) as [->|Hne].
    - rewrite lookup_alter_eq, Hx. eauto.
    - rewrite lookup_alter_ne by done. eauto. }
  eexists. split; [rewrite lookup_alter_eq, Hy; reflexivity|].
  split; [|split].
  - rewrite cache_entries_shifted by lia. done.
  - split; cbn [ctx_peers set_ctx_peers npeers peers]; [lia|].
    rewrite length_shifted by lia. done.
  - done.
Qed.

Lemma add_not_full (fuel : nat) (owner p : nat) (h : gmap nat fd_ctx) (x : fd_ctx) :
  h !! owner = Some x -> (npeers (ctx_peers x) < MAX_PEERS)%nat ->
  add (S fuel) owner p h = add_front owner p h.
Proof.
  intros Hx Hn. simpl. rewrite (proj2 (deref_Ok _ _ _) Hx). simpl.
  by rewrite (proj2 (Nat.ltb_lt _ _) Hn).
Qed.

(** The full cache: the tail is released, [npeers] drops to 15, and the
    insertion proper follows. *)
Lemma add_full (fuel : nat) (owner p t : nat) (h h1 : gmap nat fd_ctx) (x : fd_ctx) :
  h !! owner = Some x -> cache_ok x ->
  npeers (ctx_peers x) = MAX_PEERS ->
  peers (ctx_peers x) !! 15%nat = Some t ->
  unref (deallocate_fdctx (S fuel)) t h = Ok h1 ->
  is_Some (h1 !! owner) -> is_Some (h1 !! p) ->
  exists h', add (S (S fuel)) owner p h = Ok h' /\
             add_post h1 h' owner p (removelast (cache_entries x)).
Proof.
  intros Hx [Hn Hl] Hfull Ht Hun [x1 Hx1] Hp.
  destruct (unref_only_refcounts _ _ _ _ Hun _ _ Hx1) as (x0 & Hx0 & Ex1).
  rewrite Hx in Hx0. simplify_eq.
  assert (ctx_peers x1 = ctx_peers x0) as Epp by (rewrite Ex1; done).
  cbn [add]. rewrite (proj2 (deref_Ok _ _ _) Hx). cbn [mbind outcome_bind].
  rewrite Hfull. cbn [Nat.ltb Nat.leb MAX_PEERS Nat.sub].
  rewrite (proj2 (slot_Ok _ _ _) Ht). cbn [mbind outcome_bind].
  rewrite Hun. cbn [mbind outcome_bind].
  rewrite (proj2 (deref_Ok _ _ _) Hx1). cbn [mbind outcome_bind].
  rewrite deref_insert_eq. cbn [mbind outcome_bind].
  cbn [ctx_peers set_ctx_peers npeers]. rewrite Epp, Hfull.
  cbn [Nat.ltb Nat.leb MAX_PEERS Nat.sub].
  set (x2 := set_ctx_peers _ x1).
  assert (is_Some (<[owner := x2]> h1 !! p)) as Hp2.
  { destruct (decide (p = owner)) as [->|Hne].
    - rewrite lookup_insert_eq. eauto.
    - rewrite lookup_insert_ne by done. done. }
  destruct (add_front_post owner p (<[owner := x2]> h1) x2) as (h' & Hadd & Hpost);
    [apply lookup_insert_eq|done| |simpl; unfold MAX_PEERS; lia|].
  { split; simpl; [unfold MAX_PEERS; lia|]. done. }
  exists h'. split; [done|].
  destruct Hpost as (x' & Hx' & Hent & Hok & Heq).
  exists x'. split; [done|]. split; [|split; [done|]].
  - rewrite Hent. f_equal. unfold cache_entries, x2. simpl.
    rewrite Hfull. unfold MAX_PEERS.
    rewrite (take_S_r _ 15 t Ht). by rewrite removelast_last.
  - rewrite Heq. apply map_eq. intros q.
    destruct (decide (q = owner)) as [->|Hq].
    + rewrite !lookup_alter_eq.
      destruct (decide (p = owner)) as [->|Hne].
      * rewrite !lookup_alter_eq, lookup_insert_eq, Hx1. done.
      * rewrite !lookup_alter_ne, lookup_insert_eq, Hx1 by done. done.
    + rewrite !(lookup_alter_ne _ _ owner q) by done.
      destruct (decide (q = p)) as [->|Hq'].
      * rewrite !lookup_alter_eq, lookup_insert_ne by done. done.
      * rewrite !lookup_alter_ne, lookup_insert_ne by done. done.
Qed.

(** ** No peer cache ever exceeds [MAX_PEERS] *)

Lemma bounded_insert (h : gmap nat fd_ctx) (p : nat) (x : fd_ctx) :
  cache_ok x -> bounded h -> bounded (<[p := x]> h).
Proof. intros. by apply map_Forall_insert_2. Qed.

Lemma bounded_lookup (h : gmap nat fd_ctx) (p : nat) (x : fd_ctx) :
  bounded h -> h !! p = Some x -> cache_ok x.
Proof. intros Hb Hx. exact (Hb p x Hx). Qed.

Lemma bounded_only_refcounts (h h' : gmap nat fd_ctx) :
  only_refcounts h h' -> bounded h -> bounded h'.
Proof.
  intros Hr Hb q x' Hx'. destruct (Hr q x' Hx') as (x & Hx & E).
  rewrite E. exact (Hb q x Hx).
Qed.

Lemma bounded_alter (h : gmap nat fd_ctx) (f : fd_ctx -> fd_ctx) (p : nat) :
  (forall x, cache_ok x -> cache_ok (f x)) -> bounded h -> bounded (alter f p h).
Proof.
  intros Hf Hb q x' Hx'. destruct (decide (q = p)) as [->|Hne].
  - rewrite lookup_alter_eq in Hx'. destruct (h !! p) as [x|] eqn:E; simplify_eq/=.
    apply Hf. exact (Hb p x E).
  - rewrite lookup_alter_ne in Hx' by done. exact (Hb q x' Hx').
Qed.

Lemma add_front_bounded (owner p : nat) (h h' : gmap nat fd_ctx) :
  add_front owner p h = Ok h' -> bounded h -> bounded h'.
Proof.
  intros H Hb. pose proof H as H0. unfold add_front in H0.
  apply bind_Ok in H0 as (x & Hx & H0). apply deref_Ok in Hx.
  apply bind_Ok in H0 as ([a1 prev] & H1 & H0).
  apply bind_Ok in H0 as (a2 & H2 & H0).
  apply bind_Ok in H0 as (a3 & H3 & H0).
  apply bind_Ok in H0 as (y & Hy & _). apply deref_Ok in Hy.
  assert (npeers (ctx_peers x) < length (peers (ctx_peers x)))%nat as Hn.
  { unfold store_slot in H2. case_decide; [|discriminate].
    enough (length a1 = length (peers (ctx_peers x))) by lia.
    unfold add_shift in H1. apply bind_Ok in H1 as (a0 & _ & H1).
    eapply (for_each_invariant
              (fun s => length s.1 = length (peers (ctx_peers x)))) in H1; [done| |done].
    intros [a b] i [a' b'] Hl Hs. apply bind_Ok in Hs as (tmp & _ & Hs).
    apply bind_Ok in Hs as (a'' & Hs1 & Hs). simplify_eq.
    unfold store_slot in Hs1. case_decide; simplify_eq. simpl in *.
    by rewrite length_insert. }
  assert (is_Some (h !! p)) as Hp.
  { destruct (decide (owner = p)) as [<-|Hne]; [eauto|].
    rewrite lookup_insert_ne in Hy by done. eauto. }
  rewrite (add_front_Ok owner p h x Hx Hp Hn) in H. simplify_eq.
  pose proof (bounded_lookup _ _ _ Hb Hx) as [Hle Hlen].
  apply bounded_alter; [|by apply bounded_alter].
  intros z _. split; cbn [ctx_peers set_ctx_peers npeers peers]; [lia|].
  rewrite length_shifted by lia. done.
Qed.

Lemma unref_bounded (fuel : nat) (t : nat) (h h' : gmap nat fd_ctx) :
  unref (deallocate_fdctx fuel) t h = Ok h' -> bounded h -> bounded h'.
Proof. intros H. eapply bounded_only_refcounts, unref_only_refcounts, H. Qed.

Lemma deallocate_fdctx_bounded (fuel : nat) (t : nat) (h h' : gmap nat fd_ctx) :
  deallocate_fdctx fuel t h = Ok h' -> bounded h -> bounded h'.
Proof. intros H. eapply bounded_only_refcounts, deallocate_fdctx_only_refcounts, H. Qed.

Lemma add_bounded (fuel : nat) :
  forall (owner p : nat) (h h' : gmap nat fd_ctx),
    add fuel owner p h = Ok h' -> bounded h -> bounded h'.
Proof.
  induction fuel as [|fuel IH]; intros owner p h h' H Hb; simpl in H; [discriminate|].
  apply bind_Ok in H as (x & Hx & H). apply deref_Ok in Hx.
  destruct (npeers (ctx_peers x) <? MAX_PEERS)%nat eqn:E.
  - by eapply add_front_bounded.
  - apply bind_Ok in H as (t & _ & H).
    apply bind_Ok in H as (h1 & Hun & H).
    apply bind_Ok in H as (x1 & Hx1 & H). apply deref_Ok in Hx1.
    apply unref_bounded in Hun; [|done].
    eapply IH; [exact H|]. apply bounded_insert; [|done].
    destruct (bounded_lookup _ _ _ Hun Hx1) as [Hle Hlen].
    split; simpl; [lia|done].
Qed.

Lemma remove_bounded (fuel : nat) (owner p : nat) (h h' : gmap nat fd_ctx) :
  remove (deallocate_fdctx fuel) owner p h = Ok h' -> bounded h -> bounded h'.
Proof.
  unfold remove. intros H Hb.
  apply bind_Ok in H as (x & Hx & H). apply deref_Ok in Hx.
  apply bind_Ok in H as (r & _ & H). destruct r as [i|]; [|by simplify_eq].
  apply bind_Ok in H as (a' & Ha & H).
  eapply unref_bounded; [exact H|]. apply bounded_insert; [|done].
  destruct (bounded_lookup _ _ _ Hb Hx) as [Hle Hlen].
  split; simpl; [lia|].
  eapply (for_each_invariant (fun s => length s = MAX_PEERS)) in Ha; [done| |done].
  intros a j a'' Hl Hs. apply bind_Ok in Hs as (v & _ & Hs).
  unfold store_slot in Hs. case_decide; simplify_eq. by rewrite length_insert.
Qed.

Lemma remove_from_all_peers_loop_bounded (fuel : nat) (owner p : nat) (n : nat) :
  forall (i : nat) (h h' : gmap nat fd_ctx),
    remove_from_all_peers_loop (deallocate_fdctx fuel) owner p i n h = Ok h' ->
    bounded h -> bounded h'.
Proof.
  induction n as [|n IH]; intros i h h' H Hb; simpl in H; [by simplify_eq|].
  apply bind_Ok in H as (x & _ & H).
  destruct (i <? npeers (ctx_peers x))%nat; [|by simplify_eq].
  apply bind_Ok in H as (q & _ & H).
  apply bind_Ok in H as (h1 & Hr & H).
  eapply IH; [exact H|]. by eapply remove_bounded.
Qed.

Lemma remove_myself_bounded (fuel : nat) (c : nat) (h h' : gmap nat fd_ctx) :
  remove_myself_from_peer_caches fuel c h = Ok h' -> bounded h -> bounded h'.
Proof.
  unfold remove_myself_from_peer_caches, remove_from_all_peers. intros H.
  apply bind_Ok in H as (x & _ & H). by eapply remove_from_all_peers_loop_bounded.
Qed.

(** ** Symbolic execution of the handlers *)

(** Takes apart every hypothesis that says a computation completed. *)
Ltac crush_ok :=
  repeat match goal with
  | H : Ok _ = Ok _ |- _ => inversion H; subst; clear H
  | H : Fault = Ok _ |- _ => discriminate H
  | H : OutOfFuel = Ok _ |- _ => discriminate H
  | H : Exit _ = Ok _ |- _ => discriminate H
  | H : (_ ≫= _) = Ok _ |- _ =>
      let a := fresh "a" in
      let Ha := fresh "Ha" in
      apply bind_Ok in H as (a & Ha & H)
  | H : deref _ _ = Ok _ |- _ => apply deref_Ok in H
  | H : on_heap _ _ = Ok _ |- _ => unfold on_heap in H
  | H : (if ?b then _ else _) = Ok _ |- _ => destruct b eqn:?
  | H : match ?x with _ => _ end = Ok _ |- _ => destruct x eqn:?
  end.

Lemma cache_ok_same (x x' : fd_ctx) :
  ctx_peers x' = ctx_peers x -> cache_ok x -> cache_ok x'.
Proof. unfold cache_ok. by intros ->. Qed.

Lemma cache_ok_new (bufsize : Z) (mem : list byte) (srv : bool) (proto uid fdn : Z) :
  cache_ok (new_fd_ctx bufsize mem srv proto uid fdn).
Proof. split; simpl; [unfold MAX_PEERS; lia|done]. Qed.

Ltac solve_cache_ok :=
  match goal with
  | |- cache_ok (new_fd_ctx _ _ _ _ _ _) => apply cache_ok_new
  | Hb : bounded ?h, Hx : ?h !! _ = Some ?x |- cache_ok ?t =>
      apply (cache_ok_same x t); [reflexivity | exact (bounded_lookup _ _ _ Hb Hx)]
  end.

(** Handlers that leave the heap alone. *)
Lemma peer_sockets_insert_heap (c : nat) (st st' : state) :
  peer_sockets_insert c st = Ok st' -> st_heap st' = st_heap st.
Proof. unfold peer_sockets_insert. intros H. by crush_ok. Qed.

Lemma erase_if_identified_heap (c : nat) (st st' : state) :
  erase_if_identified c st = Ok st' -> st_heap st' = st_heap st.
Proof. unfold erase_if_identified, peer_sockets_erase. intros H. by crush_ok. Qed.

Lemma send_fds_heap (ok : bool) (elems : list nat) (er : bool) (st st' : state) (n : nat) :
  send_fds ok elems er st = Ok (n, st') -> st_heap st' = st_heap st.
Proof. unfold send_fds. intros H. crush_ok; by destruct er. Qed.

(** Uses what is known about heap-preserving calls among the hypotheses. *)
Ltac heap_same :=
  repeat match goal with
  | H : peer_sockets_insert _ _ = Ok _ |- _ => apply peer_sockets_insert_heap in H
  | H : erase_if_identified _ _ = Ok _ |- _ => apply erase_if_identified_heap in H
  | H : send_fds _ _ _ _ = Ok _ |- _ => apply send_fds_heap in H
  end;
  simpl in *; try congruence.

Lemma decay_ship_heap (ok : bool) (c : nat) (st st' : state) :
  decay_ship ok c st = Ok st' -> st_heap st' = st_heap st.
Proof. unfold decay_ship, send_fd. intros H. crush_ok. heap_same. Qed.

Lemma close_servers_heap (st st' : state) :
  close_servers st = Ok st' -> st_heap st' = st_heap st.
Proof.
  unfold close_servers. intros H.
  eapply (for_each_invariant (fun s => st_heap s = st_heap st)) in H; [done| |done].
  intros s p s' Hs Hstep. crush_ok. done.
Qed.

Lemma bulk_send_heap (n : nat) :
  forall (k : nat) (ok : nat -> bool) (st st' : state),
    bulk_send n k ok st = Ok st' -> st_heap st' = st_heap st.
Proof.
  induction n as [|n IH]; intros k ok st st' H; simpl in H; [discriminate|].
  crush_ok.
  - apply IH in H. heap_same.
  - heap_same.
Qed.

Lemma ctrl_accept_event_heap (ev : event) (st st' : state) :
  ctrl_accept_event ev st = Ok st' -> st_heap st' = st_heap st.
Proof. unfold ctrl_accept_event. intros H. by crush_ok. Qed.

Lemma ctrl_command_event_heap (ev : event) (st st' : state) (r : bool) :
  ctrl_command_event ev st = Ok (st', r) -> st_heap st' = st_heap st.
Proof.
  unfold ctrl_command_event. intros H. crush_ok; try done;
    repeat match goal with
    | H : bulk_send _ _ _ _ = Ok _ |- _ => apply bulk_send_heap in H
    | H : close_servers _ = Ok _ |- _ => apply close_servers_heap in H
    end; simpl in *; congruence.
Qed.

(** The bound is kept by every handler. *)
Lemma close_connection_bounded (fuel : nat) (del : bool) (c : nat) (st st' : state) :
  close_connection fuel del c st = Ok st' ->
  bounded (st_heap st) -> bounded (st_heap st').
Proof.
  unfold close_connection. intros H Hb.
  apply bind_Ok in H as (x & Hx & H).
  apply bind_Ok in H as (st2 & He & H). apply erase_if_identified_heap in He.
  apply bind_Ok in H as (st3 & Hr & H). unfold on_heap in Hr.
  apply bind_Ok in Hr as (h3 & Hr & E3). simplify_eq. simpl in *.
  apply remove_myself_bounded in Hr; [|rewrite He; by destruct del].
  apply bind_Ok in H as (x3 & Hx3 & H). apply deref_Ok in Hx3. simpl in Hx3.
  assert (bounded (<[c := set_refcount (refcount x3 - 1) x3]> h3)) as Hb'
    by (apply bounded_insert; [solve_cache_ok|done]).
  destruct (_ =? 0).
  - unfold on_heap in H. apply bind_Ok in H as (h4 & Hd & E4). simplify_eq. simpl.
    by eapply deallocate_fdctx_bounded.
  - apply bind_Ok in H as (x4 & Hx4 & H). apply deref_Ok in Hx4. simplify_eq. simpl in *.
    apply bounded_insert; [solve_cache_ok|done].
Qed.

Lemma lookup_peer_bounded (fuel : nat) (c : nat) (uid : Z) (st st' : state)
    (r : option nat) :
  lookup_peer fuel c uid st = Ok (r, st') ->
  bounded (st_heap st) -> bounded (st_heap st').
Proof.
  unfold lookup_peer. intros H Hb. crush_ok; simpl; try done.
  by eapply add_bounded.
Qed.

Lemma rewrite_and_write_bounded (c peer : nat) (o sz : Z) (st st' : state) :
  rewrite_and_write c peer o sz st = Ok st' ->
  bounded (st_heap st) -> bounded (st_heap st').
Proof.
  unfold rewrite_and_write. intros H Hb. crush_ok; simpl.
  apply bounded_insert; [solve_cache_ok|done].
Qed.

Lemma forward_bounded (fuel : nat) (c : nat) (o sz : Z) (st st' : state) :
  forward fuel c o sz st = Ok st' ->
  bounded (st_heap st) -> bounded (st_heap st').
Proof.
  unfold forward. intros H Hb. crush_ok.
  - eapply rewrite_and_write_bounded; [eassumption|].
    by eapply lookup_peer_bounded.
  - by eapply lookup_peer_bounded.
Qed.

Lemma parse_loop_bounded (sz : Z) (fuel : nat) (c : nat) (n : nat) :
  forall (o : Z) (st st' : state) (r : option Z),
    parse_loop sz fuel n c o st = Ok (st', r) ->
    bounded (st_heap st) -> bounded (st_heap st').
Proof.
  induction n as [|n IH]; intros o st st' r H Hb; simpl in H; [discriminate|].
  crush_ok; try done.
  - by eapply close_connection_bounded.
  - eapply IH; [eassumption|].
    match goal with
    | H : peer_sockets_insert _ _ = Ok _ |- _ => rewrite (peer_sockets_insert_heap _ _ _ H)
    end. simpl.
    apply bounded_insert; [solve_cache_ok|done].
  - by eapply IH.
  - eapply IH; [eassumption|]. by eapply forward_bounded.
Qed.

Lemma compact_bounded (c : nat) (o : Z) (st st' : state) :
  compact c o st = Ok st' -> bounded (st_heap st) -> bounded (st_heap st').
Proof.
  unfold compact. intros H Hb. crush_ok; simpl;
    (apply bounded_insert; [solve_cache_ok|done]).
Qed.

Lemma peer_event_bounded (sz : Z) (fuel : nat) (c : nat) (rd : read_result) (ok : bool)
    (st st' : state) :
  peer_event sz fuel c rd ok st = Ok st' ->
  bounded (st_heap st) -> bounded (st_heap st').
Proof.
  unfold peer_event. intros H Hb.
  apply bind_Ok in H as (x & Hx & H). apply deref_Ok in Hx.
  destruct (decay_mode st && (buf_len x =? 0)).
  { by rewrite (decay_ship_heap _ _ _ _ H). }
  destruct rd as [e|offered]; [by simplify_eq|].
  destruct (_ <? 0); [discriminate|].
  destruct (take _ offered) as [|b0 data] eqn:Ed.
  { by eapply close_connection_bounded. }
  apply bind_Ok in H as (b & Hst & H).
  apply bind_Ok in H as ([st2 r] & Hloop & H).
  apply bind_Ok in H as (st3 & Hc & H).
  assert (bounded (st_heap st3)) as Hb3.
  { apply parse_loop_bounded in Hloop;
      [|simpl; apply bounded_insert; [solve_cache_ok|done]].
    destruct r; [by eapply compact_bounded|by simplify_eq]. }
  crush_ok; try done; by rewrite (decay_ship_heap _ _ _ _ H).
Qed.

Lemma tcp_accept_event_bounded (sz : Z) (fuel : nat) (ev : event) (st st' : state) :
  tcp_accept_event sz fuel ev st = Ok st' ->
  bounded (st_heap st) -> bounded (st_heap st').
Proof.
  unfold tcp_accept_event. intros H Hb. crush_ok; simpl in *; try done.
  - apply bounded_insert; [solve_cache_ok|done].
  - eapply deallocate_fdctx_bounded; [eassumption|].
    apply bounded_insert; [solve_cache_ok|done].
Qed.

Lemma inherit_socket_bounded (sz : Z) (fuel : nat) (ok : bool) (mem : list byte)
    (uid fdn : Z) (st st' : state) :
  inherit_socket sz fuel ok mem uid fdn st = Ok st' ->
  bounded (st_heap st) -> bounded (st_heap st').
Proof.
  unfold inherit_socket. intros H Hb.
  apply bind_Ok in H as (st4 & H4 & H).
  assert (bounded (st_heap st4)) as Hb4.
  { clear H. destruct ok; crush_ok; simpl in *.
    - apply bounded_insert; [solve_cache_ok|done].
    - eapply deallocate_fdctx_bounded; [eassumption|].
      apply bounded_insert; [solve_cache_ok|done]. }
  crush_ok; first
    [ done
    | match goal with
      | H : peer_sockets_insert _ _ = Ok _ |- _ =>
          by rewrite (peer_sockets_insert_heap _ _ _ H)
      end ].
Qed.

Lemma ctrl_client_event_bounded (sz : Z) (fuel : nat) (ev : event) (st st' : state) :
  ctrl_client_event sz fuel ev st = Ok st' ->
  bounded (st_heap st) -> bounded (st_heap st').
Proof.
  unfold ctrl_client_event. intros H Hb.
  destruct (ev_read ev) as [e|offered]; [by simplify_eq|].
  destruct (take _ offered) as [|b0 data]; [by simplify_eq|].
  apply bind_Ok in H as (is_desc & _ & H). destruct is_desc.
  - destruct (ev_cmsg ev) as [[rights fds]|]; [|discriminate].
    destruct (negb rights); [discriminate|].
    eapply (for_each_invariant (fun s => bounded (st_heap s))) in H; [done| |done].
    intros s k s' Hs Hstep. crush_ok. by eapply inherit_socket_bounded.
  - apply bind_Ok in H as (is_exit & _ & H). destruct is_exit; [|by simplify_eq].
    destruct (ev_socket ev <? 0); [by simplify_eq|].
    unfold ctrl_socket_listen in H.
    repeat match type of H with
    | context [if ?b then _ else _] => destruct b
    end; by simplify_eq.
Qed.

Lemma handle_event_bounded (sz : Z) (fuel : nat) (ev : event) (st st' : state) (r : bool) :
  handle_event sz fuel ev st = Ok (st', r) ->
  bounded (st_heap st) -> bounded (st_heap st').
Proof.
  unfold handle_event. intros H Hb.
  destruct (ev_target ev) as [| |p].
  - crush_ok. match goal with
    | H : ctrl_accept_event _ _ = Ok _ |- _ => by rewrite (ctrl_accept_event_heap _ _ _ H)
    end.
  - destruct (ctrl_socket_mode_listen st).
    + by rewrite (ctrl_command_event_heap _ _ _ _ H).
    + crush_ok. by eapply ctrl_client_event_bounded.
  - apply bind_Ok in H as (x & _ & H).
    destruct (is_server x && (protocol x =? IPPROTO_TCP)); crush_ok.
    + by eapply tcp_accept_event_bounded.
    + by eapply peer_event_bounded.
Qed.

Lemma handle_events_bounded (sz : Z) (fuel : nat) (evs : list event) :
  forall (st st' : state),
    handle_events sz fuel evs st = Ok st' ->
    bounded (st_heap st) -> bounded (st_heap st').
Proof.
  induction evs as [|ev evs IH]; intros st st' H Hb; simpl in H; [by simplify_eq|].
  apply bind_Ok in H as ([st1 r] & H1 & H).
  apply handle_event_bounded in H1; [|done].
  destruct r; [by simplify_eq|]. by eapply IH.
Qed.

Lemma loop_iteration_bounded (sz : Z) (fuel : nat) (it : iteration) (st st' : state) :
  loop_iteration sz fuel it st = Ok st' ->
  bounded (st_heap st) -> bounded (st_heap st').
Proof.
  unfold loop_iteration. intros H Hb.
  apply bind_Ok in H as (st1 & H1 & H).
  assert (bounded (st_heap st1)) as Hb1.
  { destruct (it_sigusr1 it); [|by simplify_eq].
    by rewrite (close_servers_heap _ _ H1). }
  destruct (it_ready it); [|by simplify_eq].
  by eapply handle_events_bounded.
Qed.

Lemma main_loop_bounded (sz : Z) (fuel : nat) (its : list iteration) :
  forall (st st' : state) (done : bool),
    main_loop sz fuel its st = Ok (st', done) ->
    bounded (st_heap st) -> bounded (st_heap st').
Proof.
  induction its as [|it its IH]; intros st st' dn H Hb; simpl in H.
  - destruct (total_sockets st =? 0); simplify_eq; [|done].
    unfold shutdown. by destruct (_ && _).
  - destruct (total_sockets st =? 0).
    + simplify_eq. unfold shutdown. by destruct (_ && _).
    + apply bind_Ok in H as (st1 & H1 & H).
      eapply IH; [exact H|]. by eapply loop_iteration_bounded.
Qed.

Lemma startup_bounded (sz : Z) (env : startup_env) (st : state) :
  startup sz env = Ok st -> bounded (st_heap st).
Proof.
  unfold startup. intros H.
  destruct (_ <? 0); [discriminate|].
  apply bind_Ok in H as (st1 & H1 & H).
  assert (bounded (st_heap st1)) as Hb1.
  { unfold startup_ctrl, ctrl_socket_listen in H1.
    repeat match type of H1 with
    | context [if ?b then _ else _] => destruct b
    | context [match ?x with _ => _ end] => destruct x
    end; crush_ok; simpl; apply map_Forall_empty. }
  destruct (se_getaddrinfo env) as [ais|]; [|discriminate].
  apply bind_Ok in H as (st2 & H2 & H).
  apply bind_Ok in H as (st3 & H3 & H). simplify_eq. simpl.
  eapply (for_each_invariant (fun s => bounded (st_heap s))) in H3; [done| |].
  { intros s p s' Hs Hstep. crush_ok. done. }
  eapply (for_each_invariant (fun s => bounded (st_heap s))) in H2; [done| |done].
  intros s a s' Hs Hstep. unfold startup_listener in Hstep. crush_ok. simpl.
  apply bounded_insert; [solve_cache_ok|done].
Qed.

(** C5.  In every state the program reaches, every peer cache holds at most
    [MAX_PEERS] = 16 entries.  On such a cache, [add] with room left puts
    [p] at position 0 in front of the older entries and raises the reference
    count of [p] by one.  On a full cache it first releases exactly the
    tail: the tail's count goes down by one when other references remain,
    and the tail is destroyed when that was the last one; then [p] is put
    in front of the fifteen entries that stay, and its count is raised. *)
Theorem peer_cache_bounded_mru (sz : Z) (fuel : nat) (env : startup_env)
    (its : list iteration) (st0 st : state) (done : bool) (owner p : nat) (x : fd_ctx) :
  startup sz env = Ok st0 ->
  main_loop sz fuel its st0 = Ok (st, done) ->
  st_heap st !! owner = Some x ->
  (length (cache_entries x) <= MAX_PEERS)%nat /\
  ((npeers (ctx_peers x) < MAX_PEERS)%nat -> is_Some (st_heap st !! p) ->
     exists h', add (S fuel) owner p (st_heap st) = Ok h' /\
                add_post (st_heap st) h' owner p (cache_entries x)) /\
  (npeers (ctx_peers x) = MAX_PEERS ->
     forall t yt, last (cache_entries x) = Some t -> st_heap st !! t = Some yt ->
       (refcount yt <> 1 -> is_Some (st_heap st !! p) ->
          exists h', add (S (S fuel)) owner p (st_heap st) = Ok h' /\
                     add_post (<[t := set_refcount (refcount yt - 1) yt]> (st_heap st))
                       h' owner p (removelast (cache_entries x))) /\
       (refcount yt = 1 ->
          forall h1,
            deallocate_fdctx (S fuel) t (<[t := set_refcount 0 yt]> (st_heap st)) = Ok h1 ->
            is_Some (h1 !! owner) -> is_Some (h1 !! p) ->
            h1 !! t = None /\
            exists h', add (S (S fuel)) owner p (st_heap st) = Ok h' /\
                       add_post h1 h' owner p (removelast (cache_entries x)))).
Proof.
  intros Hstart Hloop Hx.
  assert (bounded (st_heap st)) as Hb
    by (eapply main_loop_bounded; [exact Hloop|by eapply startup_bounded]).
  pose proof (bounded_lookup _ _ _ Hb Hx) as Hok. destruct (Hok) as [Hle Hlen].
  split; [unfold cache_entries; rewrite length_take; lia|]. split.
  - intros Hlt Hp. rewrite (add_not_full fuel owner p _ x Hx Hlt).
    by apply add_front_post.
  - intros Hfull t yt Hlast Ht.
    assert (peers (ctx_peers x) !! 15%nat = Some t) as Ht15.
    { unfold cache_entries in Hlast. rewrite Hfull, <- Hlen, firstn_all in Hlast.
      rewrite last_lookup, Hlen in Hlast. exact Hlast. }
    pose proof (unref_cases (deallocate_fdctx (S fuel)) t _ yt Ht) as Hun.
    split.
    + intros Hrc Hp. rewrite (proj2 (Z.eqb_neq _ _) Hrc) in Hun.
      eapply add_full; eauto.
      * destruct (decide (t = owner)) as [->|Hne].
        -- rewrite lookup_insert_eq. eauto.
        -- rewrite lookup_insert_ne by done. eauto.
      * destruct (decide (t = p)) as [->|Hne].
        -- rewrite lookup_insert_eq. eauto.
        -- rewrite lookup_insert_ne by done. eauto.
    + intros Hrc h1 Hd Ho Hp. rewrite Hrc, Z.eqb_refl, Hd in Hun.
      split; [by eapply deallocate_fdctx_freed|].
      eapply add_full; eauto.
Qed.

(** ** Decay is never left *)

Lemma decay_kept_refl (st : state) : decay_kept st st.
Proof.
  intros Hd. split; [done|]. split; [done|].
  exists []. split; [by rewrite app_nil_r|constructor].
Qed.

Lemma decay_kept_trans (st1 st2 st3 : state) :
  decay_kept st1 st2 -> decay_kept st2 st3 -> decay_kept st1 st3.
Proof.
  intros H12 H23 Hd.
  destruct (H12 Hd) as (Hd2 & Hs2 & evs2 & Ht2 & Hq2).
  destruct (H23 Hd2) as (Hd3 & Hs3 & evs3 & Ht3 & Hq3).
  split; [done|]. split; [congruence|].
  exists (evs2 ++ evs3). split; [by rewrite Ht3, Ht2, app_assoc|].
  by apply Forall_app.
Qed.

Lemma quiet_flat_map_close (fds : list Z) :
  quiet (flat_map (fun f => [sys_epoll_del f; sys_close f]) fds).
Proof. induction fds; simpl; repeat constructor. done. Qed.

(** Closes a goal [decay_kept st st'] where [st'] is [st] with fields
    replaced and quiet calls emitted. *)
Ltac dk_now :=
  let Hd := fresh "Hd" in
  intros Hd; destruct Hd as [? ?]; simpl;
  split; [split; simpl; congruence|];
  split; [done|];
  first
    [ exists []; split; [by rewrite app_nil_r | constructor]
    | eexists; split;
      [rewrite <- ?app_assoc; reflexivity
      |solve [repeat first [apply quiet_flat_map_close | constructor]]] ].

Lemma decay_kept_on_heap (f : gmap nat fd_ctx -> outcome (gmap nat fd_ctx))
    (st st' : state) :
  on_heap f st = Ok st' -> decay_kept st st'.
Proof. unfold on_heap. intros H. crush_ok; dk_now. Qed.

Lemma peer_sockets_insert_decay (c : nat) (st st' : state) :
  peer_sockets_insert c st = Ok st' -> decay_kept st st'.
Proof. unfold peer_sockets_insert. intros H. crush_ok; dk_now. Qed.

Lemma erase_if_identified_decay (c : nat) (st st' : state) :
  erase_if_identified c st = Ok st' -> decay_kept st st'.
Proof.
  unfold erase_if_identified, peer_sockets_erase. intros H. crush_ok.
  - apply decay_kept_refl.
  - dk_now.
Qed.

Lemma send_fds_decay (ok : bool) (elems : list nat) (er : bool) (st st' : state) (n : nat) :
  send_fds ok elems er st = Ok (n, st') -> decay_kept st st'.
Proof.
  unfold send_fds. intros H. crush_ok; destruct er; dk_now.
Qed.

Lemma decay_ship_decay (ok : bool) (c : nat) (st st' : state) :
  decay_ship ok c st = Ok st' -> decay_kept st st'.
Proof.
  unfold decay_ship, send_fd. intros H.
  apply bind_Ok in H as ([n st1] & H1 & H).
  eapply decay_kept_trans; [by eapply send_fds_decay|by eapply erase_if_identified_decay].
Qed.

Lemma close_servers_decay (st st' : state) :
  close_servers st = Ok st' -> decay_kept st st'.
Proof.
  unfold close_servers. intros H.
  eapply (for_each_invariant (decay_kept st)) in H; [done| |apply decay_kept_refl].
  intros s p s' Hs Hstep. eapply decay_kept_trans; [exact Hs|].
  crush_ok; dk_now.
Qed.

Lemma bulk_send_decay (n : nat) :
  forall (k : nat) (ok : nat -> bool) (st st' : state),
    bulk_send n k ok st = Ok st' -> decay_kept st st'.
Proof.
  induction n as [|n IH]; intros k ok st st' H; simpl in H; [discriminate|].
  apply bind_Ok in H as ([nsent st1] & H1 & H).
  apply send_fds_decay in H1.
  destruct (_ && _).
  - eapply decay_kept_trans; [exact H1|by eapply IH].
  - by simplify_eq.
Qed.

Lemma ctrl_accept_event_decay (ev : event) (st st' : state) :
  ctrl_accept_event ev st = Ok st' -> decay_kept st st'.
Proof. unfold ctrl_accept_event. intros H. crush_ok; dk_now. Qed.

Lemma ctrl_command_event_decay (ev : event) (st st' : state) (r : bool) :
  ctrl_command_event ev st = Ok (st', r) -> decay_kept st st'.
Proof.
  unfold ctrl_command_event, poll_in. intros H.
  destruct (ev_read ev) as [e|offered].
  { crush_ok; dk_now. }
  destruct (take 32%nat offered) as [|b0 data]; [crush_ok; dk_now|].
  apply bind_Ok in H as (c & _ & H). destruct c; [|crush_ok; apply decay_kept_refl].
  apply bind_Ok in H as (st1 & H1 & H). apply close_servers_decay in H1.
  eapply decay_kept_trans; [exact H1|].
  destruct (negb (ev_write_ok ev)); [crush_ok; dk_now|].
  apply bind_Ok in H as (st3 & H3 & H). apply bulk_send_decay in H3. simplify_eq.
  eapply decay_kept_trans; [|eapply decay_kept_trans; [exact H3|]]; dk_now.
Qed.

Lemma close_connection_decay (fuel : nat) (del : bool) (c : nat) (st st' : state) :
  close_connection fuel del c st = Ok st' -> decay_kept st st'.
Proof.
  unfold close_connection. intros H.
  apply bind_Ok in H as (x & Hx & H).
  apply bind_Ok in H as (st2 & He & H). apply erase_if_identified_decay in He.
  apply bind_Ok in H as (st3 & Hr & H). apply decay_kept_on_heap in Hr.
  apply bind_Ok in H as (x3 & Hx3 & H).
  eapply decay_kept_trans; [|eapply decay_kept_trans; [exact He|]];
    [destruct del; dk_now|].
  eapply decay_kept_trans; [exact Hr|].
  destruct (_ =? 0).
  - eapply decay_kept_trans; [|by eapply decay_kept_on_heap]. dk_now.
  - crush_ok; dk_now.
Qed.

Lemma parse_loop_decay (sz : Z) (fuel : nat) (c : nat) (n : nat) :
  forall (o : Z) (st st' : state) (r : option Z),
    parse_loop sz fuel n c o st = Ok (st', r) -> decay_kept st st'.
Proof.
  induction n as [|n IH]; intros o st st' r H; simpl in H; [discriminate|].
  apply bind_Ok in H as (x & Hx & H).
  destruct (o <? buf_len x); [|crush_ok; apply decay_kept_refl].
  destruct (_ <? 4); [crush_ok; apply decay_kept_refl|].
  apply bind_Ok in H as (szb & _ & H).
  destruct (_ >? _).
  { apply bind_Ok in H as (st1 & H1 & H). simplify_eq.
    by eapply close_connection_decay. }
  destruct (_ >? _); [crush_ok; apply decay_kept_refl|].
  destruct (faf_uid x =? -1).
  - apply bind_Ok in H as (u & _ & H).
    apply bind_Ok in H as (st2 & H2 & H). apply peer_sockets_insert_decay in H2.
    apply IH in H.
    eapply decay_kept_trans; [|eapply decay_kept_trans; [exact H2|exact H]]. dk_now.
  - intros Hd. pose proof Hd as [Hdm _]. rewrite Hdm in H. simpl in H.
    by apply (IH _ _ _ _ H).
Qed.

Lemma compact_decay (c : nat) (o : Z) (st st' : state) :
  compact c o st = Ok st' -> decay_kept st st'.
Proof. unfold compact. intros H. crush_ok; dk_now. Qed.

Lemma peer_event_decay (sz : Z) (fuel : nat) (c : nat) (rd : read_result) (ok : bool)
    (st st' : state) :
  peer_event sz fuel c rd ok st = Ok st' -> decay_kept st st'.
Proof.
  unfold peer_event. intros H.
  apply bind_Ok in H as (x & Hx & H).
  destruct (decay_mode st && (buf_len x =? 0)); [by eapply decay_ship_decay|].
  destruct rd as [e|offered]; [crush_ok; apply decay_kept_refl|].
  destruct (_ <? 0); [discriminate|].
  destruct (take _ offered) as [|b0 data]; [by eapply close_connection_decay|].
  apply bind_Ok in H as (b & _ & H).
  apply bind_Ok in H as ([st2 r] & Hloop & H). apply parse_loop_decay in Hloop.
  apply bind_Ok in H as (st3 & Hc & H).
  eapply decay_kept_trans; [|eapply decay_kept_trans; [exact Hloop|]]; [dk_now|].
  assert (decay_kept st2 st3) as H23.
  { clear H. destruct r; [by eapply compact_decay|crush_ok; apply decay_kept_refl]. }
  eapply decay_kept_trans; [exact H23|].
  destruct (decay_mode st3); [|crush_ok; apply decay_kept_refl].
  apply bind_Ok in H as (x3 & _ & H).
  destruct (_ =? 0); [by eapply decay_ship_decay|crush_ok; apply decay_kept_refl].
Qed.

Lemma tcp_accept_event_decay (sz : Z) (fuel : nat) (ev : event) (st st' : state) :
  tcp_accept_event sz fuel ev st = Ok st' -> decay_kept st st'.
Proof.
  unfold tcp_accept_event. intros H.
  destruct (_ <? 0); [crush_ok; apply decay_kept_refl|].
  destruct (ev_epoll_add_ok ev 0%nat); [crush_ok; dk_now|].
  eapply decay_kept_trans; [|by eapply decay_kept_on_heap]. dk_now.
Qed.

Lemma handle_event_decay (sz : Z) (fuel : nat) (ev : event) (st st' : state) (r : bool) :
  handle_event sz fuel ev st = Ok (st', r) -> decay_kept st st'.
Proof.
  unfold handle_event. intros H Hd. pose proof Hd as [_ Hl].
  destruct (ev_target ev) as [| |p].
  - crush_ok. by eapply ctrl_accept_event_decay.
  - rewrite Hl in H. by eapply ctrl_command_event_decay.
  - apply bind_Ok in H as (x & _ & H).
    destruct (is_server x && (protocol x =? IPPROTO_TCP)); crush_ok.
    + by eapply tcp_accept_event_decay.
    + by eapply peer_event_decay.
Qed.

Lemma handle_events_decay (sz : Z) (fuel : nat) (evs : list event) :
  forall (st st' : state),
    handle_events sz fuel evs st = Ok st' -> decay_kept st st'.
Proof.
  induction evs as [|ev evs IH]; intros st st' H; simpl in H;
    [crush_ok; apply decay_kept_refl|].
  apply bind_Ok in H as ([st1 r] & H1 & H). apply handle_event_decay in H1.
  destruct r; [by simplify_eq|].
  eapply decay_kept_trans; [exact H1|by eapply IH].
Qed.

Lemma loop_iteration_decay (sz : Z) (fuel : nat) (it : iteration) (st st' : state) :
  loop_iteration sz fuel it st = Ok st' -> decay_kept st st'.
Proof.
  unfold loop_iteration. intros H.
  apply bind_Ok in H as (st1 & H1 & H).
  assert (decay_kept st st1) as H01.
  { clear H. destruct (it_sigusr1 it); [by apply close_servers_decay|].
    crush_ok; apply decay_kept_refl. }
  eapply decay_kept_trans; [exact H01|].
  destruct (it_ready it); [by eapply handle_events_decay|].
  crush_ok; apply decay_kept_refl.
Qed.

Lemma shutdown_decay (st : state) : decay_kept st (shutdown st).
Proof. unfold shutdown. destruct (_ && _); [dk_now|apply decay_kept_refl]. Qed.

Lemma main_loop_decay (sz : Z) (fuel : nat) (its : list iteration) :
  forall (st st' : state) (done : bool),
    main_loop sz fuel its st = Ok (st', done) -> decay_kept st st'.
Proof.
  induction its as [|it its IH]; intros st st' dn H; simpl in H.
  - destruct (total_sockets st =? 0); simplify_eq;
      [apply shutdown_decay|apply decay_kept_refl].
  - destruct (total_sockets st =? 0).
    + simplify_eq. apply shutdown_decay.
    + apply bind_Ok in H as (st1 & H1 & H). apply loop_iteration_decay in H1.
      eapply decay_kept_trans; [exact H1|by eapply IH].
Qed.

(** Serving "unlisten" to the end is what sets [decay_mode] (and
    [epoll_restart]). *)
Lemma unlisten_enters_decay (ev : event) (st st1 : state) :
  ctrl_command_event ev st = Ok (st1, true) ->
  decay_mode st1 = true /\
  ctrl_socket_mode_listen st1 = ctrl_socket_mode_listen st /\
  server_sockets st1 = server_sockets st.
Proof.
  unfold ctrl_command_event, poll_in. intros H.
  destruct (ev_read ev) as [e|offered]; [crush_ok|].
  destruct (take 32%nat offered) as [|b0 data]; [crush_ok|].
  apply bind_Ok in H as (c & _ & H). destruct c; [|crush_ok].
  apply bind_Ok in H as (st2 & H2 & H).
  destruct (negb (ev_write_ok ev)); [crush_ok|].
  apply bind_Ok in H as (st3 & H3 & H). simplify_eq. simpl.
  split; [done|].
  assert (forall n k ok s s', bulk_send n k ok s = Ok s' ->
            ctrl_socket_mode_listen s' = ctrl_socket_mode_listen s /\
            server_sockets s' = server_sockets s) as Hbulk.
  { clear. induction n as [|n IH]; intros k ok s s' H; simpl in H; [discriminate|].
    apply bind_Ok in H as ([nsent s1] & H1 & H).
    assert (ctrl_socket_mode_listen s1 = ctrl_socket_mode_listen s /\
            server_sockets s1 = server_sockets s) as [E1 E2].
    { clear H. unfold send_fds in H1. crush_ok; done. }
    destruct (_ && _).
    - apply IH in H as [? ?]. split; congruence.
    - simplify_eq. done. }
  apply Hbulk in H3 as [E1 E2]. simpl in *.
  assert (ctrl_socket_mode_listen st2 = ctrl_socket_mode_listen st /\
          server_sockets st2 = server_sockets st) as [E3 E4].
  { unfold close_servers in H2.
    eapply (for_each_invariant
              (fun s => ctrl_socket_mode_listen s = ctrl_socket_mode_listen st /\
                        server_sockets s = server_sockets st)) in H2; [done| |done].
    intros s p s' [? ?] Hstep. crush_ok. done. }
  split; congruence.
Qed.

(** C7.  Once a listening instance has served "unlisten" and entered decay,
    however the loop goes on from there it stays in decay: [decay_mode]
    and [ctrl_socket_mode_listen] remain set, no [write] to a peer is issued
    (no addressed message is forwarded), no socket is bound or put into
    the listening state, and the listener contexts stay as they were when
    they were closed. *)
Theorem decay_never_left (sz : Z) (fuel : nat) (ev : event) (its : list iteration)
    (st st1 st' : state) (done : bool) :
  ctrl_socket_mode_listen st = true ->
  ctrl_command_event ev st = Ok (st1, true) ->
  main_loop sz fuel its st1 = Ok (st', done) ->
  decay_mode st1 = true /\
  decay_mode st' = true /\
  ctrl_socket_mode_listen st' = true /\
  server_sockets st' = server_sockets st /\
  exists evs, trace st' = trace st1 ++ evs /\ quiet evs.
Proof.
  intros Hl Hcmd Hloop.
  destruct (unlisten_enters_decay _ _ _ Hcmd) as (Hd & El & Es).
  split; [done|].
  destruct (main_loop_decay _ _ _ _ _ _ Hloop) as ([Hd' Hl'] & Hs & evs & Ht & Hq).
  { split; congruence. }
  repeat split; try done; [congruence|eauto].
Qed.

(** ** Frames in the buffer *)

Lemma load_frame (bf pre F post : list byte) (k : nat) (n : nat) :
  bf = pre ++ F ++ post -> (k + n <= length F)%nat ->
  load bf (Z.of_nat (length pre) + Z.of_nat k) n = Ok (take n (drop k F)).
Proof.
  intros -> Hk. unfold load.
  rewrite !length_app.
  rewrite (proj2 (Z.leb_le 0 _)) by lia.
  rewrite (proj2 (Z.leb_le _ _)) by lia. simpl. f_equal.
  replace (Z.to_nat (Z.of_nat (length pre) + Z.of_nat k)) with (length pre + k)%nat by lia.
  rewrite <- drop_drop, drop_app_length.
  rewrite drop_app_le by lia. rewrite take_app_le by (rewrite length_drop; lia). done.
Qed.

Lemma store_frame (bf pre F post bs : list byte) (k : nat) :
  bf = pre ++ F ++ post -> (k + length bs <= length F)%nat ->
  store bf (Z.of_nat (length pre) + Z.of_nat k) bs =
    Ok (pre ++ (take k F ++ bs ++ drop (k + length bs) F) ++ post).
Proof.
  intros -> Hk. unfold store.
  rewrite !length_app.
  rewrite (proj2 (Z.leb_le 0 _)) by lia.
  rewrite (proj2 (Z.leb_le _ _)) by lia. simpl. f_equal.
  replace (Z.to_nat (Z.of_nat (length pre) + Z.of_nat k)) with (length pre + k)%nat by lia.
  rewrite take_app_ge, drop_app_ge by lia.
  replace (length pre + k - length pre)%nat with k by lia.
  replace (length pre + k + length bs - length pre)%nat with (k + length bs)%nat by lia.
  rewrite take_app_le, drop_app_le by lia.
  by rewrite <- !app_assoc.
Qed.

Lemma rewrite_lists (hs portb destb payload out4 : list byte) :
  length hs = 4%nat -> length portb = 2%nat -> length destb = 2%nat ->
  length out4 = 4%nat ->
  let F := hs ++ portb ++ destb ++ payload in
  let F1 := take 6 F ++ portb ++ drop (6 + length portb) F in
  let F2 := take 2 F1 ++ out4 ++ drop (2 + length out4) F1 in
  F2 = take 2 hs ++ out4 ++ portb ++ payload /\
  take (6 + length payload) (drop 2 F2) = out4 ++ portb ++ payload.
Proof.
  intros Hh Hp Hd Ho.
  destruct hs as [|h0 [|h1 [|h2 [|h3 [|]]]]]; try discriminate.
  destruct portb as [|p0 [|p1 [|]]]; try discriminate.
  destruct destb as [|d0 [|d1 [|]]]; try discriminate.
  destruct out4 as [|o0 [|o1 [|o2 [|o3 [|]]]]]; try discriminate.
  simpl. rewrite drop_0. split; [done|]. by rewrite firstn_all.
Qed.

Lemma rewrite_and_write_frame (c peer : nat) (st : state) (x y : fd_ctx)
    (pre portb destb payload post : list byte) (size : Z) :
  st_heap st !! c = Some x ->
  st_heap st !! peer = Some y ->
  buf x = pre ++ (htonl size ++ portb ++ destb ++ payload) ++ post ->
  length portb = 2%nat -> length destb = 2%nat ->
  Z.of_nat (length payload) = size - 4 -> size < 2147483648 ->
  rewrite_and_write c peer (Z.of_nat (length pre)) size st =
    Ok (emit [sys_write_peer (fd y) (outbound size portb payload)]
          (with_heap
             (<[c := set_buf (pre ++ rewritten size portb payload ++ post) x]> (st_heap st))
             st)).
Proof.
  intros Hx Hy Hb Hp Hd Hpl Hsz. unfold rewrite_and_write, OUT_HEADER_OFFSET_ADJ.
  change (8 - 6) with 2. rewrite (to_int32_small (size - 2)) by lia.
  rewrite (proj2 (deref_Ok _ _ _) Hx). cbn [mbind outcome_bind].
  set (F := htonl size ++ portb ++ destb ++ payload) in *.
  assert (length F = (8 + length payload)%nat) as HF
    by (unfold F; rewrite !length_app, length_htonl; lia).
  replace (Z.of_nat (length pre) + 4)
    with (Z.of_nat (length pre) + Z.of_nat 4) by lia.
  rewrite (load_frame _ pre F post 4 2 Hb) by lia.
  cbn [mbind outcome_bind].
  assert (take 2 (drop 4 F) = portb) as ->.
  { unfold F. rewrite drop_app_length' by done. by rewrite take_app_length'. }
  rewrite (htons_ntohs portb Hp).
  replace (Z.of_nat (length pre) + 2 + 4)
    with (Z.of_nat (length pre) + Z.of_nat 6) by lia.
  rewrite (store_frame _ pre F post portb 6 Hb) by lia.
  cbn [mbind outcome_bind].
  replace (Z.of_nat (length pre) + 2)
    with (Z.of_nat (length pre) + Z.of_nat 2) by lia.
  set (F1 := take 6 F ++ portb ++ drop (6 + length portb) F).
  assert (length F1 = length F) as HF1.
  { unfold F1. rewrite !length_app, length_take, length_drop. lia. }
  rewrite (store_frame _ pre F1 post (htonl _) 2 eq_refl)
    by (rewrite length_htonl; lia).
  cbn [mbind outcome_bind].
  set (F2 := take 2 F1 ++ htonl _ ++ drop (2 + length (htonl _)) F1).
  assert (length F2 = length F) as HF2.
  { unfold F2. rewrite !length_app, length_take, length_drop, length_htonl. lia. }
  destruct (rewrite_lists (htonl size) portb destb payload (htonl (size - 2)))
    as [E2 Eout]; try done.
  fold F in E2, Eout. fold F1 in E2, Eout.
  change (take 2 F1 ++ htonl (size - 2) ++ drop (2 + length (htonl (size - 2))) F1)
    with F2 in E2, Eout.
  assert (deref
            (st_heap
               (with_heap (<[c := set_buf (pre ++ F2 ++ post) x]> (st_heap st)) st))
            peer = Ok (if decide (c = peer) then set_buf (pre ++ F2 ++ post) x else y))
    as ->.
  { simpl. case_decide as Hc.
    - subst. apply deref_insert_eq.
    - rewrite deref_insert_ne by done. by apply deref_Ok. }
  cbn [mbind outcome_bind].
  rewrite (proj2 (Z.ltb_ge _ _)) by lia.
  replace (Z.to_nat (size - 2 + 4)) with (6 + length payload)%nat by lia.
  rewrite (load_frame _ pre F2 post 2 (6 + length payload) eq_refl) by lia.
  cbn [mbind outcome_bind]. rewrite Eout.
  unfold rewritten, outbound. rewrite E2.
  f_equal. f_equal. f_equal.
  case_decide as Hc; [|done]. subst. simpl. congruence.
Qed.

(** ** The cache and index operations never look at a buffer

    [upd c X n] overwrites the buffer and [buf_len] of the context [c].
    Everything the Router does besides parsing and rewriting commutes with
    it. *)

Section Commute.
Variables (c : nat) (X : list byte) (n : Z).

Lemma touch_at_fields (q : nat) (x : fd_ctx) :
  faf_uid (touch_at c X n q x) = faf_uid x /\
  refcount (touch_at c X n q x) = refcount x /\
  ctx_peers (touch_at c X n q x) = ctx_peers x /\
  fd (touch_at c X n q x) = fd x.
Proof. unfold touch_at. by case_decide. Qed.

Lemma touch_at_set_refcount (q : nat) (v : Z) (x : fd_ctx) :
  set_refcount v (touch_at c X n q x) = touch_at c X n q (set_refcount v x).
Proof. unfold touch_at. by case_decide. Qed.

Lemma touch_at_set_ctx_peers (q : nat) (v : proxy_peers) (x : fd_ctx) :
  set_ctx_peers v (touch_at c X n q x) = touch_at c X n q (set_ctx_peers v x).
Proof. unfold touch_at. by case_decide. Qed.

Lemma touch_at_set_faf_uid (q : nat) (v : Z) (x : fd_ctx) :
  set_faf_uid v (touch_at c X n q x) = touch_at c X n q (set_faf_uid v x).
Proof. unfold touch_at. by case_decide. Qed.

Lemma upd_lookup (h : gmap nat fd_ctx) (q : nat) :
  upd c X n h !! q = touch_at c X n q <$> h !! q.
Proof.
  unfold upd, touch_at. destruct (decide (q = c)) as [->|Hne].
  - by rewrite lookup_alter_eq.
  - rewrite lookup_alter_ne by done. by destruct (h !! q).
Qed.

Lemma deref_upd (h : gmap nat fd_ctx) (q : nat) :
  deref (upd c X n h) q = touch_at c X n q <$> deref h q.
Proof. unfold deref. rewrite upd_lookup. by destruct (h !! q). Qed.

Lemma upd_insert (h : gmap nat fd_ctx) (q : nat) (y : fd_ctx) :
  <[q := touch_at c X n q y]> (upd c X n h) = upd c X n (<[q := y]> h).
Proof.
  apply map_eq. intros p. rewrite upd_lookup.
  destruct (decide (p = q)) as [->|Hne].
  - by rewrite !lookup_insert_eq.
  - by rewrite !lookup_insert_ne, upd_lookup by done.
Qed.

Lemma upd_delete (h : gmap nat fd_ctx) (q : nat) :
  delete q (upd c X n h) = upd c X n (delete q h).
Proof.
  apply map_eq. intros p. rewrite upd_lookup.
  destruct (decide (p = q)) as [->|Hne].
  - by rewrite !lookup_delete_eq.
  - by rewrite !lookup_delete_ne, upd_lookup by done.
Qed.

Lemma for_each_upd {A : Type}
    (f : gmap nat fd_ctx -> A -> outcome (gmap nat fd_ctx)) (l : list A) :
  (forall h a, f (upd c X n h) a = upd c X n <$> f h a) ->
  forall h, for_each f (upd c X n h) l = upd c X n <$> for_each f h l.
Proof.
  intros Hf. induction l as [|a l IH]; intros h; simpl; [done|].
  rewrite Hf. destruct (f h a); simpl; auto.
Qed.

Lemma unref_upd (d : nat -> gmap nat fd_ctx -> outcome (gmap nat fd_ctx)) :
  (forall q h, d q (upd c X n h) = upd c X n <$> d q h) ->
  forall t h, unref d t (upd c X n h) = upd c X n <$> unref d t h.
Proof.
  intros Hd t h. unfold unref. rewrite deref_upd.
  destruct (deref h t) as [y| | |]; simpl; try done.
  destruct (touch_at_fields t y) as (_ & -> & _).
  rewrite touch_at_set_refcount, upd_insert.
  destruct (_ =? 0); [apply Hd|done].
Qed.

Lemma deallocate_fdctx_upd (fuel : nat) :
  forall p h,
    deallocate_fdctx fuel p (upd c X n h) = upd c X n <$> deallocate_fdctx fuel p h.
Proof.
  induction fuel as [|fuel IH]; intros p h; simpl; [done|].
  rewrite deref_upd. destruct (deref h p) as [x| | |]; simpl; try done.
  destruct (touch_at_fields p x) as (_ & _ & -> & _).
  rewrite for_each_upd.
  - destruct (for_each _ h _) as [h1| | |]; simpl; try done.
    rewrite deref_upd. destruct (deref h1 p); simpl; try done.
    by rewrite upd_delete.
  - intros h0 i. rewrite deref_upd.
    destruct (deref h0 p) as [x'| | |]; simpl; try done.
    destruct (touch_at_fields p x') as (_ & _ & -> & _).
    destruct (slot _ i); simpl; try done.
    by apply unref_upd.
Qed.

Lemma find_loop_upd (h : gmap nat fd_ctx) (a : list nat) (uid : Z) (k : nat) :
  forall i, find_loop (upd c X n h) a uid i k = find_loop h a uid i k.
Proof.
  induction k as [|k IH]; intros i; simpl; [done|].
  destruct (slot a i) as [p| | |]; simpl; try done.
  rewrite deref_upd. destruct (deref h p) as [x| | |]; simpl; try done.
  destruct (touch_at_fields p x) as (-> & _). by rewrite IH.
Qed.

Lemma set_find_upd (h : gmap nat fd_ctx) (key : Z) (s : list nat) :
  set_find (upd c X n h) key s = set_find h key s.
Proof.
  induction s as [|e s IH]; simpl; [done|].
  rewrite deref_upd. destruct (deref h e) as [x| | |]; simpl; try done.
  destruct (touch_at_fields e x) as (-> & _). by rewrite IH.
Qed.

Lemma set_insert_upd (h : gmap nat fd_ctx) (key : Z) (p : nat) (s : list nat) :
  set_insert (upd c X n h) key p s = set_insert h key p s.
Proof.
  induction s as [|e s IH]; simpl; [done|].
  rewrite deref_upd. destruct (deref h e) as [x| | |]; simpl; try done.
  destruct (touch_at_fields e x) as (-> & _). by rewrite IH.
Qed.

Lemma add_front_upd (owner p : nat) (h : gmap nat fd_ctx) :
  add_front owner p (upd c X n h) = upd c X n <$> add_front owner p h.
Proof.
  unfold add_front. rewrite deref_upd.
  destruct (deref h owner) as [x| | |]; simpl; try done.
  destruct (touch_at_fields owner x) as (_ & _ & -> & _).
  destruct (add_shift _ _) as [[a1 prev]| | |]; simpl; try done.
  destruct (store_slot a1 _ prev) as [a2| | |]; simpl; try done.
  destruct (store_slot a2 _ p) as [a3| | |]; simpl; try done.
  rewrite touch_at_set_ctx_peers, upd_insert, deref_upd.
  destruct (deref _ p) as [y| | |]; simpl; try done.
  destruct (touch_at_fields p y) as (_ & -> & _).
  rewrite touch_at_set_refcount, upd_insert, deref_upd.
  destruct (deref _ owner) as [x2| | |]; simpl; try done.
  destruct (touch_at_fields owner x2) as (_ & _ & -> & _).
  by rewrite touch_at_set_ctx_peers, upd_insert.
Qed.

Lemma add_upd (fuel : nat) :
  forall owner p h,
    add fuel owner p (upd c X n h) = upd c X n <$> add fuel owner p h.
Proof.
  induction fuel as [|fuel IH]; intros owner p h; simpl; [done|].
  rewrite deref_upd. destruct (deref h owner) as [x| | |]; simpl; try done.
  destruct (touch_at_fields owner x) as (_ & _ & -> & _).
  destruct (_ <? _)%nat; [apply add_front_upd|].
  destruct (slot _ _) as [t| | |]; simpl; try done.
  rewrite (unref_upd _ (deallocate_fdctx_upd fuel)).
  destruct (unref _ t h) as [h1| | |]; simpl; try done.
  rewrite deref_upd. destruct (deref h1 owner) as [x1| | |]; simpl; try done.
  destruct (touch_at_fields owner x1) as (_ & _ & -> & _).
  by rewrite touch_at_set_ctx_peers, upd_insert.
Qed.

Lemma lookup_peer_upd (fuel : nat) (ctxp : nat) (uid : Z) (st : state) :
  lookup_peer fuel ctxp uid (supd c X n st) =
    (fun '(r, s) => (r, supd c X n s)) <$> lookup_peer fuel ctxp uid st.
Proof.
  unfold lookup_peer, peer_sockets_find, on_heap. simpl. rewrite deref_upd.
  destruct (deref (st_heap st) ctxp) as [x| | |]; simpl; try done.
  destruct (touch_at_fields ctxp x) as (_ & _ & -> & _).
  unfold find. rewrite find_loop_upd.
  destruct (find_loop _ _ _ _ _) as [[peer|]| | |]; simpl; try done.
  rewrite set_find_upd.
  destruct (set_find _ _ _) as [[peer|]| | |]; simpl; try done.
  rewrite add_upd. by destruct (add _ _ _ _).
Qed.

Lemma peer_sockets_insert_upd (p : nat) (st : state) :
  peer_sockets_insert p (supd c X n st) = supd c X n <$> peer_sockets_insert p st.
Proof.
  unfold peer_sockets_insert. simpl. rewrite deref_upd.
  destruct (deref (st_heap st) p) as [x| | |]; simpl; try done.
  destruct (touch_at_fields p x) as (-> & _).
  rewrite set_insert_upd. by destruct (set_insert _ _ _ _).
Qed.

Lemma supd_emit (evs : list syscall) (st : state) :
  supd c X n (emit evs st) = emit evs (supd c X n st).
Proof. done. Qed.

End Commute.

Lemma upd_upd (c : nat) (X X' : list byte) (n n' : Z) (h : gmap nat fd_ctx) :
  upd c X n (upd c X' n' h) = upd c X n h.
Proof.
  apply map_eq. intros q. rewrite !upd_lookup. destruct (h !! q); [|done].
  simpl. unfold touch_at. by case_decide.
Qed.

Lemma supd_supd (c : nat) (X X' : list byte) (n n' : Z) (st : state) :
  supd c X n (supd c X' n' st) = supd c X n st.
Proof. unfold supd. simpl. by rewrite upd_upd. Qed.

(** Overwriting a buffer with what it holds changes nothing. *)
Lemma upd_same (c : nat) (h : gmap nat fd_ctx) (x : fd_ctx) :
  h !! c = Some x -> upd c (buf x) (buf_len x) h = h.
Proof.
  intros Hx. apply map_eq. intros q. rewrite upd_lookup.
  unfold touch_at. case_decide as Hq; [|by destruct (h !! q)].
  subst. rewrite Hx. simpl. by destruct x.
Qed.

Lemma supd_same (c : nat) (st : state) (x : fd_ctx) :
  st_heap st !! c = Some x -> supd c (buf x) (buf_len x) st = st.
Proof. intros Hx. unfold supd. rewrite (upd_same c _ x Hx). by destruct st. Qed.

Lemma upd_insert_same (c : nat) (X : list byte) (n : Z) (h : gmap nat fd_ctx) (x : fd_ctx) :
  h !! c = Some x -> upd c X n h = <[c := touch X n x]> h.
Proof.
  intros Hx. apply map_eq. intros q. rewrite upd_lookup. unfold touch_at.
  case_decide as Hq.
  - subst. by rewrite lookup_insert_eq, Hx.
  - rewrite lookup_insert_ne by done. by destruct (h !! q).
Qed.

(** ** What a destination lookup may change *)

Lemma keeps_data_refl (h : gmap nat fd_ctx) : keeps_data h h.
Proof. intros q x' H. exists x'. split; [done|]. by destruct x'. Qed.

Lemma keeps_data_trans (h1 h2 h3 : gmap nat fd_ctx) :
  keeps_data h1 h2 -> keeps_data h2 h3 -> keeps_data h1 h3.
Proof.
  intros H12 H23 q x3 H3.
  destruct (H23 q x3 H3) as (x2 & H2 & E2).
  destruct (H12 q x2 H2) as (x1 & H1 & E1).
  exists x1. split; [done|]. rewrite E2, E1. done.
Qed.

Lemma only_refcounts_keeps_data (h h' : gmap nat fd_ctx) :
  only_refcounts h h' -> keeps_data h h'.
Proof.
  intros H q x' Hx'. destruct (H q x' Hx') as (x & Hx & E).
  exists x. split; [done|]. rewrite E. by destruct x.
Qed.

Lemma keeps_data_insert (h : gmap nat fd_ctx) (q : nat) (y y' : fd_ctx) :
  h !! q = Some y ->
  y' = set_refcount (refcount y') (set_ctx_peers (ctx_peers y') y) ->
  keeps_data h (<[q := y']> h).
Proof.
  intros Hy E p x' H. destruct (decide (p = q)) as [->|Hne].
  - rewrite lookup_insert_eq in H. simplify_eq. eauto.
  - rewrite lookup_insert_ne in H by done. by apply keeps_data_refl.
Qed.

Lemma keeps_data_insert_refcount (h : gmap nat fd_ctx) (q : nat) (y : fd_ctx) (v : Z) :
  h !! q = Some y -> keeps_data h (<[q := set_refcount v y]> h).
Proof. intros Hy. by apply (keeps_data_insert h q y). Qed.

Lemma keeps_data_insert_peers (h : gmap nat fd_ctx) (q : nat) (y : fd_ctx)
    (v : proxy_peers) :
  h !! q = Some y -> keeps_data h (<[q := set_ctx_peers v y]> h).
Proof. intros Hy. by apply (keeps_data_insert h q y). Qed.

Lemma add_front_keeps_data (owner p : nat) (h h' : gmap nat fd_ctx) :
  add_front owner p h = Ok h' -> keeps_data h h'.
Proof.
  unfold add_front. intros H.
  apply bind_Ok in H as (x & Hx & H). apply deref_Ok in Hx.
  apply bind_Ok in H as ([a1 prev] & _ & H).
  apply bind_Ok in H as (a2 & _ & H).
  apply bind_Ok in H as (a3 & _ & H).
  apply bind_Ok in H as (y & Hy & H). apply deref_Ok in Hy.
  apply bind_Ok in H as (x2 & Hx2 & H). apply deref_Ok in Hx2.
  simplify_eq.
  eapply keeps_data_trans; [|eapply keeps_data_trans].
  - apply keeps_data_insert_peers, Hx.
  - apply keeps_data_insert_refcount, Hy.
  - apply keeps_data_insert_peers, Hx2.
Qed.

Lemma add_keeps_data (fuel : nat) :
  forall (owner p : nat) (h h' : gmap nat fd_ctx),
    add fuel owner p h = Ok h' -> keeps_data h h'.
Proof.
  induction fuel as [|fuel IH]; intros owner p h h' H; simpl in H; [discriminate|].
  apply bind_Ok in H as (x & Hx & H).
  destruct (_ <? _)%nat; [by eapply add_front_keeps_data|].
  apply bind_Ok in H as (t & _ & H).
  apply bind_Ok in H as (h1 & Hun & H).
  apply bind_Ok in H as (x1 & Hx1 & H). apply deref_Ok in Hx1.
  apply unref_only_refcounts, only_refcounts_keeps_data in Hun.
  eapply keeps_data_trans; [exact Hun|].
  eapply keeps_data_trans; [|by eapply IH].
  apply keeps_data_insert_peers, Hx1.
Qed.

Lemma lookup_peer_keeps_data (fuel : nat) (c : nat) (uid : Z) (st st' : state)
    (r : option nat) :
  lookup_peer fuel c uid st = Ok (r, st') ->
  keeps_data (st_heap st) (st_heap st') /\
  peer_sockets st' = peer_sockets st /\ trace st' = trace st /\
  decay_mode st' = decay_mode st /\ total_sockets st' = total_sockets st.
Proof.
  unfold lookup_peer, on_heap. intros H.
  apply bind_Ok in H as (x & Hx & H).
  apply bind_Ok in H as (r1 & Hf & H).
  destruct r1 as [peer|]; [simplify_eq; split; [apply keeps_data_refl|done]|].
  apply bind_Ok in H as (it & Hi & H).
  destruct it as [peer|]; [|simplify_eq; split; [apply keeps_data_refl|done]].
  apply bind_Ok in H as (st1 & Ha & H). apply bind_Ok in Ha as (h1 & Ha & E).
  simplify_eq. simpl. split; [by eapply add_keeps_data|done].
Qed.

(** The peer a lookup yields carries the uid that was looked up. *)
Lemma set_find_sound (h : gmap nat fd_ctx) (key : Z) (s : list nat) (p : nat) :
  set_find h key s = Ok (Some p) ->
  exists x, h !! p = Some x /\ faf_uid x = key.
Proof.
  induction s as [|e s IH]; simpl; intros H; [discriminate|].
  apply bind_Ok in H as (x & Hx & H). apply deref_Ok in Hx.
  destruct (faf_uid x <? key) eqn:E1; [by apply IH|].
  destruct (key <? faf_uid x) eqn:E2; [discriminate|]. simplify_eq.
  exists x. split; [done|]. apply Z.ltb_ge in E1, E2. lia.
Qed.

(** ** The parse loop on complete frames *)

Lemma lookup_peer_None (fuel : nat) (c : nat) (uid : Z) (st st1 : state) :
  lookup_peer fuel c uid st = Ok (None, st1) -> st1 = st.
Proof.
  unfold lookup_peer. intros H.
  apply bind_Ok in H as (x & Hx & H).
  apply bind_Ok in H as (r1 & Hf & H).
  destruct r1 as [peer|]; [by simplify_eq|].
  apply bind_Ok in H as (it & Hi & H).
  destruct it as [peer|]; [|by simplify_eq].
  apply bind_Ok in H as (st' & _ & H). by simplify_eq.
Qed.

Lemma keeps_data_fields (h h' : gmap nat fd_ctx) (q : nat) (x x' : fd_ctx) :
  keeps_data h h' -> h !! q = Some x -> h' !! q = Some x' ->
  faf_uid x' = faf_uid x /\ buf x' = buf x /\ buf_len x' = buf_len x /\ fd x' = fd x.
Proof.
  intros Hk Hx Hx'. destruct (Hk q x' Hx') as (x0 & Hx0 & E).
  rewrite Hx in Hx0. simplify_eq. rewrite E. done.
Qed.

Lemma well_formed_length (sz min : Z) (F : list byte) :
  well_formed sz min F ->
  exists size, Z.of_nat (length F) = size + 4 /\ min <= size /\
               size + 4 <= FDCTX_CLIENT_BUFSIZE sz.
Proof.
  intros (size & body & -> & Hb & Hm & Hc). exists size.
  rewrite length_app, length_htonl. lia.
Qed.

(** The head of the loop on a complete frame. *)
Lemma parse_loop_head (sz : Z) (fuel n : nat) (c : nat) (st : state) (x : fd_ctx)
    (pre body post : list byte) (size : Z) :
  0 <= sz ->
  st_heap st !! c = Some x ->
  buf x = pre ++ (htonl size ++ body) ++ post ->
  Z.of_nat (length body) = size ->
  size + 4 <= FDCTX_CLIENT_BUFSIZE sz ->
  Z.of_nat (length pre) + (size + 4) <= buf_len x ->
  parse_loop sz fuel (S n) c (Z.of_nat (length pre)) st =
    if faf_uid x =? -1 then
      u ← load (buf x) (Z.of_nat (length pre) + 4) 2;
      st2 ← peer_sockets_insert c
               (with_heap (<[c := set_faf_uid (ntohs u) x]> (st_heap st)) st);
      parse_loop sz fuel n c (Z.of_nat (length pre) + (size + 4)) st2
    else
      st1 ← (if decay_mode st then Ok st
             else forward fuel c (Z.of_nat (length pre)) size st);
      parse_loop sz fuel n c (Z.of_nat (length pre) + (size + 4)) st1.
Proof.
  intros Hsz Hx Hb Hl Hcap Hlen.
  assert (load (buf x) (Z.of_nat (length pre)) 4 = Ok (htonl size)) as Hload.
  { replace (Z.of_nat (length pre)) with (Z.of_nat (length pre) + Z.of_nat 0) by lia.
    rewrite (load_frame _ pre (htonl size ++ body) post 0 4 Hb)
      by (rewrite length_app, length_htonl; lia).
    by rewrite drop_0, take_app_length'. }
  cbn [parse_loop].
  rewrite (proj2 (deref_Ok _ _ _) Hx). cbn [mbind outcome_bind].
  rewrite (proj2 (Z.ltb_lt _ _)) by lia.
  rewrite (proj2 (Z.ltb_ge _ _)) by lia.
  rewrite Hload. cbn [mbind outcome_bind].
  rewrite ntohl_htonl.
  unfold FDCTX_CLIENT_BUFSIZE in *.
  rewrite (to_uint32_small size), (to_int32_small size) by lia.
  assert ((size >? 4096 - sz) = false) as -> by lia.
  assert ((size + 4 >? buf_len x - Z.of_nat (length pre)) = false) as -> by lia.
  done.
Qed.

Lemma touch_set_buf (B : list byte) (x : fd_ctx) :
  touch B (buf_len x) x = set_buf B x.
Proof. by destruct x. Qed.

(** One round of the loop on a complete, well-formed frame has the effect
    [route_frame] describes; in the buffer only the bytes of that frame may
    have changed. *)
Lemma parse_iteration (sz : Z) (fuel n : nat) (c : nat) (st s1 : state) (x : fd_ctx)
    (pre F post : list byte) :
  0 <= sz ->
  st_heap st !! c = Some x ->
  buf x = pre ++ F ++ post ->
  well_formed sz (if faf_uid x =? -1 then 2 else 4) F ->
  Z.of_nat (length pre + length F) <= buf_len x ->
  route_frame fuel c F st = Ok s1 ->
  exists F' x1,
    st_heap s1 !! c = Some x1 /\ faf_uid x1 <> -1 /\
    length F' = length F /\
    parse_loop sz fuel (S n) c (Z.of_nat (length pre)) st =
      parse_loop sz fuel n c (Z.of_nat (length pre + length F))
        (supd c (pre ++ F' ++ post) (buf_len x) s1).
Proof.
  intros Hsz Hx Hb (size & body & -> & Hbody & Hmin & Hcap) Hlen Hroute.
  rewrite length_app, length_htonl in Hlen.
  rewrite (parse_loop_head sz fuel n c st x pre body post size) by (done || lia).
  replace (Z.of_nat (length pre + length (htonl size ++ body)))
    with (Z.of_nat (length pre) + (size + 4))
    by (rewrite length_app, length_htonl; lia).
  unfold route_frame in Hroute.
  rewrite (proj2 (deref_Ok _ _ _) Hx) in Hroute. cbn [mbind outcome_bind] in Hroute.
  assert (supd c (pre ++ (htonl size ++ body) ++ post) (buf_len x) st = st) as Hsame
    by (rewrite <- Hb; by apply supd_same).
  destruct (faf_uid x =? -1) eqn:Eu.
  - (* the uid announcement *)
    replace (Z.of_nat (length pre) + 4) with (Z.of_nat (length pre) + Z.of_nat 4) by lia.
    rewrite (load_frame _ pre (htonl size ++ body) post 4 2 Hb)
      by (rewrite length_app, length_htonl; lia).
    cbn [mbind outcome_bind]. rewrite Hroute. cbn [mbind outcome_bind].
    set (u := ntohs (take 2 (drop 4 (htonl size ++ body)))) in *.
    pose proof (peer_sockets_insert_heap _ _ _ Hroute) as Hh. simpl in Hh.
    exists (htonl size ++ body), (set_faf_uid u x).
    split; [rewrite Hh; apply lookup_insert_eq|].
    split.
    { simpl. unfold u.
      pose proof (ntohs_range (take 2 (drop 4 (htonl size ++ body)))) as Hr.
      rewrite length_take, length_drop, length_app, length_htonl in Hr. lia. }
    split; [done|].
    f_equal. rewrite <- Hb. symmetry.
    apply (supd_same c s1 (set_faf_uid u x)).
    rewrite Hh. apply lookup_insert_eq.
  - (* an addressed message *)
    apply Z.eqb_neq in Eu.
    destruct (decay_mode st) eqn:Ed.
    { inversion Hroute; subst s1. cbn [mbind outcome_bind].
      exists (htonl size ++ body), x. rewrite Hsame. done. }
    (* split the body into port, destuid and payload *)
    set (portb := take 2 body). set (destb := take 2 (drop 2 body)).
    set (payload := drop 4 body).
    assert (body = portb ++ destb ++ payload) as Ebody.
    { unfold portb, destb, payload.
      rewrite <- (take_drop 2 body) at 1. f_equal.
      rewrite <- (take_drop 2 (drop 2 body)) at 1. f_equal.
      by rewrite drop_drop. }
    assert (length portb = 2%nat) as Hp by (unfold portb; rewrite length_take; lia).
    assert (length destb = 2%nat) as Hd
      by (unfold destb; rewrite length_take, length_drop; lia).
    assert (Z.of_nat (length payload) = size - 4) as Hpl
      by (unfold payload; rewrite length_drop; lia).
    clearbody portb destb payload. subst body.
    set (F := htonl size ++ portb ++ destb ++ payload) in *.
    assert (take 2 (drop 6 F) = destb) as Edest.
    { unfold F. rewrite (app_assoc (htonl size)).
      rewrite drop_app_length' by (rewrite length_app, length_htonl; lia).
      by rewrite take_app_length'. }
    assert (take 2 (drop 4 F) = portb) as Eport.
    { unfold F. rewrite drop_app_length' by done. by rewrite take_app_length'. }
    assert (drop 8 F = payload) as Epay.
    { unfold F. rewrite !app_assoc.
      by rewrite drop_app_length' by (rewrite !length_app, length_htonl; lia). }
    assert (take 4 F = htonl size) as Ehdr
      by (unfold F; by rewrite take_app_length').
    rewrite Edest, Eport, Epay, Ehdr in Hroute.
    unfold forward. rewrite (proj2 (deref_Ok _ _ _) Hx). cbn [mbind outcome_bind].
    replace (Z.of_nat (length pre) + 6) with (Z.of_nat (length pre) + Z.of_nat 6) by lia.
    rewrite (load_frame _ pre F post 6 2 Hb)
      by (unfold F; rewrite !length_app, length_htonl; lia).
    cbn [mbind outcome_bind]. rewrite Edest.
    apply bind_Ok in Hroute as ([r st1] & Hlook & Hroute).
    rewrite Hlook. cbn [mbind outcome_bind].
    destruct r as [peer|].
    + apply bind_Ok in Hroute as (x1 & Hx1 & Hroute). apply deref_Ok in Hx1.
      apply bind_Ok in Hroute as (y & Hy & Hroute). apply deref_Ok in Hy.
      injection Hroute as <-.
      destruct (lookup_peer_keeps_data _ _ _ _ _ _ Hlook) as (Hk & _).
      destruct (keeps_data_fields _ _ _ _ _ Hk Hx Hx1) as (Eu1 & Eb1 & El1 & _).
      assert (buf x1 = pre ++ (htonl size ++ portb ++ destb ++ payload) ++ post) as Hb1
        by (rewrite Eb1; exact Hb).
      assert (size < 2147483648) as Hlt by (unfold FDCTX_CLIENT_BUFSIZE in *; lia).
      rewrite (rewrite_and_write_frame c peer st1 x1 y pre portb destb payload post size
                 Hx1 Hy Hb1 Hp Hd Hpl Hlt).
      cbn [mbind outcome_bind].
      exists (rewritten size portb payload), x1.
      split; [done|]. split; [congruence|].
      split.
      { unfold rewritten, outbound, F.
        rewrite !length_app, length_take, !length_htonl. rewrite Hp, Hd. lia. }
      f_equal. rewrite ntohl_htonl, (to_uint32_small size) by lia.
      unfold supd. cbn [st_heap emit with_heap].
      rewrite (upd_insert_same c _ _ _ x1 Hx1), <- El1, touch_set_buf. done.
    + apply lookup_peer_None in Hlook. subst st1. inversion Hroute; subst s1.
      exists F, x. rewrite Hsame. done.
Qed.

Lemma route_frame_supd (c : nat) (X : list byte) (n : Z) (fuel : nat) (q : nat)
    (F : list byte) (st : state) :
  route_frame fuel q F (supd c X n st) = supd c X n <$> route_frame fuel q F st.
Proof.
  unfold route_frame. cbn [st_heap supd with_heap]. rewrite deref_upd.
  destruct (deref (st_heap st) q) as [x| | |]; simpl; try done.
  destruct (touch_at_fields c X n q x) as (-> & _).
  destruct (faf_uid x =? -1).
  - rewrite touch_at_set_faf_uid, upd_insert.
    exact (peer_sockets_insert_upd c X n q
             (with_heap (<[q := set_faf_uid _ x]> (st_heap st)) st)).
  - destruct (decay_mode st); [done|].
    rewrite (lookup_peer_upd c X n fuel q _ st).
    destruct (lookup_peer fuel q _ st) as [[r st1]| | |]; simpl; try done.
    destruct r as [peer|]; [|done].
    simpl. rewrite !deref_upd.
    destruct (deref (st_heap st1) q) as [x1| | |]; simpl; try done.
    destruct (deref (st_heap st1) peer) as [y| | |]; simpl; try done.
    by destruct (touch_at_fields c X n peer y) as (_ & _ & _ & ->).
Qed.

Lemma route_frames_supd (c : nat) (X : list byte) (n : Z) (fuel : nat) (q : nat)
    (frames : list (list byte)) :
  forall st,
    route_frames fuel q frames (supd c X n st) =
      supd c X n <$> route_frames fuel q frames st.
Proof.
  unfold route_frames. induction frames as [|F Fs IH]; intros st; simpl; [done|].
  rewrite route_frame_supd.
  destruct (route_frame fuel q F st); simpl; auto.
Qed.

Lemma supd_lookup_c (c : nat) (X : list byte) (n : Z) (st : state) (x : fd_ctx) :
  st_heap st !! c = Some x -> st_heap (supd c X n st) !! c = Some (touch X n x).
Proof.
  intros Hx. simpl. rewrite upd_lookup, Hx. simpl. unfold touch_at.
  by rewrite decide_True.
Qed.

(** The loop consumes the complete frames at the head of the buffer one by
    one, with the effect of [route_frames], and stops in front of the bytes
    that do not make up a frame yet. *)
Lemma parse_loop_frames (sz : Z) (fuel : nat) (c : nat) (frames : list (list byte)) :
  forall (n : nat) (st r : state) (x : fd_ctx) (pre post : list byte),
    0 <= sz ->
    st_heap st !! c = Some x ->
    buf x = pre ++ concat frames ++ post ->
    Z.of_nat (length pre + length (concat frames)) <= buf_len x ->
    buf_len x <= Z.of_nat (length (buf x)) ->
    well_formed_stream sz (faf_uid x =? -1) frames ->
    incomplete sz
      (take (Z.to_nat (buf_len x) - length pre - length (concat frames)) post) ->
    (length frames < n)%nat ->
    route_frames fuel c frames st = Ok r ->
    exists bf,
      parse_loop sz fuel n c (Z.of_nat (length pre)) st =
        Ok (supd c bf (buf_len x) r,
            Some (Z.of_nat (length pre + length (concat frames)))) /\
      length bf = length (buf x) /\
      drop (length pre + length (concat frames)) bf = post /\
      is_Some (st_heap r !! c).
Proof.
  induction frames as [|F Fs IH];
    intros n st r x pre post Hsz Hx Hb Hlen Hcap Hwf Hinc Hn Hroute.
  - (* nothing complete is left *)
    simpl in *. injection Hroute as <-.
    rewrite Nat.add_0_r in *. rewrite Nat.sub_0_r in Hinc.
    exists (buf x). rewrite (supd_same c st x Hx).
    split; [|split; [done|split; [by rewrite Hb, drop_app_length|eauto]]].
    destruct n as [|n]; [lia|]. cbn [parse_loop].
    rewrite (proj2 (deref_Ok _ _ _) Hx). cbn [mbind outcome_bind].
    destruct (Z.of_nat (length pre) <? buf_len x) eqn:E1; [|done].
    apply Z.ltb_lt in E1.
    destruct (buf_len x - Z.of_nat (length pre) <? 4) eqn:E2; [done|].
    apply Z.ltb_ge in E2.
    set (R := take (Z.to_nat (buf_len x) - length pre) post) in *.
    assert (length R = (Z.to_nat (buf_len x) - length pre)%nat) as HR.
    { unfold R. rewrite length_take. rewrite Hb, length_app in Hcap. lia. }
    destruct Hinc as [Hshort|(size & tail & ER & Hs0 & Hs1 & Hs2)]; [lia|].
    assert (buf x = pre ++ R ++ drop (length R) post) as Hb'.
    { rewrite Hb. f_equal. unfold R at 1. rewrite HR. by rewrite take_drop. }
    assert (load (buf x) (Z.of_nat (length pre)) 4 = Ok (htonl size)) as Hload.
    { replace (Z.of_nat (length pre)) with (Z.of_nat (length pre) + Z.of_nat 0) by lia.
      rewrite (load_frame _ pre R _ 0 4 Hb') by lia.
      rewrite drop_0, ER. by rewrite take_app_length'. }
    rewrite Hload. cbn [mbind outcome_bind].
    rewrite ntohl_htonl. unfold FDCTX_CLIENT_BUFSIZE in *.
    rewrite (to_uint32_small size), (to_int32_small size) by lia.
    assert ((size >? 4096 - sz) = false) as -> by lia.
    assert ((size + 4 >? buf_len x - Z.of_nat (length pre)) = true) as -> by lia.
    done.
  - (* one more complete frame *)
    destruct Hwf as [HwfF HwfFs].
    unfold route_frames in Hroute. simpl in Hroute.
    apply bind_Ok in Hroute as (s1 & Hr1 & Hroute).
    simpl concat in *. rewrite length_app in *.
    rewrite <- app_assoc in Hb.
    destruct n as [|n]; [lia|].
    destruct (parse_iteration sz fuel n c st s1 x pre F (concat Fs ++ post)
                Hsz Hx Hb HwfF ltac:(lia) Hr1)
      as (F' & x1 & Hx1 & Hu1 & HF' & Hstep).
    rewrite Hstep.
    set (B := pre ++ F' ++ concat Fs ++ post).
    pose proof (supd_lookup_c c B (buf_len x) s1 x1 Hx1) as Hx'.
    assert (route_frames fuel c Fs (supd c B (buf_len x) s1)
            = Ok (supd c B (buf_len x) r)) as Hroute'.
    { rewrite route_frames_supd. unfold route_frames. by rewrite Hroute. }
    destruct (IH n (supd c B (buf_len x) s1) (supd c B (buf_len x) r)
                (touch B (buf_len x) x1) (pre ++ F') post Hsz Hx')
      as (bf & Hloop & Hlbf & Hdrop & Hsome).
    + simpl. unfold B. by rewrite <- app_assoc.
    + simpl. rewrite length_app. lia.
    + simpl. unfold B. rewrite Hb in Hcap.
      rewrite !length_app in *. lia.
    + simpl. rewrite (proj2 (Z.eqb_neq _ _) Hu1).
      destruct Fs as [|F2 Fs']; [done|].
      by apply Forall_cons in HwfFs.
    + simpl. rewrite length_app.
      replace (Z.to_nat (buf_len x) - (length pre + length F') - length (concat Fs))%nat
        with (Z.to_nat (buf_len x) - length pre
              - (length F + length (concat Fs)))%nat by lia.
      exact Hinc.
    + simpl in Hn. lia.
    + exact Hroute'.
    + exists bf. simpl in Hloop. rewrite supd_supd in Hloop.
      rewrite length_app in Hloop, Hdrop.
      replace (length pre + (length F + length (concat Fs)))%nat
        with (length pre + length F' + length (concat Fs))%nat by lia.
      replace (length pre + length F)%nat with (length pre + length F')%nat by lia.
      split; [exact Hloop|].
      split.
      { rewrite Hlbf. simpl. unfold B. rewrite Hb.
        rewrite !length_app. lia. }
      split; [exact Hdrop|].
      simpl in Hsome. rewrite upd_lookup in Hsome.
      destruct (st_heap r !! c); [eauto|]. by destruct Hsome.
Qed.

Lemma route_frame_decay_mode (fuel : nat) (c : nat) (F : list byte) (st s1 : state) :
  route_frame fuel c F st = Ok s1 -> decay_mode s1 = decay_mode st.
Proof.
  unfold route_frame. intros H.
  apply bind_Ok in H as (x & Hx & H).
  destruct (faf_uid x =? -1).
  - unfold peer_sockets_insert in H. crush_ok. done.
  - destruct (decay_mode st) eqn:E; [by simplify_eq|].
    apply bind_Ok in H as ([r st1] & Hl & H).
    destruct (lookup_peer_keeps_data _ _ _ _ _ _ Hl) as (_ & _ & _ & Hd & _).
    destruct r; crush_ok; simpl; congruence.
Qed.

Lemma route_frames_decay_mode (fuel : nat) (c : nat) (frames : list (list byte)) :
  forall st r, route_frames fuel c frames st = Ok r -> decay_mode r = decay_mode st.
Proof.
  unfold route_frames. induction frames as [|F Fs IH]; intros st r H; simpl in H.
  - by simplify_eq.
  - apply bind_Ok in H as (s1 & H1 & H). apply route_frame_decay_mode in H1.
    apply IH in H. congruence.
Qed.

(** One readiness event outside decay: the bytes read are appended to the
    partial frame [p] kept at the front of the buffer; the complete frames
    are routed; what remains, [R], is moved to the front. *)
Lemma peer_event_frames (sz : Z) (fuel : nat) (c : nat) (st r : state) (x : fd_ctx)
    (p d R : list byte) (frames : list (list byte)) (ok : bool) :
  0 <= sz ->
  st_heap st !! c = Some x ->
  decay_mode st = false ->
  Z.of_nat (length (buf x)) = FDCTX_CLIENT_BUFSIZE sz ->
  buf_len x = Z.of_nat (length p) ->
  take (length p) (buf x) = p ->
  d <> [] ->
  Z.of_nat (length p + length d) <= FDCTX_CLIENT_BUFSIZE sz ->
  p ++ d = concat frames ++ R ->
  well_formed_stream sz (faf_uid x =? -1) frames ->
  incomplete sz R ->
  (length frames < fuel)%nat ->
  route_frames fuel c frames st = Ok r ->
  exists bf,
    peer_event sz fuel c (rd_data d) ok st = Ok (supd c bf (Z.of_nat (length R)) r) /\
    length bf = length (buf x) /\
    take (length R) bf = R /\
    is_Some (st_heap r !! c).
Proof.
  intros Hsz Hx Hdecay Hcap Hbl Hp Hd Hfit Hsplit Hwf Hinc Hfuel Hroute.
  unfold peer_event.
  rewrite (proj2 (deref_Ok _ _ _) Hx). cbn [mbind outcome_bind].
  rewrite Hdecay. cbn [andb].
  rewrite (proj2 (Z.ltb_ge _ _)) by lia.
  rewrite take_ge by lia.
  destruct d as [|d0 d']; [done|]. set (d := d0 :: d') in *.
  (* the bytes land behind the partial frame *)
  set (tail := drop (length p + length d) (buf x)).
  assert (store (buf x) (buf_len x) d = Ok (concat frames ++ R ++ tail)) as Hstore.
  { unfold store. rewrite Hbl.
    rewrite (proj2 (Z.leb_le 0 _)) by lia.
    rewrite (proj2 (Z.leb_le _ _)) by lia. simpl andb. cbv iota.
    rewrite Nat2Z.id, Hp. rewrite (app_assoc p), Hsplit, <- app_assoc. done. }
  rewrite Hstore. cbn [mbind outcome_bind].
  set (b := concat frames ++ R ++ tail).
  set (L := buf_len x + Z.of_nat (length d)).
  assert (length b = length (buf x)) as Hlb.
  { unfold b. rewrite app_assoc, <- Hsplit. unfold tail.
    rewrite !length_app, length_drop. lia. }
  assert (Z.of_nat (length (concat frames) + length R) = L) as HL.
  { unfold L. rewrite Hbl. apply (f_equal length) in Hsplit.
    rewrite !length_app in Hsplit. lia. }
  assert (with_heap (<[c := set_buf_len L (set_buf b x)]> (st_heap st)) st = supd c b L st)
    as ->.
  { unfold supd. by rewrite (upd_insert_same c b L _ x Hx). }
  pose proof (supd_lookup_c c b L st x Hx) as Hx'.
  assert (route_frames fuel c frames (supd c b L st) = Ok (supd c b L r)) as Hroute'
    by (rewrite route_frames_supd, Hroute; done).
  destruct (parse_loop_frames sz fuel c frames fuel (supd c b L st) (supd c b L r)
              (touch b L x) [] (R ++ tail) Hsz Hx')
    as (bf & Hloop & Hlbf & Hdrop & Hsome); try done.
  - simpl. lia.
  - simpl. lia.
  - simpl. rewrite Nat.sub_0_r.
    replace (Z.to_nat L - length (concat frames))%nat with (length R) by lia.
    by rewrite take_app_length.
  - simpl in Hloop, Hlbf, Hdrop. change (Z.of_nat 0) with 0 in Hloop.
    rewrite Hloop. cbn [mbind outcome_bind].
    rewrite supd_supd.
    assert (is_Some (st_heap r !! c)) as [xr Hxr].
    { simpl in Hsome. rewrite upd_lookup in Hsome.
      destruct (st_heap r !! c); [eauto|]. by destruct Hsome. }
    (* compaction *)
    unfold compact.
    rewrite (proj2 (deref_Ok _ _ _) (supd_lookup_c c bf L r xr Hxr)).
    cbn [mbind outcome_bind]. cbn [buf_len buf touch set_buf_len set_buf].
    replace (L - Z.of_nat (length (concat frames))) with (Z.of_nat (length R)) by lia.
    assert ((if negb (Z.of_nat (length R) =? 0)
                && negb (Z.of_nat (length (concat frames)) =? 0)
             then moved ← load bf (Z.of_nat (length (concat frames)))
                            (Z.to_nat (Z.of_nat (length R)));
                  store bf 0 moved
             else Ok bf)
            = Ok (R ++ drop (length R) bf)) as ->.
    { assert (bf = take (length (concat frames)) bf ++ R ++ tail) as Ebf
        by (rewrite <- Hdrop; by rewrite take_drop).
      assert (length (take (length (concat frames)) bf) = length (concat frames)) as Hlt.
      { rewrite length_take. rewrite Hlbf, Hlb, <- Hcap in *. lia. }
      destruct (Z.of_nat (length R) =? 0) eqn:E1.
      { apply Z.eqb_eq in E1. destruct R; [|simpl in E1; lia]. simpl.
        by rewrite drop_0. }
      destruct (Z.of_nat (length (concat frames)) =? 0) eqn:E2.
      { apply Z.eqb_eq in E2. simpl.
        destruct (concat frames); [|simpl in E2; lia].
        simpl in Hdrop. rewrite drop_0 in Hdrop. rewrite Hdrop.
        by rewrite drop_app_length. }
      simpl negb. simpl andb. cbv iota. rewrite Nat2Z.id.
      replace (Z.of_nat (length (concat frames)))
        with (Z.of_nat (length (take (length (concat frames)) bf)) + Z.of_nat 0) by lia.
      rewrite (load_frame bf _ R tail 0 (length R) Ebf) by lia.
      cbn [mbind outcome_bind]. rewrite drop_0, firstn_all.
      unfold store. simpl Z.leb.
      assert ((0 + Z.of_nat (length R) <=? Z.of_nat (length bf)) = true) as ->.
      { apply Z.leb_le. rewrite Hlbf, Hlb. rewrite <- Hcap in Hfit.
        apply (f_equal length) in Hsplit. rewrite !length_app in Hsplit. lia. }
      simpl. done. }
    cbn [mbind outcome_bind].
    assert (with_heap
              (<[c := set_buf_len (Z.of_nat (length R))
                        (set_buf (R ++ drop (length R) bf) (touch bf L xr))]>
                 (st_heap (supd c bf L r))) (supd c bf L r)
            = supd c (R ++ drop (length R) bf) (Z.of_nat (length R)) r) as ->.
    { unfold supd. cbn [st_heap with_heap].
      rewrite (upd_insert_same c bf L _ xr Hxr), insert_insert_eq.
      rewrite (upd_insert_same c _ _ _ xr Hxr). done. }
    cbn [mbind outcome_bind].
    assert (decay_mode (supd c (R ++ drop (length R) bf) (Z.of_nat (length R)) r) = false)
      as -> by (simpl; rewrite (route_frames_decay_mode _ _ _ _ _ Hroute); done).
    eexists. split; [reflexivity|].
    split.
    { rewrite length_app, length_drop, Hlbf. simpl.
      assert (length R <= length bf)%nat; [|lia].
      rewrite Hlbf, Hlb. rewrite <- Hcap in Hfit.
      apply (f_equal length) in Hsplit. rewrite !length_app in Hsplit. lia. }
    split; [by rewrite take_app_length|eauto].
Qed.

(** ** Chunk boundaries do not matter *)

(** Any prefix of a sequence of frames consists of some complete frames
    followed by less than the next one. *)
Lemma split_prefix (frames : list (list byte)) :
  forall (pi rest : list byte),
    pi ++ rest = concat frames ->
    exists j R,
      pi = concat (take j frames) ++ R /\
      R ++ rest = concat (drop j frames) /\
      match drop j frames with
      | [] => R = []
      | F :: _ => (length R < length F)%nat
      end.
Proof.
  induction frames as [|F Fs IH]; intros pi rest H.
  - simpl in H. apply app_eq_nil in H as [-> ->]. by exists 0%nat, [].
  - simpl in H. destruct (decide (length pi < length F)%nat) as [Hlt|Hge].
    + exists 0%nat, pi. simpl. done.
    + assert (F = take (length F) pi) as EF.
      { apply (f_equal (take (length F))) in H.
        rewrite take_app_le in H by lia. by rewrite take_app_length in H. }
      assert (drop (length F) pi ++ rest = concat Fs) as Hrest.
      { apply (f_equal (drop (length F))) in H.
        rewrite drop_app_le in H by lia. by rewrite drop_app_length in H. }
      destruct (IH _ _ Hrest) as (j & R & E1 & E2 & E3).
      exists (S j), R. simpl. split; [|done].
      rewrite <- app_assoc, <- E1, EF at 1. by rewrite take_drop.
Qed.

Lemma short_prefix_incomplete (sz : Z) (min : Z) (F R rest : list byte) :
  0 <= min ->
  well_formed sz min F -> (length R < length F)%nat ->
  take (length R) F = R ->
  incomplete sz R.
Proof.
  intros Hmin (size & body & -> & Hb & Hm & Hc) Hlt Htake.
  destruct (decide (length R < 4)%nat) as [Hs|Hl]; [by left|].
  right. exists size, (take (length R - 4) body).
  rewrite length_app, length_htonl in Hlt.
  split; [|lia].
  rewrite <- Htake at 1. rewrite take_app_ge by (rewrite length_htonl; lia).
  by rewrite length_htonl.
Qed.

Lemma well_formed_stream_take (sz : Z) (unset : bool) (frames : list (list byte)) (j : nat) :
  well_formed_stream sz unset frames -> well_formed_stream sz unset (take j frames).
Proof.
  destruct frames as [|F Fs]; [by destruct j|].
  destruct j as [|j]; [done|]. simpl. intros [H1 H2].
  split; [done|]. by apply Forall_take.
Qed.

Lemma well_formed_stream_drop (sz : Z) (unset : bool) (frames : list (list byte)) (j : nat) :
  well_formed_stream sz unset frames ->
  well_formed_stream sz (match j with O => unset | S _ => false end) (drop j frames).
Proof.
  destruct j as [|j]; [done|].
  destruct frames as [|F Fs]; [done|]. simpl. intros [_ H2].
  apply (Forall_drop _ j) in H2.
  destruct (drop j Fs) as [|F2 Fs']; [done|]. by apply Forall_cons in H2.
Qed.

Lemma well_formed_stream_weaken (sz : Z) (frames : list (list byte)) :
  well_formed_stream sz false frames -> forall unset, well_formed_stream sz unset frames.
Proof.
  destruct frames as [|F Fs]; [done|]. intros [H1 H2] unset. split; [|done].
  destruct unset; [|done].
  destruct H1 as (size & body & ? & ? & ? & ?). exists size, body.
  repeat split; try done. lia.
Qed.

Lemma route_frame_uid (fuel : nat) (c : nat) (F : list byte) (st s1 : state)
    (x x1 : fd_ctx) :
  route_frame fuel c F st = Ok s1 ->
  st_heap st !! c = Some x ->
  (faf_uid x = -1 -> (6 <= length F)%nat) ->
  st_heap s1 !! c = Some x1 ->
  faf_uid x1 <> -1.
Proof.
  unfold route_frame. intros H Hx Hlen Hx1.
  rewrite (proj2 (deref_Ok _ _ _) Hx) in H. cbn [mbind outcome_bind] in H.
  destruct (faf_uid x =? -1) eqn:Eu.
  - apply Z.eqb_eq in Eu. specialize (Hlen Eu).
    apply peer_sockets_insert_heap in H. simpl in H.
    rewrite H, lookup_insert_eq in Hx1. injection Hx1 as <-. simpl.
    pose proof (ntohs_range (take 2 (drop 4 F))) as Hr.
    rewrite length_take, length_drop in Hr. lia.
  - apply Z.eqb_neq in Eu.
    destruct (decay_mode st); [by simplify_eq|].
    apply bind_Ok in H as ([r st1] & Hl & H).
    destruct (lookup_peer_keeps_data _ _ _ _ _ _ Hl) as (Hk & _).
    assert (st_heap s1 = st_heap st1) as Hh by (destruct r; crush_ok; done).
    rewrite Hh in Hx1.
    destruct (keeps_data_fields _ _ _ _ _ Hk Hx Hx1) as (-> & _). done.
Qed.

Lemma route_frames_uid_kept (fuel : nat) (c : nat) (frames : list (list byte)) :
  forall (st r : state) (x xr : fd_ctx),
    route_frames fuel c frames st = Ok r ->
    st_heap st !! c = Some x -> faf_uid x <> -1 ->
    st_heap r !! c = Some xr -> faf_uid xr <> -1.
Proof.
  unfold route_frames.
  induction frames as [|F Fs IH]; intros st r x xr H Hx Hu Hxr; simpl in H.
  - by simplify_eq.
  - apply bind_Ok in H as (s1 & H1 & H).
    destruct Fs as [|F2 Fs'].
    + simpl in H. injection H as <-.
      eapply route_frame_uid; eauto. intros; lia.
    + assert (exists x1, st_heap s1 !! c = Some x1) as [x1 Hx1].
      { pose proof H as H'. simpl in H'. apply bind_Ok in H' as (s2 & H2 & _).
        unfold route_frame in H2. apply bind_Ok in H2 as (x1 & Hx1 & _).
        apply deref_Ok in Hx1. eauto. }
      eapply (IH s1 r x1); eauto.
      eapply route_frame_uid; eauto. intros; lia.
Qed.

Lemma route_frames_uid (sz : Z) (fuel : nat) (c : nat) (frames : list (list byte))
    (st r : state) (x xr : fd_ctx) :
  well_formed_stream sz (faf_uid x =? -1) frames ->
  frames <> [] ->
  route_frames fuel c frames st = Ok r ->
  st_heap st !! c = Some x ->
  st_heap r !! c = Some xr -> faf_uid xr <> -1.
Proof.
  destruct frames as [|F Fs]; [done|]. intros [HF _] _ H Hx Hxr.
  unfold route_frames in H. simpl in H. apply bind_Ok in H as (s1 & H1 & H).
  assert (faf_uid x = -1 -> (6 <= length F)%nat) as Hlen.
  { intros Eu. rewrite Eu in HF. simpl in HF.
    destruct HF as (size & body & -> & ? & ? & ?).
    rewrite length_app, length_htonl. lia. }
  destruct Fs as [|F2 Fs'].
  - simpl in H. injection H as <-. eapply route_frame_uid; eauto.
  - assert (exists x1, st_heap s1 !! c = Some x1) as [x1 Hx1].
    { pose proof H as H'. simpl in H'. apply bind_Ok in H' as (s2 & H2 & _).
      unfold route_frame in H2. apply bind_Ok in H2 as (x1 & Hx1 & _).
      apply deref_Ok in Hx1. eauto. }
    eapply (route_frames_uid_kept fuel c (F2 :: Fs') s1 r x1); eauto.
    eapply route_frame_uid; eauto.
Qed.

Lemma deliver_frames_inv (sz : Z) (fuel : nat) (c : nat) (ks : list nat) :
  forall (st r : state) (x : fd_ctx) (p stream : list byte) (frames : list (list byte)),
    0 <= sz ->
    holds_partial sz c st x p ->
    p ++ stream = concat frames ->
    short_of p frames ->
    well_formed_stream sz (faf_uid x =? -1) frames ->
    (length frames < fuel)%nat ->
    route_frames fuel c frames st = Ok r ->
    exists j R bf rj und,
      deliver sz fuel c ks stream st = Ok (supd c bf (Z.of_nat (length R)) rj) /\
      route_frames fuel c (take j frames) st = Ok rj /\
      length bf = length (buf x) /\
      take (length R) bf = R /\
      R ++ und = concat (drop j frames) /\
      short_of R (drop j frames) /\
      (length stream <= length ks -> und = [])%nat.
Proof.
  induction ks as [|k ks IH];
    intros st r x p stream frames Hsz Hinv Hcat Hshort Hwf Hfuel Hroute.
  - (* no event: the partial frame sits where it was *)
    destruct Hinv as (Hx & Hd & Hcap & Hbl & Htake).
    exists 0%nat, p, (buf x), st, stream. simpl.
    rewrite <- Hbl, (supd_same c st x Hx).
    repeat split; try done.
    intros Hl. destruct stream; [done|simpl in Hl; lia].
  - destruct stream as [|s0 stream'].
    { destruct Hinv as (Hx & Hd & Hcap & Hbl & Htake).
      exists 0%nat, p, (buf x), st, []. simpl.
      rewrite <- Hbl, (supd_same c st x Hx). repeat split; done. }
    set (stream := s0 :: stream') in *.
    destruct Hinv as (Hx & Hd & Hcap & Hbl & Htake).
    (* the buffer has room: the partial frame is shorter than a frame *)
    destruct frames as [|F0 Fs0] eqn:Efr.
    { simpl in Hshort, Hcat. subst p. discriminate. }
    rewrite <- Efr in *.
    assert (Z.of_nat (length p) < FDCTX_CLIENT_BUFSIZE sz) as Hroom.
    { rewrite Efr in Hshort, Hwf. simpl in Hshort. destruct Hwf as [HF _].
      apply well_formed_length in HF as (size & Hl & _ & Hc). lia. }
    cbn [deliver]. unfold stream at 1.
    rewrite (proj2 (deref_Ok _ _ _) Hx). cbn [mbind outcome_bind].
    set (n := Nat.min (S k) (Z.to_nat (FDCTX_CLIENT_BUFSIZE sz - buf_len x))).
    assert (1 <= n)%nat as Hn1 by (unfold n; lia).
    assert (Z.of_nat n <= FDCTX_CLIENT_BUFSIZE sz - Z.of_nat (length p)) as Hn2
      by (unfold n; lia).
    change (s0 :: stream') with stream.
    set (d := take n stream).
    assert (d <> []) as Hdne by (unfold d, stream; destruct n; [lia|done]).
    assert (length d <= n)%nat as Hdl by (unfold d; rewrite length_take; lia).
    (* what is in the buffer after the read: complete frames, then [R] *)
    destruct (split_prefix frames (p ++ d) (drop n stream)) as (j & R & E1 & E2 & E3).
    { rewrite <- app_assoc. unfold d. by rewrite take_drop. }
    assert (well_formed_stream sz
              (match j with O => faf_uid x =? -1 | S _ => false end) (drop j frames))
      as Hwfd by (by apply well_formed_stream_drop).
    assert (incomplete sz R) as Hinc.
    { destruct (drop j frames) as [|F' Fs'] eqn:Ed; [subst R; left; simpl; lia|].
      apply (short_prefix_incomplete sz
               (if match j with O => faf_uid x =? -1 | S _ => false end then 2 else 4)
               F' R []); [by destruct (match j with O => _ | S _ => _ end)| |done|].
      - by destruct Hwfd.
      - simpl in E2. apply (f_equal (take (length R))) in E2.
        rewrite take_app_length in E2. rewrite take_app_le in E2 by lia. done. }
    assert (exists rj, route_frames fuel c (take j frames) st = Ok rj /\
                       route_frames fuel c (drop j frames) rj = Ok r) as (rj & Hrj & Hrest).
    { rewrite <- (take_drop j frames) in Hroute. unfold route_frames in Hroute.
      rewrite for_each_app in Hroute. by apply bind_Ok in Hroute. }
    destruct (peer_event_frames sz fuel c st rj x p d R (take j frames) true)
      as (bf & Hev & Hlbf & Htbf & [xr Hxr]); try done.
    { lia. }
    { by apply well_formed_stream_take. }
    { rewrite length_take. lia. }
    rewrite Hev. cbn [mbind outcome_bind].
    (* the remaining events *)
    set (st' := supd c bf (Z.of_nat (length R)) rj).
    assert (route_frames fuel c (drop j frames) st'
            = Ok (supd c bf (Z.of_nat (length R)) r)) as Hroute'
      by (unfold st'; rewrite route_frames_supd, Hrest; done).
    destruct (IH st' (supd c bf (Z.of_nat (length R)) r)
                (touch bf (Z.of_nat (length R)) xr) R (drop n stream) (drop j frames) Hsz)
      as (j' & R' & bf' & rj' & und' & Hdel & Hrj' & Hlbf' & Htbf' & Eund & Hsh' & Hund');
      try done.
    { split; [by apply supd_lookup_c|].
      split; [simpl; rewrite (route_frames_decay_mode _ _ _ _ _ Hrj); done|].
      simpl. split; [lia|done]. }
    { simpl. destruct j as [|j0].
      - simpl in Hrj. unfold route_frames in Hrj. simpl in Hrj. injection Hrj as <-.
        rewrite Hx in Hxr. injection Hxr as <-. done.
      - by apply well_formed_stream_weaken. }
    { rewrite length_drop. lia. }
    unfold st' in Hrj'. rewrite route_frames_supd in Hrj'.
    apply fmap_Ok in Hrj' as (rj'' & Hrj'' & <-).
    exists (j + j')%nat, R', bf', rj'', und'.
    rewrite supd_supd in Hdel.
    split; [exact Hdel|].
    split.
    { rewrite <- take_take_drop. unfold route_frames in *.
      rewrite for_each_app, Hrj. exact Hrj''. }
    rewrite drop_drop in Eund, Hsh'.
    split; [simpl in Hlbf'; lia|].
    split; [done|]. split; [done|]. split; [done|].
    intros Hl. apply Hund'. rewrite length_drop. simpl in Hl. unfold stream. simpl. lia.
Qed.

(** ** The UID index keeps the first holder of a uid *)

Lemma set_find_ext (h h' : gmap nat fd_ctx) (key : Z) (s : list nat) :
  (forall e, e ∈ s -> h' !! e = h !! e) ->
  set_find h' key s = set_find h key s.
Proof.
  induction s as [|e s IH]; intros Hs; simpl; [done|].
  unfold deref. rewrite (Hs e) by set_solver.
  destruct (h !! e) as [x|]; simpl; [|done].
  rewrite IH by (intros; apply Hs; set_solver). done.
Qed.

Lemma set_insert_ext (h h' : gmap nat fd_ctx) (key : Z) (c : nat) (s : list nat) :
  (forall e, e ∈ s -> h' !! e = h !! e) ->
  set_insert h' key c s = set_insert h key c s.
Proof.
  induction s as [|e s IH]; intros Hs; simpl; [done|].
  unfold deref. rewrite (Hs e) by set_solver.
  destruct (h !! e) as [x|]; simpl; [|done].
  rewrite IH by (intros; apply Hs; set_solver). done.
Qed.

(** [insert] of an element equivalent to one in the set changes nothing. *)
Lemma set_insert_held (h : gmap nat fd_ctx) (key : Z) (c a : nat) (s : list nat) :
  set_find h key s = Ok (Some a) -> set_insert h key c s = Ok s.
Proof.
  induction s as [|e s IH]; simpl; intros H; [discriminate|].
  destruct (deref h e) as [x| | |]; simpl in *; try discriminate.
  destruct (faf_uid x <? key); [by rewrite IH|].
  destruct (key <? faf_uid x); [discriminate|done].
Qed.

(** [insert] under a uid nobody holds makes the element the holder. *)
Lemma set_insert_free (h : gmap nat fd_ctx) (key : Z) (c : nat) (xc : fd_ctx)
    (s : list nat) :
  set_find h key s = Ok None ->
  h !! c = Some xc -> faf_uid xc = key ->
  exists s', set_insert h key c s = Ok s' /\ set_find h key s' = Ok (Some c).
Proof.
  intros H Hc Hu.
  assert (set_find h key [c] = Ok (Some c)) as Hone.
  { simpl. rewrite (proj2 (deref_Ok _ _ _) Hc). simpl.
    rewrite Hu, Z.ltb_irrefl. done. }
  induction s as [|e s IH]; simpl in *; [eauto|].
  destruct (deref h e) as [x| | |] eqn:Ee; simpl in *; try discriminate.
  destruct (faf_uid x <? key) eqn:E1.
  - destruct (IH H) as (s' & Hi & Hf). rewrite Hi. simpl.
    exists (e :: s'). split; [done|]. simpl. by rewrite Ee; simpl; rewrite E1.
  - destruct (key <? faf_uid x) eqn:E2; [|discriminate].
    exists (c :: e :: s). split; [done|].
    simpl. rewrite (proj2 (deref_Ok _ _ _) Hc). simpl.
    by rewrite Hu, Z.ltb_irrefl.
Qed.

(** The uid announcement as [route_frame] performs it: the uid is set from
    the frame and [peer_sockets.insert] is called; the connection becomes
    the holder of the uid in the index unless the uid is held already, in
    which case the index stays as it is. *)
Lemma announce_effect (fuel : nat) (c : nat) (F : list byte) (st : state) (x : fd_ctx)
    (holder : option nat) :
  st_heap st !! c = Some x -> faf_uid x = -1 ->
  c ∉ peer_sockets st ->
  peer_sockets_find (ntohs (take 2 (drop 4 F))) st = Ok holder ->
  exists st2,
    route_frame fuel c F st = Ok st2 /\
    st_heap st2 = <[c := set_faf_uid (ntohs (take 2 (drop 4 F))) x]> (st_heap st) /\
    trace st2 = trace st /\ decay_mode st2 = decay_mode st /\
    total_sockets st2 = total_sockets st /\
    peer_sockets_find (ntohs (take 2 (drop 4 F))) st2 = Ok (Some (default c holder)) /\
    (is_Some holder -> peer_sockets st2 = peer_sockets st).
Proof.
  intros Hx Hu Hnotin Hfind. unfold route_frame.
  rewrite (proj2 (deref_Ok _ _ _) Hx). cbn [mbind outcome_bind].
  rewrite Hu. simpl Z.eqb. cbv iota.
  set (u := ntohs (take 2 (drop 4 F))) in *.
  unfold peer_sockets_insert. cbn [st_heap with_heap peer_sockets].
  rewrite deref_insert_eq. cbn [mbind outcome_bind faf_uid set_faf_uid].
  set (h' := <[c := set_faf_uid u x]> (st_heap st)).
  assert (forall e, e ∈ peer_sockets st -> h' !! e = st_heap st !! e) as Hext.
  { intros e He. unfold h'. rewrite lookup_insert_ne; [done|]. intros ->. done. }
  unfold peer_sockets_find in Hfind.
  rewrite <- (set_find_ext _ h' u _ Hext) in Hfind.
  destruct holder as [a|].
  - rewrite (set_insert_held h' u c a _ Hfind). cbn [mbind outcome_bind].
    eexists. split; [reflexivity|]. simpl. repeat split; try done.
  - destruct (set_insert_free h' u c (set_faf_uid u x) _ Hfind) as (s' & Hi & Hf);
      [apply lookup_insert_eq|done|].
    rewrite Hi. cbn [mbind outcome_bind].
    eexists. split; [reflexivity|]. simpl. repeat split; try done.
Qed.

Lemma announce_frame_uid (size U : Z) (rest : list byte) :
  0 <= U <= 65535 ->
  ntohs (take 2 (drop 4 (htonl size ++ htons U ++ rest))) = U.
Proof.
  intros HU. rewrite drop_app_length' by done.
  rewrite take_app_length' by done.
  rewrite ntohs_htons. unfold to_uint16. apply Z.mod_small. lia.
Qed.

(** A whole announcement read at once by a connection with an empty
    buffer, for a uid that another connection holds. *)
Lemma second_claim_event (sz : Z) (fuel : nat) (A B : nat) (st : state)
    (xa xb : fd_ctx) (U size : Z) (rest : list byte) (ok : bool) :
  0 <= sz ->
  st_heap st !! A = Some xa ->
  st_heap st !! B = Some xb ->
  A <> B ->
  faf_uid xb = -1 ->
  decay_mode st = false ->
  buf_len xb = 0 ->
  Z.of_nat (length (buf xb)) = FDCTX_CLIENT_BUFSIZE sz ->
  peer_sockets_find U st = Ok (Some A) ->
  B ∉ peer_sockets st ->
  0 <= U <= 65535 ->
  2 <= size -> size + 4 <= FDCTX_CLIENT_BUFSIZE sz ->
  Z.of_nat (length rest) = size - 2 ->
  (1 < fuel)%nat ->
  exists st',
    peer_event sz fuel B (rd_data (htonl size ++ htons U ++ rest)) ok st = Ok st' /\
    peer_sockets_find U st' = Ok (Some A) /\
    peer_sockets st' = peer_sockets st /\
    st_heap st' !! A = Some xa /\
    (exists xb', st_heap st' !! B = Some xb' /\ faf_uid xb' = U /\ buf_len xb' = 0) /\
    trace st' = trace st.
Proof.
  intros Hsz Ha Hb Hne Hu Hd Hbl Hcap Hfind Hnotin HU Hs2 Hs4 Hrest Hfuel.
  set (F := htonl size ++ htons U ++ rest).
  pose proof (announce_frame_uid size U rest HU) as EU. fold F in EU.
  destruct (announce_effect fuel B F st xb (Some A) Hb Hu Hnotin)
    as (st2 & Hroute & Hh2 & Ht2 & Hd2 & _ & Hf2 & Hs2');
    [by rewrite EU|].
  rewrite EU in Hh2, Hf2. simpl in Hf2.
  assert (length F = Z.to_nat (size + 4)) as HlF.
  { unfold F. rewrite !length_app, length_htonl, length_htons. lia. }
  assert (well_formed_stream sz (faf_uid xb =? -1) [F]) as Hwf.
  { simpl. split; [|done]. rewrite Hu. simpl.
    exists size, (htons U ++ rest). rewrite length_app, length_htons.
    repeat split; try done. lia. }
  assert (route_frames fuel B [F] st = Ok st2) as Hroutes
    by (unfold route_frames; simpl; by rewrite Hroute).
  assert (F <> []) as HFne by (unfold F; by destruct (htonl size)).
  destruct (peer_event_frames sz fuel B st st2 xb [] F [] [F] ok Hsz Hb Hd Hcap)
    as (bf & Hev & Hlbf & _ & _);
    [by rewrite Hbl|done|done|simpl; lia|by simpl; rewrite !app_nil_r
    |done|left; simpl; lia|simpl; lia|done|].
  exists (supd B bf (Z.of_nat (length (@nil byte))) st2).
    split; [exact Hev|]. simpl.
    split; [unfold peer_sockets_find; simpl; by rewrite set_find_upd|].
    split; [by apply Hs2'|].
    split.
    { rewrite upd_lookup, Hh2, lookup_insert_ne, Ha by done. simpl.
      unfold touch_at. by rewrite decide_False. }
    split; [|done].
    eexists. rewrite upd_lookup, Hh2, lookup_insert_eq. simpl.
    unfold touch_at. rewrite decide_True by done. done.
Qed.

(** C3.  An addressed frame (size, port, destuid, payload) whose
    destination resolves to a live peer is sent to that peer as
    (size - 2, port, payload), size and port in network byte order and the
    payload as received.  The frame is rewritten where it lies: afterwards
    the inbound buffer holds the outbound frame two bytes behind the place
    of the inbound one, and these are the bytes handed to [write]. *)
Theorem header_rewrite_law (fuel : nat) (c peer : nat) (st st1 : state)
    (x x1 y : fd_ctx) (pre post payload : list byte) (size port destuid : Z) :
  st_heap st !! c = Some x ->
  buf x = pre ++ (htonl size ++ htons port ++ htons destuid ++ payload) ++ post ->
  Z.of_nat (length payload) = size - 4 ->
  size < 2147483648 ->
  0 <= destuid <= 65535 ->
  lookup_peer fuel c destuid st = Ok (Some peer, st1) ->
  st_heap st1 !! c = Some x1 ->
  st_heap st1 !! peer = Some y ->
  let out := htonl (size - 2) ++ htons port ++ payload in
  let buf' := pre ++ (take 2 (htonl size) ++ out) ++ post in
  forward fuel c (Z.of_nat (length pre)) size st =
    Ok (emit [sys_write_peer (fd y) out]
          (with_heap (<[c := set_buf buf' x1]> (st_heap st1)) st1)) /\
  load buf' (Z.of_nat (length pre) + 2) (length out) = Ok out.
Proof.
  intros Hx Hb Hpl Hsz HU Hlook Hx1 Hy out buf'.
  set (F := htonl size ++ htons port ++ htons destuid ++ payload) in *.
  split.
  - unfold forward. rewrite (proj2 (deref_Ok _ _ _) Hx). cbn [mbind outcome_bind].
    replace (Z.of_nat (length pre) + 6) with (Z.of_nat (length pre) + Z.of_nat 6) by lia.
    rewrite (load_frame _ pre F post 6 2 Hb)
      by (unfold F; rewrite !length_app, length_htonl, !length_htons; lia).
    cbn [mbind outcome_bind].
    assert (take 2 (drop 6 F) = htons destuid) as ->.
    { unfold F. rewrite (app_assoc (htonl size)).
      rewrite drop_app_length' by (rewrite length_app, length_htonl, length_htons; lia).
      by rewrite take_app_length'. }
    rewrite ntohs_htons. unfold to_uint16. rewrite Z.mod_small by lia.
    rewrite Hlook. cbn [mbind outcome_bind].
    destruct (lookup_peer_keeps_data _ _ _ _ _ _ Hlook) as (Hk & _).
    destruct (keeps_data_fields _ _ _ _ _ Hk Hx Hx1) as (_ & Eb1 & _).
    assert (buf x1 = pre ++ F ++ post) as Hb1 by (rewrite Eb1; exact Hb).
    exact (rewrite_and_write_frame c peer st1 x1 y pre (htons port) (htons destuid)
             payload post size Hx1 Hy Hb1 eq_refl eq_refl Hpl Hsz).
  - replace (Z.of_nat (length pre) + 2) with (Z.of_nat (length pre) + Z.of_nat 2) by lia.
    rewrite (load_frame buf' pre (take 2 (htonl size) ++ out) post 2 (length out) eq_refl)
      by (rewrite length_app; simpl; lia).
    rewrite drop_app_length' by done. by rewrite firstn_all.
Qed.

(** One round of the parse loop on a complete announcement, in or outside
    decay: the uid is set and [peer_sockets.insert] is called, which enters
    the connection in the UID index unless the index holds that uid. *)
Lemma announce_iteration (sz : Z) (fuel n : nat) (c : nat) (st : state) (x : fd_ctx)
    (pre post rest : list byte) (U size : Z) (holder : option nat) :
  0 <= sz ->
  st_heap st !! c = Some x ->
  faf_uid x = -1 ->
  c ∉ peer_sockets st ->
  buf x = pre ++ (htonl size ++ htons U ++ rest) ++ post ->
  0 <= U <= 65535 ->
  2 <= size -> size + 4 <= FDCTX_CLIENT_BUFSIZE sz ->
  Z.of_nat (length rest) = size - 2 ->
  Z.of_nat (length pre) + (size + 4) <= buf_len x ->
  peer_sockets_find U st = Ok holder ->
  exists st2,
    parse_loop sz fuel (S n) c (Z.of_nat (length pre)) st =
      parse_loop sz fuel n c (Z.of_nat (length pre) + (size + 4)) st2 /\
    st_heap st2 = <[c := set_faf_uid U x]> (st_heap st) /\
    peer_sockets_find U st2 = Ok (Some (default c holder)) /\
    (is_Some holder -> peer_sockets st2 = peer_sockets st) /\
    trace st2 = trace st /\
    decay_mode st2 = decay_mode st /\
    ctrl_socket_mode_listen st2 = ctrl_socket_mode_listen st.
Proof.
  intros Hsz Hx Hu Hnotin Hb HU Hs2 Hs4 Hrest Hlen Hfind.
  set (F := htonl size ++ htons U ++ rest) in *.
  pose proof (announce_frame_uid size U rest HU) as EU. fold F in EU.
  destruct (announce_effect fuel c F st x holder Hx Hu Hnotin)
    as (st2 & Hroute & Hh2 & Ht2 & Hd2 & _ & Hf2 & Hs2');
    [by rewrite EU|].
  rewrite EU in Hh2, Hf2.
  unfold route_frame in Hroute.
  rewrite (proj2 (deref_Ok _ _ _) Hx) in Hroute. cbn [mbind outcome_bind] in Hroute.
  rewrite Hu, EU in Hroute. simpl Z.eqb in Hroute. cbv iota in Hroute.
  exists st2.
  split.
  { rewrite (parse_loop_head sz fuel n c st x pre (htons U ++ rest) post size)
      by (done || rewrite length_app, length_htons; lia).
    rewrite Hu. simpl Z.eqb. cbv iota.
    replace (Z.of_nat (length pre) + 4) with (Z.of_nat (length pre) + Z.of_nat 4) by lia.
    rewrite (load_frame _ pre F post 4 2 Hb)
      by (unfold F; rewrite !length_app, length_htonl, length_htons; lia).
    cbn [mbind outcome_bind]. rewrite EU, Hroute. done. }
  repeat split; try done.
  unfold peer_sockets_insert in Hroute. apply bind_Ok in Hroute as (? & _ & Hroute).
  apply bind_Ok in Hroute as (? & _ & Hroute). injection Hroute as <-. done.
Qed.

(** C1, as the code has it.  When the parse loop meets the announcement of
    a connection [B] whose uid is unset, for a uid [U] that the UID index
    maps to a live connection [A], the index is left as it is: it still
    maps [U] to [A], and [A] is untouched.  [B] takes the uid [U] but is
    not entered in the index, so it is not addressable by [U]; nothing is
    written. *)
Theorem second_claim_keeps_first_holder (sz : Z) (fuel n : nat) (A B : nat) (st : state)
    (xa xb : fd_ctx) (pre post rest : list byte) (U size : Z) :
  0 <= sz ->
  st_heap st !! A = Some xa ->
  st_heap st !! B = Some xb ->
  A <> B ->
  faf_uid xb = -1 ->
  B ∉ peer_sockets st ->
  peer_sockets_find U st = Ok (Some A) ->
  buf xb = pre ++ (htonl size ++ htons U ++ rest) ++ post ->
  0 <= U <= 65535 ->
  2 <= size -> size + 4 <= FDCTX_CLIENT_BUFSIZE sz ->
  Z.of_nat (length rest) = size - 2 ->
  Z.of_nat (length pre) + (size + 4) <= buf_len xb ->
  exists st2,
    parse_loop sz fuel (S n) B (Z.of_nat (length pre)) st =
      parse_loop sz fuel n B (Z.of_nat (length pre) + (size + 4)) st2 /\
    peer_sockets_find U st2 = Ok (Some A) /\
    peer_sockets st2 = peer_sockets st /\
    (B ∉ peer_sockets st2) /\
    st_heap st2 !! A = Some xa /\
    st_heap st2 !! B = Some (set_faf_uid U xb) /\
    trace st2 = trace st.
Proof.
  intros Hsz Ha Hb Hne Hu Hnotin Hfind Hbuf HU Hs2 Hs4 Hrest Hlen.
  destruct (announce_iteration sz fuel n B st xb pre post rest U size (Some A))
    as (st2 & Hloop & Hh & Hf & Hs & Ht & _); try done.
  exists st2. rewrite Hh, (Hs ltac:(eauto)).
  repeat split; try done.
  - by rewrite lookup_insert_ne.
  - by rewrite lookup_insert_eq.
Qed.

(** C10, as the code has it.  While the instance decays, the first complete
    frame of a connection whose uid is unset is still taken as its uid
    announcement: the uid is set from the frame and [peer_sockets.insert] is
    called just as outside decay, so the connection becomes the holder of
    that uid in the UID index unless another connection holds it already
    (then the index stays as it is).  The frames that follow in the same
    buffer are consumed without any write to a peer. *)
Theorem decay_still_announces (sz : Z) (fuel n : nat) (c : nat) (st : state) (x : fd_ctx)
    (pre post rest : list byte) (U size : Z) (holder : option nat) :
  0 <= sz ->
  decay_mode st = true ->
  ctrl_socket_mode_listen st = true ->
  st_heap st !! c = Some x ->
  faf_uid x = -1 ->
  c ∉ peer_sockets st ->
  buf x = pre ++ (htonl size ++ htons U ++ rest) ++ post ->
  0 <= U <= 65535 ->
  2 <= size -> size + 4 <= FDCTX_CLIENT_BUFSIZE sz ->
  Z.of_nat (length rest) = size - 2 ->
  Z.of_nat (length pre) + (size + 4) <= buf_len x ->
  peer_sockets_find U st = Ok holder ->
  exists st2,
    parse_loop sz fuel (S n) c (Z.of_nat (length pre)) st =
      parse_loop sz fuel n c (Z.of_nat (length pre) + (size + 4)) st2 /\
    st_heap st2 = <[c := set_faf_uid U x]> (st_heap st) /\
    peer_sockets_find U st2 = Ok (Some (default c holder)) /\
    (is_Some holder -> peer_sockets st2 = peer_sockets st) /\
    trace st2 = trace st /\
    decay_mode st2 = true /\
    (forall o st' r,
       parse_loop sz fuel n c o st2 = Ok (st', r) ->
       exists evs, trace st' = trace st ++ evs /\ quiet evs).
Proof.
  intros Hsz Hd Hl Hx Hu Hnotin Hb HU Hs2 Hs4 Hrest Hlen Hfind.
  destruct (announce_iteration sz fuel n c st x pre post rest U size holder)
    as (st2 & Hloop & Hh & Hf & Hs & Ht & Hd2 & Hl2); try done.
  exists st2. repeat split; try done; [congruence|].
  intros o st' r Hparse.
  destruct (parse_loop_decay _ _ _ _ _ _ _ _ Hparse) as (_ & _ & evs & Hev & Hq).
  { split; congruence. }
  exists evs. split; [congruence|done].
Qed.

(** ** A cache access sweeps nothing *)

Lemma add_front_entries (owner p : nat) (h h' : gmap nat fd_ctx) (x : fd_ctx) :
  add_front owner p h = Ok h' ->
  h !! owner = Some x ->
  (npeers (ctx_peers x) < length (peers (ctx_peers x)))%nat ->
  exists x', h' !! owner = Some x' /\
             cache_entries x' = p :: take (npeers (ctx_peers x)) (peers (ctx_peers x)).
Proof.
  intros Hadd Hx Hn.
  assert (is_Some (h !! p)) as Hp.
  { unfold add_front in Hadd.
    rewrite (proj2 (deref_Ok _ _ _) Hx) in Hadd. cbn [mbind outcome_bind] in Hadd.
    apply bind_Ok in Hadd as ([a1 prev] & _ & Hadd).
    apply bind_Ok in Hadd as (a2 & _ & Hadd).
    apply bind_Ok in Hadd as (a3 & _ & Hadd).
    apply bind_Ok in Hadd as (y & Hy & _). apply deref_Ok in Hy.
    destruct (decide (p = owner)) as [->|Hne]; [eauto|].
    rewrite lookup_insert_ne in Hy by done. eauto. }
  rewrite (add_front_Ok owner p h x Hx Hp Hn) in Hadd. injection Hadd as <-.
  assert (exists y, alter incr_refcount p h !! owner = Some y /\
                    ctx_peers y = ctx_peers x) as (y & Hy & Ey).
  { destruct (decide (p = owner)) as [->|Hne].
    - rewrite lookup_alter_eq, Hx. eauto.
    - rewrite lookup_alter_ne by done. eauto. }
  eexists. split; [rewrite lookup_alter_eq, Hy; reflexivity|].
  by rewrite cache_entries_shifted.
Qed.

Lemma add_entries (fuel : nat) (owner p : nat) (h h' : gmap nat fd_ctx) (x : fd_ctx) :
  add fuel owner p h = Ok h' ->
  h !! owner = Some x -> cache_ok x ->
  exists x', h' !! owner = Some x' /\
    cache_entries x' =
      p :: (if (npeers (ctx_peers x) <? MAX_PEERS)%nat then cache_entries x
            else removelast (cache_entries x)).
Proof.
  intros Hadd Hx [Hle Hlen].
  destruct fuel as [|fuel]; [discriminate|]. cbn [add] in Hadd.
  rewrite (proj2 (deref_Ok _ _ _) Hx) in Hadd. cbn [mbind outcome_bind] in Hadd.
  destruct (npeers (ctx_peers x) <? MAX_PEERS)%nat eqn:Hfull.
  - apply Nat.ltb_lt in Hfull.
    apply (add_front_entries owner p h h' x Hadd Hx). lia.
  - apply Nat.ltb_ge in Hfull.
    assert (npeers (ctx_peers x) = MAX_PEERS) as Hn by lia.
    apply bind_Ok in Hadd as (t & _ & Hadd).
    apply bind_Ok in Hadd as (h1 & Hun & Hadd).
    apply bind_Ok in Hadd as (x1 & Hx1 & Hadd). apply deref_Ok in Hx1.
    destruct (unref_only_refcounts _ _ _ _ Hun _ _ Hx1) as (x0 & Hx0 & Ex1).
    rewrite Hx in Hx0. injection Hx0 as <-.
    assert (ctx_peers x1 = ctx_peers x) as Epp by (rewrite Ex1; done).
    rewrite Epp, Hn in Hadd.
    destruct fuel as [|fuel]; [discriminate|]. cbn [add] in Hadd.
    rewrite deref_insert_eq in Hadd. cbn [mbind outcome_bind] in Hadd.
    cbn [ctx_peers set_ctx_peers npeers MAX_PEERS Nat.sub Nat.ltb Nat.leb] in Hadd.
    set (x2 := set_ctx_peers _ x1) in Hadd.
    destruct (add_front_entries owner p _ h' x2 Hadd (lookup_insert_eq _ _ _))
      as (x' & Hx' & Ex').
    { unfold x2. cbn [ctx_peers set_ctx_peers npeers peers]. rewrite Hlen.
      unfold MAX_PEERS. lia. }
    exists x'. split; [done|]. rewrite Ex'. f_equal.
    unfold x2. cbn [ctx_peers set_ctx_peers npeers peers].
    unfold cache_entries. rewrite Hn, <- Hlen, firstn_all.
    rewrite removelast_firstn_len, Hlen. done.
Qed.

Lemma in_removelast_or_last (q : nat) (l : list nat) :
  q ∈ l -> q ∈ removelast l \/ last l = Some q.
Proof.
  intros Hq. destruct l as [|a l] using rev_ind; [by apply elem_of_nil in Hq|].
  rewrite removelast_last, last_snoc.
  apply elem_of_app in Hq as [Hq|Hq]; [by left|].
  apply list_elem_of_singleton in Hq. subst. by right.
Qed.

(** C6, as the code has it.  An entry of a peer cache is identified or
    tombstoned (uid unset), and no cache access sweeps a tombstoned one:
    the access for a decoded uid [U] ([find], and on a miss the UID index
    followed by [add]) returns only a context whose uid is [U], and
    afterwards the cache holds what it held, in the same order, behind the
    context just inserted if there is one; only the tail of a full cache
    makes room for that insertion.  So a tombstoned entry stays until it is
    the tail of the full cache. *)
Theorem cache_access_sweeps_nothing (fuel : nat) (c : nat) (U : Z) (st st1 : state)
    (r : option nat) (x : fd_ctx) :
  0 <= U <= 65535 ->
  st_heap st !! c = Some x ->
  cache_ok x ->
  lookup_peer fuel c U st = Ok (r, st1) ->
  exists x1,
    st_heap st1 !! c = Some x1 /\
    (forall p, r = Some p ->
       exists y, st_heap st !! p = Some y /\ faf_uid y = U /\ faf_uid y <> -1) /\
    (cache_entries x1 = cache_entries x \/
     exists p, r = Some p /\
       cache_entries x1 =
         p :: (if (npeers (ctx_peers x) <? MAX_PEERS)%nat then cache_entries x
               else removelast (cache_entries x))) /\
    (forall q yq,
       q ∈ cache_entries x -> st_heap st !! q = Some yq -> faf_uid yq = -1 ->
       q ∈ cache_entries x1 \/
       (npeers (ctx_peers x) = MAX_PEERS /\ last (cache_entries x) = Some q)).
Proof.
  intros HU Hx Hok Hlook. unfold lookup_peer in Hlook.
  rewrite (proj2 (deref_Ok _ _ _) Hx) in Hlook. cbn [mbind outcome_bind] in Hlook.
  apply bind_Ok in Hlook as (r1 & Hf & Hlook).
  destruct r1 as [peer|].
  { injection Hlook as <- <-. exists x. split; [done|]. split; [|split; [by left|by left]].
    intros p [= <-]. destruct (find_sound _ _ _ _ Hf) as (y & Hy & Ey).
    exists y. repeat split; [done|done|lia]. }
  apply bind_Ok in Hlook as (it & Hi & Hlook).
  destruct it as [peer|].
  2:{ injection Hlook as <- <-. exists x. split; [done|].
      split; [done|split; [by left|by left]]. }
  apply bind_Ok in Hlook as (st' & Hadd & Hlook). injection Hlook as <- <-.
  unfold on_heap in Hadd. apply bind_Ok in Hadd as (h' & Hadd & Hst'). injection Hst' as <-.
  destruct (add_entries _ _ _ _ _ _ Hadd Hx Hok) as (x1 & Hx1 & Ex1).
  exists x1. split; [done|]. split; [|split].
  - intros p [= <-]. destruct (set_find_sound _ _ _ _ Hi) as (y & Hy & Ey).
    exists y. repeat split; [done|done|lia].
  - right. exists peer. done.
  - intros q yq Hq _ _. rewrite Ex1.
    destruct (npeers (ctx_peers x) <? MAX_PEERS)%nat eqn:Hfull.
    + left. by apply elem_of_cons; right.
    + apply Nat.ltb_ge in Hfull. destruct Hok as [Hle _].
      destruct (in_removelast_or_last q _ Hq) as [Hin|Hlast].
      * left. by apply elem_of_cons; right.
      * right. split; [lia|done].
Qed.

(** ** The size check of the parse loop *)

(** What the loop does with a buffered size field [w], the frame starting
    behind [pre]: it closes the connection when [w], read as a signed
    32-bit integer, exceeds the capacity; a [w] of at most the capacity
    that cannot fit with its size field just waits for more bytes; and a
    [w] of 2^31 or more, negative as an [int], passes both checks and is
    taken as a frame. *)
Lemma size_check (sz : Z) (fuel n : nat) (c : nat) (st : state) (x : fd_ctx)
    (pre post : list byte) (w : Z) :
  0 <= sz ->
  st_heap st !! c = Some x ->
  buf x = pre ++ htonl w ++ post ->
  0 <= w < 4294967296 ->
  Z.of_nat (length pre) + 4 <= buf_len x ->
  buf_len x <= FDCTX_CLIENT_BUFSIZE sz ->
  (FDCTX_CLIENT_BUFSIZE sz < w < 2147483648 ->
     parse_loop sz fuel (S n) c (Z.of_nat (length pre)) st =
       (st' ← close_connection fuel true c st; Ok (st', None))) /\
  (FDCTX_CLIENT_BUFSIZE sz - 4 < w <= FDCTX_CLIENT_BUFSIZE sz ->
     parse_loop sz fuel (S n) c (Z.of_nat (length pre)) st =
       Ok (st, Some (Z.of_nat (length pre)))) /\
  (2147483648 <= w -> 0 <= FDCTX_CLIENT_BUFSIZE sz ->
     parse_loop sz fuel (S n) c (Z.of_nat (length pre)) st =
       let in_msg_size := w - 4294967296 in
       if faf_uid x =? -1 then
         u ← load (buf x) (Z.of_nat (length pre) + 4) 2;
         st2 ← peer_sockets_insert c
                  (with_heap (<[c := set_faf_uid (ntohs u) x]> (st_heap st)) st);
         parse_loop sz fuel n c (Z.of_nat (length pre) + (in_msg_size + 4)) st2
       else
         st1 ← (if decay_mode st then Ok st
                else forward fuel c (Z.of_nat (length pre)) in_msg_size st);
         parse_loop sz fuel n c (Z.of_nat (length pre) + (in_msg_size + 4)) st1).
Proof.
  intros Hsz Hx Hb Hw Hlen Hcap.
  assert (load (buf x) (Z.of_nat (length pre)) 4 = Ok (htonl w)) as Hload.
  { replace (Z.of_nat (length pre)) with (Z.of_nat (length pre) + Z.of_nat 0) by lia.
    rewrite (load_frame _ pre (htonl w) post 0 4 Hb) by (rewrite length_htonl; lia).
    rewrite drop_0. apply f_equal, firstn_all2. rewrite length_htonl. lia. }
  cbn [parse_loop].
  rewrite (proj2 (deref_Ok _ _ _) Hx). cbn [mbind outcome_bind].
  rewrite (proj2 (Z.ltb_lt _ _)) by lia.
  rewrite (proj2 (Z.ltb_ge _ _)) by lia.
  rewrite Hload. cbn [mbind outcome_bind].
  rewrite ntohl_htonl. unfold to_uint32. rewrite (Z.mod_small w) by lia.
  split; [|split].
  - intros Hr. rewrite to_int32_small by lia.
    by rewrite (proj2 (Z.gtb_lt _ _)) by lia.
  - intros Hr. unfold FDCTX_CLIENT_BUFSIZE in *. rewrite to_int32_small by lia.
    assert ((w >? 4096 - sz) = false) as -> by lia.
    assert ((w + 4 >? buf_len x - Z.of_nat (length pre)) = true) as -> by lia.
    done.
  - intros Hr Hc. unfold FDCTX_CLIENT_BUFSIZE in *.
    assert (to_int32 w = w - 4294967296) as ->.
    { unfold to_int32. Z.div_mod_to_equations. lia. }
    assert ((w - 4294967296 >? 4096 - sz) = false) as -> by lia.
    assert ((w - 4294967296 + 4 >? buf_len x - Z.of_nat (length pre)) = false) as -> by lia.
    done.
Qed.

(** * The properties on the concrete scenarios *)

(** Conjunctions of facts that hold by evaluation. *)
Ltac conjuncts := repeat match goal with |- _ /\ _ => split end.
Ltac by_evaluation := conjuncts; try (vm_compute; reflexivity).


(** ** C1: a second claim of a uid *)

(** Context 1 holds uid 42 in the UID index; context 2, uid unset,
    announces 42.  Afterwards the index still maps 42 to context 1, not to
    context 2, which is not in the index at all although its uid is 42. *)
Lemma second_claim_does_not_replace :
  peer_sockets_find 42 st_a_announced = Ok (Some 1%nat) /\
  faf_uid (ctx_of st_a_announced 2) = -1 /\
  peer_event sizeof_fd_ctx_lp64 64 2%nat (rd_data announce_42) true st_a_announced
    = Ok st_second_claim /\
  peer_sockets_find 42 st_second_claim = Ok (Some 1%nat) /\
  peer_sockets_find 42 st_second_claim <> Ok (Some 2%nat) /\
  peer_sockets st_second_claim = [1%nat] /\
  faf_uid (ctx_of st_second_claim 2) = 42.
Proof.
  by_evaluation.
  vm_compute. discriminate.
Qed.

Lemma second_claim_keeps_first_holder_witness :
  exists st2,
    parse_loop sizeof_fd_ctx_lp64 64 (S 63) 2%nat (Z.of_nat (length (@nil byte)))
      st_second_buffered =
      parse_loop sizeof_fd_ctx_lp64 64 63 2%nat (Z.of_nat (length (@nil byte)) + (2 + 4)) st2 /\
    peer_sockets_find 42 st2 = Ok (Some 1%nat) /\
    peer_sockets st2 = peer_sockets st_second_buffered /\
    (2%nat ∉ peer_sockets st2) /\
    st_heap st2 !! 1%nat = Some (ctx_of st_second_buffered 1) /\
    st_heap st2 !! 2%nat = Some (set_faf_uid 42 (ctx_of st_second_buffered 2)) /\
    trace st2 = trace st_second_buffered.
Proof.
  apply (second_claim_keeps_first_holder sizeof_fd_ctx_lp64 64 63 1%nat 2%nat
           st_second_buffered (ctx_of st_second_buffered 1) (ctx_of st_second_buffered 2)
           [] (drop 6 (buf (ctx_of st_second_buffered 2))) [] 42 2).
  - vm_compute. discriminate.
  - vm_compute. reflexivity.
  - vm_compute. reflexivity.
  - lia.
  - reflexivity.
  - apply (bool_decide_unpack _). vm_compute. exact I.
  - vm_compute. reflexivity.
  - vm_compute. reflexivity.
  - lia.
  - lia.
  - vm_compute. discriminate.
  - reflexivity.
  - vm_compute. discriminate.
Defined.

(** ** C2: sizes that the check lets pass *)

(** C2.  On an LP64 target a peer buffer holds 3928 bytes.  A size field of
    0xFFFFFFFF does not close the connection: the six bytes are taken as an
    announcement of uid 7, the connection enters the UID index and three
    bytes stay buffered.  A size field of 3928, which with its four bytes
    cannot fit either, does not close the connection: it waits for more.
    A size field of 0x7FFFFFFF does close it. *)
Theorem oversize_check_lets_sizes_pass :
  FDCTX_CLIENT_BUFSIZE sizeof_fd_ctx_lp64 = 3928 /\
  ntohl (take 4 size_ffffffff) = 4294967295 /\
  ntohl (take 4 size_capacity) = 3928 /\
  ntohl (take 4 size_7fffffff) = 2147483647 /\
  (peer_event sizeof_fd_ctx_lp64 64 1%nat (rd_data size_ffffffff) true st_two_fresh
     = Ok st_size_ffffffff /\
   trace st_size_ffffffff = [] /\
   total_sockets st_size_ffffffff = 2 /\
   faf_uid (ctx_of st_size_ffffffff 1) = 7 /\
   buf_len (ctx_of st_size_ffffffff 1) = 3 /\
   peer_sockets st_size_ffffffff = [1%nat]) /\
  (peer_event sizeof_fd_ctx_lp64 64 1%nat (rd_data size_capacity) true st_two_fresh
     = Ok st_size_capacity /\
   trace st_size_capacity = [] /\
   total_sockets st_size_capacity = 2 /\
   faf_uid (ctx_of st_size_capacity 1) = -1 /\
   buf_len (ctx_of st_size_capacity 1) = 6) /\
  (peer_event sizeof_fd_ctx_lp64 64 1%nat (rd_data size_7fffffff) true st_two_fresh
     = Ok st_size_7fffffff /\
   trace st_size_7fffffff = [sys_epoll_del 10; sys_close 10] /\
   total_sockets st_size_7fffffff = 1 /\
   st_heap st_size_7fffffff !! 1%nat = None).
Proof. by_evaluation. Qed.

(** ** C3: the header rewrite *)

Lemma header_rewrite_law_witness :
  forward 64 2%nat 0 8 st_b_buffered =
    Ok (emit [sys_write_peer 10 (bytes [0; 0; 0; 6; 18; 52; 222; 173; 190; 239])]
          (with_heap
             (<[2%nat := set_buf
                           (take 2 (htonl 8) ++
                            bytes [0; 0; 0; 6; 18; 52; 222; 173; 190; 239] ++
                            drop 12 (buf (ctx_of st_b_buffered 2)))
                           (ctx_of st_b_looked_up 2)]> (st_heap st_b_looked_up))
             st_b_looked_up)) /\
  load (take 2 (htonl 8) ++ bytes [0; 0; 0; 6; 18; 52; 222; 173; 190; 239] ++
        drop 12 (buf (ctx_of st_b_buffered 2))) 2 10
    = Ok (bytes [0; 0; 0; 6; 18; 52; 222; 173; 190; 239]).
Proof.
  apply (header_rewrite_law 64 2%nat 1%nat st_b_buffered st_b_looked_up
           (ctx_of st_b_buffered 2) (ctx_of st_b_looked_up 2) (ctx_of st_b_looked_up 1)
           [] (drop 12 (buf (ctx_of st_b_buffered 2))) (bytes [222; 173; 190; 239])
           8 4660 42).
  - vm_compute. reflexivity.
  - vm_compute. reflexivity.
  - reflexivity.
  - lia.
  - lia.
  - vm_compute. reflexivity.
  - vm_compute. reflexivity.
  - vm_compute. reflexivity.
Defined.

(** ** C5: the cache of context 3 after three peers have talked *)

Lemma peer_cache_bounded_mru_witness :
  (length (cache_entries (ctx_of st_three_peers 3)) <= MAX_PEERS)%nat /\
  exists h',
    add 65 3%nat 4%nat (st_heap st_three_peers) = Ok h' /\
    add_post (st_heap st_three_peers) h' 3%nat 4%nat (cache_entries (ctx_of st_three_peers 3)).
Proof.
  destruct (peer_cache_bounded_mru sizeof_fd_ctx_lp64 64 env_listening its_three_peers
              st_started st_three_peers false 3%nat 4%nat (ctx_of st_three_peers 3))
    as (Hlen & Hadd & _).
  - vm_compute. reflexivity.
  - vm_compute. reflexivity.
  - vm_compute. reflexivity.
  - split; [exact Hlen|]. apply Hadd.
    + vm_compute. lia.
    + vm_compute. eexists. reflexivity.
Defined.

(** ** C6: what stays in a cache *)

(** After context 1 has closed it stays, tombstoned, in the cache of
    context 2, and a cache access for uid 42 leaves it there.  And after
    context 4, which had announced the uid 42 that context 2 holds, has
    closed, context 2 is a live entry of the cache of context 3 with uid 42
    while the UID index no longer maps 42 to anything. *)
Lemma cache_entry_neither_indexed_nor_swept :
  (cache_entries (ctx_of st_a_closed 2) = [1%nat] /\
   faf_uid (ctx_of st_a_closed 1) = -1 /\
   lookup_peer 64 2%nat 42 st_a_closed = Ok (None, st_a_closed) /\
   exists st',
     peer_event sizeof_fd_ctx_lp64 64 2%nat (rd_data message_to_42) true st_a_closed
       = Ok st' /\
     cache_entries (ctx_of st' 2) = [1%nat] /\
     faf_uid (ctx_of st' 1) = -1) /\
  (main_loop sizeof_fd_ctx_lp64 64 [round (read_on (on_ctx 4%nat) [])] st_three_peers
     = Ok (st_third_gone, false) /\
   cache_entries (ctx_of st_third_gone 3) = [2%nat] /\
   faf_uid (ctx_of st_third_gone 2) = 42 /\
   peer_sockets_find 42 st_third_gone = Ok None).
Proof.
  split.
  - by_evaluation.
    eexists. by_evaluation.
  - by_evaluation.
Qed.

Lemma cache_access_sweeps_nothing_witness :
  exists x1,
    st_heap st_a_closed !! 2%nat = Some x1 /\
    (forall p, @None nat = Some p ->
       exists y, st_heap st_a_closed !! p = Some y /\ faf_uid y = 42 /\ faf_uid y <> -1) /\
    (cache_entries x1 = cache_entries (ctx_of st_a_closed 2) \/
     exists p, @None nat = Some p /\
       cache_entries x1 =
         p :: (if (npeers (ctx_peers (ctx_of st_a_closed 2)) <? MAX_PEERS)%nat
               then cache_entries (ctx_of st_a_closed 2)
               else removelast (cache_entries (ctx_of st_a_closed 2)))) /\
    (forall q yq,
       q ∈ cache_entries (ctx_of st_a_closed 2) ->
       st_heap st_a_closed !! q = Some yq -> faf_uid yq = -1 ->
       q ∈ cache_entries x1 \/
       (npeers (ctx_peers (ctx_of st_a_closed 2)) = MAX_PEERS /\
        last (cache_entries (ctx_of st_a_closed 2)) = Some q)).
Proof.
  apply (cache_access_sweeps_nothing 64 2%nat 42 st_a_closed st_a_closed None
           (ctx_of st_a_closed 2)).
  - lia.
  - vm_compute. reflexivity.
  - vm_compute. split; [lia|reflexivity].
  - vm_compute. reflexivity.
Defined.

(** ** C7: the loop after "unlisten" *)

Lemma decay_never_left_witness :
  decay_mode st_decaying = true /\
  decay_mode st_decay_loop = true /\
  ctrl_socket_mode_listen st_decay_loop = true /\
  server_sockets st_decay_loop = server_sockets st_before_unlisten /\
  exists evs, trace st_decay_loop = trace st_decaying ++ evs /\ quiet evs.
Proof.
  apply (decay_never_left sizeof_fd_ctx_lp64 64 ev_unlisten its_decay
           st_before_unlisten st_decaying st_decay_loop false).
  - reflexivity.
  - vm_compute. reflexivity.
  - vm_compute. reflexivity.
Defined.

(** ** C10: announcements while the instance decays *)

(** The instance decays; context 2 holds uid 42 in the UID index and
    context 3, uid unset, completes an announcement of 42.  Its uid is set,
    but it does not enter the index, which still maps 42 to context 2. *)
Lemma decay_second_claim_not_indexed :
  decay_mode st_decaying = true /\
  faf_uid (ctx_of st_decaying 3) = -1 /\
  peer_sockets_find 42 st_decaying = Ok (Some 2%nat) /\
  peer_event sizeof_fd_ctx_lp64 64 3%nat (rd_data rest_of_announce_42) true st_decaying
    = Ok st_decay_second_claim /\
  faf_uid (ctx_of st_decay_second_claim 3) = 42 /\
  peer_sockets st_decay_second_claim = [2%nat] /\
  peer_sockets_find 42 st_decay_second_claim = Ok (Some 2%nat) /\
  peer_sockets_find 42 st_decay_second_claim <> Ok (Some 3%nat).
Proof.
  by_evaluation.
  vm_compute. discriminate.
Qed.

Lemma decay_still_announces_witness :
  exists st2,
    parse_loop sizeof_fd_ctx_lp64 64 (S 63) 3%nat (Z.of_nat (length (@nil byte)))
      st_decay_buffered =
      parse_loop sizeof_fd_ctx_lp64 64 63 3%nat (Z.of_nat (length (@nil byte)) + (2 + 4)) st2 /\
    st_heap st2 = <[3%nat := set_faf_uid 7 (ctx_of st_decay_buffered 3)]>
                    (st_heap st_decay_buffered) /\
    peer_sockets_find 7 st2 = Ok (Some (default 3%nat None)) /\
    (is_Some (@None nat) -> peer_sockets st2 = peer_sockets st_decay_buffered) /\
    trace st2 = trace st_decay_buffered /\
    decay_mode st2 = true /\
    (forall o st' r,
       parse_loop sizeof_fd_ctx_lp64 64 63 3%nat o st2 = Ok (st', r) ->
       exists evs, trace st' = trace st_decay_buffered ++ evs /\ quiet evs).
Proof.
  apply (decay_still_announces sizeof_fd_ctx_lp64 64 63 3%nat st_decay_buffered
           (ctx_of st_decay_buffered 3) [] (drop 6 (buf (ctx_of st_decay_buffered 3))) []
           7 2 None).
  - vm_compute. discriminate.
  - reflexivity.
  - reflexivity.
  - vm_compute. reflexivity.
  - reflexivity.
  - apply (bool_decide_unpack _). vm_compute. exact I.
  - vm_compute. reflexivity.
  - lia.
  - lia.
  - vm_compute. discriminate.
  - reflexivity.
  - vm_compute. discriminate.
  - vm_compute. reflexivity.
Defined.

(** * Further properties of the peer cache *)

Lemma find_loop_first (h : gmap nat fd_ctx) (a : list nat) (uid : Z) (n : nat) :
  forall i,
    (i + n <= length a)%nat ->
    Forall (fun q => is_Some (h !! q)) (take n (drop i a)) ->
    find_loop h a uid i n =
      Ok (snd <$> list_find (fun q => faf_uid <$> h !! q = Some uid) (take n (drop i a))).
Proof.
  induction n as [|n IH]; intros i Hi Hlive; [done|].
  destruct (lookup_lt_is_Some_2 a i ltac:(lia)) as [q Hq].
  rewrite (drop_S _ _ _ Hq) in Hlive |- *. cbn [take] in Hlive |- *.
  apply Forall_cons in Hlive as [[y Hy] Hlive].
  cbn [find_loop]. rewrite (proj2 (slot_Ok _ _ _) Hq). cbn [mbind outcome_bind].
  rewrite (proj2 (deref_Ok _ _ _) Hy). cbn [mbind outcome_bind].
  cbn [list_find]. rewrite Hy. cbn [fmap option_fmap option_map].
  destruct (faf_uid y =? uid) eqn:E.
  - apply Z.eqb_eq in E. rewrite decide_True by congruence. done.
  - apply Z.eqb_neq in E. rewrite decide_False by congruence.
    rewrite IH by (done || lia).
    by destruct (list_find _ _) as [[? ?]|].
Qed.

(** X1.  On a cache whose entries are all live, [find] returns the first
    entry, in the order most recently inserted first, whose uid is the one
    asked for, and [NULL] exactly when no entry has that uid. *)
Theorem find_first_match (h : gmap nat fd_ctx) (x : fd_ctx) (uid : Z) :
  cache_ok x ->
  Forall (fun q => is_Some (h !! q)) (cache_entries x) ->
  find h (ctx_peers x) uid =
    Ok (snd <$> list_find (fun q => faf_uid <$> h !! q = Some uid) (cache_entries x)) /\
  (find h (ctx_peers x) uid = Ok None <->
   forall q y, q ∈ cache_entries x -> h !! q = Some y -> faf_uid y <> uid).
Proof.
  intros [Hle Hlen] Hlive.
  assert (find h (ctx_peers x) uid =
          Ok (snd <$> list_find (fun q => faf_uid <$> h !! q = Some uid) (cache_entries x)))
    as Hfind.
  { unfold find, cache_entries in *.
    rewrite (find_loop_first h _ uid _ 0) by (rewrite ?drop_0; (done || lia)).
    by rewrite drop_0. }
  split; [exact Hfind|]. rewrite Hfind. split.
  - intros H q y Hq Hy Hu.
    destruct (list_find _ _) as [[i p]|] eqn:E; [discriminate|].
    eapply list_find_None in E. eapply Forall_forall in E; [|exact Hq].
    apply E. rewrite Hy. simpl. by rewrite Hu.
  - intros H. destruct (list_find _ _) as [[i p]|] eqn:E; [|done].
    apply list_find_Some in E as (Hi & Hp & _).
    destruct (h !! p) as [y|] eqn:Ey; [|discriminate].
    exfalso. apply (H p y); [by eapply list_elem_of_lookup_2|done|].
    simpl in Hp. congruence.
Qed.

(** ** [remove] *)

Lemma remove_scan_first (a : list nat) (p : nat) (n : nat) :
  forall i,
    (i + n <= length a)%nat ->
    remove_scan a p i n =
      Ok ((fun r => (i + fst r)%nat) <$> list_find (fun q => q = p) (take n (drop i a))).
Proof.
  induction n as [|n IH]; intros i Hi; [done|].
  destruct (lookup_lt_is_Some_2 a i ltac:(lia)) as [q Hq].
  rewrite (drop_S _ _ _ Hq). cbn [take remove_scan list_find].
  rewrite (proj2 (slot_Ok _ _ _) Hq). cbn [mbind outcome_bind].
  destruct (decide (q = p)) as [->|Hne]; [simpl; do 2 f_equal; lia|].
  rewrite IH by lia.
  destruct (list_find _ _) as [[j r]|]; simpl; [do 2 f_equal; lia|done].
Qed.

(** The loop that closes the gap left at [i]. *)
Lemma remove_shift_loop (a : list nat) (i k : nat) :
  (S i + k <= length a)%nat ->
  for_each (fun a j => v ← slot a j; store_slot a (j - 1) v) a (seq (S i) k)
  = Ok (take i a ++ take k (drop (S i) a) ++ drop (i + k) a).
Proof.
  induction k as [|k IH]; intros Hk.
  - simpl. by rewrite Nat.add_0_r, take_drop.
  - rewrite seq_S, for_each_app, IH by lia. cbn [for_each mbind outcome_bind].
    destruct (lookup_lt_is_Some_2 a (S i + k) ltac:(lia)) as [v Hv].
    set (b := take i a ++ take k (drop (S i) a) ++ drop (i + k) a).
    assert (length (take i a) = i) as Hl1 by (rewrite length_take; lia).
    assert (length (take k (drop (S i) a)) = k) as Hl2
      by (rewrite length_take, length_drop; lia).
    assert (b !! (S i + k)%nat = Some v) as Hb.
    { unfold b. rewrite lookup_app_r by lia. rewrite lookup_app_r by lia.
      rewrite Hl1, Hl2, lookup_drop. rewrite <- Hv. f_equal. lia. }
    rewrite (proj2 (slot_Ok _ _ _) Hb). cbn [mbind outcome_bind].
    rewrite store_slot_Ok
      by (unfold b; rewrite !length_app, Hl1, Hl2, length_drop; lia).
    f_equal. unfold b.
    replace (S i + k - 1)%nat with (i + k)%nat by lia.
    rewrite insert_app_r_alt by lia. rewrite insert_app_r_alt by lia.
    rewrite Hl1, Hl2. replace (i + k - i - k)%nat with 0%nat by lia.
    assert (drop (S i) a !! k = Some v) as Hd by (rewrite lookup_drop; exact Hv).
    rewrite (take_S_r _ _ _ Hd), <- !app_assoc.
    destruct (lookup_lt_is_Some_2 a (i + k) ltac:(lia)) as [w Hw].
    rewrite (drop_S _ _ _ Hw). simpl.
    replace (i + S k)%nat with (S (i + k)) by lia. done.
Qed.

(** What [remove] does to the cache, up to the release of [p]. *)
Lemma remove_effect (dealloc : nat -> gmap nat fd_ctx -> outcome (gmap nat fd_ctx))
    (owner p : nat) (h : gmap nat fd_ctx) (x : fd_ctx) :
  h !! owner = Some x ->
  cache_ok x ->
  (p ∉ cache_entries x -> remove dealloc owner p h = Ok h) /\
  (forall i, list_find (fun q => q = p) (cache_entries x) = Some (i, p) ->
     exists x',
       remove dealloc owner p h = unref dealloc p (<[owner := x']> h) /\
       x' = set_ctx_peers (ctx_peers x') x /\
       cache_entries x' = delete i (cache_entries x) /\
       cache_ok x').
Proof.
  intros Hx [Hle Hlen]. unfold remove.
  rewrite (proj2 (deref_Ok _ _ _) Hx). cbn [mbind outcome_bind].
  rewrite (remove_scan_first _ p _ 0) by lia. rewrite drop_0.
  fold (cache_entries x). split.
  - intros Hnot.
    destruct (list_find _ _) as [[i q]|] eqn:E; [|done].
    apply list_find_Some in E as (Hi & -> & _).
    exfalso. apply Hnot. by eapply list_elem_of_lookup_2.
  - intros i E. rewrite E. cbn [fmap option_fmap option_map fst Nat.add mbind outcome_bind].
    apply list_find_Some in E as (Hi & _ & _).
    assert (i < npeers (ctx_peers x))%nat as Hlt.
    { apply lookup_lt_Some in Hi. unfold cache_entries in Hi.
      rewrite length_take in Hi. lia. }
    rewrite remove_shift_loop by lia. cbn [mbind outcome_bind].
    set (a := peers (ctx_peers x)) in *. set (n := npeers (ctx_peers x)) in *.
    eexists. split; [reflexivity|]. split; [done|]. split.
    + unfold cache_entries. cbn [ctx_peers set_ctx_peers npeers peers]. fold a n.
      replace (i + (n - S i))%nat with (n - 1)%nat by lia.
      rewrite take_app_ge by (rewrite length_take; lia).
      rewrite length_take. replace (i `min` length a)%nat with i by lia.
      rewrite take_app_ge by (rewrite length_take, length_drop; lia).
      rewrite length_take, length_drop.
      replace (n - 1 - i - (n - S i) `min` (length a - S i))%nat with 0%nat by lia.
      rewrite take_0, app_nil_r.
      rewrite delete_take_drop, take_take, take_drop_commute.
      replace (i `min` n)%nat with i by lia.
      replace (S i + (n - S i))%nat with n by lia. done.
    + split; cbn [ctx_peers set_ctx_peers npeers peers]; fold a n; [unfold MAX_PEERS in *; lia|].
      rewrite !length_app, !length_take, !length_drop. fold a. lia.
Qed.

(** X2.  [remove(p)] on a cache that does not hold [p] changes nothing.  On
    a cache that holds [p] it takes out the first occurrence of [p], moves
    the entries behind it up by one, and releases one reference to [p]:
    the count of [p] goes down by one, and [p] is destroyed when that was
    the last reference.  [p] may be the owner of the cache itself (a
    connection that sent a message to its own uid caches itself): the
    record whose count goes down is then the one with the new cache. *)
Theorem remove_first_occurrence (dealloc : nat -> gmap nat fd_ctx -> outcome (gmap nat fd_ctx))
    (owner p : nat) (h : gmap nat fd_ctx) (x : fd_ctx) :
  h !! owner = Some x ->
  cache_ok x ->
  (p ∉ cache_entries x -> remove dealloc owner p h = Ok h) /\
  (forall i y,
     list_find (fun q => q = p) (cache_entries x) = Some (i, p) ->
     h !! p = Some y ->
     exists x',
       x' = set_ctx_peers (ctx_peers x') x /\
       cache_entries x' = delete i (cache_entries x) /\
       cache_ok x' /\
       let y' := if decide (owner = p) then x' else y in
       remove dealloc owner p h =
         if refcount y =? 1
         then dealloc p (<[p := set_refcount 0 y']> (<[owner := x']> h))
         else Ok (<[p := set_refcount (refcount y - 1) y']> (<[owner := x']> h))).
Proof.
  intros Hx Hok. destruct (remove_effect dealloc owner p h x Hx Hok) as [Hno Hyes].
  split; [exact Hno|]. intros i y Hfind Hy.
  destruct (Hyes i Hfind) as (x' & Hr & Ex & Ec & Hok').
  exists x'. split; [done|]. split; [done|]. split; [done|].
  intros y'. rewrite Hr. unfold unref, deref.
  assert (<[owner := x']> h !! p = Some y' /\ refcount y' = refcount y) as [-> Hrc].
  { unfold y'. destruct (decide (owner = p)) as [->|Hne].
    - rewrite lookup_insert_eq. split; [done|].
      rewrite Hx in Hy. injection Hy as <-. rewrite Ex. by destruct x.
    - by rewrite lookup_insert_ne. }
  cbn [mbind outcome_bind]. rewrite Hrc.
  destruct (refcount y =? 1) eqn:E.
  - apply Z.eqb_eq in E. rewrite E. done.
  - apply Z.eqb_neq in E. by rewrite (proj2 (Z.eqb_neq _ 0)) by lia.
Qed.

(** ** [add] with [find] and with [remove] *)

Lemma cache_head (x : fd_ctx) (p : nat) (l : list nat) :
  cache_entries x = p :: l ->
  exists n, npeers (ctx_peers x) = S n /\ peers (ctx_peers x) !! 0%nat = Some p.
Proof.
  unfold cache_entries. intros H.
  destruct (npeers (ctx_peers x)) as [|n]; [by rewrite take_0 in H|].
  exists n. split; [done|].
  destruct (peers (ctx_peers x)) as [|q a]; [done|]. simpl in H. by injection H as -> _.
Qed.

Lemma add_front_live (owner p : nat) (h h' : gmap nat fd_ctx) (x : fd_ctx) :
  add_front owner p h = Ok h' ->
  h !! owner = Some x ->
  (npeers (ctx_peers x) < length (peers (ctx_peers x)))%nat ->
  is_Some (h' !! p).
Proof.
  intros Hadd Hx Hn.
  assert (is_Some (h !! p)) as Hp.
  { unfold add_front in Hadd.
    rewrite (proj2 (deref_Ok _ _ _) Hx) in Hadd. cbn [mbind outcome_bind] in Hadd.
    apply bind_Ok in Hadd as ([a1 prev] & _ & Hadd).
    apply bind_Ok in Hadd as (a2 & _ & Hadd).
    apply bind_Ok in Hadd as (a3 & _ & Hadd).
    apply bind_Ok in Hadd as (y & Hy & _). apply deref_Ok in Hy.
    destruct (decide (p = owner)) as [->|Hne]; [eauto|].
    rewrite lookup_insert_ne in Hy by done. eauto. }
  rewrite (add_front_Ok owner p h x Hx Hp Hn) in Hadd. injection Hadd as <-.
  destruct Hp as [y Hy].
  destruct (decide (p = owner)) as [->|Hne].
  - rewrite !lookup_alter_eq, Hy. eauto.
  - rewrite lookup_alter_ne, lookup_alter_eq, Hy by done. eauto.
Qed.

Lemma add_live (fuel : nat) (owner p : nat) (h h' : gmap nat fd_ctx) (x : fd_ctx) :
  add fuel owner p h = Ok h' ->
  h !! owner = Some x -> cache_ok x ->
  is_Some (h' !! p).
Proof.
  intros Hadd Hx [Hle Hlen].
  destruct fuel as [|fuel]; [discriminate|]. cbn [add] in Hadd.
  rewrite (proj2 (deref_Ok _ _ _) Hx) in Hadd. cbn [mbind outcome_bind] in Hadd.
  destruct (npeers (ctx_peers x) <? MAX_PEERS)%nat eqn:Hfull.
  - apply Nat.ltb_lt in Hfull.
    apply (add_front_live owner p h h' x Hadd Hx). lia.
  - apply Nat.ltb_ge in Hfull.
    apply bind_Ok in Hadd as (t & _ & Hadd).
    apply bind_Ok in Hadd as (h1 & Hun & Hadd).
    apply bind_Ok in Hadd as (x1 & Hx1 & Hadd). apply deref_Ok in Hx1.
    destruct (unref_only_refcounts _ _ _ _ Hun _ _ Hx1) as (x0 & Hx0 & Ex1).
    rewrite Hx in Hx0. injection Hx0 as <-.
    assert (ctx_peers x1 = ctx_peers x) as Epp by (rewrite Ex1; done).
    rewrite Epp in Hadd.
    assert (npeers (ctx_peers x) = MAX_PEERS) as Hn by lia. rewrite Hn in Hadd.
    destruct fuel as [|fuel]; [discriminate|]. cbn [add] in Hadd.
    rewrite deref_insert_eq in Hadd. cbn [mbind outcome_bind] in Hadd.
    cbn [ctx_peers set_ctx_peers npeers MAX_PEERS Nat.sub Nat.ltb Nat.leb] in Hadd.
    set (x2 := set_ctx_peers _ x1) in Hadd.
    apply (add_front_live owner p _ h' x2 Hadd (lookup_insert_eq _ _ _)).
    unfold x2. cbn [ctx_peers set_ctx_peers npeers peers]. rewrite Hlen.
    unfold MAX_PEERS. lia.
Qed.

(** X3.  After [add(p)], [find] asked for the uid of [p] returns [p]: the
    context just cached is live, has the uid it had, and is the first one
    the lookup meets. *)
Theorem add_then_find (fuel : nat) (owner p : nat) (h h' : gmap nat fd_ctx)
    (x y : fd_ctx) :
  add fuel owner p h = Ok h' ->
  h !! owner = Some x ->
  cache_ok x ->
  h !! p = Some y ->
  exists x' y',
    h' !! owner = Some x' /\
    h' !! p = Some y' /\
    faf_uid y' = faf_uid y /\
    find h' (ctx_peers x') (faf_uid y) = Ok (Some p).
Proof.
  intros Hadd Hx Hok Hp.
  destruct (add_entries _ _ _ _ _ _ Hadd Hx Hok) as (x' & Hx' & Ex').
  destruct (add_live _ _ _ _ _ _ Hadd Hx Hok) as [y' Hy'].
  assert (faf_uid y' = faf_uid y) as Eu.
  { destruct (add_keeps_data _ _ _ _ _ Hadd p y' Hy') as (y0 & Hy0 & ->).
    rewrite Hp in Hy0. by injection Hy0 as <-. }
  exists x', y'. repeat split; try done.
  destruct (cache_head _ _ _ Ex') as (n & Hn & H0).
  unfold find. rewrite Hn. cbn [find_loop].
  rewrite (proj2 (slot_Ok _ _ _) H0). cbn [mbind outcome_bind].
  rewrite (proj2 (deref_Ok _ _ _) Hy'). cbn [mbind outcome_bind].
  by rewrite Eu, Z.eqb_refl.
Qed.

(** X4.  On a cache with room left, [add(p)] followed by [remove(p)] gives
    back the heap as it was: the cache of [owner] has its former entries in
    their former order, and the reference count of [p] is what it was.
    Only the array slot behind the last entry, which is not part of the
    cache, may hold another pointer than before.  [p] may be [owner]
    itself. *)
Theorem add_then_remove (dealloc : nat -> gmap nat fd_ctx -> outcome (gmap nat fd_ctx))
    (fuel : nat) (owner p : nat) (h : gmap nat fd_ctx) (x y : fd_ctx) :
  h !! owner = Some x ->
  h !! p = Some y ->
  cache_ok x ->
  (npeers (ctx_peers x) < MAX_PEERS)%nat ->
  refcount y <> 0 ->
  exists h1 x2,
    add (S fuel) owner p h = Ok h1 /\
    remove dealloc owner p h1 = Ok (<[owner := x2]> h) /\
    x2 = set_ctx_peers (ctx_peers x2) x /\
    cache_entries x2 = cache_entries x /\
    cache_ok x2.
Proof.
  intros Hx Hy Hok Hlt Hrc. pose proof Hok as [Hle Hlen].
  rewrite (add_not_full fuel owner p h x Hx Hlt).
  rewrite (add_front_Ok owner p h x Hx ltac:(eauto) ltac:(lia)).
  set (P := mk_proxy_peers (S (npeers (ctx_peers x)))
              (shifted p (npeers (ctx_peers x)) (peers (ctx_peers x)))).
  set (h1 := alter _ owner _).
  destruct (decide (owner = p)) as [<-|Hne].
  - assert (y = x) as -> by congruence.
    set (x1 := set_ctx_peers P (incr_refcount x)).
    assert (h1 !! owner = Some x1) as Hx1.
    { unfold h1. rewrite !lookup_alter_eq, Hx. done. }
    assert (cache_entries x1 = owner :: cache_entries x) as E1
      by (change (cache_entries x1) with (cache_entries (set_ctx_peers P x));
          unfold P; rewrite cache_entries_shifted by lia; done).
    assert (cache_ok x1) as Hok1.
    { split; unfold x1, P; cbn [ctx_peers set_ctx_peers npeers peers]; [lia|].
      rewrite length_shifted by lia. done. }
    destruct (remove_effect dealloc owner owner h1 x1 Hx1 Hok1) as [_ Hrem].
    destruct (Hrem 0%nat) as (x2 & Hr & Ex2 & Ec2 & Hok2).
    { rewrite E1. cbn [list_find]. by rewrite decide_True. }
    exists h1, (set_refcount (refcount x) x2). split; [done|]. rewrite Hr.
    split; [|split; [|split]].
    + unfold unref, deref. rewrite lookup_insert_eq. cbn [mbind outcome_bind].
      assert (refcount x2 = refcount x + 1) as -> by (rewrite Ex2; done).
      replace (refcount x + 1 - 1) with (refcount x) by lia.
      rewrite (proj2 (Z.eqb_neq _ _) Hrc). f_equal.
      apply map_eq. intros q.
      destruct (decide (q = owner)) as [->|Hq].
      * by rewrite !lookup_insert_eq.
      * rewrite !lookup_insert_ne by done. unfold h1.
        rewrite !lookup_alter_ne by done. done.
    + rewrite Ex2. unfold x1. by destruct x.
    + assert (cache_entries (set_refcount (refcount x) x2) = cache_entries x2) as ->
        by by destruct x2.
      rewrite Ec2, E1. done.
    + by destruct x2.
  - set (x1 := set_ctx_peers P x).
    assert (h1 !! owner = Some x1) as Hx1.
    { unfold h1. rewrite lookup_alter_eq, lookup_alter_ne, Hx by done. done. }
    assert (h1 !! p = Some (incr_refcount y)) as Hp1.
    { unfold h1. rewrite lookup_alter_ne, lookup_alter_eq, Hy by done. done. }
    assert (cache_entries x1 = p :: cache_entries x) as E1
      by (unfold x1, P; rewrite cache_entries_shifted by lia; done).
    assert (cache_ok x1) as Hok1.
    { split; unfold x1, P; cbn [ctx_peers set_ctx_peers npeers peers]; [lia|].
      rewrite length_shifted by lia. done. }
    destruct (remove_effect dealloc owner p h1 x1 Hx1 Hok1) as [_ Hrem].
    destruct (Hrem 0%nat) as (x2 & Hr & Ex2 & Ec2 & Hok2).
    { rewrite E1. cbn [list_find]. by rewrite decide_True. }
    exists h1, x2. split; [done|]. rewrite Hr.
    split; [|split; [|split]].
    + unfold unref. unfold deref. rewrite lookup_insert_ne, Hp1 by done.
      cbn [mbind outcome_bind incr_refcount refcount set_refcount].
      replace (refcount y + 1 - 1) with (refcount y) by lia.
      rewrite (proj2 (Z.eqb_neq _ _) Hrc). f_equal.
      apply map_eq. intros q.
      destruct (decide (q = p)) as [->|Hq].
      * rewrite lookup_insert_eq, lookup_insert_ne, Hy by done. by destruct y.
      * rewrite lookup_insert_ne by done.
        destruct (decide (q = owner)) as [->|Hq'].
        -- by rewrite !lookup_insert_eq.
        -- rewrite !lookup_insert_ne by done. unfold h1.
           rewrite !lookup_alter_ne by done. done.
    + rewrite Ex2. unfold x1. by destruct x.
    + rewrite Ec2, E1. done.
    + done.
Qed.

(** * The UID index as a map from uids to connections *)

(** Comparisons that the hypotheses decide. *)
Ltac ltb_lia :=
  repeat match goal with
         | |- context [?a <? ?b] =>
             first [rewrite (proj2 (Z.ltb_lt a b)) by lia
                   |rewrite (proj2 (Z.ltb_ge a b)) by lia]
         end.

Lemma index_sorted_weaken (h : gmap nat fd_ctx) (lo lo' : Z) (s : list nat) :
  lo' <= lo -> index_sorted h lo s -> index_sorted h lo' s.
Proof.
  destruct s as [|e s]; [done|]. intros Hlo (x & Hx & Hlt & Hs).
  exists x. repeat split; [done|lia|done].
Qed.

Lemma set_find_below (h : gmap nat fd_ctx) (lo key : Z) (s : list nat) :
  index_sorted h lo s -> key <= lo -> set_find h key s = Ok None.
Proof.
  destruct s as [|e s]; [done|]. intros (x & Hx & Hlt & Hs) Hk. simpl.
  rewrite (proj2 (deref_Ok _ _ _) Hx). cbn [mbind outcome_bind].
  rewrite (proj2 (Z.ltb_ge _ _)) by lia.
  by rewrite (proj2 (Z.ltb_lt _ _)) by lia.
Qed.

Lemma set_find_total (h : gmap nat fd_ctx) (key : Z) (s : list nat) :
  forall lo, index_sorted h lo s -> exists r, set_find h key s = Ok r.
Proof.
  induction s as [|e s IH]; intros lo Hs; [by eexists|].
  destruct Hs as (x & Hx & Hlt & Hs). simpl.
  rewrite (proj2 (deref_Ok _ _ _) Hx). cbn [mbind outcome_bind].
  destruct (faf_uid x <? key); [by eapply IH|].
  destruct (key <? faf_uid x); by eexists.
Qed.

(** X5.  In a sorted UID index every element is found under its own uid,
    and [find] returns nothing but an element of the index that has the uid
    asked for: each indexed connection is addressable, by its uid only. *)
Theorem index_find_iff (st : state) (lo key : Z) (a : nat) :
  index_sorted (st_heap st) lo (peer_sockets st) ->
  (peer_sockets_find key st = Ok (Some a) <->
   a ∈ peer_sockets st /\ exists x, st_heap st !! a = Some x /\ faf_uid x = key).
Proof.
  unfold peer_sockets_find. generalize (st_heap st) as h. intros h.
  revert lo. induction (peer_sockets st) as [|e s IH]; intros lo Hs.
  { simpl. split; [discriminate|]. intros [H _]. by apply elem_of_nil in H. }
  destruct Hs as (x & Hx & Hlt & Hs). simpl.
  rewrite (proj2 (deref_Ok _ _ _) Hx). cbn [mbind outcome_bind].
  destruct (faf_uid x <? key) eqn:E1.
  - apply Z.ltb_lt in E1. rewrite (IH _ Hs). split.
    + intros [Hin Hex]. split; [by apply elem_of_cons; right|done].
    + intros [Hin (xa & Hxa & Hu)]. apply elem_of_cons in Hin as [->|Hin]; [|eauto].
      rewrite Hx in Hxa. injection Hxa as <-. lia.
  - apply Z.ltb_ge in E1. destruct (key <? faf_uid x) eqn:E2.
    + apply Z.ltb_lt in E2. split; [discriminate|].
      intros [Hin (xa & Hxa & Hu)]. exfalso.
      apply elem_of_cons in Hin as [->|Hin].
      * rewrite Hx in Hxa. injection Hxa as <-. lia.
      * assert (set_find h key s = Ok (Some a)) as Hf by (apply (IH _ Hs); eauto).
        rewrite (set_find_below h (faf_uid x) key s Hs) in Hf by lia. discriminate.
    + apply Z.ltb_ge in E2. assert (faf_uid x = key) as Ek by lia. split.
      * intros [= <-]. split; [by apply elem_of_cons; left|eauto].
      * intros [Hin (xa & Hxa & Hu)]. apply elem_of_cons in Hin as [->|Hin]; [done|].
        exfalso.
        assert (set_find h key s = Ok (Some a)) as Hf by (apply (IH _ Hs); eauto).
        rewrite (set_find_below h (faf_uid x) key s Hs) in Hf by lia. discriminate.
Qed.

Lemma set_insert_sorted (h : gmap nat fd_ctx) (c : nat) (xc : fd_ctx) (s : list nat) :
  h !! c = Some xc ->
  forall lo, index_sorted h lo s -> lo < faf_uid xc ->
  exists s',
    set_insert h (faf_uid xc) c s = Ok s' /\
    index_sorted h lo s' /\
    forall key,
      set_find h key s' =
        if decide (key = faf_uid xc) then
          match set_find h key s with
          | Ok None => Ok (Some c)
          | r => r
          end
        else set_find h key s.
Proof.
  intros Hc. induction s as [|e s IH]; intros lo Hs Hlo.
  { exists [c]. split; [done|]. split; [by exists xc|].
    intros key. simpl. rewrite (proj2 (deref_Ok _ _ _) Hc). cbn [mbind outcome_bind].
    destruct (decide (key = faf_uid xc)) as [->|Hne]; [by rewrite Z.ltb_irrefl|].
    destruct (faf_uid xc <? key) eqn:E1; [done|].
    apply Z.ltb_ge in E1. by rewrite (proj2 (Z.ltb_lt _ _)) by lia. }
  destruct Hs as (x & Hx & Hlt & Hs). simpl.
  rewrite (proj2 (deref_Ok _ _ _) Hx). cbn [mbind outcome_bind].
  destruct (faf_uid x <? faf_uid xc) eqn:E1.
  - apply Z.ltb_lt in E1.
    destruct (IH _ Hs E1) as (s' & Hi & Hs' & Hf). rewrite Hi. cbn [mbind outcome_bind].
    exists (e :: s'). split; [done|]. split; [by exists x|].
    intros key. simpl. rewrite ?(proj2 (deref_Ok _ _ _) Hx). cbn [mbind outcome_bind].
    destruct (faf_uid x <? key) eqn:E2; [apply Hf|].
    apply Z.ltb_ge in E2. rewrite decide_False by lia. done.
  - apply Z.ltb_ge in E1. destruct (faf_uid xc <? faf_uid x) eqn:E2.
    + apply Z.ltb_lt in E2. exists (c :: e :: s). split; [done|].
      split. { exists xc. repeat split; [done|done|]. by exists x. }
      intros key. simpl.
      rewrite (proj2 (deref_Ok _ _ _) Hc), (proj2 (deref_Ok _ _ _) Hx).
      cbn [mbind outcome_bind].
      destruct (decide (key = faf_uid xc)) as [->|Hne]; [by ltb_lia|].
      destruct (faf_uid xc <? key) eqn:E3; [done|].
      apply Z.ltb_ge in E3. by ltb_lia.
    + apply Z.ltb_ge in E2. exists (e :: s). split; [done|].
      split; [by exists x|].
      intros key. simpl. rewrite ?(proj2 (deref_Ok _ _ _) Hx). cbn [mbind outcome_bind].
      destruct (decide (key = faf_uid xc)) as [->|Hne]; [|done].
      by ltb_lia.
Qed.

Lemma set_erase_sorted (h : gmap nat fd_ctx) (k : Z) (s : list nat) :
  forall lo, index_sorted h lo s ->
  exists s',
    set_erase h k s = Ok s' /\
    index_sorted h lo s' /\
    forall key,
      set_find h key s' = if decide (key = k) then Ok None else set_find h key s.
Proof.
  induction s as [|e s IH]; intros lo Hs.
  { exists []. split; [done|]. split; [done|]. intros key. by destruct (decide _). }
  destruct Hs as (x & Hx & Hlt & Hs). simpl.
  rewrite (proj2 (deref_Ok _ _ _) Hx). cbn [mbind outcome_bind].
  destruct (faf_uid x <? k) eqn:E1.
  - apply Z.ltb_lt in E1.
    destruct (IH _ Hs) as (s' & He & Hs' & Hf). rewrite He. cbn [mbind outcome_bind].
    exists (e :: s'). split; [done|]. split; [by exists x|].
    intros key. simpl. rewrite ?(proj2 (deref_Ok _ _ _) Hx). cbn [mbind outcome_bind].
    destruct (faf_uid x <? key) eqn:E2; [apply Hf|].
    apply Z.ltb_ge in E2. rewrite decide_False by lia. done.
  - apply Z.ltb_ge in E1. destruct (k <? faf_uid x) eqn:E2.
    + apply Z.ltb_lt in E2. exists (e :: s). split; [done|]. split; [by exists x|].
      intros key. simpl. rewrite ?(proj2 (deref_Ok _ _ _) Hx). cbn [mbind outcome_bind].
      destruct (decide (key = k)) as [->|Hne]; [|done].
      by ltb_lia.
    + apply Z.ltb_ge in E2. exists s. split; [done|].
      split; [apply (index_sorted_weaken h (faf_uid x)); [lia|done]|].
      intros key. simpl. rewrite ?(proj2 (deref_Ok _ _ _) Hx). cbn [mbind outcome_bind].
      destruct (decide (key = k)) as [->|Hne].
      * apply (set_find_below h (faf_uid x)); [done|lia].
      * destruct (faf_uid x <? key) eqn:E3; [done|].
        apply Z.ltb_ge in E3. ltb_lia.
        apply (set_find_below h (faf_uid x)); [done|lia].
Qed.

(** X6.  [peer_sockets.insert(c)] on a sorted index keeps it sorted and
    changes the lookup of one uid at most: the uid of [c] maps to [c] if
    nobody held it and to its holder otherwise, and every other uid maps to
    what it mapped to. *)
Theorem index_insert_lookup (c : nat) (xc : fd_ctx) (lo : Z) (st : state) :
  st_heap st !! c = Some xc ->
  index_sorted (st_heap st) lo (peer_sockets st) ->
  lo < faf_uid xc ->
  exists st',
    peer_sockets_insert c st = Ok st' /\
    st' = with_peer_sockets (peer_sockets st') st /\
    index_sorted (st_heap st') lo (peer_sockets st') /\
    forall key,
      peer_sockets_find key st' =
        if decide (key = faf_uid xc) then
          match peer_sockets_find key st with
          | Ok None => Ok (Some c)
          | r => r
          end
        else peer_sockets_find key st.
Proof.
  intros Hc Hs Hlo.
  destruct (set_insert_sorted _ c xc _ Hc lo Hs Hlo) as (s' & Hi & Hs' & Hf).
  unfold peer_sockets_insert. rewrite (proj2 (deref_Ok _ _ _) Hc).
  cbn [mbind outcome_bind]. rewrite Hi. cbn [mbind outcome_bind].
  eexists. split; [reflexivity|]. split; [done|]. split; [exact Hs'|exact Hf].
Qed.

(** X7.  [if (ctxp->faf_uid != -1) peer_sockets.erase(ctxp)] on a sorted
    index: for a connection without uid nothing changes; otherwise the
    index stays sorted, the uid of the connection maps to nothing
    afterwards (whichever connection held it), and every other uid maps to
    what it mapped to. *)
Theorem index_erase_lookup (c : nat) (xc : fd_ctx) (lo : Z) (st : state) :
  st_heap st !! c = Some xc ->
  index_sorted (st_heap st) lo (peer_sockets st) ->
  (faf_uid xc = -1 -> erase_if_identified c st = Ok st) /\
  (faf_uid xc <> -1 ->
   exists st',
     erase_if_identified c st = Ok st' /\
     st' = with_peer_sockets (peer_sockets st') st /\
     index_sorted (st_heap st') lo (peer_sockets st') /\
     forall key,
       peer_sockets_find key st' =
         if decide (key = faf_uid xc) then Ok None else peer_sockets_find key st).
Proof.
  intros Hc Hs. unfold erase_if_identified.
  rewrite (proj2 (deref_Ok _ _ _) Hc). cbn [mbind outcome_bind]. split.
  - intros ->. done.
  - intros Hu. rewrite (proj2 (Z.eqb_neq _ _) Hu).
    destruct (set_erase_sorted _ (faf_uid xc) _ lo Hs) as (s' & He & Hs' & Hf).
    unfold peer_sockets_erase. rewrite (proj2 (deref_Ok _ _ _) Hc).
    cbn [mbind outcome_bind]. rewrite He. cbn [mbind outcome_bind].
    eexists. split; [reflexivity|]. split; [done|]. split; [exact Hs'|exact Hf].
Qed.

(** * Handing descriptors over: [send_fds] *)

Lemma send_fds_scan_spec (h : gmap nat fd_ctx) (elems : list nat) :
  forall (idx : nat) (acc : fds_scan),
    Forall (fun e => is_Some (h !! e)) elems ->
    (length (sc_fds acc) <= idx)%nat ->
    (idx + length elems <= MAX_DESC_PER_MESSAGE)%nat ->
    send_fds_scan h elems idx acc =
      Ok (mk_fds_scan (sc_uids acc ++ scan_uids h elems)
                      (sc_fds acc ++ scan_fds h elems)
                      (sc_kept acc ++ scan_kept h elems)).
Proof.
  induction elems as [|e elems IH]; intros idx acc Hlive Hacc Hidx.
  { simpl. unfold scan_fds, scan_kept. simpl. rewrite !app_nil_r. by destruct acc. }
  apply Forall_cons in Hlive as [[x Hx] Hlive]. simpl in Hidx.
  cbn [send_fds_scan].
  rewrite (proj2 (Nat.ltb_lt _ _)) by lia.
  rewrite (proj2 (deref_Ok _ _ _) Hx). cbn [mbind outcome_bind].
  unfold scan_uids, scan_fds, scan_kept. cbn [map].
  destruct (buf_len x =? 0) eqn:E.
  - apply Z.eqb_eq in E.
    assert (idle h e) as Hidle by (unfold idle; rewrite Hx; simpl; congruence).
    rewrite (proj2 (Nat.ltb_lt _ _)) by lia.
    rewrite IH by (done || (cbn [sc_fds]; rewrite ?length_app; simpl; lia)).
    cbn [sc_uids sc_fds sc_kept].
    rewrite decide_True by done.
    rewrite (filter_cons_True (idle h)) by done.
    rewrite (filter_cons_False (fun e => ~ idle h e)) by (intros Hn; by apply Hn).
    cbn [omap list_omap]. rewrite Hx. cbn [fmap option_fmap option_map].
    by rewrite <- !app_assoc.
  - apply Z.eqb_neq in E.
    assert (~ idle h e) as Hidle by (unfold idle; rewrite Hx; simpl; congruence).
    rewrite IH by (done || (cbn [sc_fds]; lia)).
    cbn [sc_uids sc_fds sc_kept].
    rewrite decide_False by done.
    rewrite (filter_cons_False (idle h)) by done.
    rewrite (filter_cons_True (fun e => ~ idle h e)) by done.
    by rewrite <- !app_assoc.
Qed.

(** X8.  [send_fds] over at most 256 live connections hands over exactly
    the idle ones (nothing buffered), in order, in one "desc" message whose
    k-th uid slot belongs to the k-th connection scanned, idle or not.  If
    the container is given, the idle ones are erased from it before
    [sendmsg] is tried, whether it then succeeds or not; their descriptors
    are closed and [total_sockets] is lowered only if it succeeds.  No
    context is destroyed, and nothing is sent when no connection is idle. *)
Theorem send_fds_hands_over_idle (sendmsg_ok erase : bool) (elems : list nat) (st : state) :
  Forall (fun e => is_Some (st_heap st !! e)) elems ->
  (length elems <= MAX_DESC_PER_MESSAGE)%nat ->
  let fds := scan_fds (st_heap st) elems in
  exists st',
    send_fds sendmsg_ok elems erase st = Ok (length fds, st') /\
    st_heap st' = st_heap st /\
    peer_sockets st' =
      (if erase then scan_kept (st_heap st) elems else peer_sockets st) /\
    total_sockets st' =
      total_sockets st - (if sendmsg_ok then Z.of_nat (length fds) else 0) /\
    trace st' =
      trace st ++
      match fds with
      | [] => []
      | _ :: _ =>
          sys_sendmsg (ctrl_socket_conn_fd st)
            (take (length fds) (scan_uids (st_heap st) elems)) fds ::
          (if sendmsg_ok then flat_map (fun f => [sys_epoll_del f; sys_close f]) fds
           else [])
      end.
Proof.
  intros Hlive Hlen fds. unfold send_fds.
  rewrite (send_fds_scan_spec _ elems 0 _ Hlive) by (simpl; lia).
  cbn [mbind outcome_bind sc_uids sc_fds sc_kept app]. fold fds.
  destruct fds as [|f fds'] eqn:Efds.
  - cbn [length Nat.eqb]. eexists. split; [reflexivity|].
    destruct erase, sendmsg_ok; simpl; rewrite ?app_nil_r; repeat split; lia.
  - cbn [length Nat.eqb]. destruct sendmsg_ok.
    + eexists. split; [reflexivity|].
      destruct erase; simpl; rewrite <- ?app_assoc; repeat split; lia.
    + eexists. split; [reflexivity|].
      destruct erase; simpl; repeat split; lia.
Qed.

(** * The handlers of the epoll loop *)

(** X9.  In decay mode a connection with an empty buffer is not read from:
    its descriptor goes to the new instance in a "desc" message of its own,
    together with its uid; it is closed here, and [total_sockets] lowered,
    only if [sendmsg] succeeded; and its uid, if it has one, is erased from
    the UID index either way.  The context is not destroyed. *)
Theorem decaying_idle_connection_is_shipped (sz : Z) (fuel : nat) (c : nat)
    (rd : read_result) (sendmsg_ok : bool) (st : state) (x : fd_ctx) :
  st_heap st !! c = Some x ->
  decay_mode st = true ->
  buf_len x = 0 ->
  let sent := emit [sys_sendmsg (ctrl_socket_conn_fd st) [Some (faf_uid x)] [fd x]] st in
  peer_event sz fuel c rd sendmsg_ok st =
    erase_if_identified c
      (if sendmsg_ok then
         emit [sys_epoll_del (fd x); sys_close (fd x)]
           (with_total_sockets (total_sockets st - 1) sent)
       else sent).
Proof.
  intros Hx Hd Hb sent. unfold peer_event.
  rewrite (proj2 (deref_Ok _ _ _) Hx). cbn [mbind outcome_bind].
  rewrite Hd, Hb. cbn [andb Z.eqb].
  unfold decay_ship, send_fd, send_fds.
  rewrite (send_fds_scan_spec _ [c] 0 _)
    by (repeat constructor; (eauto || (unfold MAX_DESC_PER_MESSAGE; simpl; lia))).
  assert (idle (st_heap st) c) as Hidle by (unfold idle; rewrite Hx; simpl; congruence).
  unfold scan_fds, scan_uids, scan_kept. cbn [map].
  rewrite (filter_cons_True (idle (st_heap st))) by done.
  rewrite filter_nil. cbn [omap list_omap]. rewrite Hx.
  cbn [fmap option_fmap option_map]. rewrite decide_True by done.
  cbn [mbind outcome_bind sc_uids sc_fds sc_kept app length Nat.eqb take flat_map].
  destruct sendmsg_ok; reflexivity.
Qed.

(** ** Accepting and inheriting connections *)

Lemma allocate_fdctx_fresh (h : gmap nat fd_ctx) :
  h !! allocate_fdctx h = None /\ allocate_fdctx h <> O.
Proof.
  unfold allocate_fdctx.
  pose proof (is_fresh ({[O]} ∪ dom h)) as Hf.
  split; [apply not_elem_of_dom|]; set_solver.
Qed.

(** Destroying a context whose cache is empty frees it and nothing else. *)
Lemma deallocate_fdctx_empty_cache (fuel : nat) (p : nat) (h : gmap nat fd_ctx) (x : fd_ctx) :
  h !! p = Some x -> npeers (ctx_peers x) = O ->
  deallocate_fdctx (S fuel) p h = Ok (delete p h).
Proof.
  intros Hx Hn. cbn [deallocate_fdctx].
  rewrite (proj2 (deref_Ok _ _ _) Hx). cbn [mbind outcome_bind].
  rewrite Hn. cbn [seq for_each mbind outcome_bind].
  by rewrite (proj2 (deref_Ok _ _ _) Hx).
Qed.

(** X10.  A peer that connects gets a context of its own, at a pointer
    that is neither NULL nor in use, with no uid, an empty buffer, an empty
    cache and one reference; it is counted in [total_sockets] and it is
    not in the UID index.  If the descriptor cannot be registered with
    epoll, it is closed and the context freed again, which leaves the heap
    and [total_sockets] as they were.  A failed [accept] changes nothing. *)
Theorem tcp_accept_allocates_fresh (sz : Z) (fuel : nat) (ev : event) (st : state) :
  (ev_accept ev < 0 -> tcp_accept_event sz (S fuel) ev st = Ok st) /\
  (0 <= ev_accept ev ->
   let cp := allocate_fdctx (st_heap st) in
   let x := new_fd_ctx (FDCTX_CLIENT_BUFSIZE sz) (ev_malloc ev) false IPPROTO_TCP (-1)
              (ev_accept ev) in
   st_heap st !! cp = None /\ cp <> O /\
   faf_uid x = -1 /\ buf_len x = 0 /\ refcount x = 1 /\ cache_entries x = [] /\
   exists st',
     tcp_accept_event sz (S fuel) ev st = Ok st' /\
     peer_sockets st' = peer_sockets st /\
     if ev_epoll_add_ok ev 0%nat then
       st_heap st' = <[cp := x]> (st_heap st) /\
       total_sockets st' = total_sockets st + 1 /\
       trace st' = trace st ++ [sys_epoll_add (ev_accept ev)]
     else
       st_heap st' = st_heap st /\
       total_sockets st' = total_sockets st /\
       trace st' = trace st ++ [sys_epoll_add (ev_accept ev); sys_close (ev_accept ev)]).
Proof.
  unfold tcp_accept_event. split.
  - intros H. by rewrite (proj2 (Z.ltb_lt _ _) H).
  - intros H. rewrite (proj2 (Z.ltb_ge _ _) H).
    destruct (allocate_fdctx_fresh (st_heap st)) as [Hnone Hnz].
    cbn [st_heap with_total_sockets].
    set (cp := allocate_fdctx (st_heap st)) in *.
    set (x := new_fd_ctx _ _ _ _ _ _).
    do 6 (split; [done|]).
    destruct (ev_epoll_add_ok ev 0%nat).
    + eexists. split; [reflexivity|]. simpl. repeat split; done.
    + unfold on_heap. cbn [st_heap emit with_total_sockets with_heap].
      rewrite (deallocate_fdctx_empty_cache fuel cp _ x)
        by (rewrite ?lookup_insert_eq; done).
      cbn [mbind outcome_bind]. eexists. split; [reflexivity|]. simpl.
      rewrite delete_insert_id by done.
      repeat split; try done; [lia|]. by rewrite <- !app_assoc.
Qed.

(** ** Closing a connection *)

Lemma erase_if_identified_counters (c : nat) (st st' : state) :
  erase_if_identified c st = Ok st' ->
  trace st' = trace st /\ total_sockets st' = total_sockets st.
Proof. unfold erase_if_identified, peer_sockets_erase. intros H. by crush_ok. Qed.

(** X11.  The sequence that retires a connection, when it completes,
    closes the descriptor of the connection once (after taking it out of
    the epoll set, in the oversize case), issues no other system call,
    lowers [total_sockets] by exactly one, and leaves the context either
    destroyed or without uid. *)
Theorem close_connection_accounting (fuel : nat) (del : bool) (c : nat)
    (st st' : state) (x : fd_ctx) :
  st_heap st !! c = Some x ->
  close_connection fuel del c st = Ok st' ->
  total_sockets st' = total_sockets st - 1 /\
  trace st' =
    trace st ++ (if del then [sys_epoll_del (fd x)] else []) ++ [sys_close (fd x)] /\
  (st_heap st' !! c = None \/
   exists x', st_heap st' !! c = Some x' /\ faf_uid x' = -1).
Proof.
  intros Hx H.
  pose proof (close_connection_tombstone _ _ _ _ _ H) as Ht.
  unfold close_connection in H.
  rewrite (proj2 (deref_Ok _ _ _) Hx) in H. cbn [mbind outcome_bind] in H.
  apply bind_Ok in H as (st2 & He & H).
  apply erase_if_identified_counters in He as [Et Ec].
  apply bind_Ok in H as (st3 & Hr & H).
  unfold on_heap in Hr. apply bind_Ok in Hr as (h3 & _ & Hr). injection Hr as <-.
  apply bind_Ok in H as (x3 & _ & H).
  assert (total_sockets st' = total_sockets st2 /\ trace st' = trace st2) as [Ec' Et'].
  { destruct (_ =? 0).
    - unfold on_heap in H. apply bind_Ok in H as (h4 & _ & H). by injection H as <-.
    - apply bind_Ok in H as (x4 & _ & H). by injection H as <-. }
  rewrite Ec', Et', Ec, Et. split; [|split].
  - by destruct del.
  - destruct del; simpl; by rewrite <- ?app_assoc.
  - destruct (st_heap st' !! c) as [x'|]; [right; eauto|by left].
Qed.

(** X12.  A connection whose buffer is full cannot read: [read] is called
    with a count of 0 and returns 0, which the handler takes for the end of
    the stream.  So whatever the peer has sent, the connection is closed. *)
Theorem full_buffer_closes (sz : Z) (fuel : nat) (c : nat) (offered : list byte)
    (sendmsg_ok : bool) (st : state) (x : fd_ctx) :
  st_heap st !! c = Some x ->
  0 < FDCTX_CLIENT_BUFSIZE sz ->
  buf_len x = FDCTX_CLIENT_BUFSIZE sz ->
  peer_event sz fuel c (rd_data offered) sendmsg_ok st = close_connection fuel false c st.
Proof.
  intros Hx Hcap Hb. unfold peer_event.
  rewrite (proj2 (deref_Ok _ _ _) Hx). cbn [mbind outcome_bind].
  rewrite Hb. rewrite (proj2 (Z.eqb_neq _ 0)) by lia. rewrite andb_false_r.
  rewrite Z.sub_diag. cbn [Z.ltb Z.compare Z.to_nat]. by rewrite take_0.
Qed.

Lemma forward_unknown (fuel : nat) (c : nat) (st : state) (x : fd_ctx)
    (buf_head size : Z) (d : list byte) :
  st_heap st !! c = Some x ->
  load (buf x) (buf_head + 6) 2 = Ok d ->
  find (st_heap st) (ctx_peers x) (ntohs d) = Ok None ->
  peer_sockets_find (ntohs d) st = Ok None ->
  forward fuel c buf_head size st = Ok st.
Proof.
  intros Hx Hl Hf Hi. unfold forward, lookup_peer.
  rewrite (proj2 (deref_Ok _ _ _) Hx). cbn [mbind outcome_bind].
  rewrite Hl. cbn [mbind outcome_bind].
  rewrite Hf. cbn [mbind outcome_bind]. rewrite Hi. done.
Qed.

(** X13.  A message for a uid that is neither in the cache of the sender
    nor in the UID index is dropped: the readiness event that delivers it
    consumes the frame and leaves the buffer empty, and nothing else
    happens.  No system call is made, the UID index and every cache stay
    as they are, and no other context is touched. *)
Theorem unknown_destination_is_dropped (sz : Z) (fuel : nat) (c : nat) (st : state)
    (x : fd_ctx) (size port destuid : Z) (payload : list byte) (sendmsg_ok : bool) :
  0 <= sz ->
  st_heap st !! c = Some x ->
  decay_mode st = false ->
  faf_uid x <> -1 ->
  buf_len x = 0 ->
  Z.of_nat (length (buf x)) = FDCTX_CLIENT_BUFSIZE sz ->
  Z.of_nat (length payload) = size - 4 ->
  size + 4 <= FDCTX_CLIENT_BUFSIZE sz ->
  0 <= destuid <= 65535 ->
  find (st_heap st) (ctx_peers x) destuid = Ok None ->
  peer_sockets_find destuid st = Ok None ->
  (1 < fuel)%nat ->
  exists bf,
    peer_event sz fuel c (rd_data (htonl size ++ htons port ++ htons destuid ++ payload))
      sendmsg_ok st = Ok (supd c bf 0 st) /\
    length bf = length (buf x).
Proof.
  intros Hsz Hx Hd Hu Hbl Hcap Hpl Hfit HU Hf Hi Hfuel.
  set (F := htonl size ++ htons port ++ htons destuid ++ payload).
  assert (ntohs (take 2 (drop 6 F)) = destuid) as EU.
  { unfold F. rewrite (app_assoc (htonl size)).
    rewrite drop_app_length' by (rewrite length_app, length_htonl, length_htons; lia).
    rewrite take_app_length' by done.
    rewrite ntohs_htons. unfold to_uint16. apply Z.mod_small. lia. }
  assert (route_frames fuel c [F] st = Ok st) as Hroute.
  { unfold route_frames. cbn [for_each]. unfold route_frame, lookup_peer.
    rewrite (proj2 (deref_Ok _ _ _) Hx). cbn [mbind outcome_bind].
    rewrite (proj2 (Z.eqb_neq _ _) Hu), Hd, EU.
    rewrite Hf. cbn [mbind outcome_bind]. rewrite Hi. done. }
  assert (well_formed_stream sz (faf_uid x =? -1) [F]) as Hwf.
  { cbn [well_formed_stream]. split; [|done].
    rewrite (proj2 (Z.eqb_neq _ _) Hu).
    exists size, (htons port ++ htons destuid ++ payload).
    rewrite !length_app, !length_htons. repeat split; try done; lia. }
  assert (F <> []) as HFne by (unfold F; by destruct (htonl size)).
  assert (length F = Z.to_nat (size + 4)) as HlF.
  { unfold F. rewrite !length_app, length_htonl, !length_htons. lia. }
  destruct (peer_event_frames sz fuel c st st x [] F [] [F] sendmsg_ok Hsz Hx Hd Hcap)
    as (bf & Hev & Hlbf & _ & _);
    [by rewrite Hbl|done|done|simpl; lia|by simpl; rewrite !app_nil_r
    |done|left; simpl; lia|simpl; lia|done|].
  exists bf. split; [exact Hev|done].
Qed.

(** ** The loop as a whole *)

(** X14.  The loop is left for [exit(0)] only in a round that starts with
    [total_sockets] at 0: the rounds [its1] before it ran one after the
    other from [st], each of them started with a count other than 0, and
    they end in a state [st0] whose count is 0.  What the process is left
    in is [st0] itself, or, if the instance is decaying and has a control
    path, [st0] after closing the control socket, unlinking the path and
    writing "exit" to the control connection, in this order. *)
Theorem loop_exits_when_no_socket_is_left (sz : Z) (fuel : nat) (its : list iteration)
    (st st' : state) :
  main_loop sz fuel its st = Ok (st', true) ->
  exists its1 its2 st0,
    its = its1 ++ its2 /\
    for_each (fun s it => loop_iteration sz fuel it s) st its1 = Ok st0 /\
    (forall k s, (k < length its1)%nat ->
       for_each (fun s it => loop_iteration sz fuel it s) st (take k its1) = Ok s ->
       total_sockets s <> 0) /\
    total_sockets st0 = 0 /\
    st' = (if decay_mode st0 && ctrl_socket_path st0 then
             emit [sys_close (ctrl_socket_fd st0); sys_unlink;
                   sys_write_ctrl (ctrl_socket_conn_fd st0) str_exit] st0
           else st0).
Proof.
  revert st. induction its as [|it its IH]; intros st H; cbn [main_loop] in H.
  - destruct (total_sockets st =? 0) eqn:E; [|discriminate].
    apply Z.eqb_eq in E. injection H as <-.
    exists [], [], st. repeat split; try done. simpl. lia.
  - destruct (total_sockets st =? 0) eqn:E.
    + apply Z.eqb_eq in E. injection H as <-.
      exists [], (it :: its), st. repeat split; try done. simpl. lia.
    + apply Z.eqb_neq in E. apply bind_Ok in H as (st1 & H1 & H).
      destruct (IH _ H) as (its1 & its2 & st0 & -> & Hrun & Hbefore & Hz & ->).
      exists (it :: its1), its2, st0. repeat split; try done.
      * cbn [for_each]. by rewrite H1.
      * intros [|k] s Hk Hs.
        -- cbn in Hs. by injection Hs as <-.
        -- cbn [take for_each] in Hs. rewrite H1 in Hs. cbn in Hs.
           apply (Hbefore k s); [simpl in Hk; lia | done].
Qed.

(** * Start-up and the listeners *)

Lemma startup_listeners_loop (sz : Z) (ais : list addr_results) :
  forall st st',
    for_each (startup_listener sz) st ais = Ok st' ->
    exists new,
      server_sockets st' = server_sockets st ++ new /\
      Forall2 (listens_on (st_heap st')) new ais /\
      (forall p x, st_heap st !! p = Some x -> st_heap st' !! p = Some x) /\
      Forall address_ok ais /\
      peer_sockets st' = peer_sockets st /\
      decay_mode st' = decay_mode st /\
      total_sockets st' = total_sockets st.
Proof.
  induction ais as [|a ais IH]; intros st st' H; cbn [for_each] in H.
  { injection H as <-. exists []. rewrite app_nil_r. repeat split; done || constructor. }
  apply bind_Ok in H as (s1 & Hstep & H).
  unfold startup_listener in Hstep.
  destruct (ar_socket a <? 0) eqn:E1; [discriminate|]. apply Z.ltb_ge in E1.
  destruct ((ar_family a =? AF_INET6) && negb (ar_v6only_ok a)) eqn:E2; [discriminate|].
  destruct (ar_reuseaddr_ok a) eqn:E3; [|discriminate].
  destruct (ar_bind_ok a) eqn:E4; [|discriminate].
  destruct (ar_listen_ok a) eqn:E5; [|discriminate].
  cbn [negb] in Hstep. injection Hstep as <-.
  cbn [st_heap emit] in H.
  destruct (allocate_fdctx_fresh (st_heap st)) as [Hnone _].
  set (c := allocate_fdctx (st_heap st)) in *.
  set (xc := new_fd_ctx _ _ _ _ _ _) in H.
  destruct (IH _ _ H) as (new & Hsrv & Hnew & Hmono & Hok & Hps & Hdm & Hts).
  cbn [server_sockets with_server_sockets st_heap with_heap emit peer_sockets
       decay_mode total_sockets] in Hsrv, Hmono, Hps, Hdm, Hts.
  exists (c :: new). split; [by rewrite Hsrv, <- app_assoc|].
  split.
  { constructor; [|done]. exists xc. split; [apply Hmono; by rewrite lookup_insert_eq|done]. }
  split.
  { intros p x Hp. apply Hmono. rewrite lookup_insert_ne; [done|]. congruence. }
  split; [|done].
  constructor; [|done]. repeat split; try done.
  intros Hf. apply andb_false_iff in E2 as [E2|E2].
  - apply Z.eqb_neq in E2. done.
  - by destruct (ar_v6only_ok a).
Qed.

Lemma startup_ctrl_empty (env : startup_env) (st st1 : state) :
  startup_ctrl env st = Ok st1 ->
  st_heap st1 = st_heap st /\ server_sockets st1 = server_sockets st /\
  peer_sockets st1 = peer_sockets st /\ decay_mode st1 = decay_mode st /\
  total_sockets st1 = total_sockets st.
Proof.
  unfold startup_ctrl, ctrl_socket_listen. intros H1.
  repeat match type of H1 with
  | context [if ?b then _ else _] => destruct b
  | context [match ?x with _ => _ end] => destruct x
  end; crush_ok; done.
Qed.

(** X15.  When start-up completes, [getaddrinfo] had succeeded and so had
    every call made for every address it returned: there is exactly one
    listener context per address, in the order of the addresses, holding
    the descriptor of that address with one reference and an empty cache;
    [total_sockets] counts the listeners and nothing else; no peer is known
    and the instance does not decay. *)
Theorem startup_one_listener_per_address (sz : Z) (env : startup_env) (st : state) :
  startup sz env = Ok st ->
  exists ais,
    se_getaddrinfo env = Some ais /\
    0 <= se_epoll_create env /\
    Forall address_ok ais /\
    Forall2 (listens_on (st_heap st)) (server_sockets st) ais /\
    total_sockets st = Z.of_nat (length ais) /\
    peer_sockets st = [] /\
    decay_mode st = false.
Proof.
  unfold startup. intros H.
  destruct (_ <? 0) eqn:E0; [discriminate|]. apply Z.ltb_ge in E0.
  apply bind_Ok in H as (st1 & H1 & H).
  apply startup_ctrl_empty in H1 as (Eh1 & Es1 & Ep1 & Ed1 & Et1).
  cbn [st_heap server_sockets peer_sockets decay_mode total_sockets] in *.
  destruct (se_getaddrinfo env) as [ais|]; [|discriminate].
  apply bind_Ok in H as (st2 & H2 & H).
  apply bind_Ok in H as (st3 & H3 & H). injection H as <-.
  destruct (startup_listeners_loop _ _ _ _ H2) as (new & Hsrv & Hnew & _ & Hok & Hps & Hdm & _).
  rewrite Es1 in Hsrv. cbn [app] in Hsrv.
  assert (st_heap st3 = st_heap st2 /\ server_sockets st3 = server_sockets st2 /\
          peer_sockets st3 = peer_sockets st2 /\ decay_mode st3 = decay_mode st2)
    as (Eh3 & Es3 & Ep3 & Ed3).
  { eapply (for_each_invariant
              (fun s => st_heap s = st_heap st2 /\ server_sockets s = server_sockets st2 /\
                        peer_sockets s = peer_sockets st2 /\ decay_mode s = decay_mode st2))
      in H3; [exact H3| |done].
    intros s p s' Hs Hstep. apply bind_Ok in Hstep as (x & _ & Hstep).
    injection Hstep as <-. exact Hs. }
  exists ais. split; [done|]. split; [done|]. split; [done|].
  cbn [st_heap server_sockets peer_sockets decay_mode total_sockets with_total_sockets].
  rewrite Eh3, Es3, Ep3, Ed3, Hsrv, Hps, Hdm, Ep1, Ed1.
  split; [done|]. split; [|done].
  by rewrite (Forall2_length _ _ _ Hnew).
Qed.

(** ** Closing the listeners *)

Lemma close_servers_loop (l : list nat) :
  forall st,
    Forall (fun p => is_Some (st_heap st !! p)) l ->
    for_each
      (fun st p =>
         x ← deref (st_heap st) p;
         Ok (with_total_sockets (total_sockets st - 1)
               (emit [sys_epoll_del (fd x); sys_close (fd x)] st)))
      st l
    = Ok (with_total_sockets (total_sockets st - Z.of_nat (length l))
            (emit (flat_map (close_calls (st_heap st)) l) st)).
Proof.
  induction l as [|p l IH]; intros st Hlive.
  { simpl. f_equal. destruct st. unfold with_total_sockets, emit. simpl.
    f_equal; [lia|by rewrite app_nil_r]. }
  apply Forall_cons in Hlive as [[x Hx] Hlive].
  cbn [for_each]. rewrite (proj2 (deref_Ok _ _ _) Hx). cbn [mbind outcome_bind].
  rewrite IH by done. f_equal.
  cbn [flat_map]. unfold close_calls at 2. rewrite Hx.
  unfold with_total_sockets, emit. cbn. f_equal; [lia|by rewrite <- app_assoc].
Qed.

(** X16.  Closing the listeners, on SIGUSR1 or on "unlisten", takes each
    listener out of the epoll set and closes it, in order, and lowers
    [total_sockets] by one per listener.  Nothing else changes: the
    contexts stay, and so does the list of listeners, so that doing it
    again closes the same descriptors and lowers [total_sockets] a second
    time. *)
Theorem close_servers_closes_each_listener (st : state) :
  Forall (fun p => is_Some (st_heap st !! p)) (server_sockets st) ->
  let n := Z.of_nat (length (server_sockets st)) in
  let calls := flat_map (close_calls (st_heap st)) (server_sockets st) in
  close_servers st = Ok (with_total_sockets (total_sockets st - n) (emit calls st)) /\
  (st' ← close_servers st; close_servers st') =
    Ok (with_total_sockets (total_sockets st - 2 * n) (emit (calls ++ calls) st)).
Proof.
  intros Hlive n calls. unfold close_servers.
  rewrite (close_servers_loop _ st Hlive). split; [done|].
  cbn [mbind outcome_bind server_sockets with_total_sockets emit].
  rewrite close_servers_loop by done. f_equal.
  unfold with_total_sockets, emit. cbn. fold n calls. f_equal; [lia|by rewrite <- app_assoc].
Qed.

(** * Inheriting descriptors *)

Lemma index_sorted_live (h : gmap nat fd_ctx) (s : list nat) :
  forall lo e, index_sorted h lo s -> e ∈ s -> is_Some (h !! e).
Proof.
  induction s as [|a s IH]; intros lo e Hs He; [by apply elem_of_nil in He|].
  destruct Hs as (x & Hx & _ & Hs).
  apply elem_of_cons in He as [->|He]; [eauto|by eapply IH].
Qed.

Lemma index_sorted_ext (h h' : gmap nat fd_ctx) (s : list nat) :
  forall lo, (forall e, e ∈ s -> h' !! e = h !! e) ->
             index_sorted h lo s -> index_sorted h' lo s.
Proof.
  induction s as [|a s IH]; intros lo Hext Hs; [done|].
  destruct Hs as (x & Hx & Hlt & Hs). exists x.
  split; [rewrite Hext; [done|by apply elem_of_cons; left]|]. split; [done|].
  apply IH; [|done]. intros e He. apply Hext. by apply elem_of_cons; right.
Qed.

(** X17.  A descriptor inherited from the old instance gets a fresh
    context with the uid that came with it, is counted in [total_sockets]
    and [sockets_inherited], and is entered in the UID index under that uid
    unless the uid is unset or already held there; the lookup of no other
    uid changes.  If the descriptor cannot be registered with epoll, the
    context is freed and then read again ([cp->faf_uid]), for which the
    source has no defined behaviour. *)
Theorem inherited_socket_is_indexed (sz : Z) (fuel : nat) (mem : list byte) (uid fdn lo : Z)
    (st : state) :
  index_sorted (st_heap st) lo (peer_sockets st) ->
  (uid <> -1 -> lo < uid) ->
  let cp := allocate_fdctx (st_heap st) in
  let x := new_fd_ctx (FDCTX_CLIENT_BUFSIZE sz) mem false IPPROTO_TCP uid fdn in
  inherit_socket sz (S fuel) false mem uid fdn st = Fault /\
  exists st',
    inherit_socket sz fuel true mem uid fdn st = Ok st' /\
    st_heap st' = <[cp := x]> (st_heap st) /\
    total_sockets st' = total_sockets st + 1 /\
    sockets_inherited st' = sockets_inherited st + 1 /\
    trace st' = trace st ++ [sys_epoll_add fdn] /\
    index_sorted (st_heap st') lo (peer_sockets st') /\
    forall key,
      peer_sockets_find key st' =
        if decide (key = uid /\ uid <> -1) then
          match peer_sockets_find key st with
          | Ok None => Ok (Some cp)
          | r => r
          end
        else peer_sockets_find key st.
Proof.
  intros Hs Hlo. cbv zeta.
  destruct (allocate_fdctx_fresh (st_heap st)) as [Hnone _].
  set (cp := allocate_fdctx (st_heap st)) in *.
  set (x := new_fd_ctx _ _ _ _ _ _).
  set (h2 := <[cp := x]> (st_heap st)).
  assert (forall e, e ∈ peer_sockets st -> h2 !! e = st_heap st !! e) as Hext.
  { intros e He. unfold h2. rewrite lookup_insert_ne; [done|].
    intros <-. destruct (index_sorted_live _ _ _ _ Hs He) as [? ?]. congruence. }
  assert (index_sorted h2 lo (peer_sockets st)) as Hs2 by by eapply index_sorted_ext.
  set (st3 := emit [sys_epoll_add fdn]
                (with_heap h2
                   (with_total_sockets (total_sockets st + 1)
                      (with_sockets_inherited (sockets_inherited st + 1) st)))).
  assert (h2 !! cp = Some x) as Hcp by (unfold h2; by rewrite lookup_insert_eq).
  split.
  - unfold inherit_socket, on_heap.
    cbn [st_heap emit with_total_sockets with_heap with_sockets_inherited].
    fold cp x h2.
    rewrite (deallocate_fdctx_empty_cache fuel cp h2 x) by done.
    cbn [mbind outcome_bind st_heap with_heap]. unfold deref.
    by rewrite lookup_delete_eq.
  - assert (inherit_socket sz fuel true mem uid fdn st =
            if uid =? -1 then Ok st3 else peer_sockets_insert cp st3) as ->.
    { unfold inherit_socket.
      cbn [st_heap emit with_total_sockets with_heap with_sockets_inherited
           mbind outcome_bind].
      fold cp x h2. unfold deref. rewrite Hcp. done. }
    destruct (uid =? -1) eqn:E.
    + apply Z.eqb_eq in E. exists st3. split; [done|].
      do 5 (split; [done|]).
      intros key. unfold peer_sockets_find. cbn [st3 st_heap peer_sockets emit with_heap
        with_total_sockets with_sockets_inherited].
      rewrite decide_False by (intros [_ ?]; done).
      by apply set_find_ext.
    + apply Z.eqb_neq in E.
      destruct (set_insert_sorted h2 cp x (peer_sockets st) Hcp lo Hs2 (Hlo E))
        as (s' & Hi & Hs' & Hf).
      change (faf_uid x) with uid in Hi, Hf.
      unfold peer_sockets_insert.
      cbn [st3 st_heap emit with_heap peer_sockets with_total_sockets
           with_sockets_inherited].
      rewrite (proj2 (deref_Ok _ _ _) Hcp). cbn [mbind outcome_bind].
      change (faf_uid x) with uid. rewrite Hi. cbn [mbind outcome_bind].
      eexists. split; [reflexivity|].
      do 5 (split; [done|]).
      intros key. unfold peer_sockets_find.
      cbn [st_heap peer_sockets emit with_heap with_peer_sockets
           with_total_sockets with_sockets_inherited].
      rewrite Hf. rewrite (set_find_ext (st_heap st) h2) by done.
      destruct (decide (key = uid)) as [->|Hne].
      * by rewrite decide_True.
      * rewrite decide_False; [done|]. by intros [? _].
Qed.

(** * A destination looked up twice *)

(** X18.  A destination lookup that found a peer has cached it: the same
    lookup again finds the same peer, now in the cache, and changes
    nothing. *)
Theorem lookup_peer_caches_result (fuel : nat) (c : nat) (U : Z) (st st1 : state)
    (p : nat) (x : fd_ctx) :
  st_heap st !! c = Some x ->
  cache_ok x ->
  lookup_peer fuel c U st = Ok (Some p, st1) ->
  lookup_peer fuel c U st1 = Ok (Some p, st1) /\
  exists x1, st_heap st1 !! c = Some x1 /\
             find (st_heap st1) (ctx_peers x1) U = Ok (Some p).
Proof.
  intros Hx Hok H. unfold lookup_peer in H.
  rewrite (proj2 (deref_Ok _ _ _) Hx) in H. cbn [mbind outcome_bind] in H.
  apply bind_Ok in H as (r & Hf & H).
  destruct r as [p'|].
  { injection H as <- <-. split; [|eauto].
    unfold lookup_peer. rewrite (proj2 (deref_Ok _ _ _) Hx). cbn [mbind outcome_bind].
    by rewrite Hf. }
  apply bind_Ok in H as (it & Hi & H).
  destruct it as [p'|]; [|discriminate].
  apply bind_Ok in H as (st' & Hadd & H). injection H as <- <-.
  unfold on_heap in Hadd. apply bind_Ok in Hadd as (h' & Hadd & Hst'). injection Hst' as <-.
  destruct (add_entries _ _ _ _ _ _ Hadd Hx Hok) as (x' & Hx' & Ex').
  destruct (add_live _ _ _ _ _ _ Hadd Hx Hok) as [y' Hy'].
  destruct (set_find_sound _ _ _ _ Hi) as (y & Hy & Eu).
  assert (faf_uid y' = U) as Eu'.
  { destruct (add_keeps_data _ _ _ _ _ Hadd p' y' Hy') as (y0 & Hy0 & ->).
    rewrite Hy in Hy0. by injection Hy0 as <-. }
  assert (find h' (ctx_peers x') U = Ok (Some p')) as Hfind.
  { destruct (cache_head _ _ _ Ex') as (n & Hn & H0).
    unfold find. rewrite Hn. cbn [find_loop].
    rewrite (proj2 (slot_Ok _ _ _) H0). cbn [mbind outcome_bind].
    rewrite (proj2 (deref_Ok _ _ _) Hy'). cbn [mbind outcome_bind].
    by rewrite Eu', Z.eqb_refl. }
  split; [|exists x'; by split].
  unfold lookup_peer. cbn [st_heap with_heap].
  rewrite (proj2 (deref_Ok _ _ _) Hx'). cbn [mbind outcome_bind].
  by rewrite Hfind.
Qed.

(** * Destroying a context *)

(** The loop of [unref_all] while no released peer loses its last
    reference. *)
Lemma unref_all_loop (dealloc : nat -> gmap nat fd_ctx -> outcome (gmap nat fd_ctx))
    (p : nat) (h : gmap nat fd_ctx) (x : fd_ctx) (k : nat) :
  h !! p = Some x ->
  (k <= length (peers (ctx_peers x)))%nat ->
  NoDup (take k (peers (ctx_peers x))) ->
  p ∉ take k (peers (ctx_peers x)) ->
  Forall (fun q => exists y, h !! q = Some y /\ refcount y <> 1)
         (take k (peers (ctx_peers x))) ->
  exists h',
    for_each
      (fun h i =>
         x' ← deref h p;
         q ← slot (peers (ctx_peers x')) i;
         unref dealloc q h)
      h (seq 0 k) = Ok h' /\
    forall q,
      h' !! q = if decide (q ∈ take k (peers (ctx_peers x)))
                then decr_refcount <$> h !! q else h !! q.
Proof.
  intros Hx. induction k as [|k IH]; intros Hk Hnd Hp Hlive.
  { exists h. split; [done|]. intros q. rewrite take_0.
    rewrite decide_False; [done|]. apply not_elem_of_nil. }
  destruct (lookup_lt_is_Some_2 (peers (ctx_peers x)) k ltac:(lia)) as [q Hq].
  rewrite (take_S_r _ _ _ Hq) in Hnd, Hp, Hlive |- *.
  apply NoDup_app in Hnd as (Hnd & Hdis & _).
  apply not_elem_of_app in Hp as [Hp Hpq].
  apply Forall_app in Hlive as [Hlive Hq'].
  apply Forall_singleton in Hq' as (y & Hy & Hrc).
  destruct (IH ltac:(lia) Hnd Hp Hlive) as (h1 & Hloop & Hh1).
  assert (q ∉ take k (peers (ctx_peers x))) as Hqn.
  { intros Hin. apply (Hdis q Hin). by apply list_elem_of_singleton. }
  assert (q <> p) as Hne by (intros ->; apply Hpq; by apply list_elem_of_singleton).
  assert (h1 !! p = Some x) as Hx1 by (rewrite Hh1, decide_False, Hx by done; done).
  assert (h1 !! q = Some y) as Hy1 by (rewrite Hh1, decide_False, Hy by done; done).
  rewrite seq_S, for_each_app, Hloop. cbn [for_each mbind outcome_bind Nat.add].
  rewrite (proj2 (deref_Ok _ _ _) Hx1). cbn [mbind outcome_bind].
  rewrite (proj2 (slot_Ok _ _ _) Hq). cbn [mbind outcome_bind].
  unfold unref. rewrite (proj2 (deref_Ok _ _ _) Hy1). cbn [mbind outcome_bind].
  rewrite (proj2 (Z.eqb_neq _ 0)) by lia.
  eexists. split; [reflexivity|]. intros q'.
  destruct (decide (q' = q)) as [->|Hq'].
  - rewrite lookup_insert_eq.
    rewrite decide_True by (apply elem_of_app; right; by apply list_elem_of_singleton).
    by rewrite Hy.
  - rewrite lookup_insert_ne by done. rewrite Hh1.
    destruct (decide (q' ∈ take k (peers (ctx_peers x)))) as [Hin|Hin].
    + rewrite decide_True by (apply elem_of_app; by left). done.
    + rewrite decide_False; [done|]. intros Hin'. apply elem_of_app in Hin' as [?|Hs]; [done|].
      apply list_elem_of_singleton in Hs. done.
Qed.

(** X19.  Destroying a context that caches distinct peers, each of which
    has a reference besides the one the cache holds, releases exactly one
    reference on each of them, frees the context itself and touches
    nothing else; no further context is destroyed. *)
Theorem destroy_releases_each_cached_peer (fuel : nat) (p : nat) (h : gmap nat fd_ctx)
    (x : fd_ctx) :
  h !! p = Some x ->
  cache_ok x ->
  NoDup (cache_entries x) ->
  p ∉ cache_entries x ->
  Forall (fun q => exists y, h !! q = Some y /\ refcount y <> 1) (cache_entries x) ->
  exists h',
    deallocate_fdctx (S fuel) p h = Ok h' /\
    h' !! p = None /\
    (forall q y, q ∈ cache_entries x -> h !! q = Some y ->
                 h' !! q = Some (set_refcount (refcount y - 1) y)) /\
    (forall q, q <> p -> q ∉ cache_entries x -> h' !! q = h !! q).
Proof.
  intros Hx [Hle Hlen] Hnd Hp Hlive. unfold cache_entries in *.
  destruct (unref_all_loop (deallocate_fdctx fuel) p h x (npeers (ctx_peers x)) Hx
              ltac:(lia) Hnd Hp Hlive) as (h1 & Hloop & Hh1).
  cbn [deallocate_fdctx]. rewrite (proj2 (deref_Ok _ _ _) Hx). cbn [mbind outcome_bind].
  rewrite Hloop. cbn [mbind outcome_bind].
  assert (h1 !! p = Some x) as Hx1 by (rewrite Hh1, decide_False, Hx by done; done).
  rewrite (proj2 (deref_Ok _ _ _) Hx1). cbn [mbind outcome_bind].
  eexists. split; [reflexivity|]. split; [by rewrite lookup_delete_eq|]. split.
  - intros q y Hq Hy.
    rewrite lookup_delete_ne by (intros ->; done).
    by rewrite Hh1, decide_True, Hy.
  - intros q Hne Hq. rewrite lookup_delete_ne by done.
    by rewrite Hh1, decide_False.
Qed.

(** * [cleanup_dangling] *)

Lemma set_ctx_peers_same (x : fd_ctx) :
  set_ctx_peers (mk_proxy_peers (npeers (ctx_peers x)) (peers (ctx_peers x))) x = x.
Proof. destruct x as [? ? ? [? ?] ? ? ? ?]. done. Qed.

(** X20.  [cleanup_dangling] on a cache without tombstoned entries (every
    entry live, with a uid) leaves the heap as it is: no entry is moved,
    no reference count changes. *)
Theorem cleanup_dangling_without_tombstones
    (dealloc : nat -> gmap nat fd_ctx -> outcome (gmap nat fd_ctx))
    (owner : nat) (h : gmap nat fd_ctx) (x : fd_ctx) :
  h !! owner = Some x ->
  cache_ok x ->
  Forall (fun q => exists y, h !! q = Some y /\ faf_uid y <> -1) (cache_entries x) ->
  cleanup_dangling dealloc owner h = Ok h.
Proof.
  intros Hx [Hle Hlen] Hlive. unfold cleanup_dangling, cache_entries in *.
  rewrite (proj2 (deref_Ok _ _ _) Hx). cbn [mbind outcome_bind].
  match goal with |- context [for_each ?f _ _] => set (body := f) end.
  assert (forall k, (k <= npeers (ctx_peers x))%nat ->
            for_each body (h, O) (seq 0 k) = Ok (h, k)) as Hloop.
  { induction k as [|k IH]; intros Hk; [done|].
    rewrite seq_S, for_each_app, IH by lia. cbn [for_each mbind outcome_bind Nat.add].
    destruct (lookup_lt_is_Some_2 (peers (ctx_peers x)) k ltac:(lia)) as [q Hq].
    assert (q ∈ take (npeers (ctx_peers x)) (peers (ctx_peers x))) as Hin.
    { apply (list_elem_of_lookup_2 _ k). rewrite lookup_take_lt by lia. done. }
    eapply Forall_forall in Hlive as (y & Hy & Hu); [|exact Hin].
    unfold body. rewrite (proj2 (deref_Ok _ _ _) Hx). cbn [mbind outcome_bind].
    rewrite (proj2 (slot_Ok _ _ _) Hq). cbn [mbind outcome_bind].
    rewrite (proj2 (deref_Ok _ _ _) Hy). cbn [mbind outcome_bind].
    rewrite (proj2 (Z.eqb_neq _ _) Hu).
    rewrite ?(proj2 (deref_Ok _ _ _) Hx). cbn [mbind outcome_bind].
    rewrite decide_True by done. cbn [mbind outcome_bind].
    by rewrite set_ctx_peers_same, insert_id. }
  rewrite Hloop by lia. cbn [mbind outcome_bind].
  rewrite (proj2 (deref_Ok _ _ _) Hx). cbn [mbind outcome_bind].
  by rewrite set_ctx_peers_same, insert_id.
Qed.

(** * [remove_myself_from_peer_caches] *)

Lemma caches_shrink_refl (E : list nat) (h : gmap nat fd_ctx) : caches_shrink E h h.
Proof. intros q x' H. exists x'. done. Qed.

Lemma caches_shrink_trans (E : list nat) (h1 h2 h3 : gmap nat fd_ctx) :
  caches_shrink E h1 h2 -> caches_shrink E h2 h3 -> caches_shrink E h1 h3.
Proof.
  intros H12 H23 q x3 H3.
  destruct (H23 q x3 H3) as (x2 & H2 & E2 & S2).
  destruct (H12 q x2 H2) as (x1 & H1 & E1 & S1).
  exists x1. split; [done|]. split.
  - intros Hq. by rewrite E2, E1.
  - intros e He. by apply S1, S2.
Qed.

Lemma only_refcounts_caches_shrink (E : list nat) (h h' : gmap nat fd_ctx) :
  only_refcounts h h' -> caches_shrink E h h'.
Proof.
  intros H q x' Hx'. destruct (H q x' Hx') as (x & Hx & ->).
  exists x. done.
Qed.

Lemma remove_caches_shrink (fuel : nat) (E : list nat) (q p : nat)
    (h h' : gmap nat fd_ctx) :
  q ∈ E -> bounded h ->
  remove (deallocate_fdctx fuel) q p h = Ok h' ->
  caches_shrink E h h'.
Proof.
  intros Hq Hb H.
  assert (exists x, h !! q = Some x) as [x Hx].
  { unfold remove in H. apply bind_Ok in H as (x & Hx & _). apply deref_Ok in Hx. eauto. }
  pose proof (bounded_lookup _ _ _ Hb Hx) as Hok.
  destruct (remove_effect (deallocate_fdctx fuel) q p h x Hx Hok) as [Hno Hyes].
  destruct (list_find (fun e => e = p) (cache_entries x)) as [[i p']|] eqn:Ef.
  - pose proof Ef as Ef'. apply list_find_Some in Ef' as (_ & -> & _).
    destruct (Hyes i eq_refl) as (x' & Hr & Ex & Ec & _).
    rewrite Hr in H. apply unref_only_refcounts in H.
    intros r xr' Hr'. destruct (H r xr' Hr') as (xr1 & Hr1 & ->).
    destruct (decide (r = q)) as [->|Hne].
    + rewrite lookup_insert_eq in Hr1. injection Hr1 as <-.
      exists x. split; [done|]. split; [done|].
      intros e He. change (cache_entries (set_refcount (refcount xr') x'))
        with (cache_entries x') in He.
      rewrite Ec in He. by eapply list_elem_of_delete_inv.
    + rewrite lookup_insert_ne in Hr1 by done. exists xr1. done.
  - rewrite Hno in H.
    + injection H as <-. apply caches_shrink_refl.
    + apply list_find_None in Ef. intros Hin.
      eapply Forall_forall in Ef; [|exact Hin]. done.
Qed.

Lemma remove_from_all_peers_loop_caches_shrink (fuel : nat) (E : list nat) (c : nat)
    (n : nat) :
  forall (i : nat) (h h' : gmap nat fd_ctx),
    bounded h ->
    (forall xc, h !! c = Some xc -> forall e, e ∈ cache_entries xc -> e ∈ E) ->
    remove_from_all_peers_loop (deallocate_fdctx fuel) c c i n h = Ok h' ->
    caches_shrink E h h'.
Proof.
  induction n as [|n IH]; intros i h h' Hb Hsub H; cbn [remove_from_all_peers_loop] in H.
  { injection H as <-. apply caches_shrink_refl. }
  apply bind_Ok in H as (x & Hx & H). apply deref_Ok in Hx.
  destruct (i <? npeers (ctx_peers x))%nat eqn:Ei;
    [|injection H as <-; apply caches_shrink_refl].
  apply Nat.ltb_lt in Ei.
  apply bind_Ok in H as (q & Hq & H). apply slot_Ok in Hq.
  apply bind_Ok in H as (h1 & Hr & H).
  assert (q ∈ E) as HqE.
  { apply (Hsub x Hx). apply (list_elem_of_lookup_2 _ i).
    unfold cache_entries. rewrite lookup_take_lt by lia. done. }
  pose proof (remove_caches_shrink fuel E q c h h1 HqE Hb Hr) as Hs1.
  eapply caches_shrink_trans; [exact Hs1|].
  apply (IH (S i) h1 h'); [by eapply remove_bounded| |done].
  intros xc Hxc e He. destruct (Hs1 c xc Hxc) as (x0 & Hx0 & _ & Hsh).
  apply (Hsub x0 Hx0). by apply Hsh.
Qed.

(** ** What the loop does to the peers it visits *)

Lemma without_first_find (c : nat) (l : list nat) (i : nat) :
  list_find (fun q => q = c) l = Some (i, c) -> delete i l = without_first c l.
Proof.
  intros H. apply list_find_Some in H as (Hi & _ & Hbefore).
  revert i Hi Hbefore. induction l as [|e l IH]; intros i Hi Hbefore; [done|].
  destruct i as [|i]; cbn in *.
  - injection Hi as ->. by rewrite decide_True.
  - rewrite decide_False by (apply (Hbefore 0%nat e); [done|lia]).
    f_equal. apply IH; [done|].
    intros j y Hj Hlt. apply (Hbefore (S j) y); [done|lia].
Qed.

Lemma without_first_notin (c : nat) (l : list nat) : c ∉ l -> without_first c l = l.
Proof.
  induction l as [|e l IH]; intros H; [done|]. cbn.
  apply not_elem_of_cons in H as [Hne H].
  rewrite decide_False by done. by rewrite IH.
Qed.

Lemma NoDup_find (c : nat) (l : list nat) (i : nat) :
  NoDup l -> l !! i = Some c -> list_find (fun q => q = c) l = Some (i, c).
Proof.
  intros Hnd Hi. apply list_find_Some. split; [done|]. split; [done|].
  intros j y Hj Hlt ->.
  pose proof (NoDup_lookup _ _ _ _ Hnd Hi Hj). lia.
Qed.

Lemma visited_sub (c : nat) (l : list nat) :
  (forall q, q ∈ visited c l -> q ∈ l) /\
  (forall q, q ∈ visited c (tail l) -> q ∈ tail l).
Proof.
  induction l as [|e l [IH1 IH2]]; [by split|]. split; [|exact IH1].
  intros q Hq. cbn [visited] in Hq. destruct (decide (e = c)) as [->|Hne].
  - apply elem_of_cons in Hq as [->|Hq]; [left|].
    right. destruct l as [|e' l]; [done|]. right. by apply IH2.
  - apply elem_of_cons in Hq as [->|Hq]; [left|]. right. by apply IH1.
Qed.

Lemma holders_cons (h : gmap nat fd_ctx) (c q : nat) (V : list nat) :
  holders h c (q :: V) =
    ((if decide (c ∈ cache_at h q) then 1 else 0) + holders h c V)%nat.
Proof.
  unfold holders. destruct (decide (c ∈ cache_at h q)).
  - by rewrite filter_cons_True.
  - by rewrite filter_cons_False.
Qed.

Lemma holders_ext (h h' : gmap nat fd_ctx) (c : nat) (V : list nat) :
  (forall q, q ∈ V -> cache_at h' q = cache_at h q) ->
  holders h' c V = holders h c V.
Proof.
  induction V as [|q V IH]; intros H; [done|].
  rewrite !holders_cons, H by left. rewrite IH; [done|].
  intros q' Hq'. apply H. by right.
Qed.

Lemma drop_S_delete {A : Type} (l : list A) (i : nat) :
  drop (S i) (delete i l) = drop (S (S i)) l.
Proof.
  revert i. induction l as [|a l IH]; intros i; [done|].
  destruct i as [|i]; cbn; [by destruct l|]. apply IH.
Qed.

(** [remove] on a live owner, when releasing [p] does not destroy it. *)
Lemma remove_releases (dealloc : nat -> gmap nat fd_ctx -> outcome (gmap nat fd_ctx))
    (owner p : nat) (h : gmap nat fd_ctx) (x y : fd_ctx) :
  h !! owner = Some x ->
  cache_ok x ->
  h !! p = Some y ->
  (p ∈ cache_entries x -> refcount y <> 1) ->
  exists h1,
    remove dealloc owner p h = Ok h1 /\
    (((p ∉ cache_entries x) /\ h1 = h) \/
     (p ∈ cache_entries x /\
      exists x',
        x' = set_ctx_peers (ctx_peers x') x /\
        cache_entries x' = without_first p (cache_entries x) /\
        h1 = <[p := set_refcount (refcount y - 1) (if decide (owner = p) then x' else y)]>
               (<[owner := x']> h))).
Proof.
  intros Hx Hok Hy Hrc.
  destruct (remove_effect dealloc owner p h x Hx Hok) as [Hno Hyes].
  destruct (list_find (fun q => q = p) (cache_entries x)) as [[i p']|] eqn:Ef.
  - pose proof Ef as Ef'. apply list_find_Some in Ef' as (Hi & -> & _).
    assert (p ∈ cache_entries x) as Hin by by eapply list_elem_of_lookup_2.
    destruct (Hyes i eq_refl) as (x' & Hr & Ex & Ec & _).
    eexists. split; [|right; split; [done|]; exists x'; split; [done|]; split;
                       [by rewrite Ec; apply without_first_find|reflexivity]].
    rewrite Hr. unfold unref, deref.
    assert (<[owner := x']> h !! p = Some (if decide (owner = p) then x' else y) /\
            refcount (if decide (owner = p) then x' else y) = refcount y) as [-> Hrc'].
    { destruct (decide (owner = p)) as [->|Hne].
      - rewrite lookup_insert_eq. split; [done|].
        rewrite Hx in Hy. injection Hy as <-. rewrite Ex. by destruct x.
      - by rewrite lookup_insert_ne. }
    cbn [mbind outcome_bind]. rewrite Hrc'.
    rewrite (proj2 (Z.eqb_neq _ 0)) by (specialize (Hrc Hin); lia). done.
  - assert (p ∉ cache_entries x) as Hnot.
    { apply list_find_None in Ef. intros Hin.
      eapply Forall_forall in Ef; [|exact Hin]. done. }
    exists h. split; [by apply Hno|]. by left.
Qed.

Lemma retired_nil (c : nat) (h : gmap nat fd_ctx) : retired c [] h h.
Proof.
  intros q x Hq. exists x. split; [done|]. split; [by destruct x|].
  split; [by intros ?%elem_of_nil|]. split; [done|].
  destruct (decide (q = c)); [|done]. unfold holders. cbn. lia.
Qed.

Lemma remove_from_all_peers_loop_visits (fuel : nat) (c : nat) (n : nat) :
  forall (i : nat) (h : gmap nat fd_ctx) (xc : fd_ctx),
    h !! c = Some xc ->
    bounded h ->
    NoDup (cache_entries xc) ->
    Forall (fun q => is_Some (h !! q)) (cache_entries xc) ->
    (length (drop i (cache_entries xc)) <= n)%nat ->
    Z.of_nat (holders h c (visited c (drop i (cache_entries xc)))) < refcount xc ->
    exists h',
      remove_from_all_peers_loop (deallocate_fdctx fuel) c c i n h = Ok h' /\
      retired c (visited c (drop i (cache_entries xc))) h h'.
Proof.
  induction n as [|n IH]; intros i h xc Hc Hb Hnd Hlive Hlen Hrc.
  { destruct (drop i (cache_entries xc)) as [|? ?] eqn:E; [|simpl in Hlen; lia].
    exists h. split; [done|]. apply retired_nil. }
  cbn [remove_from_all_peers_loop].
  rewrite (proj2 (deref_Ok _ _ _) Hc). cbn [mbind outcome_bind].
  pose proof (bounded_lookup _ _ _ Hb Hc) as [Hle Hlenp].
  assert (length (cache_entries xc) = npeers (ctx_peers xc)) as HlenE.
  { unfold cache_entries. rewrite length_take. lia. }
  destruct (i <? npeers (ctx_peers xc))%nat eqn:Ei.
  2:{ apply Nat.ltb_ge in Ei. rewrite drop_ge by lia.
      exists h. split; [done|]. apply retired_nil. }
  apply Nat.ltb_lt in Ei.
  destruct (lookup_lt_is_Some_2 (cache_entries xc) i ltac:(lia)) as [q0 Hq0].
  assert (peers (ctx_peers xc) !! i = Some q0) as Hslot.
  { unfold cache_entries in Hq0. by rewrite lookup_take_lt in Hq0 by lia. }
  rewrite (proj2 (slot_Ok _ _ _) Hslot). cbn [mbind outcome_bind].
  rewrite (drop_S _ _ _ Hq0) in Hrc, Hlen |- *.
  assert (q0 ∈ cache_entries xc) as HinE by by eapply list_elem_of_lookup_2.
  assert (q0 ∉ drop (S i) (cache_entries xc)) as Hq0later.
  { intros Hin. apply list_elem_of_lookup_1 in Hin as [j Hj].
    rewrite lookup_drop in Hj.
    pose proof (NoDup_lookup _ _ _ _ Hnd Hq0 Hj). lia. }
  destruct (proj1 (Forall_forall _ _) Hlive q0 HinE) as [y0 Hy0].
  pose proof (bounded_lookup _ _ _ Hb Hy0) as Hok0.
  assert (c ∈ cache_at h q0 <-> c ∈ cache_entries y0) as Hat
    by (unfold cache_at; by rewrite Hy0).
  destruct (decide (q0 = c)) as [->|Hne].
  - (* the connection's own entry *)
    assert (y0 = xc) as -> by congruence.
    cbn [visited] in Hrc |- *. rewrite decide_True in Hrc |- * by done.
    set (V' := match drop (S i) (cache_entries xc) with
               | [] => []
               | _ :: l'' => visited c l''
               end) in *.
    rewrite holders_cons, decide_True in Hrc by by apply Hat.
    destruct (remove_releases (deallocate_fdctx fuel) c c h xc xc Hc Hok0 Hc
                ltac:(intros _; lia)) as (h1 & Hr & [[Hnot _]|(_ & x' & Ex & Ec & ->)]);
      [done|].
    rewrite decide_True in Hr by done.
    rewrite insert_insert_eq in Hr.
    rewrite Hr. cbn [mbind outcome_bind].
    set (x1 := set_refcount (refcount xc - 1) x') in *.
    assert (cache_entries x1 = delete i (cache_entries xc)) as E1.
    { change (cache_entries x1) with (cache_entries x'). rewrite Ec.
      symmetry. apply without_first_find. by apply NoDup_find. }
    assert (V' = visited c (drop (S i) (cache_entries x1))) as EV.
    { rewrite E1, drop_S_delete. unfold V'.
      destruct (drop (S i) (cache_entries xc)) as [|e l] eqn:Ed.
      - assert (drop (S (S i)) (cache_entries xc) = []) as ->; [|done].
        apply drop_ge. apply (f_equal length) in Ed. rewrite length_drop in Ed.
        simpl in Ed. lia.
      - replace (drop (S (S i)) (cache_entries xc)) with l; [done|].
        replace (S (S i)) with (S i + 1)%nat by lia. rewrite <- drop_drop, Ed. done. }
    assert (forall q, q ∈ V' -> q <> c /\ q ∈ cache_entries xc) as HV'.
    { intros q Hq. rewrite EV, E1, drop_S_delete in Hq.
      apply (proj1 (visited_sub c _)) in Hq.
      assert (q ∈ drop (S i) (cache_entries xc)) as Hq'.
      { replace (S (S i)) with (S i + 1)%nat in Hq by lia. rewrite <- drop_drop in Hq.
        eapply elem_of_sublist; [exact Hq|apply sublist_drop]. }
      split; [by intros ->|]. eapply elem_of_sublist; [exact Hq'|apply sublist_drop]. }
    assert (holders (<[c := x1]> h) c V' = holders h c V') as Hh.
    { apply holders_ext. intros q Hq. destruct (HV' q Hq) as [Hqc _].
      unfold cache_at. by rewrite lookup_insert_ne. }
    destruct (IH (S i) (<[c := x1]> h) x1) as (h' & Hloop & Hret).
    + by rewrite lookup_insert_eq.
    + eapply remove_bounded; [exact Hr|done].
    + rewrite E1. eapply sublist_NoDup; [exact Hnd|apply sublist_delete].
    + rewrite E1. apply Forall_forall. intros q Hq.
      destruct (decide (q = c)) as [->|Hqc]; [by rewrite lookup_insert_eq|].
      rewrite lookup_insert_ne by done.
      apply (proj1 (Forall_forall _ _) Hlive). by eapply list_elem_of_delete_inv.
    + rewrite E1, drop_S_delete.
      simpl in Hlen. rewrite length_drop in Hlen |- *. lia.
    + rewrite <- EV, Hh. unfold x1. cbn [refcount set_refcount]. lia.
    + exists h'. split; [done|]. rewrite <- EV in Hret.
      intros q x Hq. destruct (decide (q = c)) as [->|Hqc].
      * rewrite Hc in Hq. injection Hq as <-.
        destruct (Hret c x1 ltac:(by rewrite lookup_insert_eq))
          as (x'' & Hx'' & Ex'' & _ & Hsame & Hrc'').
        rewrite decide_True in Hrc'' by done.
        assert (c ∉ V') as HcV by (intros Hin; by destruct (HV' c Hin)).
        specialize (Hsame HcV).
        exists x''. split; [done|]. split.
        { rewrite Ex''. unfold x1. rewrite Ex. by destruct xc. }
        split.
        { intros _. unfold cache_entries at 1. rewrite Hsame.
          fold (cache_entries x1). change (cache_entries x1) with (cache_entries x').
          done. }
        split; [intros Hn; exfalso; apply Hn; left|].
        rewrite Hrc'', Hh, holders_cons. rewrite decide_True by (by apply Hat).
        unfold x1. cbn [refcount set_refcount]. lia.
      * destruct (Hret q x ltac:(by rewrite lookup_insert_ne))
          as (x'' & Hx'' & Ex'' & Hin & Hsame & Hrc'').
        rewrite decide_False in Hrc'' by done.
        exists x''. split; [done|]. split; [done|]. split.
        { intros [?|HV]%elem_of_cons; [done|]. by apply Hin. }
        split; [|done].
        intros Hn. apply Hsame. intros HV. apply Hn. by right.
  - (* a cached peer *)
    cbn [visited] in Hrc |- *. rewrite decide_False in Hrc |- * by done.
    set (V' := visited c (drop (S i) (cache_entries xc))) in *.
    assert (q0 ∉ V') as Hq0V.
    { intros Hin. apply Hq0later. by apply (proj1 (visited_sub c _)). }
    rewrite holders_cons in Hrc.
    destruct (remove_releases (deallocate_fdctx fuel) q0 c h y0 xc Hy0 Hok0 Hc)
      as (h1 & Hr & [[Hnot ->]|(Hin0 & x' & Ex & Ec & ->)]).
    { intros Hin. rewrite decide_True in Hrc by by apply Hat. lia. }
    + (* the peer does not hold the connection *)
      rewrite decide_False in Hrc by (by intros ?%Hat).
      rewrite Hr. cbn [mbind outcome_bind].
      destruct (IH (S i) h xc Hc Hb Hnd Hlive) as (h' & Hloop & Hret).
      * simpl in Hlen. lia.
      * fold V'. lia.
      * exists h'. split; [done|]. fold V' in Hret.
        intros q x Hq. destruct (Hret q x Hq) as (x'' & Hx'' & Ex'' & Hin & Hsame & Hrc'').
        exists x''. split; [done|]. split; [done|]. split.
        { intros [->|HV]%elem_of_cons; [|by apply Hin].
          rewrite Hy0 in Hq. injection Hq as <-.
          unfold cache_entries at 1. rewrite (Hsame Hq0V). fold (cache_entries y0).
          by rewrite without_first_notin. }
        split.
        { intros Hn. apply Hsame. intros HV. apply Hn. by right. }
        assert (holders h c (q0 :: V') = holders h c V') as ->; [|done].
        rewrite holders_cons. by rewrite decide_False by (by intros ?%Hat).
    + (* the peer holds the connection *)
      rewrite decide_True in Hrc by by apply Hat.
      rewrite decide_False in Hr by done.
      rewrite Hr. cbn [mbind outcome_bind].
      set (x1 := set_refcount (refcount xc - 1) xc) in *.
      set (h1 := <[c := x1]> (<[q0 := x']> h)) in *.
      assert (holders h1 c V' = holders h c V') as Hh.
      { apply holders_ext. intros q Hq. unfold cache_at, h1.
        destruct (decide (q = c)) as [->|Hqc].
        - by rewrite lookup_insert_eq, Hc.
        - rewrite lookup_insert_ne by done.
          rewrite lookup_insert_ne by (by intros ->). done. }
      destruct (IH (S i) h1 x1) as (h' & Hloop & Hret).
      * unfold h1. by rewrite lookup_insert_eq.
      * eapply remove_bounded; [exact Hr|done].
      * done.
      * apply Forall_forall. intros q Hq. unfold h1.
        destruct (decide (q = c)) as [->|Hqc]; [by rewrite lookup_insert_eq|].
        rewrite lookup_insert_ne by done.
        destruct (decide (q = q0)) as [->|Hqq]; [by rewrite lookup_insert_eq|].
        rewrite lookup_insert_ne by done.
        by apply (proj1 (Forall_forall _ _) Hlive).
      * change (cache_entries x1) with (cache_entries xc). simpl in Hlen. lia.
      * change (cache_entries x1) with (cache_entries xc). fold V'. rewrite Hh.
        unfold x1. cbn [refcount set_refcount]. lia.
      * exists h'. split; [done|].
        change (cache_entries x1) with (cache_entries xc) in Hret. fold V' in Hret.
        intros q x Hq. destruct (decide (q = c)) as [->|Hqc].
        -- rewrite Hc in Hq. injection Hq as <-.
           destruct (Hret c x1 ltac:(by unfold h1; rewrite lookup_insert_eq))
             as (x'' & Hx'' & Ex'' & Hin & Hsame & Hrc'').
           rewrite decide_True in Hrc'' by done.
           exists x''. split; [done|]. split.
           { rewrite Ex''. unfold x1. by destruct xc. }
           split.
           { intros [?|HV]%elem_of_cons; [done|]. by apply Hin. }
           split.
           { intros Hn. apply Hsame. intros HV. apply Hn. by right. }
              rewrite Hrc'', Hh, holders_cons. rewrite decide_True by (by apply Hat).
           unfold x1. cbn [refcount set_refcount]. lia.
        -- destruct (decide (q = q0)) as [->|Hqq].
           ++ rewrite Hy0 in Hq. injection Hq as <-.
              destruct (Hret q0 x') as (x'' & Hx'' & Ex'' & _ & Hsame & Hrc'').
              { unfold h1. rewrite lookup_insert_ne by done. by rewrite lookup_insert_eq. }
              rewrite decide_False in Hrc'' by done.
              specialize (Hsame Hq0V).
              exists x''. split; [done|]. split.
              { rewrite Ex'', Hsame. rewrite Ex. by destruct y0. }
              split.
              { intros _. unfold cache_entries at 1. rewrite Hsame.
                fold (cache_entries x'). done. }
              split; [intros Hn; exfalso; apply Hn; left|].
              rewrite Hrc'', Ex. done.
           ++ destruct (Hret q x) as (x'' & Hx'' & Ex'' & Hin & Hsame & Hrc'').
              { unfold h1. by rewrite !lookup_insert_ne. }
              rewrite decide_False in Hrc'' by done.
              exists x''. split; [done|]. split; [done|]. split.
              { intros [?|HV]%elem_of_cons; [done|]. by apply Hin. }
              split; [|done].
              intros Hn. apply Hsame. intros HV. apply Hn. by right.
Qed.

(** X21.  A connection [c] that retires takes itself out of the caches of
    peers that it has cached itself, and of no other: whenever the call
    returns, the cache of any context outside the cache of [c] is left
    exactly as it is, even if it holds [c], and no cache has gained an
    entry.  When the cache of [c] holds no context twice, its entries are
    live, and [c] has more references than the visited peers hold, the
    call returns and does this: every visited peer has lost the first
    occurrence of [c] in its cache, the reference count of [c] has gone
    down by the number of visited peers that held it, and nothing else has
    changed.  The visited peers are the entries of the cache of [c], with
    one exception: if [c] caches itself, the loop takes [c] out of its own
    cache while it walks it, and the entry right behind [c] is passed
    over; that peer keeps [c] in its cache. *)
Theorem remove_myself_only_from_cached_peers (fuel : nat) (c : nat)
    (h : gmap nat fd_ctx) (xc : fd_ctx) :
  h !! c = Some xc ->
  bounded h ->
  (forall h', remove_myself_from_peer_caches fuel c h = Ok h' ->
     forall q x', h' !! q = Some x' ->
       exists x, h !! q = Some x /\
                 (q ∉ cache_entries xc -> ctx_peers x' = ctx_peers x) /\
                 (forall e, e ∈ cache_entries x' -> e ∈ cache_entries x)) /\
  (NoDup (cache_entries xc) ->
   Forall (fun q => is_Some (h !! q)) (cache_entries xc) ->
   Z.of_nat (holders h c (visited c (cache_entries xc))) < refcount xc ->
   exists h',
     remove_myself_from_peer_caches fuel c h = Ok h' /\
     retired c (visited c (cache_entries xc)) h h').
Proof.
  intros Hc Hb. split.
  - intros h' H. unfold remove_myself_from_peer_caches, remove_from_all_peers in H.
    rewrite (proj2 (deref_Ok _ _ _) Hc) in H. cbn [mbind outcome_bind] in H.
    apply (remove_from_all_peers_loop_caches_shrink fuel (cache_entries xc) c
             (npeers (ctx_peers xc)) 0 h h' Hb); [|done].
    intros xc' Hxc'. rewrite Hc in Hxc'. by injection Hxc' as <-.
  - intros Hnd Hlive Hrc.
    unfold remove_myself_from_peer_caches, remove_from_all_peers.
    rewrite (proj2 (deref_Ok _ _ _) Hc). cbn [mbind outcome_bind].
    pose proof (bounded_lookup _ _ _ Hb Hc) as [Hle Hlenp].
    apply (remove_from_all_peers_loop_visits fuel c (npeers (ctx_peers xc)) 0 h xc);
      try done.
    rewrite drop_0. unfold cache_entries. rewrite length_take. lia.
Qed.

(** * Serving "unlisten" *)

Lemma send_fds_eq (sendmsg_ok erase : bool) (elems : list nat) (st : state) :
  Forall (fun e => is_Some (st_heap st !! e)) elems ->
  (length elems <= MAX_DESC_PER_MESSAGE)%nat ->
  send_fds sendmsg_ok elems erase st =
    Ok (length (scan_fds (st_heap st) elems), handed_over sendmsg_ok erase elems st).
Proof.
  intros Hlive Hlen. unfold send_fds, handed_over.
  rewrite (send_fds_scan_spec _ elems 0 _ Hlive) by (simpl; lia).
  cbn [mbind outcome_bind sc_uids sc_fds sc_kept app].
  destruct (scan_fds (st_heap st) elems) as [|f fds]; [done|].
  cbn [length Nat.eqb]. by destruct sendmsg_ok.
Qed.

Lemma scan_kept_idem (h : gmap nat fd_ctx) (l : list nat) :
  scan_fds h (scan_kept h l) = [] /\ scan_kept h (scan_kept h l) = scan_kept h l.
Proof.
  unfold scan_fds, scan_kept. induction l as [|e l [IH1 IH2]]; [done|].
  destruct (decide (idle h e)) as [Hi|Hi].
  - rewrite (filter_cons_False (fun e => ~ idle h e)) by (intros Hn; by apply Hn). done.
  - rewrite (filter_cons_True (fun e => ~ idle h e)) by done.
    rewrite (filter_cons_False (idle h)) by done.
    rewrite (filter_cons_True (fun e => ~ idle h e)) by done.
    split; [done|]. by rewrite IH2.
Qed.

Lemma handed_over_fields (sendmsg_ok erase : bool) (elems : list nat) (st : state) :
  let st' := handed_over sendmsg_ok erase elems st in
  st_heap st' = st_heap st /\
  peer_sockets st' = (if erase then scan_kept (st_heap st) elems else peer_sockets st) /\
  server_sockets st' = server_sockets st /\
  ctrl_socket_conn_fd st' = ctrl_socket_conn_fd st /\
  decay_mode st' = decay_mode st.
Proof.
  unfold handed_over.
  destruct (scan_fds (st_heap st) elems), erase, sendmsg_ok; cbn; done.
Qed.

(** The [do ... while] loop over an index of at most 256 connections: one
    round hands over the idle ones, and a second round, if there is one,
    finds nothing to send. *)
Lemma bulk_send_eq (k : nat) (ok : nat -> bool) (st : state) :
  Forall (fun e => is_Some (st_heap st !! e)) (peer_sockets st) ->
  (length (peer_sockets st) <= MAX_DESC_PER_MESSAGE)%nat ->
  bulk_send (S (length (peer_sockets st))) k ok st =
    Ok (handed_over (ok k) true (peer_sockets st) st).
Proof.
  intros Hlive Hlen. cbn [bulk_send]. rewrite send_fds_eq by done.
  cbn [mbind outcome_bind].
  destruct (handed_over_fields (ok k) true (peer_sockets st) st) as (Eh & Ep & _).
  set (st1 := handed_over (ok k) true (peer_sockets st) st) in *.
  destruct (scan_fds (st_heap st) (peer_sockets st)) as [|f fds] eqn:Efds; [done|].
  cbn [length Nat.eqb negb andb].
  destruct (bool_decide (peer_sockets st1 = [])) eqn:Eb; [done|].
  cbn [negb].
  assert (peer_sockets st <> []) as Hne
    by (intros E0; rewrite E0 in Efds; discriminate).
  destruct (peer_sockets st) as [|e0 l0] eqn:El; [done|]. cbn [length bulk_send].
  assert (Forall (fun e => is_Some (st_heap st1 !! e)) (peer_sockets st1)) as Hlive1.
  { rewrite Eh, Ep. unfold scan_kept. apply Forall_forall. intros e He.
    apply list_elem_of_filter in He as [_ He].
    eapply Forall_forall in Hlive; [exact Hlive|done]. }
  assert (length (peer_sockets st1) <= MAX_DESC_PER_MESSAGE)%nat as Hlen1.
  { rewrite Ep. unfold scan_kept.
    pose proof (length_filter (fun e => ~ idle (st_heap st) e) (e0 :: l0)). lia. }
  rewrite send_fds_eq by done.
  destruct (scan_kept_idem (st_heap st) (e0 :: l0)) as [E1 E2].
  rewrite Eh, Ep, E1. cbn [mbind outcome_bind length Nat.eqb negb andb].
  f_equal. unfold handed_over at 1. rewrite ?Eh, ?Ep, ?E1, ?E2.
  rewrite <- Ep. by destruct st1.
Qed.

Lemma strncmp_unlisten (rest : list byte) :
  strncmp_eq (take 32 (str_unlisten ++ rest)) str_unlisten 8 = Ok true.
Proof. cbn. by destruct (take 24 rest). Qed.

(** X22.  An "unlisten" command on a listening instance with at most 256
    identified peers, answered successfully: every listener is closed,
    "unlistening" is written back, every identified peer with an empty
    buffer is handed over in one "desc" message and leaves the UID index,
    the peers with buffered bytes stay indexed, the instance decays and the
    batch of epoll events is abandoned.  The descriptors handed over are
    closed here only if [sendmsg] succeeded. *)
Theorem unlisten_hands_over_idle_peers (ev : event) (st : state) (rest : list byte) :
  ev_read ev = rd_data (str_unlisten ++ rest) ->
  ev_write_ok ev = true ->
  Forall (fun p => is_Some (st_heap st !! p)) (server_sockets st) ->
  Forall (fun e => is_Some (st_heap st !! e)) (peer_sockets st) ->
  (length (peer_sockets st) <= MAX_DESC_PER_MESSAGE)%nat ->
  let h := st_heap st in
  let fds := scan_fds h (peer_sockets st) in
  exists st',
    ctrl_command_event ev st = Ok (st', true) /\
    decay_mode st' = true /\
    st_heap st' = h /\
    peer_sockets st' = scan_kept h (peer_sockets st) /\
    total_sockets st' =
      total_sockets st - Z.of_nat (length (server_sockets st))
      - (if ev_sendmsg_ok ev 0%nat then Z.of_nat (length fds) else 0) /\
    trace st' =
      trace st ++ flat_map (close_calls h) (server_sockets st) ++
      [sys_write_ctrl (ctrl_socket_conn_fd st) str_unlistening] ++
      match fds with
      | [] => []
      | _ :: _ =>
          sys_sendmsg (ctrl_socket_conn_fd st)
            (take (length fds) (scan_uids h (peer_sockets st))) fds ::
          (if ev_sendmsg_ok ev 0%nat
           then flat_map (fun f => [sys_epoll_del f; sys_close f]) fds else [])
      end.
Proof.
  intros Hread Hw Hsrv Hlive Hlen h fds. unfold ctrl_command_event.
  rewrite Hread.
  assert (exists b data', take 32 (str_unlisten ++ rest) = b :: data') as (b & data' & Edata)
    by (simpl; eauto).
  pose proof (strncmp_unlisten rest) as Hs. rewrite Edata in Hs |- *. rewrite Hs.
  cbn [mbind outcome_bind]. unfold close_servers.
  rewrite (close_servers_loop _ st Hsrv). cbn [mbind outcome_bind]. rewrite Hw. cbn [negb].
  set (st2 := emit _ (with_total_sockets _ _)).
  assert (st_heap st2 = h /\ peer_sockets st2 = peer_sockets st) as [Eh2 Ep2] by done.
  rewrite bulk_send_eq by (rewrite ?Eh2, ?Ep2; done).
  cbn [mbind outcome_bind]. eexists. split; [reflexivity|].
  unfold handed_over. rewrite Eh2, Ep2. fold h fds.
  destruct fds as [|f fds'] eqn:Efds.
  - cbn. rewrite <- ?app_assoc. repeat split; try done.
    destruct (ev_sendmsg_ok ev 0%nat); lia.
  - destruct (ev_sendmsg_ok ev 0%nat); cbn; rewrite <- ?app_assoc;
      repeat split; try done; lia.
Qed.

(** * A size field that stops the parse loop from advancing *)

(** X23.  An identified connection sends the size field 0xFFFFFFFC, a port
    and a destination uid that is neither cached nor indexed.  As an [int]
    the size is -4, so both size checks pass, the message is dropped, and
    [buf_head] advances by [in_msg_size + 4 = 0]: the parse loop examines
    the same eight bytes again and again and never ends, whatever the
    number of rounds it is given. *)
Theorem size_fffffffc_spins (sz : Z) (fuel : nat) (c : nat) (st : state) (x : fd_ctx)
    (port destuid : Z) (sendmsg_ok : bool) :
  0 <= sz ->
  8 <= FDCTX_CLIENT_BUFSIZE sz ->
  st_heap st !! c = Some x ->
  decay_mode st = false ->
  faf_uid x <> -1 ->
  buf_len x = 0 ->
  Z.of_nat (length (buf x)) = FDCTX_CLIENT_BUFSIZE sz ->
  0 <= destuid <= 65535 ->
  find (st_heap st) (ctx_peers x) destuid = Ok None ->
  peer_sockets_find destuid st = Ok None ->
  peer_event sz fuel c (rd_data (htonl 4294967292 ++ htons port ++ htons destuid))
    sendmsg_ok st = OutOfFuel.
Proof.
  intros Hsz Hcap Hx Hd Hu Hbl Hlen HU Hf Hi.
  set (data := htonl 4294967292 ++ htons port ++ htons destuid).
  assert (length data = 8%nat) as Hld by done.
  unfold peer_event. rewrite (proj2 (deref_Ok _ _ _) Hx). cbn [mbind outcome_bind].
  rewrite Hd, Hbl. cbn [andb]. rewrite Z.sub_0_r.
  rewrite (proj2 (Z.ltb_ge _ _)) by lia.
  rewrite take_ge by lia.
  assert (exists d0 data', data = d0 :: data') as (d0 & data' & Edata)
    by (by eexists _, _).
  rewrite Edata. cbv iota. rewrite <- Edata.
  assert (store (buf x) 0 data = Ok (data ++ drop 8 (buf x))) as ->.
  { unfold store. rewrite Hld. cbn [andb Z.leb Z.compare].
    rewrite (proj2 (Z.leb_le _ _)) by lia. cbn [Z.to_nat take app Nat.add]. done. }
  cbn [mbind outcome_bind]. rewrite Hld. change (0 + Z.of_nat 8) with 8.
  set (b := data ++ drop 8 (buf x)).
  set (x' := set_buf_len 8 (set_buf b x)).
  set (st1 := with_heap (<[c := x']> (st_heap st)) st).
  assert (st_heap st1 !! c = Some x') as Hx' by (unfold st1; simpl; by rewrite lookup_insert_eq).
  assert (st_heap st1 = upd c b 8 (st_heap st)) as Eh1
    by (unfold st1; simpl; by rewrite (upd_insert_same c b 8 _ x Hx)).
  assert (forward fuel c 0 (4294967292 - 4294967296) st1 = Ok st1) as Hfw.
  { apply (forward_unknown fuel c st1 x' 0 _ (htons destuid)); [done| | |].
    - replace (0 + 6) with (Z.of_nat (length (@nil byte)) + Z.of_nat 6) by done.
      rewrite (load_frame (buf x') [] data (drop 8 (buf x)) 6 2 eq_refl) by (rewrite Hld; lia).
      unfold data. rewrite (app_assoc (htonl _)).
      rewrite drop_app_length' by done. by rewrite take_ge by done.
    - rewrite ntohs_htons. unfold to_uint16. rewrite Z.mod_small by lia.
      rewrite Eh1. unfold find. cbn [x' ctx_peers set_buf_len set_buf].
      rewrite find_loop_upd. exact Hf.
    - rewrite ntohs_htons. unfold to_uint16. rewrite Z.mod_small by lia.
      unfold peer_sockets_find. rewrite Eh1. cbn [st1 peer_sockets with_heap].
      rewrite set_find_upd. exact Hi. }
  assert (forall n, parse_loop sz fuel n c 0 st1 = OutOfFuel) as Hspin.
  { induction n as [|n IH]; [done|].
    destruct (size_check sz fuel n c st1 x' [] (htons port ++ htons destuid ++ drop 8 (buf x))
                4294967292 Hsz Hx') as (_ & _ & Hneg).
    - unfold x', b, data. cbn [buf set_buf_len set_buf app]. by rewrite <- !app_assoc.
    - lia.
    - cbn [x' buf_len set_buf_len length Z.of_nat]. lia.
    - cbn [x' buf_len set_buf_len]. lia.
    - change (Z.of_nat (length (@nil byte))) with 0 in Hneg.
      rewrite Hneg by lia. cbv zeta.
      cbn [x' faf_uid set_buf_len set_buf]. rewrite (proj2 (Z.eqb_neq _ _) Hu).
      cbn [st1 decay_mode with_heap]. rewrite Hd. fold st1. rewrite Hfw.
      cbn [mbind outcome_bind]. exact IH. }
  rewrite Hspin. done.
Qed.

(** * The writes of the Router *)

Lemma index_holder_above (h : gmap nat fd_ctx) (s : list nat) (key : Z) :
  forall lo, index_sorted h lo s -> key <= lo -> index_holder h s key = None.
Proof.
  induction s as [|e s IH]; intros lo Hs Hk; [done|].
  cbn in Hs |- *. destruct Hs as (x & -> & Hlo & Hs).
  rewrite (proj2 (Z.eqb_neq _ _)) by lia. apply (IH (faf_uid x)); [done|lia].
Qed.

Lemma set_find_index_holder (h : gmap nat fd_ctx) (s : list nat) (key : Z) :
  forall lo, index_sorted h lo s -> set_find h key s = Ok (index_holder h s key).
Proof.
  induction s as [|e s IH]; intros lo Hs; [done|].
  cbn in Hs |- *. destruct Hs as (x & Hx & Hlo & Hs).
  rewrite (proj2 (deref_Ok _ _ _) Hx), Hx. cbn [mbind outcome_bind].
  destruct (faf_uid x <? key) eqn:E1.
  - apply Z.ltb_lt in E1. rewrite (proj2 (Z.eqb_neq _ _)) by lia. by eapply IH.
  - apply Z.ltb_ge in E1. destruct (key <? faf_uid x) eqn:E2.
    + apply Z.ltb_lt in E2. rewrite (proj2 (Z.eqb_neq _ _)) by lia.
      by rewrite (index_holder_above h s key (faf_uid x)) by (done || lia).
    + apply Z.ltb_ge in E2. by rewrite (proj2 (Z.eqb_eq _ _)) by lia.
Qed.

Lemma index_holder_Some (h : gmap nat fd_ctx) (s : list nat) (key : Z) (p : nat) :
  index_holder h s key = Some p ->
  p ∈ s /\ exists y, h !! p = Some y /\ faf_uid y = key.
Proof.
  induction s as [|e s IH]; intros H; [done|]. cbn in H.
  destruct (h !! e) as [y|] eqn:Ee.
  - destruct (faf_uid y =? key) eqn:E.
    + injection H as <-. apply Z.eqb_eq in E. split; [left|eauto].
    + destruct (IH H) as [? ?]. split; [by right|done].
  - destruct (IH H) as [? ?]. split; [by right|done].
Qed.

(** Where the elements of the index carry the same uids, the same
    connections hold them. *)
Lemma index_holder_ext (h h' : gmap nat fd_ctx) (s : list nat) (key : Z) :
  (forall e, e ∈ s -> faf_uid <$> h' !! e = faf_uid <$> h !! e) ->
  index_holder h' s key = index_holder h s key.
Proof.
  induction s as [|e s IH]; intros H; [done|]. cbn.
  pose proof (H e ltac:(left)) as He.
  rewrite IH by (intros e' He'; apply H; by right).
  destruct (h' !! e) as [y'|], (h !! e) as [y|]; cbn in He; try done.
  by injection He as ->.
Qed.

Lemma keeps_data_live (h h' : gmap nat fd_ctx) (q : nat) :
  keeps_data h h' -> is_Some (h' !! q) -> is_Some (h !! q).
Proof. intros Hk [x' Hx']. destruct (Hk q x' Hx') as (x & Hx & _). eauto. Qed.

Lemma keeps_data_uid (h h' : gmap nat fd_ctx) (s : list nat) :
  keeps_data h h' ->
  Forall (fun e => is_Some (h' !! e)) s ->
  forall e, e ∈ s ->
    faf_uid <$> h' !! e = faf_uid <$> h !! e /\ fd <$> h' !! e = fd <$> h !! e.
Proof.
  intros Hk Hl e He.
  destruct (proj1 (Forall_forall _ _) Hl e He) as [x' Hx'].
  destruct (Hk e x' Hx') as (x & Hx & Ex). rewrite Hx', Hx. cbn.
  rewrite Ex. by destruct x.
Qed.

Lemma index_sorted_keeps (h h' : gmap nat fd_ctx) (s : list nat) :
  keeps_data h h' ->
  Forall (fun e => is_Some (h' !! e)) s ->
  forall lo, index_sorted h lo s -> index_sorted h' lo s.
Proof.
  intros Hk. induction s as [|e s IH]; intros Hl lo Hs; [done|].
  cbn in Hs |- *. destruct Hs as (x & Hx & Hlo & Hs).
  apply Forall_cons in Hl as [[x' Hx'] Hl].
  destruct (keeps_data_fields _ _ _ _ _ Hk Hx Hx') as (Eu & _).
  exists x'. rewrite Eu. split; [done|]. split; [done|]. by apply IH.
Qed.

Lemma routing_table_keeps (h h' : gmap nat fd_ctx) (s : list nat) (key : Z) :
  keeps_data h h' ->
  Forall (fun e => is_Some (h' !! e)) s ->
  routing_table h' s key = routing_table h s key.
Proof.
  intros Hk Hl. unfold routing_table.
  rewrite (index_holder_ext h h' s key)
    by (intros e He; by apply (keeps_data_uid h h' s Hk Hl)).
  destruct (index_holder h s key) as [p|] eqn:E; [|done].
  apply index_holder_Some in E as [Hp _].
  by apply (keeps_data_uid h h' s Hk Hl).
Qed.

Lemma find_loop_in (h : gmap nat fd_ctx) (a : list nat) (uid : Z) (n : nat) :
  forall i p, find_loop h a uid i n = Ok (Some p) -> p ∈ take n (drop i a).
Proof.
  induction n as [|n IH]; intros i p H; cbn in H; [done|].
  apply bind_Ok in H as (q & Hq & H). apply slot_Ok in Hq.
  apply bind_Ok in H as (y & Hy & H).
  rewrite (drop_S _ _ _ Hq). cbn.
  destruct (faf_uid y =? uid).
  - injection H as <-. left.
  - right. by apply IH.
Qed.

Lemma find_in (h : gmap nat fd_ctx) (x : fd_ctx) (uid : Z) (p : nat) :
  find h (ctx_peers x) uid = Ok (Some p) -> p ∈ cache_entries x.
Proof.
  unfold find. intros H. apply find_loop_in in H. by rewrite drop_0 in H.
Qed.

Lemma cache_coherent_keeps (h h' : gmap nat fd_ctx) (s : list nat) (x x' : fd_ctx) :
  keeps_data h h' ->
  Forall (fun e => is_Some (h' !! e)) s ->
  cache_coherent h s x ->
  (forall q, q ∈ cache_entries x' ->
     q ∈ cache_entries x \/
     exists y, h !! q = Some y /\ index_holder h s (faf_uid y) = Some q) ->
  cache_coherent h' s x'.
Proof.
  intros Hk Hl Hc Hsub. apply Forall_forall. intros q Hq y' Hy' Hu.
  destruct (Hk q y' Hy') as (y & Hy & Ey).
  assert (faf_uid y' = faf_uid y) as Eu by (rewrite Ey; by destruct y).
  rewrite (index_holder_ext h h' s)
    by (intros e He; by apply (keeps_data_uid h h' s Hk Hl)).
  rewrite Eu in Hu |- *.
  destruct (Hsub q Hq) as [Hold|(y0 & Hy0 & Hh)].
  - by apply (proj1 (Forall_forall _ _) Hc q Hold y).
  - rewrite Hy in Hy0. by injection Hy0 as <-.
Qed.

Lemma route_frame_message (fuel : nat) (c : nat) (F : list byte) (st s1 : state)
    (x : fd_ctx) (lo : Z) :
  route_frame fuel c F st = Ok s1 ->
  st_heap st !! c = Some x ->
  faf_uid x <> -1 ->
  decay_mode st = false ->
  frame_dest F <> -1 ->
  bounded (st_heap st) ->
  index_sorted (st_heap st) lo (peer_sockets st) ->
  cache_coherent (st_heap st) (peer_sockets st) x ->
  Forall (fun e => is_Some (st_heap s1 !! e)) (peer_sockets st) ->
  trace s1 = trace st ++ message_writes (routing_table (st_heap st) (peer_sockets st)) [F] /\
  peer_sockets s1 = peer_sockets st /\
  decay_mode s1 = false /\
  keeps_data (st_heap st) (st_heap s1) /\
  bounded (st_heap s1) /\
  exists x1,
    st_heap s1 !! c = Some x1 /\ faf_uid x1 = faf_uid x /\
    cache_coherent (st_heap s1) (peer_sockets s1) x1.
Proof.
  intros H Hx Hu Hd Hdest Hb Hs Hc Hl.
  unfold route_frame in H.
  rewrite (proj2 (deref_Ok _ _ _) Hx) in H. cbn [mbind outcome_bind] in H.
  rewrite (proj2 (Z.eqb_neq _ _) Hu), Hd in H.
  apply bind_Ok in H as ([r st1] & Hlk & H).
  unfold message_writes. cbn [flat_map]. rewrite app_nil_r.
  fold (frame_dest F) in Hlk.
  unfold lookup_peer in Hlk.
  rewrite (proj2 (deref_Ok _ _ _) Hx) in Hlk. cbn [mbind outcome_bind] in Hlk.
  apply bind_Ok in Hlk as (rf & Hf & Hlk).
  destruct rf as [peer|].
  - (* found in the cache *)
    injection Hlk as <- <-.
    destruct (find_sound _ _ _ _ Hf) as (y & Hy & Ey).
    pose proof (find_in _ _ _ _ Hf) as Hin.
    pose proof (proj1 (Forall_forall _ _) Hc peer Hin y Hy ltac:(lia)) as Hh.
    rewrite Ey in Hh.
    rewrite (proj2 (deref_Ok _ _ _) Hx), (proj2 (deref_Ok _ _ _) Hy) in H.
    cbn [mbind outcome_bind] in H. injection H as <-.
    unfold routing_table. rewrite Hh, Hy. cbn.
    split; [done|]. split; [done|]. split; [done|].
    split; [apply keeps_data_refl|]. split; [done|].
    exists x. done.
  - (* not in the cache: the index *)
    apply bind_Ok in Hlk as (it & Hfind & Hlk).
    unfold peer_sockets_find in Hfind.
    rewrite (set_find_index_holder _ _ _ lo Hs) in Hfind. injection Hfind as <-.
    destruct (index_holder (st_heap st) (peer_sockets st) (frame_dest F)) as [peer|] eqn:Eh.
    + apply bind_Ok in Hlk as (st' & Hadd & Hlk). injection Hlk as <- <-.
      unfold on_heap in Hadd. apply bind_Ok in Hadd as (h' & Hadd & Hst').
      injection Hst' as <-.
      pose proof (add_keeps_data _ _ _ _ _ Hadd) as Hk.
      pose proof (add_bounded _ _ _ _ _ Hadd Hb) as Hb'.
      destruct (index_holder_Some _ _ _ _ Eh) as (_ & y & Hy & Ey).
      cbn [st_heap with_heap] in H.
      apply bind_Ok in H as (x1 & Hx1 & H). apply deref_Ok in Hx1.
      apply bind_Ok in H as (y1 & Hy1 & H). apply deref_Ok in Hy1.
      injection H as <-.
      destruct (keeps_data_fields _ _ _ _ _ Hk Hy Hy1) as (_ & _ & _ & Efd).
      destruct (keeps_data_fields _ _ _ _ _ Hk Hx Hx1) as (Eu1 & _).
      unfold routing_table. rewrite Eh, Hy. cbn. rewrite Efd.
      cbn in Hl.
      split; [done|]. split; [done|]. split; [done|].
      split; [done|]. split; [done|].
      exists x1. split; [done|]. split; [done|].
      apply (cache_coherent_keeps (st_heap st) h' _ x); try done.
      destruct (add_entries _ _ _ _ _ x Hadd Hx (bounded_lookup _ _ _ Hb Hx))
        as (x1' & Hx1' & Ec).
      rewrite Hx1 in Hx1'. injection Hx1' as <-.
      intros q Hq. rewrite Ec in Hq.
      apply elem_of_cons in Hq as [->|Hq].
      * right. exists y. rewrite Ey. done.
      * left. destruct (_ <? _)%nat; [done|].
        rewrite removelast_firstn_len in Hq.
        eapply elem_of_sublist; [exact Hq|apply sublist_take].
    + injection Hlk as <- <-. injection H as <-.
      unfold routing_table. rewrite Eh. cbn. rewrite app_nil_r.
      split; [done|]. split; [done|]. split; [done|].
      split; [apply keeps_data_refl|]. split; [done|].
      exists x. done.
Qed.

Lemma route_frame_keeps (fuel : nat) (c : nat) (F : list byte) (st s1 : state)
    (x : fd_ctx) :
  route_frame fuel c F st = Ok s1 ->
  st_heap st !! c = Some x ->
  faf_uid x <> -1 ->
  keeps_data (st_heap st) (st_heap s1) /\ peer_sockets s1 = peer_sockets st.
Proof.
  intros H Hx Hu. unfold route_frame in H.
  rewrite (proj2 (deref_Ok _ _ _) Hx) in H. cbn [mbind outcome_bind] in H.
  rewrite (proj2 (Z.eqb_neq _ _) Hu) in H.
  destruct (decay_mode st).
  { injection H as <-. split; [apply keeps_data_refl|done]. }
  apply bind_Ok in H as ([r st1] & Hlk & H).
  destruct (lookup_peer_keeps_data _ _ _ _ _ _ Hlk) as (Hk & Hp & _).
  destruct r as [peer|].
  - apply bind_Ok in H as (? & _ & H). apply bind_Ok in H as (? & _ & H).
    injection H as <-. done.
  - injection H as <-. done.
Qed.

Lemma route_frames_keeps (fuel : nat) (c : nat) (frames : list (list byte)) :
  forall (st r : state) (x : fd_ctx),
    route_frames fuel c frames st = Ok r ->
    st_heap st !! c = Some x ->
    faf_uid x <> -1 ->
    keeps_data (st_heap st) (st_heap r) /\ peer_sockets r = peer_sockets st.
Proof.
  unfold route_frames.
  induction frames as [|F Fs IH]; intros st r x H Hx Hu; cbn [for_each] in H.
  { injection H as <-. split; [apply keeps_data_refl|done]. }
  apply bind_Ok in H as (s1 & H1 & H).
  destruct (route_frame_keeps _ _ _ _ _ _ H1 Hx Hu) as (Hk1 & Hp1).
  destruct Fs as [|F2 Fs'].
  { cbn in H. injection H as <-. done. }
  assert (exists x1, st_heap s1 !! c = Some x1) as [x1 Hx1].
  { pose proof H as H'. cbn [for_each] in H'. apply bind_Ok in H' as (s2 & H2 & _).
    unfold route_frame in H2. apply bind_Ok in H2 as (x1 & Hx1 & _).
    apply deref_Ok in Hx1. eauto. }
  destruct (keeps_data_fields _ _ _ _ _ Hk1 Hx Hx1) as (Eu & _).
  destruct (IH s1 r x1 H Hx1 ltac:(by rewrite Eu)) as (Hk & Hp).
  split; [by eapply keeps_data_trans|]. by rewrite Hp.
Qed.

Lemma Forall_live_keeps (h h' : gmap nat fd_ctx) (s : list nat) :
  keeps_data h h' ->
  Forall (fun e => is_Some (h' !! e)) s -> Forall (fun e => is_Some (h !! e)) s.
Proof.
  intros Hk Hl. eapply Forall_impl; [exact Hl|]. intros e. by apply keeps_data_live.
Qed.

Lemma message_writes_app (table : Z -> option Z) (l1 l2 : list (list byte)) :
  message_writes table (l1 ++ l2) = message_writes table l1 ++ message_writes table l2.
Proof. unfold message_writes. by rewrite flat_map_app. Qed.

Lemma message_writes_ext (t1 t2 : Z -> option Z) (l : list (list byte)) :
  (forall uid, t1 uid = t2 uid) -> message_writes t1 l = message_writes t2 l.
Proof.
  intros H. induction l as [|F l IH]; [done|].
  change (F :: l) with ([F] ++ l). rewrite !message_writes_app, IH. f_equal.
  unfold message_writes. cbn. by rewrite H.
Qed.

(** The frames of an identified connection, outside decay: every frame
    whose destuid is held is written to its holder. *)
Lemma route_frames_messages (fuel : nat) (c : nat) (lo : Z) (frames : list (list byte)) :
  forall (st r : state) (x : fd_ctx),
    route_frames fuel c frames st = Ok r ->
    st_heap st !! c = Some x ->
    faf_uid x <> -1 ->
    decay_mode st = false ->
    Forall (fun F => frame_dest F <> -1) frames ->
    bounded (st_heap st) ->
    index_sorted (st_heap st) lo (peer_sockets st) ->
    cache_coherent (st_heap st) (peer_sockets st) x ->
    Forall (fun e => is_Some (st_heap r !! e)) (peer_sockets st) ->
    trace r =
      trace st ++ message_writes (routing_table (st_heap st) (peer_sockets st)) frames.
Proof.
  induction frames as [|F Fs IH]; intros st r x H Hx Hu Hd Hdest Hb Hs Hc Hl.
  { unfold route_frames in H. cbn in H. injection H as <-. cbn. by rewrite app_nil_r. }
  unfold route_frames in H. cbn [for_each] in H.
  apply bind_Ok in H as (s1 & H1 & H). fold (route_frames fuel c Fs s1) in H.
  apply Forall_cons in Hdest as [HdF Hdest].
  destruct (route_frame_keeps _ _ _ _ _ _ H1 Hx Hu) as (Hk1 & Hp1).
  destruct Fs as [|F2 Fs'] eqn:EFs.
  { unfold route_frames in H. cbn in H. injection H as <-.
    by destruct (route_frame_message fuel c F st s1 x lo H1 Hx Hu Hd HdF Hb Hs Hc Hl). }
  rewrite <- EFs in *.
  assert (exists x1, st_heap s1 !! c = Some x1) as [x1 Hx1].
  { pose proof H as H'. rewrite EFs in H'. unfold route_frames in H'.
    cbn [for_each] in H'. apply bind_Ok in H' as (s2 & H2 & _).
    unfold route_frame in H2. apply bind_Ok in H2 as (x1 & Hx1 & _).
    apply deref_Ok in Hx1. eauto. }
  destruct (keeps_data_fields _ _ _ _ _ Hk1 Hx Hx1) as (Eu & _).
  destruct (route_frames_keeps fuel c Fs s1 r x1 H Hx1 ltac:(by rewrite Eu)) as (Hkr & Hpr).
  assert (Forall (fun e => is_Some (st_heap s1 !! e)) (peer_sockets st)) as Hl1
    by by eapply Forall_live_keeps.
  destruct (route_frame_message fuel c F st s1 x lo H1 Hx Hu Hd HdF Hb Hs Hc Hl1)
    as (Ht1 & _ & Hd1 & _ & Hb1 & x1' & Hx1' & _ & Hc1).
  rewrite Hx1 in Hx1'. injection Hx1' as <-.
  rewrite Hp1 in Hc1.
  rewrite (IH s1 r x1 H Hx1 ltac:(by rewrite Eu) Hd1 Hdest Hb1); try done.
  - rewrite Ht1, <- app_assoc. f_equal.
    change (F :: Fs) with ([F] ++ Fs). rewrite message_writes_app. f_equal.
    rewrite Hp1. apply message_writes_ext. intros uid.
    by apply routing_table_keeps.
  - rewrite Hp1. by eapply index_sorted_keeps.
  - by rewrite Hp1.
  - by rewrite Hp1.
Qed.

Lemma route_frame_announce (fuel : nat) (c : nat) (A : list byte) (st s1 : state)
    (x : fd_ctx) (lo : Z) :
  route_frame fuel c A st = Ok s1 ->
  st_heap st !! c = Some x ->
  faf_uid x = -1 ->
  c ∉ peer_sockets st ->
  c ∉ cache_entries x ->
  lo < frame_uid A ->
  bounded (st_heap st) ->
  index_sorted (st_heap st) lo (peer_sockets st) ->
  cache_coherent (st_heap st) (peer_sockets st) x ->
  st_heap s1 = <[c := set_faf_uid (frame_uid A) x]> (st_heap st) /\
  trace s1 = trace st /\
  decay_mode s1 = decay_mode st /\
  bounded (st_heap s1) /\
  index_sorted (st_heap s1) lo (peer_sockets s1) /\
  (forall uid,
     routing_table (st_heap s1) (peer_sockets s1) uid =
       announce_table (routing_table (st_heap st) (peer_sockets st)) (frame_uid A) (fd x) uid) /\
  cache_coherent (st_heap s1) (peer_sockets s1) (set_faf_uid (frame_uid A) x).
Proof.
  intros H Hx Hu Hnot Hself Hlo Hb Hs Hc.
  unfold route_frame in H.
  rewrite (proj2 (deref_Ok _ _ _) Hx) in H. cbn [mbind outcome_bind] in H.
  rewrite (proj2 (Z.eqb_eq _ _) Hu) in H. fold (frame_uid A) in H.
  set (U := frame_uid A) in *. set (x1 := set_faf_uid U x) in *.
  set (h := st_heap st) in *. set (h1 := <[c := x1]> h) in *.
  set (s := peer_sockets st) in *.
  assert (forall e, e ∈ s -> h1 !! e = h !! e) as Hagree.
  { intros e He. unfold h1. rewrite lookup_insert_ne; [done|]. by intros ->. }
  assert (h1 !! c = Some x1) as Hx1 by (unfold h1; by rewrite lookup_insert_eq).
  pose proof (index_sorted_ext h h1 s lo Hagree Hs) as Hs1.
  destruct (set_insert_sorted h1 c x1 s Hx1 lo Hs1 Hlo) as (s' & Hins & Hs' & Hfind).
  unfold peer_sockets_insert in H. cbn [st_heap with_heap peer_sockets] in H.
  rewrite (proj2 (deref_Ok _ _ _) Hx1) in H. cbn [mbind outcome_bind] in H.
  fold s in H. change (faf_uid x1) with U in Hins, Hfind.
  change (faf_uid x1) with U in H. rewrite Hins in H.
  cbn [mbind outcome_bind] in H. injection H as <-.
  cbn [st_heap with_heap with_peer_sockets peer_sockets trace decay_mode].
  assert (forall uid,
            index_holder h1 s' uid =
              if decide (uid = U) then
                match index_holder h s uid with
                | None => Some c
                | r => r
                end
              else index_holder h s uid) as Hform.
  { intros uid. specialize (Hfind uid).
    rewrite (set_find_index_holder h1 s' uid lo Hs') in Hfind.
    rewrite (set_find_index_holder h1 s uid lo Hs1) in Hfind.
    rewrite (index_holder_ext h h1 s uid) in Hfind
      by (intros e He; by rewrite Hagree).
    destruct (decide (uid = U)); [|by injection Hfind].
    destruct (index_holder h s uid); by injection Hfind. }
  split; [done|]. split; [done|]. split; [done|].
  split. { apply bounded_insert; [|done]. exact (bounded_lookup _ _ _ Hb Hx). }
  split; [done|]. split.
  - intros uid. unfold routing_table, announce_table. rewrite Hform.
    destruct (index_holder h s uid) as [p|] eqn:Eh.
    + apply index_holder_Some in Eh as (Hp & y & Hy & _).
      assert ((if decide (uid = U) then Some p else Some p) = Some p) as ->
        by by destruct (decide _).
      rewrite Hagree, Hy by done. done.
    + destruct (decide (uid = U)) as [->|Hne].
      * rewrite Hx1, Z.eqb_refl. done.
      * by rewrite (proj2 (Z.eqb_neq _ _)).
  - apply Forall_forall. intros q Hq y Hy Huy.
    change (cache_entries x1) with (cache_entries x) in Hq.
    assert (q <> c) as Hqc by (by intros ->).
    unfold h1 in Hy. rewrite lookup_insert_ne in Hy by done.
    pose proof (proj1 (Forall_forall _ _) Hc q Hq y Hy Huy) as Hh.
    rewrite Hform, Hh. by destruct (decide _).
Qed.

Lemma frame_uid_range (sz : Z) (F : list byte) :
  well_formed sz 2 F -> 0 <= frame_uid F <= 65535.
Proof.
  intros HF. apply well_formed_length in HF as (size & Hl & Hm & _).
  apply ntohs_range. rewrite length_take, length_drop. lia.
Qed.

Lemma frame_dest_range (sz : Z) (F : list byte) :
  well_formed sz 4 F -> 0 <= frame_dest F <= 65535.
Proof.
  intros HF. apply well_formed_length in HF as (size & Hl & Hm & _).
  apply ntohs_range. rewrite length_take, length_drop. lia.
Qed.

(** The trace of the Router on the frames of one connection. *)
Lemma route_frames_writes (sz : Z) (fuel : nat) (c : nat) (lo : Z)
    (frames : list (list byte)) (st r : state) (x : fd_ctx) :
  route_frames fuel c frames st = Ok r ->
  st_heap st !! c = Some x ->
  decay_mode st = false ->
  well_formed_stream sz (faf_uid x =? -1) frames ->
  lo < 0 ->
  bounded (st_heap st) ->
  index_sorted (st_heap st) lo (peer_sockets st) ->
  cache_coherent (st_heap st) (peer_sockets st) x ->
  (faf_uid x = -1 -> (c ∉ peer_sockets st) /\ (c ∉ cache_entries x)) ->
  Forall (fun e => is_Some (st_heap r !! e)) (peer_sockets r) ->
  trace r = trace st ++ expected_writes st x frames.
Proof.
  intros H Hx Hd Hwf Hlo Hb Hs Hc Hfresh Hl. unfold expected_writes.
  destruct (faf_uid x =? -1) eqn:Eu.
  - apply Z.eqb_eq in Eu. destruct (Hfresh Eu) as [Hnot Hself].
    destruct frames as [|A Fs].
    { unfold route_frames in H. cbn in H. injection H as <-. by rewrite app_nil_r. }
    destruct Hwf as [HA HFs].
    unfold route_frames in H. cbn [for_each] in H.
    apply bind_Ok in H as (s1 & H1 & H). fold (route_frames fuel c Fs s1) in H.
    pose proof (frame_uid_range sz A HA) as HU.
    destruct (route_frame_announce fuel c A st s1 x lo H1 Hx Eu Hnot Hself
                ltac:(lia) Hb Hs Hc) as (Hh1 & Ht1 & Hd1 & Hb1 & Hs1 & Htab & Hc1).
    assert (st_heap s1 !! c = Some (set_faf_uid (frame_uid A) x)) as Hx1
      by (rewrite Hh1; by rewrite lookup_insert_eq).
    assert (faf_uid (set_faf_uid (frame_uid A) x) <> -1) as Hu1 by (cbn; lia).
    destruct (route_frames_keeps fuel c Fs s1 r _ H Hx1 Hu1) as (_ & Hpr).
    rewrite (route_frames_messages fuel c lo Fs s1 r _ H Hx1 Hu1); try done.
    + rewrite Ht1. f_equal. by apply message_writes_ext.
    + by rewrite Hd1.
    + eapply Forall_impl; [exact HFs|]. intros F HF.
      pose proof (frame_dest_range sz F HF). lia.
    + by rewrite <- Hpr.
  - apply Z.eqb_neq in Eu.
    destruct (route_frames_keeps fuel c frames st r x H Hx Eu) as (_ & Hpr).
    apply (route_frames_messages fuel c lo frames st r x); try done.
    + assert (Forall (well_formed sz 4) frames) as HFs.
      { destruct frames as [|F Fs]; [done|]. destruct Hwf. by constructor. }
      eapply Forall_impl; [exact HFs|]. intros F HF.
      pose proof (frame_dest_range sz F HF). lia.
    + by rewrite <- Hpr.
Qed.

(** ** Auxiliary facts *)

Lemma refcount_after_add (h : gmap nat fd_ctx) (owner p q : nat) (P : proxy_peers)
    (y : fd_ctx) :
  h !! q = Some y ->
  exists y',
    alter (set_ctx_peers P) owner (alter incr_refcount p h) !! q = Some y' /\
    refcount y' = refcount y + (if decide (q = p) then 1 else 0).
Proof.
  intros Hy.
  assert (exists y1, alter incr_refcount p h !! q = Some y1 /\
                     refcount y1 = refcount y + (if decide (q = p) then 1 else 0))
    as (y1 & Hy1 & E1).
  { destruct (decide (q = p)) as [->|Hne].
    - rewrite lookup_alter_eq, Hy. cbn. eauto.
    - rewrite lookup_alter_ne, Hy by done. eexists. split; [done|lia]. }
  destruct (decide (q = owner)) as [->|Hne].
  - rewrite lookup_alter_eq, Hy1. cbn. eauto.
  - rewrite lookup_alter_ne, Hy1 by done. eauto.
Qed.

Lemma count_occ_front (p q : nat) (l : list nat) :
  count_occ Nat.eq_dec (p :: l) q =
    ((if decide (q = p) then 1 else 0) + count_occ Nat.eq_dec l q)%nat.
Proof.
  destruct (decide (q = p)) as [->|Hne].
  - by rewrite count_occ_cons_eq.
  - by rewrite count_occ_cons_neq by congruence.
Qed.

Lemma count_occ_last (t q : nat) (l : list nat) :
  last l = Some t ->
  count_occ Nat.eq_dec l q =
    (count_occ Nat.eq_dec (removelast l) q + (if decide (q = t) then 1 else 0))%nat.
Proof.
  intros H. apply last_Some in H as [l' ->].
  rewrite removelast_last, count_occ_app. f_equal.
  rewrite count_occ_front. cbn. lia.
Qed.

Lemma find_total (h : gmap nat fd_ctx) (x : fd_ctx) (uid : Z) :
  cache_ok x ->
  Forall (fun q => is_Some (h !! q)) (cache_entries x) ->
  exists r, find h (ctx_peers x) uid = Ok r.
Proof.
  intros [Hle Hlen] Hlive. unfold find.
  rewrite find_loop_first; [eauto|lia|]. by rewrite drop_0.
Qed.

Lemma route_frame_message_bounded (fuel : nat) (c : nat) (F : list byte) (st s1 : state)
    (x : fd_ctx) :
  route_frame fuel c F st = Ok s1 ->
  st_heap st !! c = Some x -> faf_uid x <> -1 ->
  bounded (st_heap st) -> bounded (st_heap s1).
Proof.
  intros H Hx Hu Hb. unfold route_frame in H.
  rewrite (proj2 (deref_Ok _ _ _) Hx) in H. cbn [mbind outcome_bind] in H.
  rewrite (proj2 (Z.eqb_neq _ _) Hu) in H.
  destruct (decay_mode st); [by injection H as <-|].
  apply bind_Ok in H as ([r st1] & Hlk & H).
  pose proof (lookup_peer_bounded _ _ _ _ _ _ Hlk Hb) as Hb1.
  destruct r as [peer|].
  - apply bind_Ok in H as (? & _ & H). apply bind_Ok in H as (? & _ & H).
    by injection H as <-.
  - by injection H as <-.
Qed.

Lemma set_insert_elem (h : gmap nat fd_ctx) (key : Z) (c : nat) (s : list nat) :
  forall s' e, set_insert h key c s = Ok s' -> e ∈ s' -> e = c \/ e ∈ s.
Proof.
  induction s as [|a s IH]; intros s' e H He; cbn in H.
  - injection H as <-. apply list_elem_of_singleton in He. by left.
  - apply bind_Ok in H as (x & _ & H).
    destruct (faf_uid x <? key).
    + apply bind_Ok in H as (s'' & Hs'' & H). injection H as <-.
      apply elem_of_cons in He as [->|He]; [right; left|].
      destruct (IH s'' e Hs'' He); [by left|right; by right].
    + destruct (key <? faf_uid x); injection H as <-; [|by right].
      apply elem_of_cons in He as [->|He]; [by left|by right].
Qed.

(** * Destruction under sound reference counts *)

Lemma refs_to_cons (E : nat -> list nat) (o : nat) (L : list nat) (q : nat) :
  refs_to E (o :: L) q = (count_occ Nat.eq_dec (E o) q + refs_to E L q)%nat.
Proof. done. Qed.

Lemma refs_to_ext (E E' : nat -> list nat) (L : list nat) (q : nat) :
  (forall o, o ∈ L -> E' o = E o) -> refs_to E' L q = refs_to E L q.
Proof.
  induction L as [|o L IH]; intros H; [done|].
  rewrite !refs_to_cons, H by left. rewrite IH; [done|].
  intros o' Ho'. apply H. by right.
Qed.

Lemma refs_to_ge (E : nat -> list nat) (L : list nat) (o q : nat) :
  o ∈ L -> (count_occ Nat.eq_dec (E o) q <= refs_to E L q)%nat.
Proof.
  induction L as [|a L IH]; intros H; [by apply elem_of_nil in H|].
  rewrite refs_to_cons. apply elem_of_cons in H as [->|H]; [lia|].
  specialize (IH H). lia.
Qed.

Lemma refs_to_set_cache (E : nat -> list nat) (L : list nat) (p q : nat) (l : list nat) :
  NoDup L -> p ∈ L ->
  (refs_to (set_cache p l E) L q + count_occ Nat.eq_dec (E p) q =
   refs_to E L q + count_occ Nat.eq_dec l q)%nat.
Proof.
  induction L as [|a L IH]; intros Hnd Hp; [by apply elem_of_nil in Hp|].
  apply NoDup_cons in Hnd as [Ha Hnd]. rewrite !refs_to_cons.
  destruct (decide (a = p)) as [->|Hne].
  - unfold set_cache at 1. rewrite decide_True by done.
    rewrite (refs_to_ext E (set_cache p l E) L q); [lia|].
    intros o Ho. unfold set_cache. rewrite decide_False; [done|]. by intros ->.
  - apply elem_of_cons in Hp as [?|Hp]; [done|].
    specialize (IH Hnd Hp). unfold set_cache at 1. rewrite decide_False by done. lia.
Qed.

Lemma count_occ_pos (l : list nat) (q : nat) :
  q ∈ l <-> (0 < count_occ Nat.eq_dec l q)%nat.
Proof. rewrite list_elem_of_In. apply count_occ_In. Qed.

Lemma refs_to_zero (E : nat -> list nat) (L : list nat) (o q : nat) :
  refs_to E L q = O -> o ∈ L -> q ∉ E o.
Proof.
  intros H Ho Hq. pose proof (refs_to_ge E L o q Ho) as Hge.
  apply count_occ_pos in Hq. lia.
Qed.

Lemma pending_mono (h h' : gmap nat fd_ctx) (L : list nat) :
  (forall o, o ∈ L -> nonzero h' o = true -> nonzero h o = true) ->
  (pending h' L <= pending h L)%nat.
Proof.
  induction L as [|a L IH]; intros H; [done|]. cbn.
  specialize (IH ltac:(intros o Ho; apply H; by right)).
  pose proof (H a ltac:(left)) as Ha.
  destruct (nonzero h' a); [rewrite Ha by done|destruct (nonzero h a)]; lia.
Qed.

Lemma pending_drop (h h' : gmap nat fd_ctx) (L : list nat) (e : nat) :
  NoDup L -> e ∈ L ->
  nonzero h e = true -> nonzero h' e = false ->
  (forall o, o ∈ L -> o <> e -> nonzero h' o = true -> nonzero h o = true) ->
  (S (pending h' L) <= pending h L)%nat.
Proof.
  induction L as [|a L IH]; intros Hnd He Hn Hn' H; [by apply elem_of_nil in He|].
  apply NoDup_cons in Hnd as [Ha Hnd]. cbn.
  destruct (decide (a = e)) as [->|Hne].
  - rewrite Hn, Hn'.
    assert (pending h' L <= pending h L)%nat; [|lia].
    apply pending_mono. intros o Ho. apply H; [by right|]. by intros ->.
  - apply elem_of_cons in He as [?|He]; [done|].
    specialize (IH Hnd He Hn Hn' ltac:(intros o Ho; apply H; by right)).
    pose proof (H a ltac:(left) Hne) as Ha'.
    destruct (nonzero h' a); [rewrite Ha' by done|destruct (nonzero h a)]; lia.
Qed.

Lemma pending_le_length (h : gmap nat fd_ctx) (L : list nat) :
  (pending h L <= length L)%nat.
Proof. induction L as [|a L IH]; cbn; [done|]. destruct (nonzero h a); lia. Qed.

Lemma nonzero_true (h : gmap nat fd_ctx) (o : nat) :
  nonzero h o = true <-> exists y, h !! o = Some y /\ refcount y <> 0.
Proof.
  unfold nonzero. destruct (h !! o) as [y|]; [|split; [done|by intros (? & ? & _)]].
  rewrite negb_true_iff, Z.eqb_neq. split; [eauto|]. by intros (? & [= <-] & ?).
Qed.

Lemma bounded_decr (h : gmap nat fd_ctx) (e : nat) (y : fd_ctx) (v : Z) :
  h !! e = Some y -> bounded h -> bounded (<[e := set_refcount v y]> h).
Proof.
  intros Hy Hb. apply bounded_insert; [|done]. exact (bounded_lookup _ _ _ Hb Hy).
Qed.

(** Releasing one reference that [owner] holds on [e]. *)
Lemma release_sound (L P : list nat) (E : nat -> list nat) (h : gmap nat fd_ctx)
    (owner e : nat) (l' : list nat) :
  NoDup L ->
  sound L P E h ->
  owner ∈ L ->
  (forall q, count_occ Nat.eq_dec (E owner) q =
             (count_occ Nat.eq_dec l' q + (if decide (q = e) then 1 else 0))%nat) ->
  (forall yo, h !! owner = Some yo -> refcount yo = 0 \/ owner ∈ P) ->
  exists y,
    h !! e = Some y /\
    1 + (if decide (e ∈ P) then 1 else 0) <= refcount y /\
    sound L P (set_cache owner l' E) (<[e := set_refcount (refcount y - 1) y]> h).
Proof.
  intros Hnd (Hdom & Hclosed & Hcount & Hphys) Ho Hl' Hspecial.
  assert (e ∈ E owner) as He.
  { apply count_occ_pos. rewrite Hl', decide_True by done. lia. }
  destruct (Hclosed owner e Ho He) as [y Hy].
  exists y. split; [done|].
  pose proof (Hcount e y Hy) as Hce.
  pose proof (refs_to_ge E L owner e Ho) as Hge.
  pose proof (Hl' e) as Hle. rewrite decide_True in Hle by done.
  split; [lia|].
  assert (1 <= refcount y) as Hpos by (destruct (decide (e ∈ P)); lia).
  assert (forall q, is_Some (h !! q) ->
                    is_Some (<[e := set_refcount (refcount y - 1) y]> h !! q)) as Hlive.
  { intros q Hq. destruct (decide (q = e)) as [->|Hne].
    - rewrite lookup_insert_eq. eauto.
    - by rewrite lookup_insert_ne. }
  split; [|split; [|split]].
  - intros o [yo Hyo]. apply Hdom.
    destruct (decide (o = e)) as [->|Hne]; [eauto|].
    rewrite lookup_insert_ne in Hyo by done. eauto.
  - intros o e' Ho' He'. apply Hlive. unfold set_cache in He'.
    destruct (decide (o = owner)) as [->|Hne]; [|by eapply Hclosed].
    apply (Hclosed owner); [done|].
    apply count_occ_pos. apply count_occ_pos in He'. rewrite Hl'. lia.
  - intros q y1 Hy1.
    pose proof (refs_to_set_cache E L owner q l' Hnd Ho) as Hup.
    pose proof (Hl' q) as Hlq.
    destruct (decide (q = e)) as [->|Hne].
    + rewrite lookup_insert_eq in Hy1. injection Hy1 as <-.
      cbn [refcount set_refcount]. lia.
    + rewrite lookup_insert_ne in Hy1 by done.
      pose proof (Hcount q y1 Hy1). lia.
  - intros o y1 Hy1 Hnz HoP. unfold set_cache.
    destruct (decide (o = owner)) as [->|Hne].
    + exfalso. destruct (decide (owner = e)) as [->|Hoe].
      * destruct (Hspecial y Hy) as [Hz|?]; [|done].
        rewrite decide_False in Hce by done. lia.
      * rewrite lookup_insert_ne in Hy1 by done.
        destruct (Hspecial y1 Hy1); done.
    + destruct (decide (o = e)) as [->|Hoe].
      * rewrite lookup_insert_eq in Hy1. injection Hy1 as <-.
        change (cache_entries (set_refcount (refcount y - 1) y)) with (cache_entries y).
        apply (Hphys e y Hy); [lia|done].
      * rewrite lookup_insert_ne in Hy1 by done. by apply (Hphys o y1).
Qed.

Lemma survive_refl (P : list nat) (p : nat) (E : nat -> list nat) (h : gmap nat fd_ctx) :
  survive P p E E h h.
Proof. intros q y Hy _ _. exists y. repeat split; try done. by destruct y. Qed.

Lemma survive_trans (P : list nat) (p : nat) (E E1 E2 : nat -> list nat)
    (h h1 h2 : gmap nat fd_ctx) :
  survive P p E E1 h h1 -> survive P p E1 E2 h1 h2 -> survive P p E E2 h h2.
Proof.
  intros H1 H2 q y Hy Hq Hsp.
  destruct (H1 q y Hy Hq Hsp) as (y1 & Hy1 & Hz1 & HE1 & Ey1).
  destruct (H2 q y1 Hy1 Hq) as (y2 & Hy2 & Hz2 & HE2 & Ey2).
  { destruct Hsp as [Hz|?]; [left|by right]. by rewrite (Hz1 Hz). }
  exists y2. split; [done|]. split; [|split].
  - intros Hz. rewrite <- (Hz1 Hz). apply Hz2. by rewrite (Hz1 Hz).
  - by rewrite HE2.
  - rewrite Ey2, Ey1. by destruct y.
Qed.

Lemma survive_release (P : list nat) (p e : nat) (E : nat -> list nat) (l : list nat)
    (h : gmap nat fd_ctx) (y : fd_ctx) (v : Z) :
  h !! e = Some y -> 1 <= refcount y ->
  survive P p E (set_cache p l E) h (<[e := set_refcount v y]> h).
Proof.
  intros Hy Hpos q yq Hyq Hq _. unfold set_cache. rewrite decide_False by done.
  destruct (decide (q = e)) as [->|Hne].
  - rewrite lookup_insert_eq. rewrite Hy in Hyq. injection Hyq as <-.
    eexists. split; [done|]. split; [lia|]. done.
  - rewrite lookup_insert_ne by done. exists yq. repeat split; try done. by destruct yq.
Qed.

(** Destroying a context whose count has reached 0 completes, destroys
    only contexts whose count reaches 0, and leaves the counts sound. *)
Lemma deallocate_fdctx_sound (L P : list nat) (fuel : nat) :
  NoDup L ->
  forall (p : nat) (h : gmap nat fd_ctx) (E : nat -> list nat) (xp : fd_ctx),
    h !! p = Some xp -> refcount xp = 0 -> E p = cache_entries xp ->
    bounded h -> sound L P E h -> (pending h L < fuel)%nat ->
    exists h' E',
      deallocate_fdctx fuel p h = Ok h' /\
      sound L P E' h' /\ h' !! p = None /\
      survive P p E E' h h' /\ (pending h' L <= pending h L)%nat /\ bounded h'.
Proof.
  intros Hnd.
  induction fuel as [|f IH]; intros p h E xp Hp Hz HE Hb Hs Hfuel; [lia|].
  cbn [deallocate_fdctx]. rewrite (proj2 (deref_Ok _ _ _) Hp). cbn [mbind outcome_bind].
  pose proof (bounded_lookup _ _ _ Hb Hp) as [Hle Hlenp].
  set (n := npeers (ctx_peers xp)).
  assert (length (cache_entries xp) = n) as HlenE.
  { unfold cache_entries. rewrite length_take. fold n. lia. }
  set (body := fun (h : gmap nat fd_ctx) (i : nat) =>
                 x' ← deref h p;
                 q ← slot (peers (ctx_peers x')) i;
                 unref (deallocate_fdctx f) q h).
  assert (forall k i h1 E1,
            (i + k = n)%nat -> h1 !! p = Some xp ->
            E1 p = drop i (cache_entries xp) ->
            bounded h1 -> sound L P E1 h1 -> (pending h1 L <= f)%nat ->
            exists h' E',
              for_each body h1 (seq i k) = Ok h' /\
              sound L P E' h' /\ h' !! p = Some xp /\ E' p = [] /\
              survive P p E1 E' h1 h' /\ (pending h' L <= pending h1 L)%nat /\
              bounded h') as Hloop.
  { induction k as [|k IHk]; intros i h1 E1 Hik Hp1 HE1 Hb1 Hs1 Hpend.
    { exists h1, E1. split; [done|]. split; [done|]. split; [done|].
      split; [rewrite HE1; apply drop_ge; lia|].
      split; [apply survive_refl|]. done. }
    destruct (lookup_lt_is_Some_2 (cache_entries xp) i ltac:(lia)) as [e He].
    assert (peers (ctx_peers xp) !! i = Some e) as Hslot.
    { unfold cache_entries in He. rewrite lookup_take_lt in He by (fold n; lia). done. }
    change (for_each body h1 (seq i (S k)))
      with (body h1 i ≫= fun s' => for_each body s' (seq (S i) k)).
    assert (body h1 i = unref (deallocate_fdctx f) e h1) as ->.
    { unfold body. rewrite (proj2 (deref_Ok _ _ _) Hp1). cbn [mbind outcome_bind].
      by rewrite (proj2 (slot_Ok _ _ _) Hslot). }
    rewrite (drop_S _ _ _ He) in HE1.
    pose proof Hs1 as (Hdom1 & _ & _ & Hphys1).
    destruct (release_sound L P E1 h1 p e (drop (S i) (cache_entries xp)) Hnd Hs1)
      as (y & Hy & Hrc & Hs2).
    { apply Hdom1. eauto. }
    { intros q. rewrite HE1, count_occ_front. lia. }
    { intros yo Hyo. rewrite Hp1 in Hyo. injection Hyo as <-. by left. }
    assert (1 <= refcount y) as Hpos by (destruct (decide (e ∈ P)); lia).
    assert (e <> p) as Hep.
    { intros ->. rewrite Hp1 in Hy. injection Hy as <-. lia. }
    set (E2 := set_cache p (drop (S i) (cache_entries xp)) E1) in *.
    set (h2 := <[e := set_refcount (refcount y - 1) y]> h1) in *.
    assert (h2 !! p = Some xp) as Hp2 by (unfold h2; by rewrite lookup_insert_ne).
    assert (E2 p = drop (S i) (cache_entries xp)) as HE2
      by (unfold E2, set_cache; by rewrite decide_True).
    pose proof (bounded_decr h1 e y (refcount y - 1) Hy Hb1) as Hb2. fold h2 in Hb2.
    pose proof (survive_release P p e E1 (drop (S i) (cache_entries xp)) h1 y
                  (refcount y - 1) Hy Hpos) as Hsv12. fold E2 h2 in Hsv12.
    unfold unref. rewrite (proj2 (deref_Ok _ _ _) Hy). cbn [mbind outcome_bind].
    fold h2.
    destruct (refcount y - 1 =? 0) eqn:Ez.
    - (* the count of [e] has reached 0 *)
      apply Z.eqb_eq in Ez.
      assert (e ∉ P) as HeP by (intros HeP; rewrite decide_True in Hrc by done; lia).
      assert (S (pending h2 L) <= pending h1 L)%nat as Hdrop.
      { apply (pending_drop h1 h2 L e Hnd).
        - apply Hdom1. eauto.
        - apply nonzero_true. exists y. split; [done|lia].
        - unfold nonzero, h2. rewrite lookup_insert_eq. cbn.
          by rewrite (proj2 (Z.eqb_eq _ _) Ez).
        - intros o _ Hoe. unfold nonzero, h2. by rewrite lookup_insert_ne. }
      destruct (IH e h2 E2 (set_refcount (refcount y - 1) y))
        as (h3 & E3 & Hd & Hs3 & He3 & Hsv23 & Hpend3 & Hb3); try done.
      { unfold h2. by rewrite lookup_insert_eq. }
      { unfold E2, set_cache. rewrite decide_False by done.
        apply (Hphys1 e y Hy); [lia|done]. }
      { lia. }
      rewrite Hd.
      destruct (Hsv23 p xp Hp2 ltac:(done) ltac:(by left))
        as (xp' & Hp3 & Hsame & HE3 & _).
      rewrite (Hsame Hz) in Hp3.
      destruct (IHk (S i) h3 E3) as (h' & E' & Hfe & Hs' & Hp' & HE' & Hsv' & Hpend' & Hb');
        try done; [lia|by rewrite HE3|lia|].
      exists h', E'. split; [done|]. split; [done|]. split; [done|]. split; [done|].
      split; [|split; [lia|done]].
      eapply survive_trans; [|exact Hsv'].
      intros q yq Hyq Hq Hsp.
      assert (q <> e) as Hqe.
      { intros ->. rewrite Hy in Hyq. injection Hyq as <-.
        destruct Hsp; [lia|done]. }
      destruct (Hsv23 q yq) as (y3 & Hy3 & Hz3 & HE3q & Ey3); try done.
      { unfold h2. by rewrite lookup_insert_ne. }
      exists y3. split; [done|]. split; [done|]. split; [|done].
      rewrite HE3q. unfold E2, set_cache. by rewrite decide_False.
    - (* [e] keeps a reference *)
      apply Z.eqb_neq in Ez.
      assert (pending h2 L <= pending h1 L)%nat as Hmono.
      { apply pending_mono. intros o _ Ho. apply nonzero_true.
        apply nonzero_true in Ho as (yo & Hyo & Hnz). unfold h2 in Hyo.
        destruct (decide (o = e)) as [->|Hoe].
        - exists y. split; [done|lia].
        - rewrite lookup_insert_ne in Hyo by done. eauto. }
      destruct (IHk (S i) h2 E2) as (h' & E' & Hfe & Hs' & Hp' & HE' & Hsv' & Hpend' & Hb');
        try done; [lia|lia|].
      exists h', E'. split; [done|]. split; [done|]. split; [done|]. split; [done|].
      split; [|split; [lia|done]].
      by eapply survive_trans. }
  destruct (Hloop n 0%nat h E) as (h1 & E1 & Hfe & Hs1 & Hp1 & HE1 & Hsv & Hpend & Hb1);
    try done; [lia|].
  rewrite Hfe. cbn [mbind outcome_bind].
  rewrite (proj2 (deref_Ok _ _ _) Hp1). cbn [mbind outcome_bind].
  exists (delete p h1), E1. split; [done|].
  destruct Hs1 as (Hdom1 & Hclosed1 & Hcount1 & Hphys1).
  assert (refs_to E1 L p = O) as Hnoref.
  { pose proof (Hcount1 p xp Hp1). destruct (decide (p ∈ P)); lia. }
  split; [|split; [apply lookup_delete_eq|split; [|split]]].
  - split; [|split; [|split]].
    + intros o [yo Hyo]. apply Hdom1. apply lookup_delete_Some in Hyo as [_ ?]. eauto.
    + intros o e Ho He. destruct (Hclosed1 o e Ho He) as [ye Hye].
      exists ye. rewrite lookup_delete_ne; [done|].
      intros <-. by apply (refs_to_zero E1 L o p Hnoref Ho).
    + intros q yq Hyq. apply lookup_delete_Some in Hyq as [_ Hyq]. by apply Hcount1.
    + intros o yo Hyo. apply lookup_delete_Some in Hyo as [_ Hyo]. by apply Hphys1.
  - intros q yq Hyq Hq Hsp. destruct (Hsv q yq Hyq Hq Hsp) as (y' & Hy' & ?).
    exists y'. by rewrite lookup_delete_ne.
  - etransitivity; [|exact Hpend]. apply pending_mono.
    intros o _ Ho. apply nonzero_true. apply nonzero_true in Ho as (yo & Hyo & Hnz).
    apply lookup_delete_Some in Hyo as [_ Hyo]. eauto.
  - intros q yq Hyq. apply lookup_delete_Some in Hyq as [_ Hyq]. by apply (Hb1 q).
Qed.

(** Taking a reference on [p] for the cache of [owner], one of [P]. *)
Lemma acquire_sound (L P : list nat) (E : nat -> list nat) (h : gmap nat fd_ctx)
    (owner p : nat) (pp : proxy_peers) :
  NoDup L ->
  sound L P E h ->
  owner ∈ P -> p ∈ P ->
  is_Some (h !! owner) -> is_Some (h !! p) ->
  sound L P (set_cache owner (p :: E owner) E)
    (alter (set_ctx_peers pp) owner (alter incr_refcount p h)) /\
  (pending (alter (set_ctx_peers pp) owner (alter incr_refcount p h)) L <= pending h L)%nat.
Proof.
  intros Hnd (Hdom & Hclosed & Hcount & Hphys) HoP HpP Ho Hp.
  set (h' := alter (set_ctx_peers pp) owner (alter incr_refcount p h)).
  assert (forall q y', h' !! q = Some y' ->
            exists y, h !! q = Some y /\
                      refcount y' = refcount y + (if decide (q = p) then 1 else 0) /\
                      (q <> owner -> cache_entries y' = cache_entries y)) as Hback.
  { intros q y' Hy'. unfold h' in Hy'.
    destruct (decide (q = owner)) as [->|Hqo].
    - rewrite lookup_alter_eq in Hy'.
      destruct (decide (owner = p)) as [->|Hop].
      + rewrite lookup_alter_eq in Hy'. destruct (h !! p) as [y|]; [|done].
        injection Hy' as <-. exists y. cbn. done.
      + rewrite lookup_alter_ne in Hy' by done. destruct (h !! owner) as [y|]; [|done].
        injection Hy' as <-. exists y. cbn.
        split; [done|]. split; [lia|done].
    - rewrite lookup_alter_ne in Hy' by done.
      destruct (decide (q = p)) as [->|Hqp].
      + rewrite lookup_alter_eq in Hy'. destruct (h !! p) as [y|]; [|done].
        injection Hy' as <-. exists y. done.
      + rewrite lookup_alter_ne in Hy' by done. exists y'.
        split; [done|]. split; [lia|done]. }
  assert (forall q, is_Some (h !! q) -> is_Some (h' !! q)) as Hfwd.
  { intros q [y Hy]. unfold h'.
    destruct (decide (q = owner)) as [->|Hqo].
    - rewrite lookup_alter_eq.
      destruct (decide (owner = p)) as [->|Hop].
      + rewrite lookup_alter_eq, Hy. eauto.
      + rewrite lookup_alter_ne, Hy by done. eauto.
    - rewrite lookup_alter_ne by done.
      destruct (decide (q = p)) as [->|Hqp].
      + rewrite lookup_alter_eq, Hy. eauto.
      + rewrite lookup_alter_ne by done. eauto. }
  assert (owner ∈ L) as HoL by by apply Hdom.
  split.
  - split; [|split; [|split]].
    + intros o [y' Hy']. destruct (Hback o y' Hy') as (y & Hy & _). apply Hdom. eauto.
    + intros o e HoL' He. apply Hfwd. unfold set_cache in He.
      destruct (decide (o = owner)) as [->|Hne]; [|by eapply Hclosed].
      apply elem_of_cons in He as [->|He]; [done|]. by eapply Hclosed.
    + intros q y' Hy'. destruct (Hback q y' Hy') as (y & Hy & Erc & _).
      pose proof (refs_to_set_cache E L owner q (p :: E owner) Hnd HoL) as Hup.
      rewrite count_occ_front in Hup.
      pose proof (Hcount q y Hy) as Hc. rewrite Erc.
      assert (Z.of_nat (if decide (q = p) then 1 else 0)%nat =
              (if decide (q = p) then 1 else 0)) as Hif by (by destruct (decide _)).
      set (dz := if decide (q = p) then 1 else 0) in *.
      set (dn := (if decide (q = p) then 1 else 0)%nat) in *.
      set (pz := if decide (q ∈ P) then 1 else 0) in *. lia.
    + intros o y' Hy' Hnz HoP'. unfold set_cache.
      assert (o <> owner) as Hne by (by intros ->).
      assert (o <> p) as Hnp by (by intros ->).
      rewrite decide_False by done.
      destruct (Hback o y' Hy') as (y & Hy & Erc & Ece).
      rewrite decide_False in Erc by done. rewrite (Ece Hne).
      apply (Hphys o y Hy); [lia|done].
  - apply pending_mono. intros o _ Hnz. apply nonzero_true.
    apply nonzero_true in Hnz as (y' & Hy' & Hnz).
    destruct (Hback o y' Hy') as (y & Hy & Erc & _).
    exists y. split; [done|].
    destruct (decide (o = p)) as [->|Hne]; [|lia].
    pose proof (Hcount p y Hy) as Hc. rewrite decide_True in Hc by done. lia.
Qed.

(** [add] under sound counts: it completes, whatever the eviction
    destroys, and leaves the counts sound. *)
Lemma add_sound (L P : list nat) (E : nat -> list nat) (fuel : nat) (c p : nat)
    (h : gmap nat fd_ctx) (x : fd_ctx) :
  NoDup L ->
  h !! c = Some x ->
  E c = cache_entries x ->
  c ∈ P -> p ∈ P ->
  is_Some (h !! p) ->
  bounded h ->
  sound L P E h ->
  (pending h L < fuel)%nat ->
  exists h' E' x',
    add (S fuel) c p h = Ok h' /\
    sound L P E' h' /\
    h' !! c = Some x' /\
    E' c = cache_entries x' /\
    (forall q, q ∈ P -> is_Some (h !! q) -> is_Some (h' !! q)) /\
    (pending h' L <= pending h L)%nat.
Proof.
  intros Hnd Hx HE HcP HpP Hp Hb Hs Hfuel.
  pose proof (bounded_lookup _ _ _ Hb Hx) as Hok. pose proof Hok as [Hle Hlen].
  pose proof Hs as (Hdom & Hclosed & Hcount & Hphys).
  destruct (decide (npeers (ctx_peers x) < MAX_PEERS)%nat) as [Hlt|Hfull].
  - (* room left *)
    rewrite (add_not_full fuel c p h x Hx Hlt).
    destruct (add_front_post c p h x Hx Hp Hok Hlt) as (h' & Hadd & x' & Hx' & Ec & _ & Eh).
    destruct (acquire_sound L P E h c p (ctx_peers x') Hnd Hs HcP HpP ltac:(eauto) Hp)
      as (Hs' & Hpend).
    rewrite <- Eh in Hs', Hpend.
    exists h', (set_cache c (p :: E c) E), x'.
    split; [done|]. split; [done|]. split; [done|].
    split; [unfold set_cache; rewrite decide_True by done; by rewrite Ec, HE|].
    split; [|done].
    intros q _ [y Hy]. rewrite Eh.
    destruct (refcount_after_add h c p q (ctx_peers x') y Hy) as (y' & Hy' & _). eauto.
  - (* the tail is released first *)
    assert (npeers (ctx_peers x) = MAX_PEERS) as Hn by lia.
    assert (cache_entries x = peers (ctx_peers x)) as Ee.
    { unfold cache_entries. rewrite Hn, <- Hlen. apply firstn_all. }
    destruct (lookup_lt_is_Some_2 (peers (ctx_peers x)) 15 ltac:(unfold MAX_PEERS in *; lia))
      as [t Ht].
    assert (last (cache_entries x) = Some t) as Hlast.
    { rewrite Ee, last_lookup, Hlen. exact Ht. }
    assert (c ∈ L) as HcL by (apply Hdom; eauto).
    destruct (release_sound L P E h c t (removelast (cache_entries x)) Hnd Hs HcL)
      as (yt & Hyt & Hrc & Hs1).
    { intros q. rewrite HE, (count_occ_last t q _ Hlast). done. }
    { intros yo _. by right. }
    assert (1 <= refcount yt) as Hpos by (destruct (decide (t ∈ P)); lia).
    set (E1 := set_cache c (removelast (cache_entries x)) E) in *.
    set (h1 := <[t := set_refcount (refcount yt - 1) yt]> h) in *.
    pose proof (bounded_decr h t yt (refcount yt - 1) Hyt Hb) as Hb1. fold h1 in Hb1.
    assert (pending h1 L <= pending h L)%nat as Hmono.
    { apply pending_mono. intros o _ Ho. apply nonzero_true.
      apply nonzero_true in Ho as (yo & Hyo & Hnz). unfold h1 in Hyo.
      destruct (decide (o = t)) as [->|Hot].
      - exists yt. split; [done|lia].
      - rewrite lookup_insert_ne in Hyo by done. eauto. }
    assert (forall q, is_Some (h !! q) -> is_Some (h1 !! q)) as Hlive1.
    { intros q Hq. unfold h1. destruct (decide (q = t)) as [->|Hne].
      - rewrite lookup_insert_eq. eauto.
      - by rewrite lookup_insert_ne. }
    assert (exists h2 E2,
              unref (deallocate_fdctx fuel) t h = Ok h2 /\
              sound L P E2 h2 /\
              E2 c = removelast (cache_entries x) /\
              (forall q, q ∈ P -> is_Some (h !! q) -> is_Some (h2 !! q)) /\
              (pending h2 L <= pending h L)%nat)
      as (h2 & E2 & Hun & Hs2 & HE2 & Hlive2 & Hpend2).
    { rewrite (unref_cases _ t h yt Hyt). fold h1.
      destruct (refcount yt =? 1) eqn:E1t.
      - apply Z.eqb_eq in E1t.
        assert (t ∉ P) as HtP by (intros HtP; rewrite decide_True in Hrc by done; lia).
        assert (t <> c) as Htc by (intros Htc; apply HtP; by rewrite Htc).
        replace (set_refcount 0 yt) with (set_refcount (refcount yt - 1) yt)
          by (by rewrite E1t).
        fold h1.
        destruct (deallocate_fdctx_sound L P fuel Hnd t h1 E1
                    (set_refcount (refcount yt - 1) yt))
          as (h2 & E2 & Hd & Hs2 & _ & Hsv & Hpend2 & _); try done.
        { unfold h1. by rewrite lookup_insert_eq. }
        { cbn. lia. }
        { unfold E1, set_cache. rewrite decide_False by done.
          apply (Hphys t yt Hyt); [lia|done]. }
        { lia. }
        exists h2, E2. split; [done|]. split; [done|]. split; [|split; [|lia]].
        + destruct (Hsv c x) as (x2 & _ & _ & -> & _); try done.
          * unfold h1. by rewrite lookup_insert_ne.
          * by right.
          * unfold E1, set_cache. by rewrite decide_True.
        + intros q HqP [yq Hyq].
          assert (q <> t) as Hqt by (intros Hqt; apply HtP; by rewrite <- Hqt).
          destruct (Hsv q yq) as (y' & Hy' & _); try done; [|by right].
          unfold h1. by rewrite lookup_insert_ne.
      - exists h1, E1. split; [done|]. split; [done|]. split; [|split; [|done]].
        + unfold E1, set_cache. by rewrite decide_True.
        + intros q _. apply Hlive1. }
    destruct (add_full (Nat.pred fuel) c p t h h2 x Hx Hok Hn Ht) as (h' & Hadd & x' & Hx' & Ec & _ & Eh).
    { destruct fuel as [|fuel']; [lia|]. exact Hun. }
    { apply Hlive2; eauto. }
    { by apply Hlive2. }
    destruct (acquire_sound L P E2 h2 c p (ctx_peers x') Hnd Hs2 HcP HpP)
      as (Hs' & Hpend'); [apply Hlive2; eauto|by apply Hlive2|].
    rewrite <- Eh in Hs', Hpend'.
    exists h', (set_cache c (p :: E2 c) E2), x'.
    split; [destruct fuel as [|fuel']; [lia|exact Hadd]|].
    split; [done|]. split; [done|].
    split; [unfold set_cache; rewrite decide_True by done; by rewrite Ec, HE2|].
    split; [|lia].
    intros q HqP Hq. destruct (Hlive2 q HqP Hq) as [y2 Hy2]. rewrite Eh.
    destruct (refcount_after_add h2 c p q (ctx_peers x') y2 Hy2) as (y' & Hy' & _). eauto.
Qed.

(** One message frame on an identified connection, outside decay, under
    sound counts. *)
Lemma route_frame_sound (L P : list nat) (E : nat -> list nat) (fuel : nat) (c : nat)
    (F : list byte) (st : state) (x : fd_ctx) (lo : Z) :
  NoDup L ->
  st_heap st !! c = Some x ->
  faf_uid x <> -1 ->
  decay_mode st = false ->
  bounded (st_heap st) ->
  index_sorted (st_heap st) lo (peer_sockets st) ->
  sound L P E (st_heap st) ->
  E c = cache_entries x ->
  c ∈ P ->
  (forall e, e ∈ peer_sockets st -> e ∈ P) ->
  (pending (st_heap st) L + 2 <= fuel)%nat ->
  exists s1 E1 x1,
    route_frame fuel c F st = Ok s1 /\
    st_heap s1 !! c = Some x1 /\
    sound L P E1 (st_heap s1) /\
    E1 c = cache_entries x1 /\
    Forall (fun e => is_Some (st_heap s1 !! e)) (peer_sockets st) /\
    (pending (st_heap s1) L <= pending (st_heap st) L)%nat.
Proof.
  intros Hnd Hx Hu Hd Hb Hs Hsound HE HcP HsP Hfuel.
  pose proof (bounded_lookup _ _ _ Hb Hx) as Hok.
  pose proof Hsound as (Hdom & Hclosed & _ & _).
  assert (Forall (fun e => is_Some (st_heap st !! e)) (peer_sockets st)) as Hlive.
  { apply Forall_forall. intros e He. by eapply index_sorted_live. }
  unfold route_frame.
  rewrite (proj2 (deref_Ok _ _ _) Hx). cbn [mbind outcome_bind].
  rewrite (proj2 (Z.eqb_neq _ _) Hu), Hd.
  unfold lookup_peer.
  rewrite (proj2 (deref_Ok _ _ _) Hx). cbn [mbind outcome_bind].
  destruct (find_total (st_heap st) x (ntohs (take 2 (drop 6 F))) Hok) as [rf Hf].
  { apply Forall_forall. intros q Hq. apply (Hclosed c); [apply Hdom; eauto|].
    by rewrite HE. }
  rewrite Hf. cbn [mbind outcome_bind].
  destruct rf as [peer|].
  - destruct (find_sound _ _ _ _ Hf) as (y & Hy & _).
    cbn [mbind outcome_bind].
    rewrite (proj2 (deref_Ok _ _ _) Hx), (proj2 (deref_Ok _ _ _) Hy).
    cbn [mbind outcome_bind]. eexists _, E, x. split; [reflexivity|]. done.
  - unfold peer_sockets_find. rewrite (set_find_index_holder _ _ _ lo Hs).
    cbn [mbind outcome_bind].
    destruct (index_holder _ _ _) as [peer|] eqn:Eh.
    2:{ cbn [mbind outcome_bind]. exists st, E, x. done. }
    destruct (index_holder_Some _ _ _ _ Eh) as (Hps & y & Hy & _).
    destruct fuel as [|[|fuel]]; [lia|lia|].
    destruct (add_sound L P E (S fuel) c peer (st_heap st) x Hnd Hx HE HcP
                (HsP peer Hps) ltac:(eauto) Hb Hsound ltac:(lia))
      as (h' & E' & x' & Hadd & Hs' & Hx' & HE' & Hlive' & Hpend').
    unfold on_heap. rewrite Hadd. cbn [mbind outcome_bind st_heap with_heap].
    destruct (Hlive' peer (HsP peer Hps) ltac:(eauto)) as [y' Hy'].
    rewrite (proj2 (deref_Ok _ _ _) Hx'), (proj2 (deref_Ok _ _ _) Hy').
    cbn [mbind outcome_bind].
    eexists _, E', x'. split; [reflexivity|].
    cbn [st_heap with_heap emit peer_sockets].
    split; [done|]. split; [done|]. split; [done|]. split; [|done].
    apply Forall_forall. intros e He. apply Hlive'; [by apply HsP|].
    by apply (proj1 (Forall_forall _ _) Hlive).
Qed.

Lemma route_frames_sound_messages (L P : list nat) (fuel : nat) (c : nat) (lo : Z)
    (frames : list (list byte)) :
  NoDup L ->
  forall (E : nat -> list nat) (st : state) (x : fd_ctx),
    st_heap st !! c = Some x ->
    faf_uid x <> -1 ->
    decay_mode st = false ->
    bounded (st_heap st) ->
    index_sorted (st_heap st) lo (peer_sockets st) ->
    sound L P E (st_heap st) ->
    E c = cache_entries x ->
    c ∈ P ->
    (forall e, e ∈ peer_sockets st -> e ∈ P) ->
    (pending (st_heap st) L + 2 <= fuel)%nat ->
    exists r,
      route_frames fuel c frames st = Ok r /\
      Forall (fun e => is_Some (st_heap r !! e)) (peer_sockets st).
Proof.
  intros Hnd.
  induction frames as [|F Fs IH]; intros E st x Hx Hu Hd Hb Hs Hsound HE HcP HsP Hfuel.
  { exists st. split; [done|]. apply Forall_forall. intros e He.
    by eapply index_sorted_live. }
  destruct (route_frame_sound L P E fuel c F st x lo) as
    (s1 & E1 & x1 & H1 & Hx1 & Hs1 & HE1 & Hl1 & Hpend1); try done.
  destruct (route_frame_keeps _ _ _ _ _ _ H1 Hx Hu) as (Hk1 & Hp1).
  destruct (keeps_data_fields _ _ _ _ _ Hk1 Hx Hx1) as (Eu & _).
  destruct (IH E1 s1 x1) as (r & Hr & Hl); try done.
  - by rewrite Eu.
  - by rewrite (route_frame_decay_mode _ _ _ _ _ H1).
  - by eapply route_frame_message_bounded.
  - rewrite Hp1. by eapply index_sorted_keeps.
  - by rewrite Hp1.
  - lia.
  - exists r. unfold route_frames in *. cbn [for_each]. rewrite H1.
    cbn [mbind outcome_bind]. split; [done|]. by rewrite Hp1 in Hl.
Qed.

Lemma pending_ext (h h' : gmap nat fd_ctx) (L : list nat) :
  (forall o, nonzero h' o = nonzero h o) -> pending h' L = pending h L.
Proof. intros H. induction L as [|a L IH]; [done|]. cbn. by rewrite H, IH. Qed.

Lemma sound_same_counts (L P : list nat) (E : nat -> list nat) (h : gmap nat fd_ctx)
    (c : nat) (x x' : fd_ctx) :
  h !! c = Some x ->
  refcount x' = refcount x -> cache_entries x' = cache_entries x ->
  sound L P E h ->
  sound L P E (<[c := x']> h) /\ pending (<[c := x']> h) L = pending h L.
Proof.
  intros Hx Erc Ece (Hdom & Hclosed & Hcount & Hphys).
  assert (forall q, is_Some (<[c := x']> h !! q) <-> is_Some (h !! q)) as Hiff.
  { intros q. destruct (decide (q = c)) as [->|Hne].
    - rewrite lookup_insert_eq. split; eauto.
    - by rewrite lookup_insert_ne. }
  split.
  - split; [|split; [|split]].
    + intros o Ho. apply Hdom. by apply Hiff.
    + intros o e Ho He. apply Hiff. by eapply Hclosed.
    + intros q y Hy. destruct (decide (q = c)) as [->|Hne].
      * rewrite lookup_insert_eq in Hy. injection Hy as <-. rewrite Erc. by apply Hcount.
      * rewrite lookup_insert_ne in Hy by done. by apply Hcount.
    + intros o y Hy Hnz HoP. destruct (decide (o = c)) as [->|Hne].
      * rewrite lookup_insert_eq in Hy. injection Hy as <-. rewrite Ece.
        apply (Hphys c x Hx); [by rewrite <- Erc|done].
      * rewrite lookup_insert_ne in Hy by done. by apply (Hphys o y).
  - apply pending_ext. intros a.
    unfold nonzero. destruct (decide (a = c)) as [->|Hne].
    + by rewrite lookup_insert_eq, Hx, Erc.
    + by rewrite lookup_insert_ne.
Qed.

Lemma refs_sound_sound (h : gmap nat fd_ctx) (P : list nat) :
  refs_sound h P ->
  NoDup (map fst (map_to_list h)) /\
  sound (map fst (map_to_list h)) P (cache_at h) h /\
  (pending h (map fst (map_to_list h)) <= size h)%nat.
Proof.
  intros H.
  assert (forall o, o ∈ map fst (map_to_list h) <-> is_Some (h !! o)) as Hin.
  { intros o. rewrite list_elem_of_fmap. split.
    - intros ([o' y] & -> & Hoy). apply elem_of_map_to_list in Hoy. eauto.
    - intros [y Hy]. exists (o, y). split; [done|]. by apply elem_of_map_to_list. }
  split; [apply NoDup_fst_map_to_list|]. split.
  - split; [|split; [|split]].
    + intros o Ho. by apply Hin.
    + intros o e Ho He. apply Hin in Ho as [y Hy].
      unfold cache_at in He. rewrite Hy in He. cbn in He.
      destruct (H o y Hy) as [Hl _]. by apply (proj1 (Forall_forall _ _) Hl).
    + intros q y Hy. by destruct (H q y Hy) as [_ ?].
    + intros o y Hy _ _. unfold cache_at. by rewrite Hy.
  - etransitivity; [apply pending_le_length|].
    by rewrite length_map, length_map_to_list.
Qed.

(** The Router completes on the frames of a connection when the reference
    counts are sound, with fuel for as many destructions as there are
    contexts. *)
Lemma route_frames_total (sz : Z) (fuel : nat) (c : nat) (lo : Z)
    (frames : list (list byte)) (st : state) (x : fd_ctx) :
  st_heap st !! c = Some x ->
  decay_mode st = false ->
  well_formed_stream sz (faf_uid x =? -1) frames ->
  lo < 0 ->
  bounded (st_heap st) ->
  index_sorted (st_heap st) lo (peer_sockets st) ->
  cache_coherent (st_heap st) (peer_sockets st) x ->
  (faf_uid x = -1 -> (c ∉ peer_sockets st) /\ (c ∉ cache_entries x)) ->
  refs_sound (st_heap st) (c :: peer_sockets st) ->
  (size (st_heap st) + 2 <= fuel)%nat ->
  exists r,
    route_frames fuel c frames st = Ok r /\
    Forall (fun e => is_Some (st_heap r !! e)) (peer_sockets r).
Proof.
  intros Hx Hd Hwf Hlo Hb Hs Hc Hfresh Hrs Hfuel.
  destruct (refs_sound_sound _ _ Hrs) as (Hnd & Hsound & Hpend).
  set (L := map fst (map_to_list (st_heap st))) in *.
  set (P := c :: peer_sockets st) in *.
  assert (c ∈ P) as HcP by left.
  assert (cache_at (st_heap st) c = cache_entries x) as HE
    by (unfold cache_at; by rewrite Hx).
  destruct (faf_uid x =? -1) eqn:Eu.
  - apply Z.eqb_eq in Eu. destruct (Hfresh Eu) as [Hnot Hself].
    destruct frames as [|A Fs].
    { exists st. split; [done|]. apply Forall_forall. intros e He.
      by eapply index_sorted_live. }
    destruct Hwf as [HA HFs].
    pose proof (frame_uid_range sz A HA) as HU.
    assert (exists s1, route_frame fuel c A st = Ok s1) as [s1 H1].
    { unfold route_frame.
      rewrite (proj2 (deref_Ok _ _ _) Hx). cbn [mbind outcome_bind].
      rewrite (proj2 (Z.eqb_eq _ _) Eu). fold (frame_uid A).
      unfold peer_sockets_insert. cbn [st_heap with_heap peer_sockets].
      rewrite deref_insert_eq. cbn [mbind outcome_bind].
      destruct (set_insert_sorted (<[c := set_faf_uid (frame_uid A) x]> (st_heap st)) c
                  (set_faf_uid (frame_uid A) x) (peer_sockets st)
                  ltac:(by rewrite lookup_insert_eq) lo) as (s' & Hins & _).
      - apply (index_sorted_ext (st_heap st)); [|done].
        intros e He. rewrite lookup_insert_ne; [done|]. by intros ->.
      - cbn. lia.
      - cbn [faf_uid set_faf_uid] in Hins |- *. rewrite Hins. cbn. eauto. }
    destruct (route_frame_announce fuel c A st s1 x lo) as
      (Hh1 & Ht1 & Hd1 & Hb1 & Hs1 & Htab & Hc1); try done; [lia|].
    set (x1 := set_faf_uid (frame_uid A) x) in *.
    assert (st_heap s1 !! c = Some x1) as Hx1 by (rewrite Hh1; by rewrite lookup_insert_eq).
    assert (forall e, e ∈ peer_sockets s1 -> e ∈ P) as Hsub.
    { intros e He. unfold route_frame in H1.
      rewrite (proj2 (deref_Ok _ _ _) Hx) in H1. cbn [mbind outcome_bind] in H1.
      rewrite (proj2 (Z.eqb_eq _ _) Eu) in H1.
      unfold peer_sockets_insert in H1.
      apply bind_Ok in H1 as (? & _ & H1). apply bind_Ok in H1 as (s' & Hins & H1).
      injection H1 as <-. cbn in He.
      destruct (set_insert_elem _ _ _ _ _ _ Hins He) as [->|?]; [left|by right]. }
    destruct (sound_same_counts L P (cache_at (st_heap st)) (st_heap st) c x x1 Hx)
      as (Hsound1 & Hpend1); try done.
    rewrite <- Hh1 in Hsound1, Hpend1.
    destruct (route_frames_sound_messages L P fuel c lo Fs Hnd
                (cache_at (st_heap st)) s1 x1) as (r & Hr & Hl); try done.
    + cbn. lia.
    + by rewrite Hd1.
    + lia.
    + exists r. unfold route_frames in *. cbn [for_each]. rewrite H1.
      cbn [mbind outcome_bind]. split; [done|].
      destruct (route_frames_keeps fuel c Fs s1 r x1 Hr Hx1 ltac:(cbn; lia))
        as (_ & ->). done.
  - apply Z.eqb_neq in Eu.
    destruct (route_frames_sound_messages L P fuel c lo frames Hnd
                (cache_at (st_heap st)) st x) as (r & Hr & Hl); try done.
    + intros e He. by right.
    + lia.
    + exists r. split; [done|].
      by destruct (route_frames_keeps fuel c frames st r x Hr Hx Eu) as (_ & ->).
Qed.

(** C4.  Let well-formed frames arrive on a connection whose buffer is
    empty, outside decay, in whatever pieces [read] returns them.

    First: whenever the Router, taking the frames one by one, completes in
    a state [r], then after any number of readiness events the state is the
    one the Router reaches on the frames received completely so far, in
    order, and the bytes received beyond them lie compacted at the front of
    the buffer; once all bytes have arrived the buffer is empty and the
    state, trace of writes included, is [r], whatever the chunk boundaries.

    Second: what the Router writes is read off the frames.
    [expected_writes] lists, in the order of the frames, one write for
    every message whose destuid is held, to the descriptor of its holder,
    of the frame without the destuid field and with the size reduced by
    two; an announcement and a message to a uid nobody holds cause none.
    Let the UID index be sorted and the cache of the connection agree with
    it (the cache coherence of the specification).  Then the calls made for
    any number of leading frames are exactly these writes, as long as no
    indexed connection has been destroyed.

    Third: if moreover the reference counts are sound (every cache entry
    refers to a live context, and every context has a reference for each
    cache entry that refers to it, and one more while its descriptor is
    open), the Router does complete, whatever its evictions destroy, and so
    do the readiness events.  After any number of them the calls made are
    the writes due for the frames received completely so far, and the
    bytes beyond them lie compacted at the front of the buffer; once all
    bytes have arrived the calls made are the writes due for the whole
    sequence. *)
Theorem frame_boundary_law (sz : Z) (fuel : nat) (c : nat) (ks : list nat)
    (st : state) (x : fd_ctx) (frames : list (list byte)) :
  0 <= sz ->
  st_heap st !! c = Some x ->
  decay_mode st = false ->
  Z.of_nat (length (buf x)) = FDCTX_CLIENT_BUFSIZE sz ->
  buf_len x = 0 ->
  well_formed_stream sz (faf_uid x =? -1) frames ->
  (length frames < fuel)%nat ->
  (forall r, route_frames fuel c frames st = Ok r ->
     (exists j R bf rj und,
        deliver sz fuel c ks (concat frames) st = Ok (supd c bf (Z.of_nat (length R)) rj) /\
        route_frames fuel c (take j frames) st = Ok rj /\
        take (length R) bf = R /\
        concat (take j frames) ++ R ++ und = concat frames /\
        short_of R (drop j frames)) /\
     ((length (concat frames) <= length ks)%nat ->
      exists bf, deliver sz fuel c ks (concat frames) st = Ok (supd c bf 0 r))) /\
  (forall lo,
     lo < 0 ->
     bounded (st_heap st) ->
     index_sorted (st_heap st) lo (peer_sockets st) ->
     cache_coherent (st_heap st) (peer_sockets st) x ->
     (faf_uid x = -1 -> (c ∉ peer_sockets st) /\ (c ∉ cache_entries x)) ->
     (forall j rj,
        route_frames fuel c (take j frames) st = Ok rj ->
        Forall (fun e => is_Some (st_heap rj !! e)) (peer_sockets rj) ->
        trace rj = trace st ++ expected_writes st x (take j frames)) /\
     (refs_sound (st_heap st) (c :: peer_sockets st) ->
      (size (st_heap st) + 2 <= fuel)%nat ->
      exists r,
        route_frames fuel c frames st = Ok r /\
        trace r = trace st ++ expected_writes st x frames /\
        (exists j R bf rj und,
           deliver sz fuel c ks (concat frames) st =
             Ok (supd c bf (Z.of_nat (length R)) rj) /\
           trace rj = trace st ++ expected_writes st x (take j frames) /\
           take (length R) bf = R /\
           concat (take j frames) ++ R ++ und = concat frames /\
           short_of R (drop j frames)) /\
        ((length (concat frames) <= length ks)%nat ->
         exists bf, deliver sz fuel c ks (concat frames) st = Ok (supd c bf 0 r)))).
Proof.
  intros Hsz Hx Hd Hcap Hbl Hwf Hfuel.
  assert (forall r, route_frames fuel c frames st = Ok r ->
     (exists j R bf rj und,
        deliver sz fuel c ks (concat frames) st = Ok (supd c bf (Z.of_nat (length R)) rj) /\
        route_frames fuel c (take j frames) st = Ok rj /\
        take (length R) bf = R /\
        concat (take j frames) ++ R ++ und = concat frames /\
        short_of R (drop j frames)) /\
     ((length (concat frames) <= length ks)%nat ->
      exists bf, deliver sz fuel c ks (concat frames) st = Ok (supd c bf 0 r))) as HI.
  { intros r Hroute.
    destruct (deliver_frames_inv sz fuel c ks st r x [] (concat frames) frames Hsz)
      as (j & R & bf & rj & und & Hdel & Hrj & Hlbf & Htbf & Eund & Hsh & Hund); try done.
    { destruct frames as [|F Fs]; [done|]. simpl.
      destruct Hwf as [HF _]. apply well_formed_length in HF as (size & Hl & Hm & _).
      destruct (faf_uid x =? -1); lia. }
    split.
    - exists j, R, bf, rj, und. repeat split; try done.
      rewrite Eund, <- concat_app. by rewrite take_drop.
    - intros Hl. specialize (Hund Hl). subst und. rewrite app_nil_r in Eund.
      assert (drop j frames = [] /\ R = []) as [Edrop ->].
      { destruct (drop j frames) as [|F Fs] eqn:E; [done|].
        simpl in Hsh, Eund. apply (f_equal length) in Eund.
        rewrite length_app in Eund. lia. }
      assert (take j frames = frames) as Etake
        by (rewrite <- (take_drop j frames) at 2; rewrite Edrop; by rewrite app_nil_r).
      rewrite Etake, Hroute in Hrj. injection Hrj as <-.
      exists bf. exact Hdel. }
  split; [exact HI|].
  intros lo Hlo Hb Hs Hc Hfresh.
  assert (forall j rj,
            route_frames fuel c (take j frames) st = Ok rj ->
            Forall (fun e => is_Some (st_heap rj !! e)) (peer_sockets rj) ->
            trace rj = trace st ++ expected_writes st x (take j frames)) as HA.
  { intros j rj Hrj Hl.
    apply (route_frames_writes sz fuel c lo (take j frames) st rj x); try done.
    by apply well_formed_stream_take. }
  split; [exact HA|].
  intros Hw Hf2.
  destruct (route_frames_total sz fuel c lo frames st x) as (r & Hr & Hl); try done.
  exists r. split; [done|].
  destruct (HI r Hr) as ((j & R & bf & rj & und & Hdel & Hrj & Htbf & Ecat & Hsh) & Hfin).
  split; [|split; [|exact Hfin]].
  - pose proof (HA (length frames) r) as HA'. rewrite firstn_all in HA'. by apply HA'.
  - exists j, R, bf, rj, und. split; [done|]. split; [|done].
    apply HA; [done|].
    destruct (route_frames_total sz fuel c lo (take j frames) st x) as (rj' & Hrj' & Hl');
      try done.
    { by apply well_formed_stream_take. }
    rewrite Hrj in Hrj'. by injection Hrj' as <-.
Qed.

(** * The further properties on the concrete scenarios *)

Ltac live_entries := repeat constructor; vm_compute; eexists; reflexivity.
Ltac sorted_index :=
  cbn [index_sorted];
  repeat (eexists; split; [vm_compute; reflexivity|split; [vm_compute; reflexivity|]]);
  exact I.

Lemma cache_ok_three (p : nat) : (2 <= p <= 4)%nat -> cache_ok (ctx_of st_three_peers p).
Proof.
  intros Hp.
  assert (p = 2 \/ p = 3 \/ p = 4)%nat as [->|[->| ->]] by lia;
    (split; [vm_compute; lia|vm_compute; reflexivity]).
Qed.

Lemma find_first_match_witness :
  find (st_heap st_b_sent) (ctx_peers (ctx_of st_b_sent 2)) 42 = Ok None <->
  forall q y, q ∈ cache_entries (ctx_of st_b_sent 2) ->
              st_heap st_b_sent !! q = Some y -> faf_uid y <> 42.
Proof.
  apply (proj2 (find_first_match (st_heap st_b_sent) (ctx_of st_b_sent 2) 42
                  ltac:(split; [vm_compute; lia|vm_compute; reflexivity])
                  ltac:(assert (cache_entries (ctx_of st_b_sent 2) = [1%nat]) as ->
                          by (vm_compute; reflexivity); live_entries))).
Defined.

Lemma remove_first_occurrence_witness :
  exists x',
    x' = set_ctx_peers (ctx_peers x') (ctx_of st_b_self 2) /\
    cache_entries x' = delete 0%nat (cache_entries (ctx_of st_b_self 2)) /\
    cache_ok x' /\
    let y' := if decide (2%nat = 2%nat) then x' else ctx_of st_b_self 2 in
    remove (deallocate_fdctx 64) 2%nat 2%nat (st_heap st_b_self) =
      if refcount (ctx_of st_b_self 2) =? 1
      then deallocate_fdctx 64 2%nat
             (<[2%nat := set_refcount 0 y']> (<[2%nat := x']> (st_heap st_b_self)))
      else Ok (<[2%nat := set_refcount (refcount (ctx_of st_b_self 2) - 1) y']>
                 (<[2%nat := x']> (st_heap st_b_self))).
Proof.
  apply (proj2 (remove_first_occurrence (deallocate_fdctx 64) 2%nat 2%nat
                  (st_heap st_b_self) (ctx_of st_b_self 2)
                  ltac:(vm_compute; reflexivity)
                  ltac:(split; [vm_compute; lia|vm_compute; reflexivity]))).
  - vm_compute. reflexivity.
  - vm_compute. reflexivity.
Defined.

Lemma add_then_find_witness :
  exists x' y',
    h_three_added !! 3%nat = Some x' /\
    h_three_added !! 4%nat = Some y' /\
    faf_uid y' = faf_uid (ctx_of st_three_peers 4) /\
    find h_three_added (ctx_peers x') (faf_uid (ctx_of st_three_peers 4)) = Ok (Some 4%nat).
Proof.
  apply (add_then_find 65 3%nat 4%nat (st_heap st_three_peers) h_three_added
           (ctx_of st_three_peers 3) (ctx_of st_three_peers 4)).
  - vm_compute. reflexivity.
  - vm_compute. reflexivity.
  - apply cache_ok_three. lia.
  - vm_compute. reflexivity.
Defined.

Lemma add_then_remove_witness :
  exists h1 x2,
    add (S 64) 2%nat 2%nat (st_heap st_b_announced) = Ok h1 /\
    remove (deallocate_fdctx 64) 2%nat 2%nat h1 = Ok (<[2%nat := x2]> (st_heap st_b_announced)) /\
    x2 = set_ctx_peers (ctx_peers x2) (ctx_of st_b_announced 2) /\
    cache_entries x2 = cache_entries (ctx_of st_b_announced 2) /\
    cache_ok x2.
Proof.
  apply (add_then_remove (deallocate_fdctx 64) 64 2%nat 2%nat (st_heap st_b_announced)
           (ctx_of st_b_announced 2) (ctx_of st_b_announced 2)).
  - vm_compute. reflexivity.
  - vm_compute. reflexivity.
  - split; [vm_compute; lia|vm_compute; reflexivity].
  - vm_compute. lia.
  - vm_compute. discriminate.
Defined.

Lemma index_find_iff_witness :
  peer_sockets_find 42 st_three_peers = Ok (Some 2%nat) <->
  2%nat ∈ peer_sockets st_three_peers /\
  exists x, st_heap st_three_peers !! 2%nat = Some x /\ faf_uid x = 42.
Proof.
  apply (index_find_iff st_three_peers (-2) 42 2%nat).
  assert (peer_sockets st_three_peers = [3%nat; 2%nat]) as -> by (vm_compute; reflexivity).
  sorted_index.
Defined.

Lemma index_insert_lookup_witness :
  exists st',
    peer_sockets_insert 4%nat st_three_peers = Ok st' /\
    st' = with_peer_sockets (peer_sockets st') st_three_peers /\
    index_sorted (st_heap st') (-2) (peer_sockets st') /\
    forall key,
      peer_sockets_find key st' =
        if decide (key = faf_uid (ctx_of st_three_peers 4)) then
          match peer_sockets_find key st_three_peers with
          | Ok None => Ok (Some 4%nat)
          | r => r
          end
        else peer_sockets_find key st_three_peers.
Proof.
  apply (index_insert_lookup 4%nat (ctx_of st_three_peers 4) (-2) st_three_peers).
  - vm_compute. reflexivity.
  - assert (peer_sockets st_three_peers = [3%nat; 2%nat]) as -> by (vm_compute; reflexivity).
    sorted_index.
  - vm_compute. reflexivity.
Defined.

Lemma index_erase_lookup_witness :
  (faf_uid (ctx_of st_three_peers 4) = -1 ->
   erase_if_identified 4%nat st_three_peers = Ok st_three_peers) /\
  (faf_uid (ctx_of st_three_peers 4) <> -1 ->
   exists st',
     erase_if_identified 4%nat st_three_peers = Ok st' /\
     st' = with_peer_sockets (peer_sockets st') st_three_peers /\
     index_sorted (st_heap st') (-2) (peer_sockets st') /\
     forall key,
       peer_sockets_find key st' =
         if decide (key = faf_uid (ctx_of st_three_peers 4)) then Ok None
         else peer_sockets_find key st_three_peers).
Proof.
  apply (index_erase_lookup 4%nat (ctx_of st_three_peers 4) (-2) st_three_peers).
  - vm_compute. reflexivity.
  - assert (peer_sockets st_three_peers = [3%nat; 2%nat]) as -> by (vm_compute; reflexivity).
    sorted_index.
Defined.

Lemma send_fds_hands_over_idle_witness :
  exists st',
    send_fds true [3%nat; 2%nat] true st_three_ctrl =
      Ok (length (scan_fds (st_heap st_three_ctrl) [3%nat; 2%nat]), st') /\
    st_heap st' = st_heap st_three_ctrl /\
    peer_sockets st' = scan_kept (st_heap st_three_ctrl) [3%nat; 2%nat] /\
    total_sockets st' =
      total_sockets st_three_ctrl -
      Z.of_nat (length (scan_fds (st_heap st_three_ctrl) [3%nat; 2%nat])) /\
    trace st' =
      trace st_three_ctrl ++
      match scan_fds (st_heap st_three_ctrl) [3%nat; 2%nat] with
      | [] => []
      | _ :: _ =>
          sys_sendmsg (ctrl_socket_conn_fd st_three_ctrl)
            (take (length (scan_fds (st_heap st_three_ctrl) [3%nat; 2%nat]))
               (scan_uids (st_heap st_three_ctrl) [3%nat; 2%nat]))
            (scan_fds (st_heap st_three_ctrl) [3%nat; 2%nat]) ::
          flat_map (fun f => [sys_epoll_del f; sys_close f])
            (scan_fds (st_heap st_three_ctrl) [3%nat; 2%nat])
      end.
Proof.
  apply (send_fds_hands_over_idle true true [3%nat; 2%nat] st_three_ctrl).
  - live_entries.
  - vm_compute. lia.
Defined.

Lemma decaying_idle_connection_is_shipped_witness :
  peer_event sizeof_fd_ctx_lp64 64 3%nat (rd_data []) true st_decay_unsent =
    erase_if_identified 3%nat
      (emit [sys_epoll_del (fd (ctx_of st_decay_unsent 3));
             sys_close (fd (ctx_of st_decay_unsent 3))]
         (with_total_sockets (total_sockets st_decay_unsent - 1)
            (emit [sys_sendmsg (ctrl_socket_conn_fd st_decay_unsent)
                     [Some (faf_uid (ctx_of st_decay_unsent 3))]
                     [fd (ctx_of st_decay_unsent 3)]] st_decay_unsent))).
Proof.
  apply (decaying_idle_connection_is_shipped sizeof_fd_ctx_lp64 64 3%nat (rd_data []) true
           st_decay_unsent (ctx_of st_decay_unsent 3)).
  - vm_compute. reflexivity.
  - reflexivity.
  - reflexivity.
Defined.

Lemma close_connection_accounting_witness :
  total_sockets st_a_closed = total_sockets st_b_sent - 1 /\
  trace st_a_closed = trace st_b_sent ++ [] ++ [sys_close (fd (ctx_of st_b_sent 1))] /\
  (st_heap st_a_closed !! 1%nat = None \/
   exists x', st_heap st_a_closed !! 1%nat = Some x' /\ faf_uid x' = -1).
Proof.
  apply (close_connection_accounting 64 false 1%nat st_b_sent st_a_closed
           (ctx_of st_b_sent 1)).
  - vm_compute. reflexivity.
  - vm_compute. reflexivity.
Defined.

Lemma full_buffer_closes_witness :
  peer_event sizeof_fd_ctx_lp64 64 1%nat (rd_data (bytes [1; 2; 3])) true st_full =
  close_connection 64 false 1%nat st_full.
Proof.
  apply (full_buffer_closes sizeof_fd_ctx_lp64 64 1%nat (bytes [1; 2; 3]) true st_full
           (ctx_of st_full 1)).
  - vm_compute. reflexivity.
  - vm_compute. reflexivity.
  - vm_compute. reflexivity.
Defined.

Lemma unknown_destination_is_dropped_witness :
  exists bf,
    peer_event sizeof_fd_ctx_lp64 64 2%nat
      (rd_data (htonl 8 ++ htons 4660 ++ htons 99 ++ bytes [222; 173; 190; 239]))
      true st_b_announced = Ok (supd 2%nat bf 0 st_b_announced) /\
    length bf = length (buf (ctx_of st_b_announced 2)).
Proof.
  apply (unknown_destination_is_dropped sizeof_fd_ctx_lp64 64 2%nat st_b_announced
           (ctx_of st_b_announced 2) 8 4660 99 (bytes [222; 173; 190; 239]) true).
  - vm_compute. discriminate.
  - vm_compute. reflexivity.
  - reflexivity.
  - vm_compute. discriminate.
  - reflexivity.
  - vm_compute. reflexivity.
  - reflexivity.
  - vm_compute. discriminate.
  - lia.
  - vm_compute. reflexivity.
  - vm_compute. reflexivity.
  - lia.
Defined.

Lemma loop_exits_when_no_socket_is_left_witness :
  (exists its1 its2 st0,
     its_decay_exit = its1 ++ its2 /\
     for_each (fun s it => loop_iteration sizeof_fd_ctx_lp64 64 it s) st_three_ctrl its1 =
       Ok st0 /\
     (forall k s, (k < length its1)%nat ->
        for_each (fun s it => loop_iteration sizeof_fd_ctx_lp64 64 it s) st_three_ctrl
          (take k its1) = Ok s ->
        total_sockets s <> 0) /\
     total_sockets st0 = 0 /\
     st_decay_exit =
       (if decay_mode st0 && ctrl_socket_path st0 then
          emit [sys_close (ctrl_socket_fd st0); sys_unlink;
                sys_write_ctrl (ctrl_socket_conn_fd st0) str_exit] st0
        else st0)) /\
  decay_mode st_decay_exit && ctrl_socket_path st_decay_exit = true /\
  drop 23 (trace st_decay_exit) = [sys_close 4; sys_unlink; sys_write_ctrl 20 str_exit].
Proof.
  split.
  - apply (loop_exits_when_no_socket_is_left sizeof_fd_ctx_lp64 64 its_decay_exit
             st_three_ctrl st_decay_exit).
    vm_compute. reflexivity.
  - split; vm_compute; reflexivity.
Defined.

Lemma startup_one_listener_per_address_witness :
  exists ais,
    se_getaddrinfo env_listening = Some ais /\
    0 <= se_epoll_create env_listening /\
    Forall address_ok ais /\
    Forall2 (listens_on (st_heap st_started)) (server_sockets st_started) ais /\
    total_sockets st_started = Z.of_nat (length ais) /\
    peer_sockets st_started = [] /\
    decay_mode st_started = false.
Proof.
  apply (startup_one_listener_per_address sizeof_fd_ctx_lp64 env_listening st_started).
  vm_compute. reflexivity.
Defined.

Lemma close_servers_closes_each_listener_witness :
  close_servers st_started =
    Ok (with_total_sockets
          (total_sockets st_started - Z.of_nat (length (server_sockets st_started)))
          (emit (flat_map (close_calls (st_heap st_started)) (server_sockets st_started))
             st_started)) /\
  (st' ← close_servers st_started; close_servers st') =
    Ok (with_total_sockets
          (total_sockets st_started - 2 * Z.of_nat (length (server_sockets st_started)))
          (emit (flat_map (close_calls (st_heap st_started)) (server_sockets st_started) ++
                 flat_map (close_calls (st_heap st_started)) (server_sockets st_started))
             st_started)).
Proof.
  apply (close_servers_closes_each_listener st_started).
  assert (server_sockets st_started = [1%nat]) as -> by (vm_compute; reflexivity).
  live_entries.
Defined.

Lemma inherited_socket_is_indexed_witness :
  inherit_socket sizeof_fd_ctx_lp64 (S 64) false [] 9 30 st_three_peers = Fault /\
  exists st',
    inherit_socket sizeof_fd_ctx_lp64 64 true [] 9 30 st_three_peers = Ok st' /\
    st_heap st' =
      <[allocate_fdctx (st_heap st_three_peers) :=
          new_fd_ctx (FDCTX_CLIENT_BUFSIZE sizeof_fd_ctx_lp64) [] false IPPROTO_TCP 9 30]>
        (st_heap st_three_peers) /\
    total_sockets st' = total_sockets st_three_peers + 1 /\
    sockets_inherited st' = sockets_inherited st_three_peers + 1 /\
    trace st' = trace st_three_peers ++ [sys_epoll_add 30] /\
    index_sorted (st_heap st') (-2) (peer_sockets st') /\
    forall key,
      peer_sockets_find key st' =
        if decide (key = 9 /\ 9 <> -1) then
          match peer_sockets_find key st_three_peers with
          | Ok None => Ok (Some (allocate_fdctx (st_heap st_three_peers)))
          | r => r
          end
        else peer_sockets_find key st_three_peers.
Proof.
  apply (inherited_socket_is_indexed sizeof_fd_ctx_lp64 64 [] 9 30 (-2) st_three_peers).
  - assert (peer_sockets st_three_peers = [3%nat; 2%nat]) as -> by (vm_compute; reflexivity).
    sorted_index.
  - intros _. lia.
Defined.

Lemma lookup_peer_caches_result_witness :
  lookup_peer 64 2%nat 42 st_b_looked_up = Ok (Some 1%nat, st_b_looked_up) /\
  exists x1, st_heap st_b_looked_up !! 2%nat = Some x1 /\
             find (st_heap st_b_looked_up) (ctx_peers x1) 42 = Ok (Some 1%nat).
Proof.
  apply (lookup_peer_caches_result 64 2%nat 42 st_b_buffered st_b_looked_up 1%nat
           (ctx_of st_b_buffered 2)).
  - vm_compute. reflexivity.
  - split; [vm_compute; lia|vm_compute; reflexivity].
  - vm_compute. reflexivity.
Defined.

Lemma destroy_releases_each_cached_peer_witness :
  exists h',
    deallocate_fdctx (S 64) 3%nat (st_heap st_three_peers) = Ok h' /\
    h' !! 3%nat = None /\
    (forall q y, q ∈ cache_entries (ctx_of st_three_peers 3) ->
                 st_heap st_three_peers !! q = Some y ->
                 h' !! q = Some (set_refcount (refcount y - 1) y)) /\
    (forall q, q <> 3%nat -> q ∉ cache_entries (ctx_of st_three_peers 3) ->
               h' !! q = st_heap st_three_peers !! q).
Proof.
  assert (cache_entries (ctx_of st_three_peers 3) = [2%nat]) as E
    by (vm_compute; reflexivity).
  apply (destroy_releases_each_cached_peer 64 3%nat (st_heap st_three_peers)
           (ctx_of st_three_peers 3)).
  - vm_compute. reflexivity.
  - apply cache_ok_three. lia.
  - rewrite E. apply NoDup_singleton.
  - rewrite E. intros H. apply list_elem_of_singleton in H. lia.
  - rewrite E. repeat constructor. eexists. split; [vm_compute; reflexivity|].
    vm_compute. discriminate.
Defined.

Lemma cleanup_dangling_without_tombstones_witness :
  cleanup_dangling (deallocate_fdctx 64) 3%nat (st_heap st_three_peers) =
  Ok (st_heap st_three_peers).
Proof.
  apply (cleanup_dangling_without_tombstones (deallocate_fdctx 64) 3%nat
           (st_heap st_three_peers) (ctx_of st_three_peers 3)).
  - vm_compute. reflexivity.
  - apply cache_ok_three. lia.
  - assert (cache_entries (ctx_of st_three_peers 3) = [2%nat]) as ->
      by (vm_compute; reflexivity).
    repeat constructor. eexists. split; [vm_compute; reflexivity|].
    vm_compute. discriminate.
Defined.

Lemma bounded_mutual : bounded (st_heap st_mutual).
Proof.
  apply (main_loop_bounded sizeof_fd_ctx_lp64 64 its_mutual st_started
           st_mutual false); [vm_compute; reflexivity|].
  apply (startup_bounded sizeof_fd_ctx_lp64 env_listening). vm_compute. reflexivity.
Qed.

Lemma remove_myself_only_from_cached_peers_witness :
  (exists h',
     remove_myself_from_peer_caches 64 3%nat (st_heap st_mutual) = Ok h' /\
     retired 3%nat (visited 3%nat (cache_entries (ctx_of st_mutual 3)))
       (st_heap st_mutual) h') /\
  cache_entries (ctx_of st_mutual 3) = [3%nat; 2%nat] /\
  cache_at (st_heap st_mutual) 2%nat = [3%nat] /\
  visited 3%nat (cache_entries (ctx_of st_mutual 3)) = [3%nat] /\
  cache_at h_retired 3%nat = [2%nat] /\
  cache_at h_retired 2%nat = [3%nat] /\
  refcount (ctx_of st_mutual 3) = 3 /\
  refcount <$> h_retired !! 3%nat = Some 2.
Proof.
  split.
  - apply (proj2 (remove_myself_only_from_cached_peers 64 3%nat (st_heap st_mutual)
                    (ctx_of st_mutual 3) ltac:(vm_compute; reflexivity)
                    ltac:(apply bounded_mutual))).
    + assert (cache_entries (ctx_of st_mutual 3) = [3%nat; 2%nat]) as ->
        by (vm_compute; reflexivity).
      apply NoDup_cons. split; [by intros ?%list_elem_of_singleton|].
      apply NoDup_singleton.
    + assert (cache_entries (ctx_of st_mutual 3) = [3%nat; 2%nat]) as ->
        by (vm_compute; reflexivity).
      repeat constructor; vm_compute; eauto.
    + vm_compute. reflexivity.
  - repeat match goal with |- _ /\ _ => split end; vm_compute; reflexivity.
Defined.

Lemma unlisten_hands_over_idle_peers_witness :
  exists st',
    ctrl_command_event ev_unlisten st_three_ctrl = Ok (st', true) /\
    decay_mode st' = true /\
    st_heap st' = st_heap st_three_ctrl /\
    peer_sockets st' = scan_kept (st_heap st_three_ctrl) (peer_sockets st_three_ctrl) /\
    total_sockets st' =
      total_sockets st_three_ctrl - Z.of_nat (length (server_sockets st_three_ctrl))
      - (if ev_sendmsg_ok ev_unlisten 0%nat
         then Z.of_nat (length (scan_fds (st_heap st_three_ctrl) (peer_sockets st_three_ctrl)))
         else 0) /\
    trace st' =
      trace st_three_ctrl ++
      flat_map (close_calls (st_heap st_three_ctrl)) (server_sockets st_three_ctrl) ++
      [sys_write_ctrl (ctrl_socket_conn_fd st_three_ctrl) str_unlistening] ++
      match scan_fds (st_heap st_three_ctrl) (peer_sockets st_three_ctrl) with
      | [] => []
      | _ :: _ =>
          sys_sendmsg (ctrl_socket_conn_fd st_three_ctrl)
            (take (length (scan_fds (st_heap st_three_ctrl) (peer_sockets st_three_ctrl)))
               (scan_uids (st_heap st_three_ctrl) (peer_sockets st_three_ctrl)))
            (scan_fds (st_heap st_three_ctrl) (peer_sockets st_three_ctrl)) ::
          (if ev_sendmsg_ok ev_unlisten 0%nat
           then flat_map (fun f => [sys_epoll_del f; sys_close f])
                  (scan_fds (st_heap st_three_ctrl) (peer_sockets st_three_ctrl))
           else [])
      end.
Proof.
  apply (unlisten_hands_over_idle_peers ev_unlisten st_three_ctrl []).
  - reflexivity.
  - reflexivity.
  - assert (server_sockets st_three_ctrl = [1%nat]) as -> by (vm_compute; reflexivity).
    live_entries.
  - assert (peer_sockets st_three_ctrl = [3%nat; 2%nat]) as -> by (vm_compute; reflexivity).
    live_entries.
  - vm_compute. lia.
Defined.

Lemma size_fffffffc_spins_witness :
  peer_event sizeof_fd_ctx_lp64 64 2%nat
    (rd_data (htonl 4294967292 ++ htons 4660 ++ htons 99)) true st_b_announced = OutOfFuel.
Proof.
  apply (size_fffffffc_spins sizeof_fd_ctx_lp64 64 2%nat st_b_announced
           (ctx_of st_b_announced 2) 4660 99 true).
  - vm_compute. discriminate.
  - vm_compute. discriminate.
  - vm_compute. reflexivity.
  - reflexivity.
  - vm_compute. discriminate.
  - reflexivity.
  - vm_compute. reflexivity.
  - lia.
  - vm_compute. reflexivity.
  - vm_compute. reflexivity.
Defined.

(** ** C4: an announcement and three messages in pieces of three bytes *)

Lemma bounded_a_announced : bounded (st_heap st_a_announced).
Proof.
  apply (peer_event_bounded sizeof_fd_ctx_lp64 64 1%nat (rd_data announce_42) true
           st_two_fresh st_a_announced); [vm_compute; reflexivity|].
  apply bounded_insert; [split; [vm_compute; lia|vm_compute; reflexivity]|].
  apply bounded_insert; [split; [vm_compute; lia|vm_compute; reflexivity]|].
  apply map_Forall_empty.
Qed.

Lemma frame_boundary_law_witness :
  exists r,
    route_frames 64 2%nat frames_of_b st_a_announced = Ok r /\
    trace r =
      trace st_a_announced ++
      [sys_write_peer 10 (bytes [0; 0; 0; 6; 18; 52; 222; 173; 190; 239]);
       sys_write_peer 11 (bytes [0; 0; 0; 6; 18; 52; 222; 173; 190; 239])] /\
    exists bf,
      deliver sizeof_fd_ctx_lp64 64 2%nat (replicate 42 3%nat) (concat frames_of_b)
        st_a_announced = Ok (supd 2%nat bf 0 r).
Proof.
  destruct (proj2 (frame_boundary_law sizeof_fd_ctx_lp64 64 2%nat (replicate 42 3%nat)
                     st_a_announced (ctx_of st_a_announced 2) frames_of_b
                     ltac:(vm_compute; discriminate)
                     ltac:(vm_compute; reflexivity)
                     ltac:(reflexivity)
                     ltac:(vm_compute; reflexivity)
                     ltac:(reflexivity)
                     ltac:(split;
                           [exists 2, (bytes [0; 7]);
                            conjuncts; try reflexivity; vm_compute; discriminate|];
                           repeat constructor;
                           [exists 8, (bytes [18; 52; 0; 42; 222; 173; 190; 239])
                           |exists 8, (bytes [18; 52; 0; 9; 1; 2; 3; 4])
                           |exists 8, (bytes [18; 52; 0; 7; 222; 173; 190; 239])];
                           conjuncts; try reflexivity; vm_compute; discriminate)
                     ltac:(simpl; lia))
              (-1) ltac:(lia) bounded_a_announced) as [_ HB].
  - assert (peer_sockets st_a_announced = [1%nat]) as -> by (vm_compute; reflexivity).
    eexists. split; [vm_compute; reflexivity|]. split; [vm_compute; reflexivity|]. done.
  - assert (cache_entries (ctx_of st_a_announced 2) = []) as Ec by (vm_compute; reflexivity).
    unfold cache_coherent. rewrite Ec. constructor.
  - intros _. split.
    + assert (peer_sockets st_a_announced = [1%nat]) as -> by (vm_compute; reflexivity).
      intros H%list_elem_of_singleton. discriminate.
    + assert (cache_entries (ctx_of st_a_announced 2) = []) as -> by (vm_compute; reflexivity).
      by intros ?%elem_of_nil.
  - destruct HB as (r & Hr & Ht & _ & Hfin).
    + apply (bool_decide_unpack _). vm_compute. reflexivity.
    + vm_compute. lia.
    + exists r. split; [exact Hr|]. split.
      * rewrite Ht. apply (f_equal (app (trace st_a_announced))).
        vm_compute. reflexivity.
      * apply Hfin. rewrite length_replicate. cbn. lia.
Defined.
